(** * libbpf object loader: a shallow embedding of tools/lib/bpf/libbpf.c

    The development follows the C file function by function.  Machine
    integers are [Z] with the wrap-around written out, arrays are lists
    read and written by index, possibly-NULL pointers are [option], and
    every interaction with the outside (the kernel, the C library's
    allocator, descriptors) is a call answered by an oracle and recorded
    in a trace.  Undefined behaviour of the C program (a read outside an
    array, a NULL dereference, a division by zero) is the [None] of the
    monad. *)

From Stdlib Require Import ZArith Lia.
From Stdlib.Strings Require Import Byte.
From stdpp Require Import base tactics option list strings sorting.

Local Open Scope Z_scope.

(** ** Machine integers *)

Definition wrap_unsigned (w x : Z) : Z := x mod 2 ^ w.
Definition wrap_signed (w x : Z) : Z := (x + 2 ^ (w - 1)) mod 2 ^ w - 2 ^ (w - 1).

Definition to_int (x : Z) : Z := wrap_signed 32 x.
Definition to_u32 (x : Z) : Z := wrap_unsigned 32 x.
Definition to_size_t (x : Z) : Z := wrap_unsigned 64 x.

Definition INT_MAX : Z := 2 ^ 31 - 1.

(** ** Error numbers

    Modelled from the spec: the error kinds of its section 7.  The
    [enum libbpf_errno] of libbpf.h and the bound [MAX_ERRNO] of
    linux/err.h are not under src/; the numbers are those of the two
    headers (the enum starts at 4000), the errno values those of the
    host. *)

Definition ENOENT : Z := 2.
Definition ENOMEM : Z := 12.
Definition EINVAL : Z := 22.

Definition LIBBPF_ERRNO__START : Z := 4000.
Definition LIBBPF_ERRNO__LIBELF : Z := LIBBPF_ERRNO__START.
Definition LIBBPF_ERRNO__FORMAT : Z := LIBBPF_ERRNO__START + 1.
Definition LIBBPF_ERRNO__KVERSION : Z := LIBBPF_ERRNO__START + 2.
Definition LIBBPF_ERRNO__ENDIAN : Z := LIBBPF_ERRNO__START + 3.
Definition LIBBPF_ERRNO__INTERNAL : Z := LIBBPF_ERRNO__START + 4.
Definition LIBBPF_ERRNO__RELOC : Z := LIBBPF_ERRNO__START + 5.
Definition LIBBPF_ERRNO__LOAD : Z := LIBBPF_ERRNO__START + 6.
Definition LIBBPF_ERRNO__VERIFY : Z := LIBBPF_ERRNO__START + 7.
Definition LIBBPF_ERRNO__PROG2BIG : Z := LIBBPF_ERRNO__START + 8.
Definition LIBBPF_ERRNO__KVER : Z := LIBBPF_ERRNO__START + 9.
Definition LIBBPF_ERRNO__PROGTYPE : Z := LIBBPF_ERRNO__START + 10.

Definition MAX_ERRNO : Z := 4095.

(** ** Instructions, relocations, programs, maps *)

(** Modelled from the spec: the instruction record and the opcode and
    pseudo-register constants of linux/bpf.h and linux/bpf_common.h,
    which are not under src/; [BPF_MAXINSNS] is the kernel's hard
    maximum of 4096 instructions. *)
Record bpf_insn := mk_insn {
  code : Z;
  dst_reg : Z;
  src_reg : Z;
  off : Z;
  imm : Z
}.

Definition BPF_LD : Z := 0.
Definition BPF_JMP : Z := 5.
Definition BPF_IMM : Z := 0.
Definition BPF_DW : Z := 24.
Definition BPF_CALL : Z := 128.
Definition BPF_PSEUDO_MAP_FD : Z := 1.
Definition BPF_PSEUDO_CALL : Z := 1.
Definition BPF_MAXINSNS : Z := 4096.

Definition set_src_reg (i : bpf_insn) (v : Z) : bpf_insn :=
  mk_insn (code i) (dst_reg i) v (off i) (imm i).
Definition set_imm (i : bpf_insn) (v : Z) : bpf_insn :=
  mk_insn (code i) (dst_reg i) (src_reg i) (off i) v.

(** Modelled from the spec: the program kinds of its section 4.8, the
    [enum bpf_prog_type] of linux/bpf.h. *)
Inductive bpf_prog_type :=
  | BPF_PROG_TYPE_UNSPEC | BPF_PROG_TYPE_SOCKET_FILTER | BPF_PROG_TYPE_KPROBE
  | BPF_PROG_TYPE_SCHED_CLS | BPF_PROG_TYPE_SCHED_ACT | BPF_PROG_TYPE_TRACEPOINT
  | BPF_PROG_TYPE_XDP | BPF_PROG_TYPE_PERF_EVENT | BPF_PROG_TYPE_CGROUP_SKB
  | BPF_PROG_TYPE_CGROUP_SOCK | BPF_PROG_TYPE_LWT_IN | BPF_PROG_TYPE_LWT_OUT
  | BPF_PROG_TYPE_LWT_XMIT | BPF_PROG_TYPE_SOCK_OPS | BPF_PROG_TYPE_SK_SKB
  | BPF_PROG_TYPE_CGROUP_DEVICE | BPF_PROG_TYPE_SK_MSG | BPF_PROG_TYPE_RAW_TRACEPOINT
  | BPF_PROG_TYPE_CGROUP_SOCK_ADDR | BPF_PROG_TYPE_LWT_SEG6LOCAL
  | BPF_PROG_TYPE_LIRC_MODE2.

Global Instance bpf_prog_type_eq_dec : EqDecision bpf_prog_type.
Proof. solve_decision. Defined.

Inductive reloc_type := RELO_LD64 | RELO_CALL.

Global Instance reloc_type_eq_dec : EqDecision reloc_type.
Proof. solve_decision. Defined.

(** [struct reloc_desc]; [relo_arg] is the union of [map_idx] and
    [text_off]. *)
Record reloc_desc := mk_reloc {
  relo_type : reloc_type;
  insn_idx : Z;
  relo_arg : Z
}.

Definition map_idx (r : reloc_desc) : Z := relo_arg r.
Definition text_off (r : reloc_desc) : Z := relo_arg r.

(** [struct bpf_prog_prep_result]: what a preprocessor hands back. *)
Record bpf_prog_prep_result := mk_prep_result {
  new_insn_ptr : option (list bpf_insn);
  new_insn_cnt : Z;
  pfd : bool
}.

(** [struct bpf_program].  [instances_nr], [instances_fds] are the two
    fields of the [instances] member; the preprocessor callback is a
    function of the instance number and the instructions. *)
Record bpf_program := mk_prog {
  idx : Z;
  name : option string;
  prog_ifindex : Z;
  section_name : option string;
  insns : option (list bpf_insn);
  insns_cnt : Z;
  main_prog_cnt : Z;
  type : bpf_prog_type;
  relocs : option (list reloc_desc);
  nr_reloc : Z;
  instances_nr : Z;
  instances_fds : option (list Z);
  preprocessor : option (Z -> option (list bpf_insn) -> Z -> Z * bpf_prog_prep_result);
  expected_attach_type : Z
}.

(** Modelled from the spec: the fixed definition record of a map
    {kind, key-byte-size, value-byte-size, capacity, flags}, the
    [struct bpf_map_def] of libbpf.h: five unsigned ints, twenty bytes. *)
Record bpf_map_def := mk_def {
  def_type : Z;
  key_size : Z;
  value_size : Z;
  max_entries : Z;
  map_flags : Z
}.

Definition sizeof_bpf_map_def : Z := 20.
Definition sizeof_bpf_insn : Z := 8.
Definition sizeof_GElf_Sym : Z := 24.

(** [struct bpf_map]. *)
Record bpf_map := mk_map {
  fd : Z;
  map_name : option string;
  offset : Z;
  map_ifindex : Z;
  def : bpf_map_def;
  btf_key_type_id : Z;
  btf_value_type_id : Z
}.

Definition set_fd (m : bpf_map) (v : Z) : bpf_map :=
  mk_map v (map_name m) (offset m) (map_ifindex m) (def m)
         (btf_key_type_id m) (btf_value_type_id m).

(** Modelled from the spec: what the kernel reports of a descriptor,
    the part of [struct bpf_map_info] (linux/bpf.h) that the loader
    reads. *)
Record bpf_map_info := mk_info {
  info_name : string;
  info_type : Z;
  info_key_size : Z;
  info_value_size : Z;
  info_max_entries : Z;
  info_map_flags : Z;
  info_btf_key_type_id : Z;
  info_btf_value_type_id : Z
}.

(** Modelled from the spec: the creation request and the load request
    of its sections 4.5 and 4.6, [struct bpf_create_map_attr] and
    [struct bpf_load_program_attr] of bpf.h. *)
Record bpf_create_map_attr := mk_create_attr {
  ca_name : option string;
  ca_map_type : Z;
  ca_map_flags : Z;
  ca_key_size : Z;
  ca_value_size : Z;
  ca_max_entries : Z;
  ca_btf_fd : Z;
  ca_btf_key_type_id : Z;
  ca_btf_value_type_id : Z;
  ca_map_ifindex : Z
}.

Record bpf_load_program_attr := mk_load_attr {
  la_prog_type : bpf_prog_type;
  la_expected_attach_type : Z;
  la_name : option string;
  la_insns : option (list bpf_insn);
  la_insns_cnt : Z;
  la_license : list byte;
  la_kern_version : Z;
  la_prog_ifindex : Z
}.

(** ** The outside world

    Every call that leaves the library is a [call]; its result is an
    [answer].  The world answers through an oracle that sees the whole
    history, so any deterministic kernel and allocator is an instance.
    The trace lists the calls made, most recent first.

    [PrWarning] is [pr_warning], the print callback: it is recorded
    where the error number is read after it, since printing may change
    [errno]; elsewhere a warning has no bearing on what the function
    does. *)

Inductive call :=
  | Alloc
  | Close (fd : Z)
  | OpenRoot
  | Dup3 (oldfd newfd : Z)
  | ObjGetInfoByFd (fd : Z)
  | CreateMapXattr (attr : bpf_create_map_attr)
  | LoadProgramXattr (attr : bpf_load_program_attr) (with_log : bool)
  | StorePfd (instance fd : Z)
  | OpenFile (path : string)
  | PrWarning.

Record answer := mk_answer {
  a_ret : Z;
  a_errno : option Z;
  a_info : bpf_map_info;
  a_log : string
}.

Record world := mk_world {
  oracle : list (call * answer) -> call -> answer;
  trace : list (call * answer);
  errno : Z
}.

Definition M (A : Type) : Type := world -> option (A * world).

Definition ret {A} (a : A) : M A := fun w => Some (a, w).
Definition bind {A B} (c : M A) (k : A -> M B) : M B :=
  fun w => match c w with
           | Some (a, w') => k a w'
           | None => None
           end.
Definition trap {A} : M A := fun _ => None.

Notation "'let*' x := c 'in' k" := (bind c (fun x => k))
  (at level 10, x name, c at level 100, k at level 200, only parsing).
Notation "'let*' ' pat := c 'in' k" := (bind c (fun x => match x with pat => k end))
  (at level 10, pat pattern, c at level 100, k at level 200, only parsing).

Definition reply (w : world) (c : call) : answer := oracle w (trace w) c.

Definition record (w : world) (c : call) : world :=
  mk_world (oracle w) ((c, reply w c) :: trace w)
           (match a_errno (reply w c) with Some e => e | None => errno w end).

Definition sys (c : call) : M answer := fun w => Some (reply w c, record w c).

Global Arguments reply : simpl never.
Global Arguments record : simpl never.

Definition get_errno : M Z := fun w => Some (errno w, w).

(** malloc, calloc, strdup, reallocarray: [true] when the allocation
    succeeds. *)
Definition alloc : M bool := let* a := sys Alloc in ret (negb (a_ret a =? 0)).

Definition close (fd : Z) : M Z := let* a := sys (Close fd) in ret (a_ret a).

(** The [zclose] macro: close a non-negative descriptor, and set the
    variable to -1 in every case.  Returns close's result and the new
    value of the variable. *)
Definition zclose (fd : Z) : M (Z * Z) :=
  let* err := (if 0 <=? fd then close fd else ret 0) in
  ret (err, -1).

(** ** bpf_map__reuse_fd *)



(** ** The object file as libelf presents it

    libelf is outside the library.  A section carries its header and its
    data; the data of a symbol table or of a relocation section is seen
    through [gelf_getsym] and [gelf_getrel], which yield the decoded
    entries. *)

Record GElf_Ehdr := mk_ehdr {
  e_ident_data : Z;
  e_type : Z;
  e_machine : Z;
  e_shstrndx : Z
}.

Record GElf_Shdr := mk_shdr {
  sh_name : Z;
  sh_type : Z;
  sh_flags : Z;
  sh_link : Z;
  sh_info : Z;
  sh_size : Z;
  sh_entsize : Z
}.

Record GElf_Sym := mk_sym {
  st_name : Z;
  st_info : Z;
  st_shndx : Z;
  st_value : Z
}.

Record GElf_Rel := mk_rel {
  r_offset : Z;
  r_info : Z
}.

Record Elf_Data := mk_data {
  d_buf : list byte;
  d_size : Z;
  d_syms : list GElf_Sym;
  d_rels : list GElf_Rel
}.

Record Elf_Scn := mk_scn {
  scn_shdr : option GElf_Shdr;
  scn_data : option Elf_Data;
  scn_rawdata : bool
}.

Record Elf := mk_elf {
  elf_ehdr : option GElf_Ehdr;
  elf_scns : list Elf_Scn;
  elf_strptr : Z -> Z -> option string
}.

Definition zlookup {A} (l : list A) (i : Z) : option A :=
  if i <? 0 then None else l !! Z.to_nat i.

Definition zinsert {A} (i : Z) (x : A) (l : list A) : list A :=
  if i <? 0 then l else <[Z.to_nat i := x]> l.

Definition elf_getscn (elf : Elf) (i : Z) : option Elf_Scn := zlookup (elf_scns elf) i.
Definition elf_getdata (scn : Elf_Scn) : option Elf_Data := scn_data scn.
Definition gelf_getshdr (scn : Elf_Scn) : option GElf_Shdr := scn_shdr scn.
Definition gelf_getsym (d : Elf_Data) (i : Z) : option GElf_Sym := zlookup (d_syms d) i.
Definition gelf_getrel (d : Elf_Data) (i : Z) : option GElf_Rel := zlookup (d_rels d) i.

Definition ET_REL : Z := 1.
Definition EM_BPF : Z := 247.
Definition ELFDATA2LSB : Z := 1.
Definition ELFDATA2MSB : Z := 2.
Definition SHT_PROGBITS : Z := 1.
Definition SHT_SYMTAB : Z := 2.
Definition SHT_REL : Z := 9.
Definition SHF_EXECINSTR : Z := 4.
Definition STB_GLOBAL : Z := 1.
Definition GELF_ST_BIND (info : Z) : Z := Z.shiftr info 4.
Definition GELF_R_SYM (info : Z) : Z := Z.shiftr info 32.

(** ** Type metadata

    Modelled from the spec: the type-metadata module (btf.h, outside
    src/) at its interface, as far as the loader consults it. *)

Record btf_type := mk_btf_type {
  bt_info : Z;
  bt_members : list Z
}.

Record btf := mk_btf {
  btf__fd : Z;
  btf__find_by_name : string -> Z;
  btf__type_by_id : Z -> option btf_type;
  btf__resolve_size : Z -> Z
}.

Definition BTF_KIND_STRUCT : Z := 4.
Definition BTF_INFO_KIND (info : Z) : Z := Z.land (Z.shiftr info 24) 15.
Definition BTF_INFO_VLEN (info : Z) : Z := Z.land info 65535.

(** ** struct bpf_object *)

Record efile_t := mk_efile {
  efile_fd : Z;
  obj_buf_sz : Z;
  elf : option Elf;
  ehdr : option GElf_Ehdr;
  symbols : option Elf_Data;
  strtabidx : Z;
  reloc : list (GElf_Shdr * Elf_Data);
  efile_nr_reloc : Z;
  maps_shndx : Z;
  text_shndx : Z
}.

Record bpf_object := mk_obj {
  license : list byte;
  kern_version : Z;
  programs : list bpf_program;
  nr_programs : Z;
  maps : list bpf_map;
  nr_maps : Z;
  loaded : bool;
  has_pseudo_calls : bool;
  efile : efile_t;
  obj_btf : option btf;
  path : string
}.

Definition set_programs (o : bpf_object) (ps : list bpf_program) : bpf_object :=
  mk_obj (license o) (kern_version o) ps (nr_programs o) (maps o) (nr_maps o)
         (loaded o) (has_pseudo_calls o) (efile o) (obj_btf o) (path o).
Definition set_maps (o : bpf_object) (ms : list bpf_map) : bpf_object :=
  mk_obj (license o) (kern_version o) (programs o) (nr_programs o) ms (nr_maps o)
         (loaded o) (has_pseudo_calls o) (efile o) (obj_btf o) (path o).
Definition set_loaded (o : bpf_object) (b : bool) : bpf_object :=
  mk_obj (license o) (kern_version o) (programs o) (nr_programs o) (maps o) (nr_maps o)
         b (has_pseudo_calls o) (efile o) (obj_btf o) (path o).

Definition set_insns (p : bpf_program) (l : option (list bpf_insn)) (cnt main : Z) : bpf_program :=
  mk_prog (idx p) (name p) (prog_ifindex p) (section_name p) l cnt main (type p)
          (relocs p) (nr_reloc p) (instances_nr p) (instances_fds p) (preprocessor p)
          (expected_attach_type p).
Definition set_relocs (p : bpf_program) (r : option (list reloc_desc)) (n : Z) : bpf_program :=
  mk_prog (idx p) (name p) (prog_ifindex p) (section_name p) (insns p) (insns_cnt p)
          (main_prog_cnt p) (type p) r n (instances_nr p) (instances_fds p)
          (preprocessor p) (expected_attach_type p).
Definition set_instances (p : bpf_program) (n : Z) (fds : option (list Z)) : bpf_program :=
  mk_prog (idx p) (name p) (prog_ifindex p) (section_name p) (insns p) (insns_cnt p)
          (main_prog_cnt p) (type p) (relocs p) (nr_reloc p) n fds
          (preprocessor p) (expected_attach_type p).

(** ** Control structure *)

(** Dereference: a NULL pointer or an index outside the array is
    undefined behaviour. *)
Definition deref {A} (o : option A) : M A :=
  match o with Some a => ret a | None => trap end.

(** [for (i = start; i < start + n; i++) body], where a non-zero result
    of the body leaves the loop and is the result of the whole. *)
Fixpoint for_each {S} (n : nat) (i : Z) (body : Z -> S -> M (Z * S)) (s : S) : M (Z * S) :=
  match n with
  | O => ret (0, s)
  | S n' =>
      let* '(err, s') := body i s in
      if negb (err =? 0) then ret (err, s') else for_each n' (i + 1) body s'
  end.

(** ** Relocation *)

(** The elements behind a pointer; none behind NULL. *)
Definition array_of {A} (o : option (list A)) : list A :=
  match o with Some l => l | None => [] end.

Fixpoint find_prog_from (ps : list bpf_program) (i : Z) : option bpf_program :=
  match ps with
  | [] => None
  | p :: rest => if idx p =? i then Some p else find_prog_from rest i
  end.

Definition bpf_object__find_prog_by_idx (obj : bpf_object) (i : Z) : option bpf_program :=
  find_prog_from (take (Z.to_nat (nr_programs obj)) (programs obj)) i.

(** The program is [obj->programs[pi]]; it is updated in place. *)
Definition bpf_program__reloc_text (pi : Z) (obj : bpf_object) (relo : reloc_desc)
  : M (Z * bpf_object) :=
  let* prog := deref (zlookup (programs obj) pi) in
  if negb (bool_decide (relo_type relo = RELO_CALL)) then
    ret (- LIBBPF_ERRNO__RELOC, obj)
  else if idx prog =? text_shndx (efile obj) then
    ret (- LIBBPF_ERRNO__RELOC, obj)
  else
  let* '(err, prog) :=
    if main_prog_cnt prog =? 0 then
      match bpf_object__find_prog_by_idx obj (text_shndx (efile obj)) with
      | None => ret (- LIBBPF_ERRNO__RELOC, prog)
      | Some text =>
          let new_cnt := to_size_t (insns_cnt prog + insns_cnt text) in
          let* ok := alloc in                                   (* reallocarray *)
          if negb ok then ret (- ENOMEM, prog) else
          let old := array_of (insns prog) in
          let tins := array_of (insns text) in
          if (Z.of_nat (length old) <? insns_cnt prog)
             || (Z.of_nat (length tins) <? insns_cnt text) then trap else
          let new_insn := take (Z.to_nat (insns_cnt prog)) old
                          ++ take (Z.to_nat (insns_cnt text)) tins in
          ret (0, set_insns prog (Some new_insn) new_cnt (insns_cnt prog))
      end
    else ret (0, prog) in
  if negb (err =? 0) then ret (err, obj) else
  let* ins := deref (insns prog) in
  let* insn := deref (zlookup ins (insn_idx relo)) in
  let insn := set_imm insn (to_int (imm insn + (main_prog_cnt prog - insn_idx relo))) in
  let prog := set_insns prog (Some (zinsert (insn_idx relo) insn ins))
                        (insns_cnt prog) (main_prog_cnt prog) in
  ret (0, set_programs obj (zinsert pi prog (programs obj))).

(** The body of the loop of [bpf_program__relocate]: relocation [i] of
    program [pi]. *)
Definition relocate_step (pi : Z) (i : Z) (obj : bpf_object) : M (Z * bpf_object) :=
  let* prog := deref (zlookup (programs obj) pi) in
  let* descs := deref (relocs prog) in
  let* rd := deref (zlookup descs i) in
  if bool_decide (relo_type rd = RELO_LD64) then
    let insn_idx := insn_idx rd in
    let map_idx := map_idx rd in
    if to_int (insns_cnt prog) <=? insn_idx then
      ret (- LIBBPF_ERRNO__RELOC, obj)
    else
      let* ins := deref (insns prog) in
      let* insn := deref (zlookup ins insn_idx) in
      let* m := deref (zlookup (maps obj) map_idx) in
      let insn := set_imm (set_src_reg insn BPF_PSEUDO_MAP_FD) (fd m) in
      let prog := set_insns prog (Some (zinsert insn_idx insn ins))
                            (insns_cnt prog) (main_prog_cnt prog) in
      ret (0, set_programs obj (zinsert pi prog (programs obj)))
  else
    bpf_program__reloc_text pi obj rd.

Definition bpf_program__relocate (pi : Z) (obj : bpf_object) : M (Z * bpf_object) :=
  let* prog := deref (zlookup (programs obj) pi) in
  match relocs prog with
  | None => ret (0, obj)
  | Some _ =>
      let* '(err, obj) :=
        for_each (Z.to_nat (nr_reloc prog)) 0 (relocate_step pi) obj in
      if negb (err =? 0) then ret (err, obj) else
      let* prog := deref (zlookup (programs obj) pi) in
      ret (0, set_programs obj (zinsert pi (set_relocs prog None 0) (programs obj)))
  end.

Definition bpf_object__relocate (obj : bpf_object) : M (Z * bpf_object) :=
  for_each (Z.to_nat (nr_programs obj)) 0 (fun i obj => bpf_program__relocate i obj) obj.

(** ** Map creation *)

Definition str_len (s : string) : Z := Z.of_nat (String.length s).

Definition bpf_map_find_btf_info (map : bpf_map) (b : btf) : M (Z * bpf_map) :=
  let max_name := 256 in
  let* mname := deref (map_name map) in
  let full := String.append "____btf_map_" mname in
  if str_len full =? max_name then ret (- EINVAL, map) else
  let container_name := String.substring 0 (Z.to_nat (max_name - 1)) full in
  let container_id := btf__find_by_name b container_name in
  if container_id <? 0 then ret (container_id, map) else
  match btf__type_by_id b container_id with
  | None => ret (- EINVAL, map)
  | Some container_type =>
      if negb (BTF_INFO_KIND (bt_info container_type) =? BTF_KIND_STRUCT)
         || (BTF_INFO_VLEN (bt_info container_type) <? 2) then ret (- EINVAL, map) else
      let* key := deref (bt_members container_type !! 0%nat) in
      let* value := deref (bt_members container_type !! 1%nat) in
      let key_sz := btf__resolve_size b key in
      if key_sz <? 0 then ret (to_int key_sz, map) else
      if negb (key_size (def map) =? key_sz) then ret (- EINVAL, map) else
      let value_sz := btf__resolve_size b value in
      if value_sz <? 0 then ret (to_int value_sz, map) else
      if negb (value_size (def map) =? value_sz) then ret (- EINVAL, map) else
      ret (0, mk_map (fd map) (map_name map) (offset map) (map_ifindex map) (def map)
                     key value)
  end.

Definition bpf_create_map_xattr (attr : bpf_create_map_attr) : M Z :=
  let* a := sys (CreateMapXattr attr) in ret (to_int (a_ret a)).

Definition with_btf (attr : bpf_create_map_attr) (bfd k v : Z) : bpf_create_map_attr :=
  mk_create_attr (ca_name attr) (ca_map_type attr) (ca_map_flags attr) (ca_key_size attr)
                 (ca_value_size attr) (ca_max_entries attr) bfd k v (ca_map_ifindex attr).

(** [zclose(obj->maps[j].fd)] for [j] below [i]. *)
Definition close_maps (n : Z) (obj : bpf_object) : M (Z * bpf_object) :=
  for_each (Z.to_nat n) 0 (fun j obj =>
    let* m := deref (zlookup (maps obj) j) in
    let* '(_, v) := zclose (fd m) in
    ret (0, set_maps obj (zinsert j (set_fd m v) (maps obj)))) obj.

Definition bpf_object__create_maps (obj : bpf_object) : M (Z * bpf_object) :=
  for_each (Z.to_nat (nr_maps obj)) 0 (fun i obj =>
    let* map := deref (zlookup (maps obj) i) in
    if 0 <=? fd map then ret (0, obj) else
    let create_attr :=
      mk_create_attr (map_name map) (def_type (def map)) (map_flags (def map))
                     (key_size (def map)) (value_size (def map)) (max_entries (def map))
                     0 0 0 (map_ifindex map) in
    let* '(create_attr, map) :=
      match obj_btf obj with
      | None => ret (create_attr, map)
      | Some b =>
          let* '(err, map) := bpf_map_find_btf_info map b in
          if err =? 0 then
            ret (with_btf create_attr (btf__fd b) (btf_key_type_id map)
                          (btf_value_type_id map), map)
          else ret (create_attr, map)
      end in
    let* pfd := bpf_create_map_xattr create_attr in
    let* '(pfd, map) :=
      if (pfd <? 0) && negb (ca_btf_key_type_id create_attr =? 0) then
        let create_attr := with_btf create_attr 0 0 0 in
        let map := mk_map (fd map) (map_name map) (offset map) (map_ifindex map)
                          (def map) 0 0 in
        let* pfd := bpf_create_map_xattr create_attr in
        ret (pfd, map)
      else ret (pfd, map) in
    let obj := set_maps obj (zinsert i (set_fd map pfd) (maps obj)) in
    if pfd <? 0 then
      let err := pfd in
      let* '(_, obj) := close_maps i obj in
      ret (err, obj)
    else ret (0, obj)) obj.

(** ** Program submission *)

Definition bpf_load_program_xattr (attr : bpf_load_program_attr) (with_log : bool)
  : M (Z * string) :=
  let* a := sys (LoadProgramXattr attr with_log) in
  ret (to_int (a_ret a), if with_log then a_log a else EmptyString).

(** Returns the result and the value stored through [pfd], if any. *)
Definition load_program (type : bpf_prog_type) (expected_attach_type : Z)
    (name : option string) (insns : option (list bpf_insn)) (insns_cnt : Z)
    (license : list byte) (kern_version : Z) (prog_ifindex : Z) : M (Z * option Z) :=
  let load_attr :=
    mk_load_attr type expected_attach_type name insns (to_size_t insns_cnt)
                 license kern_version prog_ifindex in
  if negb (bool_decide (is_Some (la_insns load_attr))) || (la_insns_cnt load_attr =? 0) then
    ret (- EINVAL, None)
  else
  let* log_buf := alloc in                               (* malloc(BPF_LOG_BUF_SIZE) *)
  let* '(r, log) := bpf_load_program_xattr load_attr log_buf in
  if 0 <=? r then
    ret (0, Some r)
  else
  if log_buf && negb (bool_decide (log = EmptyString)) then
    ret (- LIBBPF_ERRNO__VERIFY, None)
  else if BPF_MAXINSNS <=? la_insns_cnt load_attr then
    ret (- LIBBPF_ERRNO__PROG2BIG, None)
  else
    (* Wrong program type? *)
    let* probed :=
      if negb (bool_decide (la_prog_type load_attr = BPF_PROG_TYPE_KPROBE)) then
        let load_attr :=
          mk_load_attr BPF_PROG_TYPE_KPROBE 0 (la_name load_attr) (la_insns load_attr)
                       (la_insns_cnt load_attr) (la_license load_attr)
                       (la_kern_version load_attr) (la_prog_ifindex load_attr) in
        let* '(pfd, _) := bpf_load_program_xattr load_attr false in
        if 0 <=? pfd then
          let* _ := close pfd in ret true
        else ret false
      else ret false in
    if (probed : bool) then ret (- LIBBPF_ERRNO__PROGTYPE, None)
    else if log_buf then ret (- LIBBPF_ERRNO__KVER, None)
    else ret (- LIBBPF_ERRNO__LOAD, None).

Definition zfree_insns (prog : bpf_program) : bpf_program :=
  set_insns prog None 0 (main_prog_cnt prog).

Definition set_instance_fd (prog : bpf_program) (i v : Z) : M bpf_program :=
  let* fds := deref (instances_fds prog) in
  let* _ := deref (zlookup fds i) in
  ret (set_instances prog (instances_nr prog) (Some (zinsert i v fds))).

Definition bpf_program__load (prog : bpf_program) (license : list byte) (kern_version : Z)
  : M (Z * bpf_program) :=
  let* '(err, prog) :=
    if (instances_nr prog <? 0) || negb (bool_decide (is_Some (instances_fds prog))) then
      if bool_decide (is_Some (preprocessor prog)) then
        ret (- LIBBPF_ERRNO__INTERNAL, prog)
      else
        let* ok := alloc in                              (* malloc(sizeof(int)) *)
        if negb ok then ret (- ENOMEM, prog)
        else ret (0, set_instances prog 1 (Some [-1]))
    else ret (0, prog) in
  if negb (err =? 0) then ret (err, prog) else
  let* '(err, prog) :=
    match preprocessor prog with
    | None =>
        let* '(err, pfd) :=
          load_program (type prog) (expected_attach_type prog) (name prog) (insns prog)
                       (to_int (insns_cnt prog)) license kern_version (prog_ifindex prog) in
        if err =? 0 then
          let* v := deref pfd in
          let* prog := set_instance_fd prog 0 v in
          ret (err, prog)
        else ret (err, prog)
    | Some prep =>
        for_each (Z.to_nat (instances_nr prog)) 0 (fun i prog =>
          let '(err, result) := prep i (insns prog) (insns_cnt prog) in
          if negb (err =? 0) then ret (err, prog) else
          if negb (bool_decide (is_Some (new_insn_ptr result)))
             || (new_insn_cnt result =? 0) then
            let* prog := set_instance_fd prog i (-1) in
            let* _ := (if pfd result then let* _ := sys (StorePfd i (-1)) in ret tt
                       else ret tt) in
            ret (0, prog)
          else
            let* '(err, pfd_v) :=
              load_program (type prog) (expected_attach_type prog) (name prog)
                           (new_insn_ptr result) (new_insn_cnt result)
                           license kern_version (prog_ifindex prog) in
            if negb (err =? 0) then ret (err, prog) else
            let* v := deref pfd_v in
            let* _ := (if pfd result then let* _ := sys (StorePfd i v) in ret tt
                       else ret tt) in
            let* prog := set_instance_fd prog i v in
            ret (0, prog)) prog
    end in
  ret (err, zfree_insns prog).

Definition bpf_program__is_function_storage (prog : bpf_program) (obj : bpf_object) : bool :=
  (idx prog =? text_shndx (efile obj)) && has_pseudo_calls obj.

(** The body of the loop of [bpf_object__load_progs], at index [i]. *)
Definition load_progs_step (i : Z) (obj : bpf_object) : M (Z * bpf_object) :=
  let* prog := deref (zlookup (programs obj) i) in
  if bpf_program__is_function_storage prog obj then ret (0, obj) else
  let* '(err, prog) := bpf_program__load prog (license obj) (kern_version obj) in
  ret (err, set_programs obj (zinsert i prog (programs obj))).

Definition bpf_object__load_progs (obj : bpf_object) : M (Z * bpf_object) :=
  for_each (Z.to_nat (nr_programs obj)) 0 load_progs_step obj.

(** ** Unload and load *)

Definition bpf_program__unload (prog : bpf_program) : M bpf_program :=
  let* prog :=
    if 0 <? instances_nr prog then
      let* '(_, prog) :=
        for_each (Z.to_nat (instances_nr prog)) 0 (fun i prog =>
          let* fds := deref (instances_fds prog) in
          let* v := deref (zlookup fds i) in
          let* '(_, v) := zclose v in
          ret (0, set_instances prog (instances_nr prog) (Some (zinsert i v fds)))) prog in
      ret prog
    else ret prog in
  ret (set_instances prog (-1) None).

Definition bpf_object__unload (obj : bpf_object) : M (Z * bpf_object) :=
  let* '(_, obj) := close_maps (nr_maps obj) obj in
  let* '(_, obj) :=
    for_each (Z.to_nat (nr_programs obj)) 0 (fun i obj =>
      let* prog := deref (zlookup (programs obj) i) in
      let* prog := bpf_program__unload prog in
      ret (0, set_programs obj (zinsert i prog (programs obj)))) obj in
  ret (0, obj).

Definition bpf_object__load (obj : bpf_object) : M (Z * bpf_object) :=
  if loaded obj then ret (- EINVAL, obj) else
  let obj := set_loaded obj true in
  let* '(err, obj) := bpf_object__create_maps obj in
  let* '(err, obj) :=
    if negb (err =? 0) then ret (err, obj) else
    let* '(err, obj) := bpf_object__relocate obj in
    if negb (err =? 0) then ret (err, obj) else
    bpf_object__load_progs obj in
  if negb (err =? 0) then
    let* '(_, obj) := bpf_object__unload obj in
    ret (err, obj)
  else ret (0, obj).

(** ** Reading section data

    The host is little-endian (the object's encoding must match the
    host's, see [bpf_object__check_endianness]). *)

Definition host_little_endian : bool := true.

Definition byte_val (b : byte) : Z := Z.of_N (Byte.to_N b).

Fixpoint le_val (bs : list byte) : Z :=
  match bs with
  | [] => 0
  | b :: rest => byte_val b + 256 * le_val rest
  end.

(** [len] bytes at [buf + off]; reading outside the buffer is undefined. *)
Definition read_bytes (buf : list byte) (off len : Z) : option (list byte) :=
  if (0 <=? off) && (0 <=? len) && (off + len <=? Z.of_nat (length buf))
  then Some (take (Z.to_nat len) (drop (Z.to_nat off) buf))
  else None.

Definition decode_insn (bs : list byte) : bpf_insn :=
  mk_insn (le_val (take 1 bs))
          (Z.land (le_val (take 1 (drop 1 bs))) 15)
          (Z.shiftr (le_val (take 1 (drop 1 bs))) 4)
          (wrap_signed 16 (le_val (take 2 (drop 2 bs))))
          (wrap_signed 32 (le_val (take 4 (drop 4 bs)))).

Fixpoint decode_insns (n : nat) (bs : list byte) : list bpf_insn :=
  match n with
  | O => []
  | S n' => decode_insn (take 8 bs) :: decode_insns n' (drop 8 bs)
  end.

(** The [struct bpf_map_def] whose memory image is [bs]. *)
Definition bpf_map_def_of_bytes (bs : list byte) : bpf_map_def :=
  mk_def (le_val (take 4 bs)) (le_val (take 4 (drop 4 bs)))
         (le_val (take 4 (drop 8 bs))) (le_val (take 4 (drop 12 bs)))
         (le_val (take 4 (drop 16 bs))).

(** C division and remainder: a zero divisor is undefined. *)
Definition c_div (a b : Z) : M Z := if b =? 0 then trap else ret (a / b).
Definition c_mod (a b : Z) : M Z := if b =? 0 then trap else ret (a mod b).

(** ** Programs of the object file *)

Definition zero_prog : bpf_program :=
  mk_prog 0 None 0 None None 0 0 BPF_PROG_TYPE_UNSPEC None 0 0 None None 0.

Definition bpf_program__init (data : list byte) (size : Z) (section_name : string)
    (idx : Z) : M (Z * bpf_program) :=
  if size <? sizeof_bpf_insn then ret (- EINVAL, zero_prog) else
  let* ok := alloc in                                   (* strdup(section_name) *)
  if negb ok then ret (- ENOMEM, zero_prog) else
  let* ok := alloc in                                   (* malloc(size) *)
  if negb ok then ret (- ENOMEM, zero_prog) else
  let cnt := size / sizeof_bpf_insn in
  let* bytes := deref (read_bytes data 0 (cnt * sizeof_bpf_insn)) in
  ret (0, mk_prog idx None 0 (Some section_name)
                  (Some (decode_insns (Z.to_nat cnt) bytes)) cnt 0
                  BPF_PROG_TYPE_KPROBE None 0 (-1) None None 0).

Definition bpf_object__add_program (obj : bpf_object) (data : list byte) (size : Z)
    (section_name : string) (idx : Z) : M (Z * bpf_object) :=
  let* '(err, prog) := bpf_program__init data size section_name idx in
  if negb (err =? 0) then ret (err, obj) else
  let nr_progs := to_int (nr_programs obj) in
  let* ok := alloc in                                   (* reallocarray *)
  if negb ok then ret (- ENOMEM, obj) else
  ret (0, mk_obj (license obj) (kern_version obj)
                 (take (Z.to_nat nr_progs) (programs obj) ++ [prog]) (nr_progs + 1)
                 (maps obj) (nr_maps obj) (loaded obj) (has_pseudo_calls obj)
                 (efile obj) (obj_btf obj) (path obj)).

(** The symbols the loops over the symbol table visit: those of index
    below [d_size / sizeof(GElf_Sym)] that [gelf_getsym] yields. *)
Definition symbols_seen (d : Elf_Data) : list GElf_Sym :=
  take (Z.to_nat (d_size d / sizeof_GElf_Sym)) (d_syms d).

(** The inner loop of [bpf_object__init_prog_names]: an error or the
    name found. *)
Fixpoint find_prog_sym (strp : Z -> option string) (pidx : Z) (syms : list GElf_Sym)
  : Z + option string :=
  match syms with
  | [] => inr None
  | sym :: rest =>
      if negb (st_shndx sym =? pidx) then find_prog_sym strp pidx rest
      else if negb (GELF_ST_BIND (st_info sym) =? STB_GLOBAL) then find_prog_sym strp pidx rest
      else match strp (st_name sym) with
           | None => inl (- LIBBPF_ERRNO__LIBELF)
           | Some n => inr (Some n)
           end
  end.

Definition set_name (p : bpf_program) (n : option string) : bpf_program :=
  mk_prog (idx p) n (prog_ifindex p) (section_name p) (insns p) (insns_cnt p)
          (main_prog_cnt p) (type p) (relocs p) (nr_reloc p) (instances_nr p)
          (instances_fds p) (preprocessor p) (expected_attach_type p).

Definition init_prog_names_step (pi : Z) (obj : bpf_object) : M (Z * bpf_object) :=
  let* prog := deref (zlookup (programs obj) pi) in
  let* syms := deref (symbols (efile obj)) in
  let* e := deref (elf (efile obj)) in
  match find_prog_sym (elf_strptr e (strtabidx (efile obj))) (idx prog) (symbols_seen syms) with
  | inl err => ret (err, obj)
  | inr found =>
      let name :=
        match found with
        | None => if idx prog =? text_shndx (efile obj) then Some ".text"%string else None
        | Some n => Some n
        end in
      match name with
      | None => ret (- EINVAL, obj)
      | Some n =>
          (* prog->name = strdup(name): stored before it is tested *)
          let* ok := alloc in
          if negb ok then
            ret (- ENOMEM, set_programs obj (zinsert pi (set_name prog None) (programs obj)))
          else
          ret (0, set_programs obj (zinsert pi (set_name prog (Some n)) (programs obj)))
      end
  end.

Definition bpf_object__init_prog_names (obj : bpf_object) : M (Z * bpf_object) :=
  for_each (Z.to_nat (nr_programs obj)) 0 init_prog_names_step obj.

(** ** The map table *)

Definition compare_bpf_map (a b : bpf_map) : Z :=
  to_int (to_size_t (offset a - offset b)).

(** [qsort] of the C library, as an insertion sort driven by the
    comparison function. *)
Fixpoint insert_sorted {A} (cmp : A -> A -> Z) (x : A) (l : list A) : list A :=
  match l with
  | [] => [x]
  | y :: rest => if cmp x y <=? 0 then x :: y :: rest else y :: insert_sorted cmp x rest
  end.

Definition qsort {A} (cmp : A -> A -> Z) (l : list A) : list A :=
  foldr (insert_sorted cmp) [] l.

Definition zero_map : bpf_map := mk_map 0 None 0 0 (mk_def 0 0 0 0 0) 0 0.

Definition set_efile (o : bpf_object) (e : efile_t) : bpf_object :=
  mk_obj (license o) (kern_version o) (programs o) (nr_programs o) (maps o) (nr_maps o)
         (loaded o) (has_pseudo_calls o) e (obj_btf o) (path o).

Definition set_map_table (o : bpf_object) (ms : list bpf_map) (n : Z) : bpf_object :=
  mk_obj (license o) (kern_version o) (programs o) (nr_programs o) ms n
         (loaded o) (has_pseudo_calls o) (efile o) (obj_btf o) (path o).

(** The symbols that mark a map: those of the maps section. *)
Definition map_symbols (shndx : Z) (syms : list GElf_Sym) : list GElf_Sym :=
  filter (fun sym => st_shndx sym = shndx) syms.

(** The body of the second loop of [bpf_object__init_maps] for a symbol
    of the maps section: fill [obj->maps[map_idx]]. *)
Definition init_maps_entry (strp : Z -> option string) (data : Elf_Data) (map_def_sz : Z)
    (sym : GElf_Sym) (map_idx : Z) (obj : bpf_object) : M (Z * bpf_object) :=
  let sym_name := strp (st_name sym) in
  let* m := deref (zlookup (maps obj) map_idx) in
  let m := mk_map (fd m) (map_name m) (st_value sym) (map_ifindex m) (def m)
                  (btf_key_type_id m) (btf_value_type_id m) in
  let obj := set_maps obj (zinsert map_idx m (maps obj)) in
  if d_size data <? to_size_t (st_value sym + to_size_t map_def_sz) then
    ret (- EINVAL, obj)
  else
  let* n := deref sym_name in                           (* strdup(map_name) *)
  let* ok := alloc in
  if negb ok then ret (- ENOMEM, obj) else
  let m := mk_map (fd m) (Some n) (offset m) (map_ifindex m) (def m)
                  (btf_key_type_id m) (btf_value_type_id m) in
  let obj := set_maps obj (zinsert map_idx m (maps obj)) in
  if to_size_t map_def_sz <=? sizeof_bpf_map_def then
    let* bytes := deref (read_bytes (d_buf data) (st_value sym) map_def_sz) in
    let image := bytes ++ replicate (Z.to_nat (sizeof_bpf_map_def - map_def_sz)) x00 in
    let m := mk_map (fd m) (map_name m) (offset m) (map_ifindex m)
                    (bpf_map_def_of_bytes image)
                    (btf_key_type_id m) (btf_value_type_id m) in
    ret (0, set_maps obj (zinsert map_idx m (maps obj)))
  else
    let* tail := deref (read_bytes (d_buf data) (st_value sym + sizeof_bpf_map_def)
                                   (map_def_sz - sizeof_bpf_map_def)) in
    if existsb (fun b => negb (Byte.eqb b x00)) tail then ret (- EINVAL, obj) else
    let* bytes := deref (read_bytes (d_buf data) (st_value sym) sizeof_bpf_map_def) in
    let m := mk_map (fd m) (map_name m) (offset m) (map_ifindex m)
                    (bpf_map_def_of_bytes bytes)
                    (btf_key_type_id m) (btf_value_type_id m) in
    ret (0, set_maps obj (zinsert map_idx m (maps obj))).

(** The second loop, over the symbols seen, with [map_idx] counting the
    map symbols met so far. *)
Fixpoint init_maps_fill (strp : Z -> option string) (data : Elf_Data) (map_def_sz shndx : Z)
    (syms : list GElf_Sym) (map_idx : Z) (obj : bpf_object) : M (Z * bpf_object) :=
  match syms with
  | [] => ret (0, obj)
  | sym :: rest =>
      if negb (st_shndx sym =? shndx) then
        init_maps_fill strp data map_def_sz shndx rest map_idx obj
      else
        let* '(err, obj) := init_maps_entry strp data map_def_sz sym map_idx obj in
        if negb (err =? 0) then ret (err, obj) else
        init_maps_fill strp data map_def_sz shndx rest (map_idx + 1) obj
  end.

Definition bpf_object__init_maps (obj : bpf_object) : M (Z * bpf_object) :=
  let shndx := maps_shndx (efile obj) in
  if shndx <? 0 then ret (- EINVAL, obj) else
  match symbols (efile obj) with
  | None => ret (- EINVAL, obj)
  | Some syms =>
      match elf (efile obj), elf (efile obj) ≫= fun e => elf_getscn e shndx ≫= elf_getdata with
      | None, _ | _, None => ret (- EINVAL, obj)
      | Some e, Some data =>
          let count := to_int (Z.of_nat (length (map_symbols shndx (symbols_seen syms)))) in
          if count =? 0 then ret (0, obj) else
          (* Assume equally sized map definitions *)
          let* q := c_div (d_size data) (to_size_t count) in
          let map_def_sz := to_int q in
          let* r := (if d_size data =? 0 then ret 0 else c_mod (d_size data) (to_size_t count)) in
          if (d_size data =? 0) || negb (r =? 0) then ret (- EINVAL, obj) else
          let* ok := alloc in                           (* calloc *)
          if negb ok then ret (- ENOMEM, obj) else
          let obj := set_map_table obj (replicate (Z.to_nat count) (set_fd zero_map (-1)))
                                   count in
          let* '(err, obj) :=
            init_maps_fill (elf_strptr e (strtabidx (efile obj))) data map_def_sz shndx
                           (symbols_seen syms) 0 obj in
          if negb (err =? 0) then ret (err, obj) else
          let n := Z.to_nat (nr_maps obj) in
          ret (0, set_maps obj (qsort compare_bpf_map (take n (maps obj))
                                ++ drop n (maps obj)))
      end
  end.

(** ** Sections *)

Definition bpf_object__init_license (obj : bpf_object) (data : list byte) (size : Z)
  : M (Z * bpf_object) :=
  let n := Z.min size 63 in
  let* bytes := deref (read_bytes data 0 n) in
  ret (0, mk_obj (bytes ++ drop (Z.to_nat n) (license obj)) (kern_version obj)
                 (programs obj) (nr_programs obj) (maps obj) (nr_maps obj) (loaded obj)
                 (has_pseudo_calls obj) (efile obj) (obj_btf obj) (path obj)).

Definition bpf_object__init_kversion (obj : bpf_object) (data : list byte) (size : Z)
  : M (Z * bpf_object) :=
  if negb (size =? 4) then ret (- LIBBPF_ERRNO__FORMAT, obj) else
  let* bytes := deref (read_bytes data 0 4) in
  ret (0, mk_obj (license obj) (le_val bytes) (programs obj) (nr_programs obj) (maps obj)
                 (nr_maps obj) (loaded obj) (has_pseudo_calls obj) (efile obj)
                 (obj_btf obj) (path obj)).

Definition section_have_execinstr (obj : bpf_object) (i : Z) : M bool :=
  let* e := deref (elf (efile obj)) in
  match elf_getscn e i with
  | None => ret false
  | Some scn =>
      match gelf_getshdr scn with
      | None => ret false
      | Some sh => ret (negb (Z.land (sh_flags sh) SHF_EXECINSTR =? 0))
      end
  end.

Definition BTF_ELF_SEC : string := ".BTF".

Definition set_btf (o : bpf_object) (b : option btf) : bpf_object :=
  mk_obj (license o) (kern_version o) (programs o) (nr_programs o) (maps o) (nr_maps o)
         (loaded o) (has_pseudo_calls o) (efile o) b (path o).

Definition set_has_pseudo_calls (o : bpf_object) (b : bool) : bpf_object :=
  mk_obj (license o) (kern_version o) (programs o) (nr_programs o) (maps o) (nr_maps o)
         (loaded o) b (efile o) (obj_btf o) (path o).

Section Parse.

(** [btf__new] of the type-metadata module: [None] for an error pointer. *)
Variable btf__new : list byte -> Z -> option btf.

(** The body of the loop of [bpf_object__elf_collect] for section [i]. *)
Definition collect_section (i : Z) (scn : Elf_Scn) (obj : bpf_object) : M (Z * bpf_object) :=
  let* e := deref (elf (efile obj)) in
  let* ep := deref (ehdr (efile obj)) in
  let ef := efile obj in
  match gelf_getshdr scn with
  | None => ret (- LIBBPF_ERRNO__FORMAT, obj)
  | Some sh =>
  match elf_strptr e (e_shstrndx ep) (sh_name sh) with
  | None => ret (- LIBBPF_ERRNO__FORMAT, obj)
  | Some name =>
  match elf_getdata scn with
  | None => ret (- LIBBPF_ERRNO__FORMAT, obj)
  | Some data =>
      if bool_decide (name = "license"%string) then
        bpf_object__init_license obj (d_buf data) (d_size data)
      else if bool_decide (name = "version"%string) then
        bpf_object__init_kversion obj (d_buf data) (d_size data)
      else if bool_decide (name = "maps"%string) then
        ret (0, set_efile obj
                  (mk_efile (efile_fd ef) (obj_buf_sz ef) (elf ef) (ehdr ef) (symbols ef)
                            (strtabidx ef) (reloc ef) (efile_nr_reloc ef) i
                            (text_shndx ef)))
      else if bool_decide (name = BTF_ELF_SEC) then
        ret (0, set_btf obj (btf__new (d_buf data) (d_size data)))
      else if sh_type sh =? SHT_SYMTAB then
        match symbols ef with
        | Some _ => ret (- LIBBPF_ERRNO__FORMAT, obj)
        | None =>
            ret (0, set_efile obj
                      (mk_efile (efile_fd ef) (obj_buf_sz ef) (elf ef) (ehdr ef) (Some data)
                                (sh_link sh) (reloc ef) (efile_nr_reloc ef)
                                (maps_shndx ef) (text_shndx ef)))
        end
      else if (sh_type sh =? SHT_PROGBITS)
              && negb (Z.land (sh_flags sh) SHF_EXECINSTR =? 0)
              && (0 <? d_size data) then
        let obj :=
          if bool_decide (name = ".text"%string) then
            set_efile obj
              (mk_efile (efile_fd ef) (obj_buf_sz ef) (elf ef) (ehdr ef) (symbols ef)
                        (strtabidx ef) (reloc ef) (efile_nr_reloc ef) (maps_shndx ef) i)
          else obj in
        bpf_object__add_program obj (d_buf data) (d_size data) name i
      else if sh_type sh =? SHT_REL then
        let nr_reloc := to_int (efile_nr_reloc ef + 1) in
        let sec := to_int (sh_info sh) in
        (* Only do relo for section with exec instructions *)
        let* exec := section_have_execinstr obj sec in
        if negb exec then ret (0, obj) else
        let* ok := alloc in                             (* reallocarray *)
        if negb ok then ret (- ENOMEM, obj) else
        ret (0, set_efile obj
                  (mk_efile (efile_fd ef) (obj_buf_sz ef) (elf ef) (ehdr ef) (symbols ef)
                            (strtabidx ef)
                            (take (Z.to_nat (nr_reloc - 1)) (reloc ef) ++ [(sh, data)])
                            nr_reloc (maps_shndx ef) (text_shndx ef)))
      else ret (0, obj)
  end end end.

(** The loop over the sections that [elf_nextscn] yields; returns the
    error, the index reached and the object. *)
Fixpoint collect_sections (scns : list Elf_Scn) (i : Z) (obj : bpf_object)
  : M (Z * Z * bpf_object) :=
  match scns with
  | [] => ret (0, i, obj)
  | scn :: rest =>
      let i := i + 1 in
      let* '(err, obj) := collect_section i scn obj in
      if negb (err =? 0) then ret (err, i, obj) else collect_sections rest i obj
  end.

Definition bpf_object__elf_collect (obj : bpf_object) : M (Z * bpf_object) :=
  let* e := deref (elf (efile obj)) in
  let* ep := deref (ehdr (efile obj)) in
  (* Elf is corrupted/truncated, avoid calling elf_strptr. *)
  if negb (from_option scn_rawdata false (elf_getscn e (e_shstrndx ep))) then
    ret (- LIBBPF_ERRNO__FORMAT, obj)
  else
  let* '(err, i, obj) := collect_sections (drop 1 (elf_scns e)) 0 obj in
  if negb (err =? 0) then ret (err, obj) else
  if (strtabidx (efile obj) =? 0) || (i <=? strtabidx (efile obj)) then
    ret (LIBBPF_ERRNO__FORMAT, obj)
  else
  let* '(err, obj) :=
    if 0 <=? maps_shndx (efile obj) then bpf_object__init_maps obj else ret (0, obj) in
  if negb (err =? 0) then ret (err, obj) else
  bpf_object__init_prog_names obj.

End Parse.

(** ** Collecting relocations *)

Fixpoint find_prog_pos (ps : list bpf_program) (i : Z) (pos : Z) : option Z :=
  match ps with
  | [] => None
  | p :: rest => if idx p =? i then Some pos else find_prog_pos rest i (pos + 1)
  end.

Fixpoint find_map_by_offset (ms : list bpf_map) (off : Z) (pos : Z) : Z :=
  match ms with
  | [] => pos
  | m :: rest => if offset m =? off then pos else find_map_by_offset rest off (pos + 1)
  end.

(** The body of the loop of [bpf_program__collect_reloc]: relocation [i]
    of the program at position [pi]. *)
Definition collect_reloc_step (pi : Z) (data : Elf_Data) (i : Z) (obj : bpf_object)
  : M (Z * bpf_object) :=
  let* prog := deref (zlookup (programs obj) pi) in
  let* descs := deref (relocs prog) in
  match gelf_getrel data i with
  | None => ret (- LIBBPF_ERRNO__FORMAT, obj)
  | Some rel =>
  match symbols (efile obj) ≫= fun s => gelf_getsym s (GELF_R_SYM (r_info rel)) with
  | None => ret (- LIBBPF_ERRNO__FORMAT, obj)
  | Some sym =>
      if negb (st_shndx sym =? maps_shndx (efile obj))
         && negb (st_shndx sym =? text_shndx (efile obj)) then
        ret (- LIBBPF_ERRNO__RELOC, obj)
      else
      let insn_idx := to_u32 (r_offset rel / sizeof_bpf_insn) in
      let* ins := deref (insns prog) in
      let* insn := deref (zlookup ins insn_idx) in
      if code insn =? Z.lor BPF_JMP BPF_CALL then
        if negb (src_reg insn =? BPF_PSEUDO_CALL) then ret (- LIBBPF_ERRNO__RELOC, obj) else
        let rd := mk_reloc RELO_CALL (to_int insn_idx) (to_int (st_value sym)) in
        let prog := set_relocs prog (Some (descs ++ [rd])) (nr_reloc prog) in
        ret (0, set_has_pseudo_calls
                  (set_programs obj (zinsert pi prog (programs obj))) true)
      else if negb (code insn =? Z.lor (Z.lor BPF_LD BPF_IMM) BPF_DW) then
        ret (- LIBBPF_ERRNO__RELOC, obj)
      else
      let found := find_map_by_offset (take (Z.to_nat (nr_maps obj)) (maps obj))
                                      (st_value sym) 0 in
      if nr_maps obj <=? found then ret (- LIBBPF_ERRNO__RELOC, obj) else
      let rd := mk_reloc RELO_LD64 (to_int insn_idx) (to_int found) in
      let prog := set_relocs prog (Some (descs ++ [rd])) (nr_reloc prog) in
      ret (0, set_programs obj (zinsert pi prog (programs obj)))
  end end.

Definition bpf_program__collect_reloc (pi : Z) (shdr : GElf_Shdr) (data : Elf_Data)
    (obj : bpf_object) : M (Z * bpf_object) :=
  let* prog := deref (zlookup (programs obj) pi) in
  let* q := c_div (sh_size shdr) (sh_entsize shdr) in
  let nrels := to_int q in
  let* ok := alloc in                                   (* malloc *)
  if negb ok then
    ret (- ENOMEM, set_programs obj (zinsert pi (set_relocs prog None (nr_reloc prog))
                                             (programs obj)))
  else
  let obj := set_programs obj (zinsert pi (set_relocs prog (Some []) nrels) (programs obj)) in
  for_each (Z.to_nat nrels) 0 (collect_reloc_step pi data) obj.

Definition bpf_object__collect_reloc (obj : bpf_object) : M (Z * bpf_object) :=
  if negb (bool_decide (is_Some (elf (efile obj)))) then
    ret (- LIBBPF_ERRNO__INTERNAL, obj)
  else
  for_each (Z.to_nat (efile_nr_reloc (efile obj))) 0 (fun i obj =>
    let* '(shdr, data) := deref (zlookup (reloc (efile obj)) i) in
    let idx := to_int (sh_info shdr) in
    if negb (sh_type shdr =? SHT_REL) then ret (- LIBBPF_ERRNO__INTERNAL, obj) else
    match find_prog_pos (take (Z.to_nat (nr_programs obj)) (programs obj)) idx 0 with
    | None => ret (- LIBBPF_ERRNO__RELOC, obj)
    | Some pi => bpf_program__collect_reloc pi shdr data obj
    end) obj.

Definition bpf_object__validate (obj : bpf_object) (needs_kver : bool) : Z :=
  if needs_kver && (kern_version obj =? 0) then - LIBBPF_ERRNO__KVERSION else 0.

Definition bpf_prog_type__needs_kver (t : bpf_prog_type) : bool :=
  match t with
  | BPF_PROG_TYPE_SOCKET_FILTER | BPF_PROG_TYPE_SCHED_CLS | BPF_PROG_TYPE_SCHED_ACT
  | BPF_PROG_TYPE_XDP | BPF_PROG_TYPE_CGROUP_SKB | BPF_PROG_TYPE_CGROUP_SOCK
  | BPF_PROG_TYPE_LWT_IN | BPF_PROG_TYPE_LWT_OUT | BPF_PROG_TYPE_LWT_XMIT
  | BPF_PROG_TYPE_LWT_SEG6LOCAL | BPF_PROG_TYPE_SOCK_OPS | BPF_PROG_TYPE_SK_SKB
  | BPF_PROG_TYPE_CGROUP_DEVICE | BPF_PROG_TYPE_SK_MSG | BPF_PROG_TYPE_CGROUP_SOCK_ADDR
  | BPF_PROG_TYPE_LIRC_MODE2 => false
  | BPF_PROG_TYPE_UNSPEC | BPF_PROG_TYPE_KPROBE | BPF_PROG_TYPE_TRACEPOINT
  | BPF_PROG_TYPE_PERF_EVENT | BPF_PROG_TYPE_RAW_TRACEPOINT => true
  end.

(** ** Opening an object *)

Definition bpf_object__new (path : string) (buf_sz : Z) : bpf_object :=
  mk_obj (replicate 64 x00) 0 [] 0 [] 0 false false
         (mk_efile (-1) buf_sz None None None 0 [] 0 (-1) 0) None path.

Definition bpf_object__elf_finish (obj : bpf_object) : M bpf_object :=
  let ef := efile obj in
  if negb (bool_decide (is_Some (elf ef))) then ret obj else
  let* '(_, v) := zclose (efile_fd ef) in
  ret (set_efile obj (mk_efile v 0 None (ehdr ef) None (strtabidx ef) [] 0
                               (maps_shndx ef) (text_shndx ef))).

Definition with_elf (obj : bpf_object) (fdv : Z) (e : option Elf) (ep : option GElf_Ehdr)
  : bpf_object :=
  let ef := efile obj in
  set_efile obj (mk_efile fdv (obj_buf_sz ef) e ep (symbols ef) (strtabidx ef) (reloc ef)
                          (efile_nr_reloc ef) (maps_shndx ef) (text_shndx ef)).

(** [image] is what [elf_memory] or [elf_begin] make of the input.
    When the file does not open the function returns at once, with the
    negated error number as it reads after the warning has been
    printed, whatever that is. *)
Definition bpf_object__elf_init (image : option Elf) (obj : bpf_object)
  : M (Z * bpf_object) :=
  let ef := efile obj in
  if bool_decide (is_Some (elf ef)) then ret (- LIBBPF_ERRNO__LIBELF, obj) else
  let* '(returned, obj) :=
    if 0 <? obj_buf_sz ef then ret (None, with_elf obj (efile_fd ef) image (ehdr ef))
    else
      let* a := sys (OpenFile (path obj)) in
      let fdv := to_int (a_ret a) in
      if fdv <? 0 then
        let* _ := sys PrWarning in
        let* e := get_errno in
        ret (Some (to_int (- e)), with_elf obj fdv None (ehdr ef))  (* return -errno *)
      else ret (None, with_elf obj fdv image (ehdr ef)) in
  match returned with
  | Some err => ret (err, obj)
  | None =>
  match elf (efile obj) with
  | None =>
      let* obj := bpf_object__elf_finish obj in
      ret (- LIBBPF_ERRNO__LIBELF, obj)
  | Some e =>
      match elf_ehdr e with
      | None =>
          let* obj := bpf_object__elf_finish obj in
          ret (- LIBBPF_ERRNO__FORMAT, obj)
      | Some ep =>
          let obj := with_elf obj (efile_fd (efile obj)) (Some e) (Some ep) in
          (* Old LLVM set e_machine to EM_NONE *)
          if negb (e_type ep =? ET_REL)
             || (negb (e_machine ep =? 0) && negb (e_machine ep =? EM_BPF)) then
            let* obj := bpf_object__elf_finish obj in
            ret (- LIBBPF_ERRNO__FORMAT, obj)
          else ret (0, obj)
      end
  end
  end.

(** The header of an object into which none has been read is as
    [calloc] left it: its data encoding is 0, which is neither of the
    two known ones. *)
Definition bpf_object__check_endianness (obj : bpf_object) : M Z :=
  match ehdr (efile obj) with
  | None => ret (- LIBBPF_ERRNO__ENDIAN)
  | Some ep =>
      if e_ident_data ep =? ELFDATA2LSB then
        if negb host_little_endian then ret (- LIBBPF_ERRNO__ENDIAN) else ret 0
      else if e_ident_data ep =? ELFDATA2MSB then
        if host_little_endian then ret (- LIBBPF_ERRNO__ENDIAN) else ret 0
      else ret (- LIBBPF_ERRNO__ENDIAN)
  end.

(** [bpf_object__close]: what remains observable is the closing of
    descriptors; the object itself is freed. *)
Definition bpf_object__close (obj : bpf_object) : M unit :=
  let* obj := bpf_object__elf_finish obj in
  let* _ := bpf_object__unload obj in
  ret tt.

(** Modelled from the spec: the error sentinel returned by open.  A
    pointer handed to the caller is an object or a raw address made by
    [ERR_PTR]; [ERR_PTR], [IS_ERR] and [PTR_ERR] are the inline
    functions of linux/err.h, which is not under src/: an address is an
    error when it lies in the last [MAX_ERRNO] addresses. *)
Inductive obj_ptr :=
  | ObjPtr (o : bpf_object)
  | RawPtr (v : Z).

Definition ERR_PTR (err : Z) : obj_ptr := RawPtr (to_size_t err).

Definition IS_ERR (p : obj_ptr) : bool :=
  match p with
  | ObjPtr _ => false
  | RawPtr v => to_size_t (- MAX_ERRNO) <=? v
  end.

Definition PTR_ERR (p : obj_ptr) : Z :=
  match p with
  | ObjPtr _ => 0
  | RawPtr v => wrap_signed 64 v
  end.

Definition libbpf_get_error (p : obj_ptr) : Z :=
  if IS_ERR p then PTR_ERR p else 0.

Definition __bpf_object__open (btf__new : list byte -> Z -> option btf)
    (elf_version_ok : bool) (image : option Elf)
    (path : string) (buf_sz : Z) (needs_kver : bool) : M obj_ptr :=
  if negb elf_version_ok then ret (ERR_PTR (- LIBBPF_ERRNO__LIBELF)) else
  let* ok := alloc in                                   (* calloc in bpf_object__new *)
  if negb ok then ret (ERR_PTR (- ENOMEM)) else
  let obj := bpf_object__new path buf_sz in
  let* '(err, obj) := bpf_object__elf_init image obj in
  let* '(err, obj) :=
    if negb (err =? 0) then ret (err, obj) else
    let* err := bpf_object__check_endianness obj in
    if negb (err =? 0) then ret (err, obj) else
    let* '(err, obj) := bpf_object__elf_collect btf__new obj in
    if negb (err =? 0) then ret (err, obj) else
    let* '(err, obj) := bpf_object__collect_reloc obj in
    if negb (err =? 0) then ret (err, obj) else
    ret (bpf_object__validate obj needs_kver, obj) in
  if negb (err =? 0) then
    let* _ := bpf_object__close obj in
    ret (ERR_PTR err)
  else
    let* obj := bpf_object__elf_finish obj in
    ret (ObjPtr obj).


(* ================================================================== *)
(** * The accessors and the convenience entry points *)

(** ** Descriptors of a program *)

(** A read outside the descriptor array is undefined. *)
Definition bpf_program__nth_fd (prog : bpf_program) (n : Z) : option Z :=
  if (instances_nr prog <=? n) || (n <? 0) then Some (- EINVAL) else
  fds ← instances_fds prog;
  fd ← zlookup fds n;
  if fd <? 0 then Some (- ENOENT) else Some fd.

Definition bpf_program__fd (prog : bpf_program) : option Z :=
  bpf_program__nth_fd prog 0.

Definition bpf_program__set_prep (prog : bpf_program) (nr_instances : Z)
    (prep : option (Z -> option (list bpf_insn) -> Z -> Z * bpf_prog_prep_result))
  : M (Z * bpf_program) :=
  if (nr_instances <=? 0) || negb (bool_decide (is_Some prep)) then ret (- EINVAL, prog) else
  if (0 <? instances_nr prog) || bool_decide (is_Some (instances_fds prog)) then
    ret (- EINVAL, prog)
  else
  let* ok := alloc in                                   (* malloc *)
  if negb ok then ret (- ENOMEM, prog) else
  (* fill all fd with -1 *)
  let instances_fds := replicate (Z.to_nat nr_instances) (-1) in
  ret (0, mk_prog (idx prog) (name prog) (prog_ifindex prog) (section_name prog)
                  (insns prog) (insns_cnt prog) (main_prog_cnt prog) (type prog)
                  (relocs prog) (nr_reloc prog) nr_instances (Some instances_fds) prep
                  (expected_attach_type prog)).

(** ** Setters and getters

    A handle that may be NULL is an [option]. *)

Definition set_prog_ifindex (p : bpf_program) (v : Z) : bpf_program :=
  mk_prog (idx p) (name p) v (section_name p) (insns p) (insns_cnt p)
          (main_prog_cnt p) (type p) (relocs p) (nr_reloc p) (instances_nr p)
          (instances_fds p) (preprocessor p) (expected_attach_type p).

Definition bpf_program__set_ifindex (prog : bpf_program) (ifindex : Z) : bpf_program :=
  set_prog_ifindex prog (to_int ifindex).

Definition bpf_program__set_type (prog : bpf_program) (t : bpf_prog_type) : bpf_program :=
  mk_prog (idx prog) (name prog) (prog_ifindex prog) (section_name prog) (insns prog)
          (insns_cnt prog) (main_prog_cnt prog) t (relocs prog) (nr_reloc prog)
          (instances_nr prog) (instances_fds prog) (preprocessor prog)
          (expected_attach_type prog).

Definition bpf_program__is_type (prog : option bpf_program) (t : bpf_prog_type) : bool :=
  match prog with
  | Some p => bool_decide (type p = t)
  | None => false
  end.

Definition bpf_program__set_expected_attach_type (prog : bpf_program) (t : Z) : bpf_program :=
  mk_prog (idx prog) (name prog) (prog_ifindex prog) (section_name prog) (insns prog)
          (insns_cnt prog) (main_prog_cnt prog) (type prog) (relocs prog) (nr_reloc prog)
          (instances_nr prog) (instances_fds prog) (preprocessor prog) t.

Definition bpf_object__kversion (obj : option bpf_object) : Z :=
  match obj with Some o => kern_version o | None => 0 end.

Definition bpf_object__btf_fd (obj : bpf_object) : Z :=
  match obj_btf obj with Some b => btf__fd b | None => -1 end.

Definition bpf_map__fd (map : option bpf_map) : Z :=
  match map with Some m => fd m | None => - EINVAL end.

Definition bpf_map__name (map : option bpf_map) : option string :=
  match map with Some m => map_name m | None => None end.

Definition bpf_map__btf_key_type_id (map : option bpf_map) : Z :=
  match map with Some m => btf_key_type_id m | None => 0 end.

Definition bpf_map__btf_value_type_id (map : option bpf_map) : Z :=
  match map with Some m => btf_value_type_id m | None => 0 end.

(** Modelled from the spec: the map kinds of linux/bpf.h, of which the
    loader singles out the perf-event array. *)
Definition BPF_MAP_TYPE_PERF_EVENT_ARRAY : Z := 4.

Definition bpf_map__is_offload_neutral (map : bpf_map) : bool :=
  def_type (def map) =? BPF_MAP_TYPE_PERF_EVENT_ARRAY.

Definition set_map_ifindex (m : bpf_map) (v : Z) : bpf_map :=
  mk_map (fd m) (map_name m) (offset m) v (def m) (btf_key_type_id m) (btf_value_type_id m).

Definition bpf_map__set_ifindex (map : bpf_map) (ifindex : Z) : bpf_map :=
  set_map_ifindex map (to_int ifindex).

(** ** Program kinds by section name *)

(** Modelled from the spec: the expected-attach kinds of its
    section-name table, the [enum bpf_attach_type] of linux/bpf.h, which
    is not under src/; the numbers are the header's. *)
Definition BPF_CGROUP_INET4_BIND : Z := 8.
Definition BPF_CGROUP_INET6_BIND : Z := 9.
Definition BPF_CGROUP_INET4_CONNECT : Z := 10.
Definition BPF_CGROUP_INET6_CONNECT : Z := 11.
Definition BPF_CGROUP_INET4_POST_BIND : Z := 12.
Definition BPF_CGROUP_INET6_POST_BIND : Z := 13.
Definition BPF_CGROUP_UDP4_SENDMSG : Z := 14.
Definition BPF_CGROUP_UDP6_SENDMSG : Z := 15.

Record section_def := mk_section_def {
  sec : string;
  len : Z;
  sec_prog_type : bpf_prog_type;
  sec_expected_attach_type : Z
}.

Definition BPF_PROG_SEC_FULL (s : string) (ptype : bpf_prog_type) (atype : Z) : section_def :=
  mk_section_def s (str_len s) ptype atype.

Definition BPF_PROG_SEC (s : string) (ptype : bpf_prog_type) : section_def :=
  BPF_PROG_SEC_FULL s ptype 0.

Definition BPF_S_PROG_SEC (s : string) (ptype : Z) : section_def :=
  BPF_PROG_SEC_FULL s BPF_PROG_TYPE_CGROUP_SOCK ptype.

Definition BPF_SA_PROG_SEC (s : string) (ptype : Z) : section_def :=
  BPF_PROG_SEC_FULL s BPF_PROG_TYPE_CGROUP_SOCK_ADDR ptype.

Definition section_names : list section_def :=
  [ BPF_PROG_SEC "socket" BPF_PROG_TYPE_SOCKET_FILTER;
    BPF_PROG_SEC "kprobe/" BPF_PROG_TYPE_KPROBE;
    BPF_PROG_SEC "kretprobe/" BPF_PROG_TYPE_KPROBE;
    BPF_PROG_SEC "classifier" BPF_PROG_TYPE_SCHED_CLS;
    BPF_PROG_SEC "action" BPF_PROG_TYPE_SCHED_ACT;
    BPF_PROG_SEC "tracepoint/" BPF_PROG_TYPE_TRACEPOINT;
    BPF_PROG_SEC "raw_tracepoint/" BPF_PROG_TYPE_RAW_TRACEPOINT;
    BPF_PROG_SEC "xdp" BPF_PROG_TYPE_XDP;
    BPF_PROG_SEC "perf_event" BPF_PROG_TYPE_PERF_EVENT;
    BPF_PROG_SEC "cgroup/skb" BPF_PROG_TYPE_CGROUP_SKB;
    BPF_PROG_SEC "cgroup/sock" BPF_PROG_TYPE_CGROUP_SOCK;
    BPF_PROG_SEC "cgroup/dev" BPF_PROG_TYPE_CGROUP_DEVICE;
    BPF_PROG_SEC "lwt_in" BPF_PROG_TYPE_LWT_IN;
    BPF_PROG_SEC "lwt_out" BPF_PROG_TYPE_LWT_OUT;
    BPF_PROG_SEC "lwt_xmit" BPF_PROG_TYPE_LWT_XMIT;
    BPF_PROG_SEC "lwt_seg6local" BPF_PROG_TYPE_LWT_SEG6LOCAL;
    BPF_PROG_SEC "sockops" BPF_PROG_TYPE_SOCK_OPS;
    BPF_PROG_SEC "sk_skb" BPF_PROG_TYPE_SK_SKB;
    BPF_PROG_SEC "sk_msg" BPF_PROG_TYPE_SK_MSG;
    BPF_PROG_SEC "lirc_mode2" BPF_PROG_TYPE_LIRC_MODE2;
    BPF_SA_PROG_SEC "cgroup/bind4" BPF_CGROUP_INET4_BIND;
    BPF_SA_PROG_SEC "cgroup/bind6" BPF_CGROUP_INET6_BIND;
    BPF_SA_PROG_SEC "cgroup/connect4" BPF_CGROUP_INET4_CONNECT;
    BPF_SA_PROG_SEC "cgroup/connect6" BPF_CGROUP_INET6_CONNECT;
    BPF_SA_PROG_SEC "cgroup/sendmsg4" BPF_CGROUP_UDP4_SENDMSG;
    BPF_SA_PROG_SEC "cgroup/sendmsg6" BPF_CGROUP_UDP6_SENDMSG;
    BPF_S_PROG_SEC "cgroup/post_bind4" BPF_CGROUP_INET4_POST_BIND;
    BPF_S_PROG_SEC "cgroup/post_bind6" BPF_CGROUP_INET6_POST_BIND ].

Definition char_val (c : Ascii.ascii) : Z := Z.of_nat (Ascii.nat_of_ascii c).

(** [strncmp] of the C library: the difference of the first two
    characters that differ among the first [n], a string's end counting
    as character 0. *)
Fixpoint strncmp (s1 s2 : string) (n : nat) {struct n} : Z :=
  match n with
  | O => 0
  | S n' =>
      match s1, s2 with
      | EmptyString, EmptyString => 0
      | EmptyString, String c2 _ => - char_val c2
      | String c1 _, EmptyString => char_val c1
      | String c1 r1, String c2 r2 =>
          if Ascii.eqb c1 c2 then strncmp r1 r2 n' else char_val c1 - char_val c2
      end
  end.

(** The loop of [libbpf_prog_type_by_name] over the table: the kinds
    stored through the two out-pointers, if any. *)
Fixpoint prog_type_by_name_from (table : list section_def) (name : string)
  : option (bpf_prog_type * Z) :=
  match table with
  | [] => None
  | e :: rest =>
      if negb (strncmp name (sec e) (Z.to_nat (len e)) =? 0)
      then prog_type_by_name_from rest name
      else Some (sec_prog_type e, sec_expected_attach_type e)
  end.

Definition libbpf_prog_type_by_name (name : option string)
  : Z * option (bpf_prog_type * Z) :=
  match name with
  | None => (- EINVAL, None)
  | Some name =>
      match prog_type_by_name_from section_names name with
      | Some kinds => (0, Some kinds)
      | None => (- EINVAL, None)
      end
  end.

Definition bpf_program__identify_section (prog : bpf_program)
  : Z * option (bpf_prog_type * Z) :=
  libbpf_prog_type_by_name (section_name prog).

(** ** Walking the tables

    A handle to a program or to a map of an object is its index in the
    object's table; the tables of an object without programs or without
    maps are NULL. *)

(** The handles this models come from the object itself, so the test
    [prev->obj != obj] never fires. *)
Definition __bpf_program__next (prev : option Z) (obj : bpf_object) : option Z :=
  if bool_decide (programs obj = []) then None else
  (* First handler *)
  match prev with
  | None => Some 0
  | Some prev =>
      let idx := to_size_t (prev + 1) in
      if nr_programs obj <=? idx then None else Some idx
  end.

(** The do-while loop of [bpf_program__next], which ends at the latest
    when the index reaches the number of programs.  The outer [option]
    is the undefined behaviour of a read outside the table. *)
Fixpoint bpf_program__next_loop (fuel : nat) (prog : option Z) (obj : bpf_object)
  : option (option Z) :=
  match fuel with
  | O => None
  | S fuel =>
      match __bpf_program__next prog obj with
      | None => Some None
      | Some i =>
          p ← zlookup (programs obj) i;
          if bpf_program__is_function_storage p obj
          then bpf_program__next_loop fuel (Some i) obj
          else Some (Some i)
      end
  end.

Definition bpf_program__next (prev : option Z) (obj : bpf_object) : option (option Z) :=
  bpf_program__next_loop (Z.to_nat (nr_programs obj) + 2) prev obj.

Definition bpf_map__next (prev : option Z) (obj : option bpf_object) : option Z :=
  match obj with
  | None => None
  | Some obj =>
      if bool_decide (maps obj = []) then None else
      match prev with
      | None => Some 0
      | Some prev =>
          if (prev <? 0) || (nr_maps obj <=? prev) then None else
          let idx := to_size_t (prev + 1) in
          if nr_maps obj <=? idx then None else Some idx
      end
  end.

(** Modelled from the spec: the iteration over the programs and over
    the maps of an object, the macros [bpf_object__for_each_program] and
    [bpf_map__for_each] of libbpf.h: start from the handle after NULL,
    run the body, go to the handle after the current one, until there is
    none.  A non-zero result of the body leaves the loop and is the
    result of the whole. *)
Fixpoint for_each_program_from {St} (fuel : nat) (get : St -> bpf_object) (pos : option Z)
    (body : Z -> St -> M (Z * St)) (s : St) : M (Z * St) :=
  match pos with
  | None => ret (0, s)
  | Some i =>
      match fuel with
      | O => trap
      | S fuel =>
          let* '(err, s) := body i s in
          if negb (err =? 0) then ret (err, s) else
          let* next := deref (bpf_program__next (Some i) (get s)) in
          for_each_program_from fuel get next body s
      end
  end.

Definition bpf_object__for_each_program {St} (get : St -> bpf_object)
    (body : Z -> St -> M (Z * St)) (s : St) : M (Z * St) :=
  let* first := deref (bpf_program__next None (get s)) in
  for_each_program_from (Z.to_nat (nr_programs (get s)) + 1) get first body s.

Fixpoint for_each_map_from {St} (fuel : nat) (get : St -> bpf_object) (pos : option Z)
    (body : Z -> St -> M (Z * St)) (s : St) : M (Z * St) :=
  match pos with
  | None => ret (0, s)
  | Some i =>
      match fuel with
      | O => trap
      | S fuel =>
          let* '(err, s) := body i s in
          if negb (err =? 0) then ret (err, s) else
          for_each_map_from fuel get (bpf_map__next (Some i) (Some (get s))) body s
      end
  end.

Definition bpf_map__for_each {St} (get : St -> bpf_object)
    (body : Z -> St -> M (Z * St)) (s : St) : M (Z * St) :=
  for_each_map_from (Z.to_nat (nr_maps (get s)) + 1) get
                    (bpf_map__next None (Some (get s))) body s.

(** ** Finding a map *)

(** The loop of [bpf_object__find_map_by_name], from handle [pos]. *)
Fixpoint find_map_by_name_from (fuel : nat) (obj : bpf_object) (name : string)
    (pos : option Z) : option (option Z) :=
  match pos with
  | None => Some None
  | Some i =>
      match fuel with
      | O => None
      | S fuel =>
          m ← zlookup (maps obj) i;
          if bool_decide (map_name m = Some name) then Some (Some i)
          else find_map_by_name_from fuel obj name (bpf_map__next (Some i) (Some obj))
      end
  end.

Definition bpf_object__find_map_by_name (obj : bpf_object) (name : string)
  : option (option Z) :=
  find_map_by_name_from (Z.to_nat (nr_maps obj) + 1) obj name
                        (bpf_map__next None (Some obj)).

(** What [bpf_object__find_map_by_offset] returns: a handle, or an
    address made by [ERR_PTR]. *)
Inductive map_ptr :=
  | MapAt (i : Z)
  | MapRaw (v : Z).

Fixpoint find_map_by_offset_from (n : nat) (i : Z) (obj : bpf_object) (off : Z)
  : option map_ptr :=
  match n with
  | O => Some (MapRaw (to_size_t (- ENOENT)))
  | S n =>
      m ← zlookup (maps obj) i;
      if offset m =? off then Some (MapAt i)
      else find_map_by_offset_from n (i + 1) obj off
  end.

Definition bpf_object__find_map_by_offset (obj : bpf_object) (off : Z) : option map_ptr :=
  find_map_by_offset_from (Z.to_nat (nr_maps obj)) 0 obj off.

(** ** Opening by attributes, and open-and-load in one call *)

(** Modelled from the spec: the attributes of the two convenience entry
    points, [struct bpf_object_open_attr] and [struct bpf_prog_load_attr]
    of libbpf.h, and the test [IS_ERR_OR_NULL] of linux/err.h. *)
Record bpf_object_open_attr := mk_open_attr {
  oa_file : option string;
  oa_prog_type : bpf_prog_type
}.

Record bpf_prog_load_attr := mk_prog_load_attr {
  pl_file : option string;
  pl_prog_type : bpf_prog_type;
  pl_expected_attach_type : Z;
  pl_ifindex : Z
}.

Definition NULL : obj_ptr := RawPtr 0.

Definition IS_ERR_OR_NULL (p : obj_ptr) : bool :=
  match p with
  | ObjPtr _ => false
  | RawPtr v => (v =? 0) || IS_ERR p
  end.

Section Open.

(** What stands behind a path: whether libelf initialises, and what
    [elf_begin] makes of the file. *)
Variables (btf__new : list byte -> Z -> option btf) (elf_version_ok : bool)
          (image : option Elf).

Definition bpf_object__open_xattr (attr : bpf_object_open_attr) : M obj_ptr :=
  (* param validation *)
  match oa_file attr with
  | None => ret NULL
  | Some file =>
      __bpf_object__open btf__new elf_version_ok image file 0
                         (bpf_prog_type__needs_kver (oa_prog_type attr))
  end.

Definition bpf_object__open (path : option string) : M obj_ptr :=
  bpf_object__open_xattr (mk_open_attr path BPF_PROG_TYPE_UNSPEC).

(** The body of the first loop of [bpf_prog_load_xattr] for the program
    at handle [i]; the state is the object and [first_prog]. *)
Definition prog_load_step (attr : bpf_prog_load_attr) (i : Z)
    (st : bpf_object * option Z) : M (Z * (bpf_object * option Z)) :=
  let '(obj, first_prog) := st in
  let* prog := deref (zlookup (programs obj) i) in
  (* If type is not specified, try to guess it based on section name. *)
  let prog := set_prog_ifindex prog (pl_ifindex attr) in
  let obj := set_programs obj (zinsert i prog (programs obj)) in
  let '(err, prog_type, expected_attach_type) :=
    if bool_decide (pl_prog_type attr = BPF_PROG_TYPE_UNSPEC) then
      match bpf_program__identify_section prog with
      | (err, Some (t, a)) => (err, t, a)
      | (err, None) => (err, pl_prog_type attr, pl_expected_attach_type attr)
      end
    else (0, pl_prog_type attr, pl_expected_attach_type attr) in
  if err <? 0 then
    let* _ := bpf_object__close obj in
    ret (- EINVAL, (obj, first_prog))
  else
  let prog := bpf_program__set_type prog prog_type in
  let prog := bpf_program__set_expected_attach_type prog expected_attach_type in
  let obj := set_programs obj (zinsert i prog (programs obj)) in
  let first_prog :=
    if negb (bpf_program__is_function_storage prog obj)
       && negb (bool_decide (is_Some first_prog))
    then Some i else first_prog in
  ret (0, (obj, first_prog)).

(** The body of its second loop, for the map at handle [i]. *)
Definition prog_load_map_step (attr : bpf_prog_load_attr) (i : Z) (obj : bpf_object)
  : M (Z * bpf_object) :=
  let* map := deref (zlookup (maps obj) i) in
  if negb (bpf_map__is_offload_neutral map) then
    ret (0, set_maps obj (zinsert i (set_map_ifindex map (pl_ifindex attr)) (maps obj)))
  else ret (0, obj).

(** Returns the result and, on success, what is stored through [pobj]
    and [prog_fd].  An address that is neither NULL nor an error and is
    no object either is used as an object all the same: undefined. *)
Definition bpf_prog_load_xattr (attr : bpf_prog_load_attr)
  : M (Z * option (bpf_object * Z)) :=
  match pl_file attr with
  | None => ret (- EINVAL, None)
  | Some _ =>
      let* p := bpf_object__open_xattr (mk_open_attr (pl_file attr) (pl_prog_type attr)) in
      if IS_ERR_OR_NULL p then ret (- ENOENT, None) else
      match p with
      | RawPtr _ => trap
      | ObjPtr obj =>
          let* '(err, (obj, first_prog)) :=
            bpf_object__for_each_program fst (prog_load_step attr) (obj, None) in
          if negb (err =? 0) then ret (err, None) else
          let* '(_, obj) := bpf_map__for_each id (prog_load_map_step attr) obj in
          match first_prog with
          | None =>
              let* _ := bpf_object__close obj in
              ret (- ENOENT, None)
          | Some first_prog =>
              let* '(err, obj) := bpf_object__load obj in
              if negb (err =? 0) then
                let* _ := bpf_object__close obj in
                ret (- EINVAL, None)
              else
              let* prog := deref (zlookup (programs obj) first_prog) in
              let* prog_fd := deref (bpf_program__fd prog) in
              ret (0, Some (obj, prog_fd))
          end
      end
  end.

Definition bpf_prog_load (file : option string) (type : bpf_prog_type)
  : M (Z * option (bpf_object * Z)) :=
  bpf_prog_load_xattr (mk_prog_load_attr file type 0 0).

End Open.

(** ** Pinning

    The pinning functions talk to the filesystem.  Their calls are
    answered by an oracle and recorded in a trace, as those of the
    loader are, in a world of their own: what the filesystem answers,
    the error number it sets, and for [statfs] the filesystem type. *)

From stdpp Require Import pretty.
Local Open Scope Z_scope.

Definition BPF_FS_MAGIC : Z := 0xcafe4a11.

(** Modelled from the spec: the limit on path lengths and the two error
    numbers of the pinning surface, [PATH_MAX] of linux/limits.h and
    [EEXIST], [ENAMETOOLONG] of the host's errno.h. *)
Definition PATH_MAX : Z := 4096.
Definition EEXIST : Z := 17.
Definition ENAMETOOLONG : Z := 36.

Inductive fs_call :=
  | Strdup (s : string)
  | Statfs (path : string)
  | Mkdir (path : string) (mode : Z)
  | ObjPin (fd : Z) (pathname : string).

Record fs_answer := mk_fs_answer {
  fs_ret : Z;
  fs_errno : option Z;
  f_type : Z
}.

Record fs_world := mk_fs_world {
  fs_oracle : list (fs_call * fs_answer) -> fs_call -> fs_answer;
  fs_trace : list (fs_call * fs_answer);
  fs_errno_now : Z
}.

Definition F (A : Type) : Type := fs_world -> option (A * fs_world).

Global Instance F_ret : MRet F := fun A a w => Some (a, w).
Global Instance F_bind : MBind F := fun A B k c w =>
  match c w with
  | Some (a, w') => k a w'
  | None => None
  end.

Definition fs_reply (w : fs_world) (c : fs_call) : fs_answer := fs_oracle w (fs_trace w) c.

Definition fs_record (w : fs_world) (c : fs_call) : fs_world :=
  mk_fs_world (fs_oracle w) ((c, fs_reply w c) :: fs_trace w)
              (match fs_errno (fs_reply w c) with Some e => e | None => fs_errno_now w end).

Definition fs_sys (c : fs_call) : F fs_answer := fun w => Some (fs_reply w c, fs_record w c).

Definition fs_get_errno : F Z := fun w => Some (fs_errno_now w, w).

Definition fs_trap {A} : F A := fun _ => None.

Definition fs_deref {A} (o : option A) : F A :=
  match o with Some a => mret a | None => fs_trap end.

Global Arguments fs_reply : simpl never.
Global Arguments fs_record : simpl never.

(** [for (i = 0; i < n; i++) body], leaving at the first non-zero
    result. *)
Fixpoint fs_for_each (n : nat) (i : Z) (body : Z -> F Z) : F Z :=
  match n with
  | O => mret 0
  | S n =>
      err ← body i;
      if negb (err =? 0) then mret err else fs_for_each n (i + 1) body
  end.

Section Pin.

(** [dirname] of the C library. *)
Variable dirname : string -> string.

Definition check_path (path : option string) : F Z :=
  match path with
  | None => mret (- EINVAL)
  | Some path =>
      dname ← fs_sys (Strdup path);
      if fs_ret dname =? 0 then mret (- ENOMEM) else
      let dir := dirname path in
      st ← fs_sys (Statfs dir);
      err ← (if negb (fs_ret st =? 0) then e ← fs_get_errno; mret (to_int (- e))
             else mret 0);
      if (err =? 0) && negb (f_type st =? BPF_FS_MAGIC) then mret (- EINVAL)
      else mret err
  end.

Definition bpf_obj_pin (fd : Z) (pathname : string) : F Z :=
  a ← fs_sys (ObjPin fd pathname); mret (to_int (fs_ret a)).

Definition bpf_program__pin_instance (prog : option bpf_program) (path : option string)
    (instance : Z) : F Z :=
  err ← check_path path;
  if negb (err =? 0) then mret err else
  match prog with
  | None => mret (- EINVAL)
  | Some prog =>
      if (instance <? 0) || (instances_nr prog <=? instance) then mret (- EINVAL) else
      fds ← fs_deref (instances_fds prog);
      fd ← fs_deref (zlookup fds instance);
      path ← fs_deref path;
      r ← bpf_obj_pin fd path;
      if negb (r =? 0) then e ← fs_get_errno; mret (to_int (- e)) else
      mret 0
  end.

Definition make_dir (path : string) : F Z :=
  a ← fs_sys (Mkdir path 448);                          (* 0700 *)
  e ← fs_get_errno;
  if negb (fs_ret a =? 0) && negb (e =? EEXIST) then mret (to_int (- e)) else mret 0.

(** [snprintf(buf, PATH_MAX, "%s/%d", path, i)]: the text and its
    length. *)
Definition instance_path (path : string) (i : Z) : string :=
  path +:+ "/" +:+ pretty i.

Definition bpf_program__pin (prog : option bpf_program) (path : option string) : F Z :=
  err ← check_path path;
  if negb (err =? 0) then mret err else
  match prog with
  | None => mret (- EINVAL)
  | Some prog =>
      if instances_nr prog <=? 0 then mret (- EINVAL) else
      path ← fs_deref path;
      err ← make_dir path;
      if negb (err =? 0) then mret err else
      fs_for_each (Z.to_nat (instances_nr prog)) 0 (fun i =>
        let buf := instance_path path i in
        let len := str_len buf in
        if len <? 0 then mret (- EINVAL)
        else if PATH_MAX <=? len then mret (- ENAMETOOLONG)
        else bpf_program__pin_instance (Some prog) (Some buf) i)
  end.


End Pin.
(* ================================================================== *)
(** * Notions used in the statements *)

(** ** load_program: classification of a submission *)

Section LoadProgram.
Variables (type : bpf_prog_type) (expected_attach_type : Z) (name : option string)
          (insns : option (list bpf_insn)) (insns_cnt : Z) (license : list byte)
          (kern_version prog_ifindex : Z) (w : world).

(** The request as first submitted, whether a log buffer could be
    allocated, and the kernel's answer to the first submission. *)
Definition submitted : bpf_load_program_attr :=
  mk_load_attr type expected_attach_type name insns (to_size_t insns_cnt)
               license kern_version prog_ifindex.
Definition has_log_buf : bool := negb (a_ret (reply w Alloc) =? 0).
Definition first_call : call := LoadProgramXattr submitted has_log_buf.
Definition first_answer : answer := reply (record w Alloc) first_call.
Definition after_first : world := record (record w Alloc) first_call.

(** The probe: the same request with kind kprobe, attach kind zero and
    no log buffer. *)
Definition probe_call : call :=
  LoadProgramXattr
    (mk_load_attr BPF_PROG_TYPE_KPROBE 0 name insns (to_size_t insns_cnt)
                  license kern_version prog_ifindex) false.
Definition probe_answer : answer := reply after_first probe_call.

Definition quiet_failure : Prop :=
  to_int (a_ret first_answer) < 0 /\
  (has_log_buf = false \/ a_log first_answer = EmptyString).

Definition run_load_program : option (Z * option Z * world) :=
  load_program type expected_attach_type name insns insns_cnt license kern_version
               prog_ifindex w.
End LoadProgram.

(** ** The submission loop as a traversal

    [load_each] is the submission loop read as a traversal of the
    program array; [without_function_storage] is the object with the
    programs that [bpf_program__is_function_storage] selects taken out. *)

Fixpoint load_each (skip : bpf_program -> bool) (license : list byte) (kern_version : Z)
    (ps : list bpf_program) : M (Z * list bpf_program) :=
  match ps with
  | [] => ret (0, [])
  | p :: rest =>
      if skip p then
        let* '(err, rest') := load_each skip license kern_version rest in
        ret (err, p :: rest')
      else
        let* '(err, p') := bpf_program__load p license kern_version in
        if negb (err =? 0) then ret (err, p' :: rest) else
        let* '(err, rest') := load_each skip license kern_version rest in
        ret (err, p' :: rest')
  end.

Definition without_function_storage (obj : bpf_object) : bpf_object :=
  let ps := filter (fun p => bpf_program__is_function_storage p obj = false)
                   (programs obj) in
  mk_obj (license obj) (kern_version obj) ps (Z.of_nat (length ps)) (maps obj) (nr_maps obj)
         (loaded obj) (has_pseudo_calls obj) (efile obj) (obj_btf obj) (path obj).

(** ** Linking, as the specification words it

    The caller's instructions followed by the whole of the text
    program's; every map relocation sets the source register and the
    immediate of its instruction, every call relocation at index [i]
    adds [main_prog_cnt - i] to the immediate of its instruction. *)

Definition bias_call (main_cnt i : Z) (ins : list bpf_insn) : list bpf_insn :=
  match zlookup ins i with
  | Some insn => zinsert i (set_imm insn (to_int (imm insn + (main_cnt - i)))) ins
  | None => ins
  end.

Definition patch_map_fd (map_fd i : Z) (ins : list bpf_insn) : list bpf_insn :=
  match zlookup ins i with
  | Some insn => zinsert i (set_imm (set_src_reg insn BPF_PSEUDO_MAP_FD) map_fd) ins
  | None => ins
  end.

Definition apply_reloc (ms : list bpf_map) (main_cnt : Z) (ins : list bpf_insn)
    (rd : reloc_desc) : list bpf_insn :=
  match relo_type rd with
  | RELO_CALL => bias_call main_cnt (insn_idx rd) ins
  | RELO_LD64 =>
      match zlookup ms (map_idx rd) with
      | Some m => patch_map_fd (fd m) (insn_idx rd) ins
      | None => ins
      end
  end.

Definition linked_insns (ms : list bpf_map) (caller text : list bpf_insn)
    (rds : list reloc_desc) : list bpf_insn :=
  foldl (apply_reloc ms (Z.of_nat (length caller))) (caller ++ text) rds.

(** A relocation list that stays inside the caller's instructions and
    inside the map table. *)
Definition relocs_in_range (ms : list bpf_map) (count : Z) (rds : list reloc_desc) : Prop :=
  Forall (fun rd => 0 <= insn_idx rd < count /\
                    (relo_type rd = RELO_LD64 -> is_Some (zlookup ms (map_idx rd)))) rds.

Definition has_call (rds : list reloc_desc) : Prop :=
  Exists (fun rd => relo_type rd = RELO_CALL) rds.

(** The object in which program [pi], otherwise [prog], has the given
    instructions and counts. *)
Definition with_insns (obj : bpf_object) (pi : nat) (prog : bpf_program)
    (cur : list bpf_insn) (cnt main : Z) : bpf_object :=
  set_programs obj (<[pi := set_insns prog (Some cur) cnt main]> (programs obj)).

(** ** The definition record of a map symbol, as the specification words it

    With per-entry size [D]: the first [D] bytes at the symbol's offset,
    zero-padded to the native size, when [D] is at most the native size;
    the first native-size bytes otherwise, the rest being the tail. *)

Definition def_image (D : Z) (buf : list byte) (sym : GElf_Sym) : list byte :=
  if D <=? sizeof_bpf_map_def then
    take (Z.to_nat D) (drop (Z.to_nat (st_value sym)) buf)
    ++ replicate (Z.to_nat (sizeof_bpf_map_def - D)) x00
  else take (Z.to_nat sizeof_bpf_map_def) (drop (Z.to_nat (st_value sym)) buf).

Definition def_tail (D : Z) (buf : list byte) (sym : GElf_Sym) : list byte :=
  take (Z.to_nat (D - sizeof_bpf_map_def))
       (drop (Z.to_nat (st_value sym + sizeof_bpf_map_def)) buf).

Definition tail_nonzero (D : Z) (buf : list byte) (sym : GElf_Sym) : bool :=
  existsb (fun b => negb (Byte.eqb b x00)) (def_tail D buf sym).

(** The memory image of a definition record on the little-endian host:
    its five unsigned 32-bit fields in the order of the structure,
    [type], [key_size], [value_size], [max_entries], [map_flags], four
    bytes each, lowest byte first. *)
Definition byte_of (v : Z) : byte := default x00 (Byte.of_N (Z.to_N (v mod 256))).

Fixpoint le_bytes (n : nat) (v : Z) : list byte :=
  match n with
  | O => []
  | S n' => byte_of v :: le_bytes n' (v / 256)
  end.

Definition image_of_def (d : bpf_map_def) : list byte :=
  le_bytes 4 (def_type d) ++ le_bytes 4 (key_size d) ++ le_bytes 4 (value_size d)
  ++ le_bytes 4 (max_entries d) ++ le_bytes 4 (map_flags d).

(** Every allocation of the run succeeds. *)
Definition allocations_succeed (w : world) : Prop :=
  forall h, a_ret (oracle w h Alloc) <> 0.

(** What the builder leaves in the table for a map symbol, and what
    makes it stop with EINVAL at a map symbol. *)
Definition entry_of (data : Elf_Data) (D : Z) (s : GElf_Sym) (m : bpf_map) : Prop :=
  offset m = st_value s /\
  def m = bpf_map_def_of_bytes (def_image D (d_buf data) s) /\
  st_value s + D <= d_size data /\
  (sizeof_bpf_map_def < D -> tail_nonzero D (d_buf data) s = false).

Definition rejected (data : Elf_Data) (D : Z) (s : GElf_Sym) : Prop :=
  d_size data < st_value s + D \/
  (sizeof_bpf_map_def < D /\ tail_nonzero D (d_buf data) s = true).

(** A map symbol inside the section data, with a name. *)
Definition symbol_ok (strp : Z -> option string) (data : Elf_Data) (D : Z) (s : GElf_Sym)
  : Prop :=
  0 <= st_value s /\ st_value s + D <= d_size data /\ is_Some (strp (st_name s)).

(* ================================================================== *)
(** * Sample inputs *)

(** ** Scripted worlds *)

Definition zero_info : bpf_map_info := mk_info EmptyString 0 0 0 0 0 0 0.
Definition ans (r : Z) : answer := mk_answer r None zero_info EmptyString.
Definition ans_errno (r e : Z) : answer := mk_answer r (Some e) zero_info EmptyString.
Definition ans_log (r : Z) (log : string) : answer := mk_answer r None zero_info log.

(** The n-th call of the run gets the n-th answer of the script. *)
Definition scripted (script : list answer) : world :=
  mk_world (fun h _ => nth (length h) script (ans 0)) [] 0.

(** A world in which every call answers 1. *)
Definition generous : world := mk_world (fun _ _ => ans 1) [] 0.


Definition exit_insn : bpf_insn := mk_insn 149 0 0 0 0.

(** ** Sample objects *)

Definition no_efile (text maps_sec : Z) : efile_t :=
  mk_efile (-1) 0 None None None 0 [] 0 maps_sec text.

(** A [.text] section of two instructions, and a [kprobe/foo] section
    whose first instruction calls into [.text]. *)
Definition text_prog : bpf_program :=
  mk_prog 1 (Some ".text"%string) 0 (Some ".text"%string)
          (Some [mk_insn 183 0 0 0 1; exit_insn]) 2 0 BPF_PROG_TYPE_KPROBE
          None 0 (-1) None None 0.

Definition caller_prog : bpf_program :=
  mk_prog 2 (Some "foo"%string) 0 (Some "kprobe/foo"%string)
          (Some [mk_insn 133 0 1 0 (-1); exit_insn]) 2 0 BPF_PROG_TYPE_KPROBE
          (Some [mk_reloc RELO_CALL 0 0]) 1 (-1) None None 0.

Definition calls_obj : bpf_object :=
  mk_obj [] 0 [text_prog; caller_prog] 2 [] 0 false true (no_efile 1 (-1)) None
         "calls.o"%string.

Definition text_only_obj : bpf_object :=
  mk_obj [] 0 [text_prog] 1 [] 0 false false (no_efile 1 (-1)) None "text.o"%string.

(** A text program that carries a call relocation of its own. *)
Definition text_calling_text : bpf_program :=
  mk_prog 1 (Some ".text"%string) 0 (Some ".text"%string)
          (Some [mk_insn 133 0 1 0 (-1); exit_insn]) 2 0 BPF_PROG_TYPE_KPROBE
          (Some [mk_reloc RELO_CALL 0 0]) 1 (-1) None None 0.

Definition text_calls_obj : bpf_object :=
  mk_obj [] 0 [text_calling_text] 1 [] 0 false true (no_efile 1 (-1)) None
         "self.o"%string.

(** ** Sample object files *)

(** An object file with a license section and a section-name table, and
    no symbol table. *)
Definition elf_without_symtab : Elf :=
  mk_elf (Some (mk_ehdr ELFDATA2LSB ET_REL EM_BPF 2))
         [mk_scn None None false;
          mk_scn (Some (mk_shdr 1 SHT_PROGBITS 0 0 0 4 0))
                 (Some (mk_data [x47; x50; x4c; x00] 4 [] [])) true;
          mk_scn (Some (mk_shdr 9 3 0 0 0 19 0))
                 (Some (mk_data [] 19 [] [])) true]
         (fun sec off =>
            if sec =? 2 then
              if off =? 1 then Some "license"%string
              else if off =? 9 then Some ".shstrtab"%string else None
            else None).

(** The same with a version section of the wrong size in front. *)
Definition elf_bad_version : Elf :=
  mk_elf (Some (mk_ehdr ELFDATA2LSB ET_REL EM_BPF 2))
         [mk_scn None None false;
          mk_scn (Some (mk_shdr 1 SHT_PROGBITS 0 0 0 3 0))
                 (Some (mk_data [x01; x02; x03] 3 [] [])) true;
          mk_scn (Some (mk_shdr 9 3 0 0 0 19 0))
                 (Some (mk_data [] 19 [] [])) true]
         (fun sec off =>
            if sec =? 2 then
              if off =? 1 then Some "version"%string
              else if off =? 9 then Some ".shstrtab"%string else None
            else None).

Definition no_btf : list byte -> Z -> option btf := fun _ _ => None.

(** ** Sample maps sections *)

(** One native definition record: kind 1, key size 4, value size 8,
    capacity 16, flags 0. *)
Definition one_def : list byte :=
  [x01; x00; x00; x00;  x04; x00; x00; x00;  x08; x00; x00; x00;
   x10; x00; x00; x00;  x00; x00; x00; x00].

Definition maps_data (buf : list byte) : Elf_Data :=
  mk_data buf (Z.of_nat (length buf)) [] [].

Definition symtab_data (syms : list GElf_Sym) : Elf_Data :=
  mk_data [] (sizeof_GElf_Sym * Z.of_nat (length syms)) syms [].

Definition maps_elf (buf : list byte) : Elf :=
  mk_elf (Some (mk_ehdr ELFDATA2LSB ET_REL EM_BPF 2))
         [mk_scn None None false;
          mk_scn (Some (mk_shdr 1 SHT_PROGBITS 0 0 0 (Z.of_nat (length buf)) 0))
                 (Some (maps_data buf)) true]
         (fun _ _ => Some "m"%string).

(** An object as the section sweep leaves it: the maps section is
    section 1, the symbol table is bound. *)
Definition maps_obj (buf : list byte) (syms : list GElf_Sym) : bpf_object :=
  mk_obj (replicate 64 x00) 0 [] 0 [] 0 false false
         (mk_efile (-1) 0 (Some (maps_elf buf))
                   (Some (mk_ehdr ELFDATA2LSB ET_REL EM_BPF 2))
                   (Some (symtab_data syms)) 3 [] 0 1 0)
         None "maps.o"%string.

Definition map_sym (value : Z) : GElf_Sym := mk_sym 1 16 1 value.
Definition other_sym (value : Z) : GElf_Sym := mk_sym 1 16 2 value.

(* ================================================================== *)
(** * Further notions used in the statements *)

(** ** Loops over a table, read as traversals *)

(** A loop that visits the elements of a table in order, replaces each
    by what the body makes of it, and stops at the first non-zero
    result. *)
Fixpoint traverse {A} (f : A -> M (Z * A)) (l : list A) : M (Z * list A) :=
  match l with
  | [] => ret (0, [])
  | x :: rest =>
      let* '(err, x') := f x in
      if negb (err =? 0) then ret (err, x' :: rest) else
      let* '(err, rest') := traverse f rest in
      ret (err, x' :: rest')
  end.

(** The calls made between two worlds, oldest first. *)
Definition calls_made (w w' : world) (cs : list call) : Prop :=
  (trace w').*1 = rev cs ++ (trace w).*1.

(** ** Descriptors held by an object *)

(** The instance descriptors of a program, as [bpf_program__unload]
    walks them. *)
Definition instance_fds (p : bpf_program) : list Z :=
  if 0 <? instances_nr p
  then take (Z.to_nat (instances_nr p)) (array_of (instances_fds p))
  else [].

Definition held (fds : list Z) : list Z := filter (fun v => 0 <= v) fds.

(** The open descriptors of an object: those of its maps, then those of
    its programs' instances. *)
Definition descriptors_of (obj : bpf_object) : list Z :=
  held (fd <$> maps obj) ++ held (programs obj ≫= instance_fds).

(** The instance count of a program does not exceed its descriptor
    array. *)
Definition instances_ok (p : bpf_program) : Prop :=
  instances_nr p <= 0 \/
  exists fds, instances_fds p = Some fds /\ instances_nr p <= Z.of_nat (length fds).

(** The counts of an object are the lengths of its tables. *)
Definition tables_ok (obj : bpf_object) : Prop :=
  nr_maps obj = Z.of_nat (length (maps obj)) /\
  nr_programs obj = Z.of_nat (length (programs obj)) /\
  Forall instances_ok (programs obj).

(** What the loops of [bpf_object__unload] do to one map and to one
    program. *)
Definition close_map (m : bpf_map) : M (Z * bpf_map) :=
  let* '(_, v) := zclose (fd m) in ret (0, set_fd m v).

Definition unload_program (p : bpf_program) : M (Z * bpf_program) :=
  let* p' := bpf_program__unload p in ret (0, p').

Definition close_fd (v : Z) : M (Z * Z) :=
  let* '(_, v') := zclose v in ret (0, v').

(** ** Map creation, one map at a time *)

(** The part of the body of the loop of [bpf_object__create_maps] that
    talks to the kernel: the request, the lookup of the type ids, the
    submission and the retry without type ids.  Yields the descriptor
    (or the error) and the map with its type ids as the retry leaves
    them. *)
Definition create_one_map (b : option btf) (map : bpf_map) : M (Z * bpf_map) :=
  let create_attr :=
    mk_create_attr (map_name map) (def_type (def map)) (map_flags (def map))
                   (key_size (def map)) (value_size (def map)) (max_entries (def map))
                   0 0 0 (map_ifindex map) in
  let* '(create_attr, map) :=
    match b with
    | None => ret (create_attr, map)
    | Some b =>
        let* '(err, map) := bpf_map_find_btf_info map b in
        if err =? 0 then
          ret (with_btf create_attr (btf__fd b) (btf_key_type_id map)
                        (btf_value_type_id map), map)
        else ret (create_attr, map)
    end in
  let* pfd := bpf_create_map_xattr create_attr in
  if (pfd <? 0) && negb (ca_btf_key_type_id create_attr =? 0) then
    let create_attr := with_btf create_attr 0 0 0 in
    let map := mk_map (fd map) (map_name map) (offset map) (map_ifindex map)
                      (def map) 0 0 in
    let* pfd := bpf_create_map_xattr create_attr in
    ret (pfd, map)
  else ret (pfd, map).

Definition create_maps_step (i : Z) (obj : bpf_object) : M (Z * bpf_object) :=
  let* map := deref (zlookup (maps obj) i) in
  if 0 <=? fd map then ret (0, obj) else
  let* '(pfd, map) := create_one_map (obj_btf obj) map in
  let obj := set_maps obj (zinsert i (set_fd map pfd) (maps obj)) in
  if pfd <? 0 then
    let* '(_, obj) := close_maps i obj in
    ret (pfd, obj)
  else ret (0, obj).

(** Two maps that differ at most in descriptor and type ids. *)
Definition same_map (m m' : bpf_map) : Prop :=
  map_name m' = map_name m /\ offset m' = offset m /\
  map_ifindex m' = map_ifindex m /\ def m' = def m.

Definition is_create (c : call) : bool :=
  match c with CreateMapXattr _ => true | _ => false end.

(** [m'] is [m] with a descriptor: [m] itself when it had one. *)
Definition created_from (m m' : bpf_map) : Prop :=
  same_map m m' /\ 0 <= fd m' /\ (0 <= fd m -> m' = m).

(** Two programs that agree on everything but their instructions and
    their relocation list. *)
Definition same_instances (p p' : bpf_program) : Prop :=
  instances_nr p' = instances_nr p /\ instances_fds p' = instances_fds p /\
  preprocessor p' = preprocessor p /\ idx p' = idx p /\ type p' = type p.

(** [s] is [obj] with programs that differ at most in instructions and
    relocation lists. *)
Definition programs_frame (obj s : bpf_object) : Prop :=
  s = set_programs obj (programs s) /\ Forall2 same_instances (programs obj) (programs s).

(** The instance count and the length of the descriptor array, which
    the submission of instances does not change. *)
Definition instances_shape (p : bpf_program) : Z * option nat :=
  (instances_nr p, length <$> instances_fds p).


(** A program as a successful first submission leaves it: instructions
    released, one instance, its descriptor the kernel's. *)
Definition submitted_ok (p : bpf_program) : Prop :=
  insns p = None /\ insns_cnt p = 0 /\ instances_nr p = 1 /\
  exists v, 0 <= v /\ instances_fds p = Some [v].

(** A program that was never loaded and has no preprocessor. *)
Definition fresh_program (p : bpf_program) : Prop :=
  preprocessor p = None /\ instances_fds p = None.

(** What the submission loop makes of a program: [p'] from [p], when
    the loop as a whole returned [r]. *)
Definition submitted_from (skip : bpf_program -> bool) (r : Z) (p p' : bpf_program) : Prop :=
  idx p' = idx p /\ preprocessor p' = preprocessor p /\ type p' = type p /\
  (instances_ok p -> instances_ok p') /\
  (skip p = true -> p' = p) /\
  (r = 0 -> skip p = false -> fresh_program p -> submitted_ok p').

(** ** Section names *)

(** No character of the string is the terminator. *)
Fixpoint c_string (s : string) : bool :=
  match s with
  | EmptyString => true
  | String c rest => negb (Ascii.eqb c Ascii.zero) && c_string rest
  end.

Definition kinds_of (e : section_def) : bpf_prog_type * Z :=
  (sec_prog_type e, sec_expected_attach_type e).

(** [s] is the beginning of [name]. *)
Definition begins_with (name s : string) : Prop :=
  exists rest, name = String.append s rest.

(** No entry of a table begins with another entry. *)
Definition prefix_free (table : list section_def) : bool :=
  forallb (fun i =>
    forallb (fun j =>
      (i =? j)%nat ||
      match table !! i, table !! j with
      | Some e, Some e' =>
          negb (strncmp (sec e) (sec e') (String.length (sec e')) =? 0)
      | _, _ => true
      end) (seq 0 (length table))) (seq 0 (length table)).

Definition well_formed_entry (e : section_def) : bool :=
  c_string (sec e) && (len e =? str_len (sec e)).

(** ** Walking the tables *)

Definition size_t_max : Z := 18446744073709551615.

(** What decides which programs a walk visits. *)
Definition program_layout (obj : bpf_object) : Z * list Z * Z * bool :=
  (nr_programs obj, idx <$> programs obj, text_shndx (efile obj), has_pseudo_calls obj).

(** A loop body that leaves function storage alone. *)
Definition unless_function_storage {St} (get : St -> bpf_object)
    (body : Z -> St -> M (Z * St)) (i : Z) (s : St) : M (Z * St) :=
  let* p := deref (zlookup (programs (get s)) i) in
  if bpf_program__is_function_storage p (get s) then ret (0, s) else body i s.

(** The handle before index [i]. *)
Definition handle_before (i : nat) : option Z :=
  match i with O => None | S j => Some (Z.of_nat j) end.

(** ** Pinning *)

(** The calls made between two filesystem worlds, oldest first. *)
Definition fs_calls_made (w w' : fs_world) (cs : list fs_call) : Prop :=
  (fs_trace w').*1 = rev cs ++ (fs_trace w).*1.

Definition is_pin (c : fs_call) : bool :=
  match c with ObjPin _ _ => true | _ => false end.

(** The pin requests among a list of calls. *)
Definition pins (cs : list fs_call) : list fs_call := List.filter is_pin cs.

(** The requests that pin the first [n] instances of a descriptor array
    below a directory. *)
Fixpoint instance_pins_from (path : string) (i : Z) (fds : list Z) : list fs_call :=
  match fds with
  | [] => []
  | fd :: rest => ObjPin fd (instance_path path i) :: instance_pins_from path (i + 1) rest
  end.

Definition instance_pins (path : string) (fds : list Z) (n : nat) : list fs_call :=
  instance_pins_from path 0 (take n fds).

(** ** Objects as the parser leaves them *)

(** A program as the parser builds it: never loaded, no preprocessor,
    kind kprobe, at least one instruction and as many as its count says;
    [named] tells whether it has its name yet. *)
Definition parsed_program (named : bool) (p : bpf_program) : Prop :=
  preprocessor p = None /\ instances_fds p = None /\ instances_nr p = -1 /\
  type p = BPF_PROG_TYPE_KPROBE /\ main_prog_cnt p = 0 /\
  is_Some (section_name p) /\
  (if named then is_Some (name p) else name p = None) /\
  exists ins, insns p = Some ins /\ insns_cnt p = Z.of_nat (length ins) /\
              1 <= insns_cnt p <= INT_MAX.

(** The map relocations of a list refer to maps of the table. *)
Definition relocs_in_maps (ms : list bpf_map) (rds : list reloc_desc) : Prop :=
  Forall (fun rd => relo_type rd = RELO_LD64 -> is_Some (zlookup ms (map_idx rd))) rds.

(** The map relocations of a program refer to maps of the map table of
    its object. *)
Definition relocs_ok (obj : bpf_object) (p : bpf_program) : Prop :=
  forall rds, relocs p = Some rds -> relocs_in_maps (maps obj) rds.

(** An object file of sizes that fit the loader's counters: at most
    INT_MAX sections, each of at most INT_MAX bytes. *)
Definition image_ok (e : Elf) : Prop :=
  Z.of_nat (length (elf_scns e)) <= INT_MAX /\
  Forall (fun scn => forall d, scn_data scn = Some d -> d_size d <= INT_MAX) (elf_scns e).

(** The state of the object while the sections are swept, [i] sections
    in. *)
Definition sweep_state (e : Elf) (i : Z) (obj : bpf_object) : Prop :=
  loaded obj = false /\ maps obj = [] /\ nr_maps obj = 0 /\
  nr_programs obj = Z.of_nat (length (programs obj)) /\ nr_programs obj <= i /\
  Forall (fun p => parsed_program false p /\ relocs p = None) (programs obj) /\
  elf (efile obj) = Some e /\
  (forall d, symbols (efile obj) = Some d -> d_size d <= INT_MAX).

(** The state of the object once parsed. *)
Definition parsed_state (e : Elf) (obj : bpf_object) : Prop :=
  loaded obj = false /\
  nr_maps obj = Z.of_nat (length (maps obj)) /\ nr_maps obj <= INT_MAX /\
  nr_programs obj = Z.of_nat (length (programs obj)) /\ nr_programs obj <= INT_MAX /\
  Forall (parsed_program true) (programs obj) /\
  Forall (relocs_ok obj) (programs obj) /\
  Forall (fun m => fd m = -1) (maps obj) /\
  elf (efile obj) = Some e.

(** An object as a successful open hands it over. *)
Definition opened_state (obj : bpf_object) : Prop :=
  loaded obj = false /\
  nr_maps obj = Z.of_nat (length (maps obj)) /\ nr_maps obj <= INT_MAX /\
  nr_programs obj = Z.of_nat (length (programs obj)) /\ nr_programs obj <= INT_MAX /\
  Forall (parsed_program true) (programs obj) /\
  Forall (relocs_ok obj) (programs obj) /\
  Forall (fun m => fd m = -1) (maps obj) /\
  elf (efile obj) = None /\ efile_fd (efile obj) = -1 /\ symbols (efile obj) = None.

(* ================================================================== *)
(** * Further sample inputs *)

(** ** An object file with a map, a program that refers to it, and the
    relocation section of that program

    Section 1 is the string table, 2 the license, 3 the version, 4 the
    maps section with one definition record, 5 the program (a load of
    the map's address into r1, then exit), 6 the symbol table (the map
    [cnt], the function [foo]), 7 the relocations of section 5. *)
Definition counting_syms : Elf_Data :=
  mk_data [] 72 [mk_sym 0 0 0 0; mk_sym 50 16 4 0; mk_sym 54 16 5 0] [].

Definition counting_rels : Elf_Data :=
  mk_data [] 16 [] [mk_rel 0 (Z.shiftl 1 32 + 1)].

Definition counting_rel_shdr : GElf_Shdr := mk_shdr 58 SHT_REL 0 6 5 16 16.

Definition counting_elf : Elf :=
  mk_elf (Some (mk_ehdr ELFDATA2LSB ET_REL EM_BPF 1))
         [mk_scn None None false;
          mk_scn (Some (mk_shdr 1 3 0 0 0 80 0)) (Some (mk_data [] 80 [] [])) true;
          mk_scn (Some (mk_shdr 9 SHT_PROGBITS 0 0 0 4 0))
                 (Some (mk_data [x47; x50; x4c; x00] 4 [] [])) true;
          mk_scn (Some (mk_shdr 17 SHT_PROGBITS 0 0 0 4 0))
                 (Some (mk_data [x01; x02; x03; x00] 4 [] [])) true;
          mk_scn (Some (mk_shdr 25 SHT_PROGBITS 0 0 0 20 0)) (Some (maps_data one_def)) true;
          mk_scn (Some (mk_shdr 30 SHT_PROGBITS SHF_EXECINSTR 0 0 24 0))
                 (Some (mk_data [x18; x01; x00; x00; x00; x00; x00; x00;
                                 x00; x00; x00; x00; x00; x00; x00; x00;
                                 x95; x00; x00; x00; x00; x00; x00; x00] 24 [] [])) true;
          mk_scn (Some (mk_shdr 41 SHT_SYMTAB 0 1 0 72 24)) (Some counting_syms) true;
          mk_scn (Some counting_rel_shdr) (Some counting_rels) true]
         (fun sec off =>
            if sec =? 1 then
              if off =? 1 then Some ".strtab"%string
              else if off =? 9 then Some "license"%string
              else if off =? 17 then Some "version"%string
              else if off =? 25 then Some "maps"%string
              else if off =? 30 then Some "kprobe/foo"%string
              else if off =? 41 then Some ".symtab"%string
              else if off =? 50 then Some "cnt"%string
              else if off =? 54 then Some "foo"%string
              else if off =? 58 then Some ".relkprobe/foo"%string
              else None
            else None).

Definition counting_insns : list bpf_insn :=
  [mk_insn 24 1 0 0 0; mk_insn 0 0 0 0 0; exit_insn].

Definition counting_prog (name : option string) (rds : option (list reloc_desc)) (n : Z)
  : bpf_program :=
  mk_prog 5 name 0 (Some "kprobe/foo"%string) (Some counting_insns) 3 0
          BPF_PROG_TYPE_KPROBE rds n (-1) None None 0.

Definition counting_map (v : Z) : bpf_map :=
  mk_map v (Some "cnt"%string) 0 0 (mk_def 1 4 8 16 0) 0 0.

Definition gpl : list byte := [x47; x50; x4c] ++ replicate 61 x00.

(** The object while it is being opened, after the sweep of the
    sections: the object file is attached, the relocation section is
    noted. *)
Definition counting_efile : efile_t :=
  mk_efile 1 0 (Some counting_elf) (Some (mk_ehdr ELFDATA2LSB ET_REL EM_BPF 1))
           (Some counting_syms) 1 [(counting_rel_shdr, counting_rels)] 1 4 0.

Definition counting_swept (name : option string) : bpf_object :=
  mk_obj gpl 197121 [counting_prog name None 0] 1 [counting_map (-1)] 1 false false
         counting_efile None "cnt.o"%string.

(** ** Objects that hold descriptors *)

Definition loaded_prog : bpf_program :=
  mk_prog 2 (Some "foo"%string) 0 (Some "kprobe/foo"%string) None 0 0
          BPF_PROG_TYPE_KPROBE None 0 2 (Some [7; -1]) None 0.

Definition named_map (name : string) (off v : Z) : bpf_map :=
  mk_map v (Some name) off 0 (mk_def 1 4 8 16 0) 0 0.

Definition held_obj : bpf_object :=
  mk_obj [] 0 [loaded_prog] 1
         [named_map "a" 0 3; named_map "b" 20 (-1); named_map "c" 40 5] 3
         true false (no_efile 0 (-1)) None "held.o"%string.

(** Three maps, the first of which has a descriptor already. *)
Definition three_maps_obj : bpf_object :=
  mk_obj [] 0 [] 0
         [named_map "a" 0 3; named_map "b" 20 (-1); named_map "c" 40 (-1)] 3
         false false (no_efile 0 (-1)) None "three.o"%string.

(** ** A filesystem in which everything succeeds and every directory is
    on the BPF filesystem *)
Definition bpffs : fs_world :=
  mk_fs_world (fun _ c =>
                 match c with
                 | Strdup _ => mk_fs_answer 1 None 0
                 | Statfs _ => mk_fs_answer 0 None BPF_FS_MAGIC
                 | _ => mk_fs_answer 0 None 0
                 end) [] 0.

Definition parent_dir (s : string) : string := "/sys/fs/bpf".

(** ** Type metadata that describes the map [cnt]: type 1 is the
    container, a structure of two members, of types 2 and 3, of sizes 4
    and 8. *)
Definition cnt_btf : btf :=
  mk_btf 6
         (fun name => if bool_decide (name = "____btf_map_cnt"%string) then 1 else - ENOENT)
         (fun id => if id =? 1 then Some (mk_btf_type (Z.shiftl BTF_KIND_STRUCT 24 + 2) [2; 3])
                    else None)
         (fun id => if id =? 2 then 4 else if id =? 3 then 8 else - EINVAL).

Definition keep_insns : Z -> option (list bpf_insn) -> Z -> Z * bpf_prog_prep_result :=
  fun _ ins n => (0, mk_prep_result ins n false).

(** The object that open makes of [counting_elf]. *)
Definition counting_obj : bpf_object :=
  mk_obj gpl 197121 [counting_prog (Some "foo"%string) (Some [mk_reloc RELO_LD64 0 0]) 1] 1
         [counting_map (-1)] 1 false false
         (mk_efile (-1) 0 None (Some (mk_ehdr ELFDATA2LSB ET_REL EM_BPF 1)) None 1 [] 0 4 0)
         None "cnt.o"%string.

(* ================================================================== *)
(** * Properties *)

Ltac run := unfold bind, ret, trap, deref, sys, alloc, close, zclose, get_errno in *; simpl in *.

Ltac unfold_load :=
  unfold run_load_program, load_program, quiet_failure, probe_answer, probe_call,
    after_first, first_answer, first_call, has_log_buf, submitted,
    bpf_load_program_xattr in *.




(** C9: a kprobe program whose submission fails with an empty log and a
    count below the maximum is not submitted a second time: the only
    calls made are the allocation of the log buffer and the one
    submission, and the result is KVER, or LOAD when there is no log
    buffer. *)
Theorem load_program_kprobe_no_probe
    (eat : Z) (name : option string) (insns : option (list bpf_insn)) (insns_cnt : Z)
    (license : list byte) (kern_version prog_ifindex : Z) (w : world)
    (Hinsns : is_Some insns) (Hcnt : to_size_t insns_cnt <> 0)
    (Hfail : quiet_failure BPF_PROG_TYPE_KPROBE eat name insns insns_cnt license
                           kern_version prog_ifindex w)
    (Hsmall : to_size_t insns_cnt < BPF_MAXINSNS) :
  exists w',
    run_load_program BPF_PROG_TYPE_KPROBE eat name insns insns_cnt license
                     kern_version prog_ifindex w
    = Some (if has_log_buf w then - LIBBPF_ERRNO__KVER else - LIBBPF_ERRNO__LOAD,
            None, w') /\
    trace w' =
      (first_call BPF_PROG_TYPE_KPROBE eat name insns insns_cnt license kern_version
                  prog_ifindex w,
       first_answer BPF_PROG_TYPE_KPROBE eat name insns insns_cnt license kern_version
                    prog_ifindex w)
      :: (Alloc, reply w Alloc) :: trace w.
Proof.
  destruct Hfail as [Hneg Hlog]. unfold_load.
  run.
  rewrite bool_decide_eq_true_2 by done. simpl.
  apply Z.eqb_neq in Hcnt. rewrite Hcnt. simpl.
  destruct (Z.leb_spec 0 (to_int (a_ret (reply (record w Alloc)
     (LoadProgramXattr (mk_load_attr BPF_PROG_TYPE_KPROBE eat name insns
        (to_size_t insns_cnt) license kern_version prog_ifindex)
        (negb (a_ret (reply w Alloc) =? 0))))))) as [?|_]; [lia|].
  destruct (Z.leb_spec BPF_MAXINSNS (to_size_t insns_cnt)) as [?|_]; [lia|].
  destruct (negb (a_ret (reply w Alloc) =? 0)) eqn:Hbuf; simpl.
  - destruct Hlog as [?|Hlog]; [done|]. rewrite Hlog. simpl.
    eexists; split; reflexivity.
  - eexists; split; reflexivity.
Qed.

Lemma load_program_kprobe_no_probe_witness :
  let w := scripted [ans 1; ans (-1)] in
  exists w',
    run_load_program BPF_PROG_TYPE_KPROBE 0 (Some "p"%string) (Some [exit_insn]) 1 [] 0 0 w
    = Some (if has_log_buf w then - LIBBPF_ERRNO__KVER else - LIBBPF_ERRNO__LOAD,
            None, w') /\
    trace w' =
      (first_call BPF_PROG_TYPE_KPROBE 0 (Some "p"%string) (Some [exit_insn]) 1 [] 0 0 w,
       first_answer BPF_PROG_TYPE_KPROBE 0 (Some "p"%string) (Some [exit_insn]) 1 [] 0 0 w)
      :: (Alloc, reply w Alloc) :: trace w.
Proof.
  apply load_program_kprobe_no_probe.
  - eexists; reflexivity.
  - vm_compute; discriminate.
  - split; [vm_compute; reflexivity | right; reflexivity].
  - vm_compute; reflexivity.
Defined.

Lemma load_program_kprobe_quiet_failure :
  run_load_program BPF_PROG_TYPE_KPROBE 0 (Some "p"%string) (Some [exit_insn]) 1 [] 0 0
                   (scripted [ans 1; ans (-1)])
  = Some (- LIBBPF_ERRNO__KVER, None,
          mk_world (oracle (scripted [ans 1; ans (-1)]))
                   [(LoadProgramXattr
                       (mk_load_attr BPF_PROG_TYPE_KPROBE 0 (Some "p"%string)
                                     (Some [exit_insn]) 1 [] 0 0) true, ans (-1));
                    (Alloc, ans 1)] 0).
Proof. reflexivity. Qed.

(** C3 as stated fails: a failed quiet submission of a kprobe program is
    classified KVER without any second submission. *)
Lemma load_program_not_always_probed :
  ~ (forall type eat name insns insns_cnt license kver ifindex w r pfd w',
       is_Some insns -> to_size_t insns_cnt <> 0 ->
       quiet_failure type eat name insns insns_cnt license kver ifindex w ->
       to_size_t insns_cnt < BPF_MAXINSNS ->
       run_load_program type eat name insns insns_cnt license kver ifindex w
         = Some (r, pfd, w') ->
       exists a rest,
         (probe_call name insns insns_cnt license kver ifindex, a) :: rest = trace w'
         \/ exists c, c :: (probe_call name insns insns_cnt license kver ifindex, a) :: rest
                      = trace w').
Proof.
  intros H.
  pose proof load_program_kprobe_quiet_failure as Hrun.
  apply H in Hrun.
  - destruct Hrun as (a & rest & [Heq | [c Heq]]); cbn [trace] in Heq; discriminate Heq.
  - by eexists.
  - vm_compute; discriminate.
  - split; [vm_compute; reflexivity | right; reflexivity].
  - vm_compute; reflexivity.
Qed.

Lemma load_program_unfold
    (type : bpf_prog_type) (eat : Z) (name : option string)
    (insns : option (list bpf_insn)) (insns_cnt : Z)
    (license : list byte) (kver ifindex : Z) (w : world)
    (Hinsns : is_Some insns) (Hcnt : to_size_t insns_cnt <> 0) :
  let buf := has_log_buf w in
  let first := first_answer type eat name insns insns_cnt license kver ifindex w in
  let w1 := after_first type eat name insns insns_cnt license kver ifindex w in
  let probe := probe_call name insns insns_cnt license kver ifindex in
  let pans := probe_answer type eat name insns insns_cnt license kver ifindex w in
  run_load_program type eat name insns insns_cnt license kver ifindex w =
  Some (if 0 <=? to_int (a_ret first) then (0, Some (to_int (a_ret first)), w1)
        else if buf && negb (bool_decide (a_log first = EmptyString))
        then (- LIBBPF_ERRNO__VERIFY, None, w1)
        else if BPF_MAXINSNS <=? to_size_t insns_cnt
        then (- LIBBPF_ERRNO__PROG2BIG, None, w1)
        else if bool_decide (type = BPF_PROG_TYPE_KPROBE)
        then (if buf then - LIBBPF_ERRNO__KVER else - LIBBPF_ERRNO__LOAD, None, w1)
        else if 0 <=? to_int (a_ret pans)
        then (- LIBBPF_ERRNO__PROGTYPE, None,
              record (record w1 probe) (Close (to_int (a_ret pans))))
        else (if buf then - LIBBPF_ERRNO__KVER else - LIBBPF_ERRNO__LOAD, None,
              record w1 probe)).
Proof.
  intros buf first w1 probe pans. subst buf first w1 probe pans.
  unfold run_load_program, load_program, first_answer, after_first, probe_answer,
    probe_call, after_first, first_call, submitted, has_log_buf.
  cbn [la_insns la_insns_cnt la_prog_type la_name la_license la_kern_version la_prog_ifindex].
  rewrite bool_decide_eq_true_2 by done.
  apply Z.eqb_neq in Hcnt. rewrite Hcnt. cbn [negb orb].
  unfold bind at 1. unfold alloc at 1. unfold bind at 1. unfold sys at 1. unfold ret at 1.
  set (buf := negb (a_ret (reply w Alloc) =? 0)).
  unfold bind at 1. unfold bpf_load_program_xattr at 1. unfold bind at 1, sys at 1, ret at 1.
  set (first := reply (record w Alloc) (LoadProgramXattr _ buf)).
  set (w1 := record (record w Alloc) (LoadProgramXattr _ buf)).
  destruct (0 <=? to_int (a_ret first)); [reflexivity|].
  assert ((if buf then a_log first else EmptyString) = EmptyString
          <-> (buf = false \/ a_log first = EmptyString)) as Hlog.
  { destruct buf; [split; [by right | by intros [?|?]] | split; [by left | done]]. }
  destruct (buf && negb (bool_decide (a_log first = EmptyString))) eqn:Hv.
  - apply andb_true_iff in Hv as [-> Hv]. rewrite Hv. reflexivity.
  - rewrite (proj2 (andb_false_iff _ _)); last first.
    { apply andb_false_iff in Hv as [Hv|Hv]; [by left|right].
      apply negb_false_iff, bool_decide_eq_true_1 in Hv.
      apply negb_false_iff, bool_decide_eq_true_2, Hlog. by right. }
    destruct (BPF_MAXINSNS <=? to_size_t insns_cnt); [reflexivity|].
    unfold bind at 1.
    destruct (bool_decide (type = BPF_PROG_TYPE_KPROBE)); cbn [negb].
    + unfold ret at 1. by destruct buf.
    + unfold bind at 1, bpf_load_program_xattr at 1, bind at 1, sys at 1, ret at 1.
      set (pans := reply w1 _).
      destruct (0 <=? to_int (a_ret pans)).
      * reflexivity.
      * unfold ret at 1. by destruct buf.
Qed.

(** C3 (amended): the classification of a submission with instructions
    and a non-zero count.  Success captures the descriptor; a failure
    with a non-empty log is VERIFY; otherwise a count at or above the
    maximum is PROG2BIG; otherwise, for a kind other than kprobe, the
    request is submitted once more as kprobe with attach kind zero: if
    that succeeds the probe descriptor is closed and the result is
    PROGTYPE, and if it fails the result is KVER when a log buffer was
    allocated and LOAD when it was not. *)
Theorem load_program_classification
    (type : bpf_prog_type) (eat : Z) (name : option string)
    (insns : option (list bpf_insn)) (insns_cnt : Z)
    (license : list byte) (kver ifindex : Z) (w : world)
    (Hinsns : is_Some insns) (Hcnt : to_size_t insns_cnt <> 0) :
  let first := first_answer type eat name insns insns_cnt license kver ifindex w in
  let w1 := after_first type eat name insns insns_cnt license kver ifindex w in
  let probe := probe_call name insns insns_cnt license kver ifindex in
  let pans := probe_answer type eat name insns insns_cnt license kver ifindex w in
  exists r pfd w',
    run_load_program type eat name insns insns_cnt license kver ifindex w
      = Some (r, pfd, w') /\
    (0 <= to_int (a_ret first) ->
       r = 0 /\ pfd = Some (to_int (a_ret first)) /\ w' = w1) /\
    (to_int (a_ret first) < 0 -> has_log_buf w = true -> a_log first <> EmptyString ->
       r = - LIBBPF_ERRNO__VERIFY /\ w' = w1) /\
    (quiet_failure type eat name insns insns_cnt license kver ifindex w ->
       BPF_MAXINSNS <= to_size_t insns_cnt ->
       r = - LIBBPF_ERRNO__PROG2BIG /\ w' = w1) /\
    (quiet_failure type eat name insns insns_cnt license kver ifindex w ->
       to_size_t insns_cnt < BPF_MAXINSNS -> type <> BPF_PROG_TYPE_KPROBE ->
       (0 <= to_int (a_ret pans) ->
          r = - LIBBPF_ERRNO__PROGTYPE /\
          w' = record (record w1 probe) (Close (to_int (a_ret pans)))) /\
       (to_int (a_ret pans) < 0 ->
          r = (if has_log_buf w then - LIBBPF_ERRNO__KVER else - LIBBPF_ERRNO__LOAD) /\
          w' = record w1 probe)).
Proof.
  intros first w1 probe pans.
  pose proof (load_program_unfold type eat name insns insns_cnt license kver ifindex w
                Hinsns Hcnt) as Hrun.
  cbv zeta in Hrun. fold first w1 probe pans in Hrun. rewrite Hrun. clear Hrun.
  unfold quiet_failure. fold first. clearbody first w1 probe pans.
  destruct (Z.leb_spec 0 (to_int (a_ret first))) as [Hr|Hr].
  { eexists _, _, _. split; [reflexivity|]. repeat split; intros; try lia.
    all: destruct_and?; lia. }
  destruct (has_log_buf w) eqn:Hbuf; cbn [andb].
  - destruct (decide (a_log first = EmptyString)) as [Hlog|Hlog].
    + rewrite bool_decide_eq_true_2 by done. cbn [negb].
      destruct (Z.leb_spec BPF_MAXINSNS (to_size_t insns_cnt)) as [Hbig|Hbig].
      { eexists _, _, _. split; [reflexivity|]. repeat split; intros; try lia; try done. }
      destruct (decide (type = BPF_PROG_TYPE_KPROBE)) as [Hk|Hk].
      { rewrite bool_decide_eq_true_2 by done.
        eexists _, _, _. split; [reflexivity|]. repeat split; intros; try lia; try done. }
      rewrite bool_decide_eq_false_2 by done.
      destruct (Z.leb_spec 0 (to_int (a_ret pans))) as [Hp|Hp].
      all: eexists _, _, _; (split; [reflexivity|]); repeat split; intros; try lia; try done.
    + rewrite bool_decide_eq_false_2 by done. cbn [negb].
      eexists _, _, _. split; [reflexivity|]. repeat split; intros; try lia; try done.
      all: destruct_and?; destruct_or?; done.
  - destruct (Z.leb_spec BPF_MAXINSNS (to_size_t insns_cnt)) as [Hbig|Hbig].
    { eexists _, _, _. split; [reflexivity|]. repeat split; intros; try lia; try done. }
    destruct (decide (type = BPF_PROG_TYPE_KPROBE)) as [Hk|Hk].
    { rewrite bool_decide_eq_true_2 by done.
      eexists _, _, _. split; [reflexivity|]. repeat split; intros; try lia; try done. }
    rewrite bool_decide_eq_false_2 by done.
    destruct (Z.leb_spec 0 (to_int (a_ret pans))) as [Hp|Hp].
    all: eexists _, _, _; (split; [reflexivity|]); repeat split; intros; try lia; try done.
Qed.

(** ** Reasoning about the monad and the loops *)

Lemma bind_Some {A B} (c : M A) (k : A -> M B) (w : world) (x : B * world) :
  bind c k w = Some x <-> exists a w', c w = Some (a, w') /\ k a w' = Some x.
Proof.
  unfold bind. destruct (c w) as [[a w']|]; split.
  - eauto.
  - intros (? & ? & ? & ?); by simplify_eq.
  - done.
  - intros (? & ? & ? & ?); done.
Qed.

Lemma ret_Some {A} (a : A) (w : world) (x : A * world) :
  ret a w = Some x <-> x = (a, w).
Proof. unfold ret. split; intros; by simplify_eq. Qed.

Lemma deref_Some {A} (o : option A) (w : world) (x : A * world) :
  deref o w = Some x <-> o = Some x.1 /\ x.2 = w.
Proof.
  destruct o, x; unfold deref, ret, trap; simpl; split;
    try (intros [??]); intros; by simplify_eq.
Qed.

(** Decompose a hypothesis saying that a monadic computation returned. *)
Ltac minv H :=
  lazymatch type of H with
  | bind _ _ _ = Some _ =>
      let a := fresh "a" in let w := fresh "w" in
      let H1 := fresh "Hc" in
      apply bind_Some in H; destruct H as (a & w & H1 & H);
      repeat match goal with x : (_ * _)%type |- _ => destruct x end;
      minv H1; minv H
  | ret _ _ = Some _ => apply ret_Some in H; simplify_eq
  | deref _ _ = Some _ =>
      let H1 := fresh "Hd" in
      apply deref_Some in H; simpl in H; destruct H as [H H1]; subst
  | (if ?b then _ else _) _ = Some _ => destruct b eqn:?; minv H
  | match ?x with _ => _ end _ = Some _ => destruct x eqn:?; minv H
  | trap _ = Some _ => discriminate H
  | _ => idtac
  end.

Lemma for_each_invariant {S} (P : S -> Prop) (body : Z -> S -> M (Z * S)) :
  (forall i s w r s' w', P s -> body i s w = Some (r, s', w') -> P s') ->
  forall n i s w r s' w',
    P s -> for_each n i body s w = Some (r, s', w') -> P s'.
Proof.
  intros Hbody n. induction n as [|n IH]; intros i s w r s' w' HP H; simpl in H.
  - apply ret_Some in H. by simplify_eq.
  - apply bind_Some in H. destruct H as ([e s1] & w1 & Hb & H).
    destruct (negb (e =? 0)).
    + apply ret_Some in H. simplify_eq. eauto.
    + eauto.
Qed.

(** ** The loaded flag *)

Lemma close_maps_loaded n obj w r obj' w' :
  close_maps n obj w = Some (r, obj', w') -> loaded obj' = loaded obj.
Proof.
  unfold close_maps.
  apply (for_each_invariant (fun o => loaded o = loaded obj)); [|done].
  intros i s wa ra s' wb HP H. minv H. by simplify_eq.
Qed.

Lemma create_maps_loaded obj w r obj' w' :
  bpf_object__create_maps obj w = Some (r, obj', w') -> loaded obj' = loaded obj.
Proof.
  unfold bpf_object__create_maps.
  apply (for_each_invariant (fun o => loaded o = loaded obj)); [|done].
  intros i s wa ra s' wb HP H. minv H; simplify_eq; try done.
  all: match goal with H : close_maps _ _ _ = Some _ |- _ =>
         apply close_maps_loaded in H; simpl in H; congruence end.
Qed.

Lemma reloc_text_loaded pi obj relo w r obj' w' :
  bpf_program__reloc_text pi obj relo w = Some (r, obj', w') -> loaded obj' = loaded obj.
Proof. unfold bpf_program__reloc_text. intros H. minv H; by simplify_eq. Qed.

Lemma program_relocate_loaded pi obj w r obj' w' :
  bpf_program__relocate pi obj w = Some (r, obj', w') -> loaded obj' = loaded obj.
Proof.
  unfold bpf_program__relocate. intros H. minv H; simplify_eq; try done.
  all: match goal with H : for_each _ _ _ _ _ = Some _ |- _ =>
         apply (for_each_invariant (fun o => loaded o = loaded obj)) in H; [|clear H|done] end.
  all: try (simpl; congruence).
  all: intros i s wa ra s' wb HP H; unfold relocate_step in H; minv H;
       simplify_eq; try done.
  all: match goal with H : bpf_program__reloc_text _ _ _ _ = Some _ |- _ =>
         apply reloc_text_loaded in H end.
  all: by etrans.
Qed.

Lemma relocate_loaded obj w r obj' w' :
  bpf_object__relocate obj w = Some (r, obj', w') -> loaded obj' = loaded obj.
Proof.
  unfold bpf_object__relocate.
  apply (for_each_invariant (fun o => loaded o = loaded obj)); [|done].
  intros i s wa ra s' wb HP H. apply program_relocate_loaded in H. congruence.
Qed.

Lemma load_progs_loaded obj w r obj' w' :
  bpf_object__load_progs obj w = Some (r, obj', w') -> loaded obj' = loaded obj.
Proof.
  unfold bpf_object__load_progs.
  apply (for_each_invariant (fun o => loaded o = loaded obj)); [|done].
  intros i s wa ra s' wb HP H. unfold load_progs_step in H. minv H; by simplify_eq.
Qed.

Lemma unload_loaded obj w r obj' w' :
  bpf_object__unload obj w = Some (r, obj', w') -> loaded obj' = loaded obj.
Proof.
  unfold bpf_object__unload. intros H. minv H. simplify_eq.
  match goal with H : close_maps _ _ _ = Some _ |- _ => apply close_maps_loaded in H end.
  match goal with H : for_each _ _ _ _ _ = Some _ |- _ =>
    apply (for_each_invariant (fun o => loaded o = loaded obj)) in H; [done| |done] end.
  intros i s wa ra s' wb HP H. minv H; by simplify_eq.
Qed.

Lemma load_sets_loaded obj w r obj' w' :
  bpf_object__load obj w = Some (r, obj', w') -> loaded obj' = true.
Proof.
  unfold bpf_object__load. intros H.
  destruct (loaded obj) eqn:Hl.
  - apply ret_Some in H. by simplify_eq.
  - minv H; simplify_eq;
    repeat match goal with
    | H : bpf_object__create_maps _ _ = Some _ |- _ => apply create_maps_loaded in H
    | H : bpf_object__relocate _ _ = Some _ |- _ => apply relocate_loaded in H
    | H : bpf_object__load_progs _ _ = Some _ |- _ => apply load_progs_loaded in H
    | H : bpf_object__unload _ _ = Some _ |- _ => apply unload_loaded in H
    end; simpl in *; congruence.
Qed.

(** C4: a second load of the same object fails with EINVAL and changes
    neither the object nor the world (no call is made). *)
Theorem load_twice_einval (obj : bpf_object) (w : world)
    (r1 : Z) (obj1 : bpf_object) (w1 : world)
    (Hfirst : bpf_object__load obj w = Some (r1, obj1, w1)) :
  bpf_object__load obj1 w1 = Some (- EINVAL, obj1, w1).
Proof.
  apply load_sets_loaded in Hfirst.
  unfold bpf_object__load. by rewrite Hfirst.
Qed.

(** ** The submission loop *)

Lemma zlookup_nat {A} (l : list A) (k : nat) : zlookup l (Z.of_nat k) = l !! k.
Proof.
  unfold zlookup. destruct (Z.ltb_spec (Z.of_nat k) 0); [lia|]. by rewrite Nat2Z.id.
Qed.

Lemma zinsert_nat {A} (l : list A) (k : nat) (x : A) :
  zinsert (Z.of_nat k) x l = <[k := x]> l.
Proof.
  unfold zinsert. destruct (Z.ltb_spec (Z.of_nat k) 0); [lia|]. by rewrite Nat2Z.id.
Qed.

Lemma load_progs_step_at (obj : bpf_object) (pre ps : list bpf_program)
    (p : bpf_program) (w : world) :
  load_progs_step (Z.of_nat (length pre)) (set_programs obj (pre ++ p :: ps)) w =
  if bpf_program__is_function_storage p obj
  then Some (0, set_programs obj (pre ++ p :: ps), w)
  else match bpf_program__load p (license obj) (kern_version obj) w with
       | Some (e, p', w1) => Some (e, set_programs obj (pre ++ p' :: ps), w1)
       | None => None
       end.
Proof.
  unfold load_progs_step, bind. cbn [programs set_programs license kern_version].
  rewrite zlookup_nat, list_lookup_middle by done. cbn [deref ret].
  change (bpf_program__is_function_storage p (set_programs obj (pre ++ p :: ps)))
    with (bpf_program__is_function_storage p obj).
  destruct (bpf_program__is_function_storage p obj); [reflexivity|].
  destruct (bpf_program__load p (license obj) (kern_version obj) w)
    as [[[e p'] w1]|]; [|reflexivity].
  rewrite zinsert_nat, insert_app_r_alt, Nat.sub_diag by lia. reflexivity.
Qed.

Lemma load_progs_loop_traversal (obj : bpf_object) (ps : list bpf_program) :
  forall (n : nat) (pre : list bpf_program) (w : world),
    (n <= length ps)%nat ->
    for_each n (Z.of_nat (length pre)) load_progs_step (set_programs obj (pre ++ ps)) w
    = match load_each (fun p => bpf_program__is_function_storage p obj)
                      (license obj) (kern_version obj) (take n ps) w with
      | Some (err, ps', w') => Some (err, set_programs obj (pre ++ ps' ++ drop n ps), w')
      | None => None
      end.
Proof.
  induction ps as [|p ps IH]; intros n pre w Hn.
  - simpl in Hn. assert (n = 0)%nat as -> by lia. simpl. unfold ret.
    by rewrite app_nil_r.
  - destruct n as [|n]; [reflexivity|]. simpl in Hn.
    cbn [for_each take load_each drop].
    assert (Hidx : forall p' : bpf_program,
               Z.of_nat (length pre) + 1 = Z.of_nat (length (pre ++ [p']))).
    { intros p'. rewrite length_app. simpl. lia. }
    unfold bind at 1. rewrite load_progs_step_at.
    destruct (bpf_program__is_function_storage p obj) eqn:Hskip.
    + change (negb (0 =? 0)) with false. cbv iota.
      rewrite (cons_middle p pre ps), app_assoc, (Hidx p), IH by lia.
      unfold bind, ret.
      destruct (load_each _ _ _ (take n ps) w) as [[[e ps'] w']|]; [|done].
      by rewrite <- app_assoc.
    + unfold bind at 1.
      destruct (bpf_program__load p (license obj) (kern_version obj) w)
        as [[[e p'] w1]|]; [|done].
      destruct (negb (e =? 0)) eqn:He.
      * unfold ret. cbn [app]. by rewrite take_drop.
      * rewrite (cons_middle p' pre ps), app_assoc, (Hidx p'), IH by lia.
        unfold bind, ret.
        destruct (load_each _ _ _ (take n ps) w1) as [[[e' ps'] w']|]; [|done].
        by rewrite <- app_assoc.
Qed.

Lemma load_each_filter (skip : bpf_program -> bool) (license : list byte) (kv : Z)
    (ps : list bpf_program) :
  forall w,
    match load_each skip license kv ps w with
    | Some (e, ps', w') =>
        (exists ps'', load_each skip license kv (filter (fun p => skip p = false) ps) w
                      = Some (e, ps'', w')) /\
        length ps' = length ps /\
        (forall (i : nat) p, ps !! i = Some p -> skip p = true -> ps' !! i = Some p)
    | None => True
    end.
Proof.
  induction ps as [|p ps IH]; intros w.
  - simpl. unfold ret. split; [by eexists|]. done.
  - cbn [load_each]. destruct (skip p) eqn:Hskip.
    + rewrite filter_cons_False by (by rewrite Hskip).
      unfold bind. specialize (IH w).
      destruct (load_each skip license kv ps w) as [[[e ps'] w']|]; [|done].
      destruct IH as ((ps'' & Hf) & Hlen & Hsame). unfold ret.
      split; [by eexists|]. split; [simpl; lia|].
      intros [|i] q Hq Hs; simpl in *; [done|]. eauto.
    + rewrite filter_cons_True by done. cbn [load_each]. rewrite Hskip.
      unfold bind.
      destruct (bpf_program__load p license kv w) as [[[e p'] w1]|]; [|done].
      destruct (negb (e =? 0)).
      * unfold ret. split; [by eexists|]. split; [done|].
        intros [|i] q Hq Hs; simpl in *; [congruence|done].
      * specialize (IH w1).
        destruct (load_each skip license kv ps w1) as [[[e' ps'] w']|]; [|done].
        destruct IH as ((ps'' & Hf) & Hlen & Hsame). rewrite Hf. unfold ret.
        split; [by eexists|]. split; [simpl; lia|].
        intros [|i] q Hq Hs; simpl in *; [congruence|]. eauto.
Qed.

Lemma load_progs_as_traversal (obj : bpf_object) (w : world) :
  nr_programs obj = Z.of_nat (length (programs obj)) ->
  bpf_object__load_progs obj w =
  match load_each (fun p => bpf_program__is_function_storage p obj)
                  (license obj) (kern_version obj) (programs obj) w with
  | Some (err, ps', w') => Some (err, set_programs obj ps', w')
  | None => None
  end.
Proof.
  intros Hwf. unfold bpf_object__load_progs. rewrite Hwf, Nat2Z.id.
  pose proof (load_progs_loop_traversal obj (programs obj) (length (programs obj)) [] w
                (le_n _)) as H.
  cbn [app length] in H. change (Z.of_nat 0) with 0 in H.
  rewrite firstn_all, drop_all in H.
  assert (set_programs obj (programs obj) = obj) as Hobj by (by destruct obj).
  rewrite Hobj in H. rewrite H.
  destruct (load_each _ _ _ _ w) as [[[e ps'] w']|]; [|done].
  by rewrite app_nil_r.
Qed.

Lemma text_only_obj_submits_text :
  bpf_object__load_progs text_only_obj (scripted [ans 1; ans 1; ans 9])
  = Some (0,
          set_programs text_only_obj
            [set_instances (zfree_insns text_prog) 1 (Some [9])],
          mk_world (oracle (scripted [ans 1; ans 1; ans 9]))
            [(LoadProgramXattr
                (mk_load_attr BPF_PROG_TYPE_KPROBE 0 (Some ".text"%string)
                              (Some [mk_insn 183 0 0 0 1; exit_insn]) 2 [] 0 0) true,
              ans 9);
             (Alloc, ans 1); (Alloc, ans 1)] 0).
Proof. reflexivity. Qed.

(** C7 as stated fails: without local calls in the object, the program
    of the [.text] section is submitted like any other and receives a
    descriptor. *)
Lemma text_program_submitted_without_calls :
  ~ (forall obj w r obj' w' (i : nat) p,
       bpf_object__load_progs obj w = Some (r, obj', w') ->
       programs obj !! i = Some p -> idx p = text_shndx (efile obj) ->
       programs obj' !! i = Some p).
Proof.
  intros H.
  specialize (H _ _ _ _ _ 0%nat text_prog text_only_obj_submits_text eq_refl eq_refl).
  discriminate H.
Qed.

Lemma load_each_ext (skip skip' : bpf_program -> bool) (license : list byte) (kv : Z)
    (ps : list bpf_program) :
  (forall p, p ∈ ps -> skip p = skip' p) ->
  forall w, load_each skip license kv ps w = load_each skip' license kv ps w.
Proof.
  induction ps as [|p ps IH]; intros Hext w; [reflexivity|].
  cbn [load_each]. rewrite <- (Hext p) by (by left).
  assert (Hrest : forall w', load_each skip license kv ps w' = load_each skip' license kv ps w').
  { apply IH. intros q Hq. apply Hext. by right. }
  destruct (skip p).
  - unfold bind. by rewrite Hrest.
  - unfold bind. destruct (bpf_program__load p license kv w) as [[[e p'] w1]|]; [|done].
    destruct (negb (e =? 0)); [done|]. by rewrite Hrest.
Qed.

(** C7 (amended): when the object has local calls, the submission loop
    skips the program of the [.text] section: that program is left as it
    was, and the calls made and the result are those of loading the
    object with the [.text] program taken out.  When the object has no
    local calls, the loop skips no program: it is the traversal that
    hands every program of the table, the one of the [.text] section
    like any other, to [bpf_program__load], until one fails. *)
Theorem load_progs_skips_text (obj : bpf_object) (w : world)
    (Hwf : nr_programs obj = Z.of_nat (length (programs obj))) :
  (has_pseudo_calls obj = true ->
   forall (r : Z) (obj' : bpf_object) (w' : world),
     bpf_object__load_progs obj w = Some (r, obj', w') ->
     (forall (i : nat) p,
        programs obj !! i = Some p -> idx p = text_shndx (efile obj) ->
        programs obj' !! i = Some p) /\
     (exists obj'',
        bpf_object__load_progs (without_function_storage obj) w = Some (r, obj'', w'))) /\
  (has_pseudo_calls obj = false ->
   bpf_object__load_progs obj w =
   match load_each (fun _ => false) (license obj) (kern_version obj) (programs obj) w with
   | Some (err, ps', w') => Some (err, set_programs obj ps', w')
   | None => None
   end).
Proof.
  split.
  - intros Hcalls r obj' w' Hrun.
    rewrite load_progs_as_traversal in Hrun by done.
    rewrite load_progs_as_traversal by (by simpl).
    cbn [license kern_version programs without_function_storage].
    pose proof (load_each_filter (fun p => bpf_program__is_function_storage p obj)
                  (license obj) (kern_version obj) (programs obj) w) as Hf.
    destruct (load_each _ _ _ (programs obj) w) as [[[e ps'] w1]|]; [|done].
    simplify_eq. destruct Hf as ((ps'' & Hf) & Hlen & Hsame). split.
    + intros i p Hp Hidx. cbn [programs set_programs]. apply Hsame; [done|].
      unfold bpf_program__is_function_storage. rewrite Hcalls.
      by apply andb_true_iff, conj; [apply Z.eqb_eq|].
    + change (fun p => bpf_program__is_function_storage p (without_function_storage obj))
        with (fun p => bpf_program__is_function_storage p obj).
      rewrite Hf. by eexists.
  - intros Hnone. rewrite load_progs_as_traversal by done.
    rewrite (load_each_ext (fun p => bpf_program__is_function_storage p obj)
               (fun _ => false)); [done|].
    intros p _. unfold bpf_program__is_function_storage. rewrite Hnone.
    apply andb_false_r.
Qed.

(** ** Relocation *)

Lemma zlookup_app_l {A} (l1 l2 : list A) (i : Z) :
  0 <= i < Z.of_nat (length l1) -> zlookup (l1 ++ l2) i = zlookup l1 i.
Proof.
  intros Hi. unfold zlookup. destruct (Z.ltb_spec i 0); [lia|].
  apply lookup_app_l. lia.
Qed.

Lemma zinsert_app_l {A} (l1 l2 : list A) (i : Z) (x : A) :
  0 <= i < Z.of_nat (length l1) -> zinsert i x (l1 ++ l2) = zinsert i x l1 ++ l2.
Proof.
  intros Hi. unfold zinsert. destruct (Z.ltb_spec i 0); [lia|].
  apply insert_app_l. lia.
Qed.

Lemma zlookup_in_range {A} (l : list A) (i : Z) :
  0 <= i < Z.of_nat (length l) -> is_Some (zlookup l i).
Proof.
  intros Hi. unfold zlookup. destruct (Z.ltb_spec i 0); [lia|].
  apply lookup_lt_is_Some. lia.
Qed.

Lemma length_zinsert {A} (l : list A) (i : Z) (x : A) :
  length (zinsert i x l) = length l.
Proof. unfold zinsert. destruct (i <? 0); [done|]. apply length_insert. Qed.

Lemma length_bias_call main i ins : length (bias_call main i ins) = length ins.
Proof. unfold bias_call. destruct (zlookup ins i); [apply length_zinsert|done]. Qed.

Lemma length_patch_map_fd v i ins : length (patch_map_fd v i ins) = length ins.
Proof. unfold patch_map_fd. destruct (zlookup ins i); [apply length_zinsert|done]. Qed.

Lemma patch_map_fd_app_l v i l1 l2 :
  0 <= i < Z.of_nat (length l1) ->
  patch_map_fd v i (l1 ++ l2) = patch_map_fd v i l1 ++ l2.
Proof.
  intros Hi. unfold patch_map_fd. rewrite zlookup_app_l by done.
  destruct (zlookup l1 i); [by apply zinsert_app_l|done].
Qed.

Lemma find_prog_from_insert (ps : list bpf_program) (t : Z) (p q : bpf_program) :
  forall (pi n : nat),
    ps !! pi = Some p -> idx p <> t -> idx q <> t ->
    find_prog_from (take n (<[pi := q]> ps)) t = find_prog_from (take n ps) t.
Proof.
  induction ps as [|a ps IH]; intros pi n Hp Hpt Hqt; [done|].
  destruct n as [|n]; [done|]. destruct pi as [|pi]; simpl in *.
  - simplify_eq. destruct (Z.eqb_spec (idx q) t); [done|].
    destruct (Z.eqb_spec (idx p) t); done.
  - destruct (idx a =? t); [done|]. by apply IH.
Qed.
Lemma to_int_small (x : Z) : 0 <= x <= INT_MAX -> to_int x = x.
Proof.
  unfold to_int, wrap_signed, INT_MAX. intros Hx.
  change (2 ^ (32 - 1)) with 2147483648. change (2 ^ 32) with 4294967296.
  change (2 ^ 31 - 1) with 2147483647 in Hx.
  rewrite Z.mod_small by lia. lia.
Qed.

Lemma to_size_t_small (x : Z) : 0 <= x <= INT_MAX -> to_size_t x = x.
Proof.
  unfold to_size_t, wrap_unsigned, INT_MAX. intros Hx.
  change (2 ^ 31 - 1) with 2147483647 in Hx.
  apply Z.mod_small. change (2 ^ 64) with 18446744073709551616. lia.
Qed.

Section Relocate.
Variables (obj : bpf_object) (pi : nat) (prog : bpf_program).
Variables (pins : list bpf_insn) (rds : list reloc_desc).
Hypothesis Hprog : programs obj !! pi = Some prog.
Hypothesis Hrds : relocs prog = Some rds.
Hypothesis Hwf : relocs_in_range (maps obj) (Z.of_nat (length pins)) rds.

Local Abbreviation ncaller := (Z.of_nat (length pins)).

Lemma with_insns_lookup cur cnt main :
  zlookup (programs (with_insns obj pi prog cur cnt main)) (Z.of_nat pi)
  = Some (set_insns prog (Some cur) cnt main).
Proof.
  unfold with_insns. cbn [programs set_programs]. rewrite zlookup_nat.
  apply list_lookup_insert_eq. by eapply lookup_lt_Some.
Qed.

Lemma with_insns_again cur cnt main cur' cnt' main' :
  set_programs (with_insns obj pi prog cur cnt main)
    (zinsert (Z.of_nat pi)
       (set_insns (set_insns prog (Some cur) cnt main) (Some cur') cnt' main')
       (programs (with_insns obj pi prog cur cnt main)))
  = with_insns obj pi prog cur' cnt' main'.
Proof.
  unfold with_insns. cbn [programs set_programs]. rewrite zinsert_nat.
  by rewrite list_insert_insert_eq.
Qed.

Lemma relocs_lookup_in_range (i : nat) (rd : reloc_desc) :
  rds !! i = Some rd ->
  0 <= insn_idx rd < ncaller /\
  (relo_type rd = RELO_LD64 -> is_Some (zlookup (maps obj) (map_idx rd))).
Proof.
  intros Hi. unfold relocs_in_range in Hwf. rewrite Forall_lookup in Hwf. by eapply Hwf.
Qed.

Lemma relocate_step_ld64 cur cnt main (i : nat) rd w :
  rds !! i = Some rd -> relo_type rd = RELO_LD64 ->
  ncaller <= Z.of_nat (length cur) -> ncaller <= cnt <= INT_MAX ->
  relocate_step (Z.of_nat pi) (Z.of_nat i) (with_insns obj pi prog cur cnt main) w
  = Some (0, with_insns obj pi prog (apply_reloc (maps obj) ncaller cur rd) cnt main, w).
Proof.
  intros Hi Hty Hlen Hcnt.
  destruct (relocs_lookup_in_range i rd Hi) as [Hidx Hmap].
  destruct (Hmap Hty) as [m Hm].
  destruct (zlookup_in_range cur (insn_idx rd)) as [insn Hinsn]; [lia|].
  unfold relocate_step, bind. rewrite with_insns_lookup. cbn [deref ret relocs set_insns].
  rewrite Hrds. cbn [deref ret]. rewrite zlookup_nat, Hi. cbn [deref ret].
  rewrite bool_decide_eq_true_2 by done.
  change (insns_cnt (set_insns prog (Some cur) cnt main)) with cnt.
  change (insns (set_insns prog (Some cur) cnt main)) with (Some cur).
  change (main_prog_cnt (set_insns prog (Some cur) cnt main)) with main.
  rewrite to_int_small by lia.
  destruct (Z.leb_spec cnt (insn_idx rd)); [lia|].
  cbn [deref ret]. rewrite Hinsn. cbn [deref ret].
  change (maps (with_insns obj pi prog cur cnt main)) with (maps obj).
  rewrite Hm. cbn [deref ret]. rewrite with_insns_again.
  unfold apply_reloc, patch_map_fd. by rewrite Hty, Hm, Hinsn.
Qed.

Lemma with_insns_find_text cur cnt main (text : bpf_program) :
  idx prog <> text_shndx (efile obj) ->
  bpf_object__find_prog_by_idx obj (text_shndx (efile obj)) = Some text ->
  bpf_object__find_prog_by_idx (with_insns obj pi prog cur cnt main)
                               (text_shndx (efile obj)) = Some text.
Proof.
  intros Hne Hfind. unfold bpf_object__find_prog_by_idx, with_insns in *.
  cbn [programs set_programs nr_programs].
  by rewrite (find_prog_from_insert _ _ prog).
Qed.

Lemma relocate_step_call_enter (text : bpf_program) (tins : list bpf_insn)
    cur (i : nat) rd w :
  rds !! i = Some rd -> relo_type rd = RELO_CALL ->
  idx prog <> text_shndx (efile obj) ->
  bpf_object__find_prog_by_idx obj (text_shndx (efile obj)) = Some text ->
  insns text = Some tins -> insns_cnt text = Z.of_nat (length tins) ->
  length cur = length pins -> ncaller + Z.of_nat (length tins) <= INT_MAX ->
  a_ret (reply w Alloc) <> 0 ->
  relocate_step (Z.of_nat pi) (Z.of_nat i) (with_insns obj pi prog cur ncaller 0) w
  = Some (0,
          with_insns obj pi prog (apply_reloc (maps obj) ncaller (cur ++ tins) rd)
                     (ncaller + Z.of_nat (length tins)) ncaller,
          record w Alloc).
Proof.
  intros Hi Hty Hne Hfind Htins Htcnt Hlen Hsize Halloc.
  destruct (relocs_lookup_in_range i rd Hi) as [Hidx _].
  destruct (zlookup_in_range (cur ++ tins) (insn_idx rd)) as [insn Hinsn].
  { rewrite length_app. lia. }
  unfold relocate_step, bind. rewrite with_insns_lookup. cbn [deref ret relocs set_insns].
  rewrite Hrds. cbn [deref ret]. rewrite zlookup_nat, Hi. cbn [deref ret].
  rewrite bool_decide_eq_false_2 by (rewrite Hty; done).
  unfold bpf_program__reloc_text, bind. rewrite with_insns_lookup. cbn [deref ret].
  rewrite bool_decide_eq_true_2 by done. cbn [negb].
  change (idx (set_insns prog (Some cur) ncaller 0)) with (idx prog).
  change (efile (with_insns obj pi prog cur ncaller 0)) with (efile obj).
  destruct (Z.eqb_spec (idx prog) (text_shndx (efile obj))); [done|].
  change (main_prog_cnt (set_insns prog (Some cur) ncaller 0)) with 0.
  change (0 =? 0) with true. cbv iota.
  rewrite (with_insns_find_text cur ncaller 0 text) by done.
  unfold alloc, bind, sys, ret. apply Z.eqb_neq in Halloc. rewrite Halloc. cbn [negb].
  change (insns_cnt (set_insns prog (Some cur) ncaller 0)) with ncaller.
  change (insns (set_insns prog (Some cur) ncaller 0)) with (Some cur).
  rewrite Htins, Htcnt. cbn [array_of].
  destruct (Z.ltb_spec (Z.of_nat (length cur)) ncaller); [lia|].
  destruct (Z.ltb_spec (Z.of_nat (length tins)) (Z.of_nat (length tins))); [lia|].
  cbn [orb]. rewrite !Nat2Z.id, <- Hlen, !firstn_all, Hlen.
  rewrite to_size_t_small by lia.
  change (set_insns (set_insns prog (Some cur) ncaller 0) (Some (cur ++ tins))
            (ncaller + Z.of_nat (length tins)) ncaller)
    with (set_insns prog (Some (cur ++ tins)) (ncaller + Z.of_nat (length tins)) ncaller).
  cbn [negb Z.eqb]. change (insns (set_insns prog (Some (cur ++ tins))
                                     (ncaller + Z.of_nat (length tins)) ncaller))
    with (Some (cur ++ tins)).
  cbn [deref ret]. rewrite Hinsn. cbn [deref ret].
  change (main_prog_cnt (set_insns prog (Some (cur ++ tins))
                                   (ncaller + Z.of_nat (length tins)) ncaller)) with ncaller.
  change (insns_cnt (set_insns prog (Some (cur ++ tins))
                               (ncaller + Z.of_nat (length tins)) ncaller))
    with (ncaller + Z.of_nat (length tins)).
  unfold apply_reloc, bias_call. rewrite Hty, Hinsn.
  unfold with_insns. cbn [programs set_programs]. rewrite zinsert_nat.
  by rewrite list_insert_insert_eq.
Qed.

Lemma relocate_step_call_again cur cnt (i : nat) rd w :
  rds !! i = Some rd -> relo_type rd = RELO_CALL ->
  idx prog <> text_shndx (efile obj) ->
  ncaller <= Z.of_nat (length cur) ->
  relocate_step (Z.of_nat pi) (Z.of_nat i) (with_insns obj pi prog cur cnt ncaller) w
  = Some (0, with_insns obj pi prog (apply_reloc (maps obj) ncaller cur rd) cnt ncaller, w).
Proof.
  intros Hi Hty Hne Hlen.
  destruct (relocs_lookup_in_range i rd Hi) as [Hidx _].
  destruct (zlookup_in_range cur (insn_idx rd)) as [insn Hinsn]; [lia|].
  unfold relocate_step, bind. rewrite with_insns_lookup. cbn [deref ret relocs set_insns].
  rewrite Hrds. cbn [deref ret]. rewrite zlookup_nat, Hi. cbn [deref ret].
  rewrite bool_decide_eq_false_2 by (rewrite Hty; done).
  unfold bpf_program__reloc_text, bind. rewrite with_insns_lookup. cbn [deref ret].
  rewrite bool_decide_eq_true_2 by done. cbn [negb].
  change (idx (set_insns prog (Some cur) cnt ncaller)) with (idx prog).
  change (efile (with_insns obj pi prog cur cnt ncaller)) with (efile obj).
  destruct (Z.eqb_spec (idx prog) (text_shndx (efile obj))); [done|].
  change (main_prog_cnt (set_insns prog (Some cur) cnt ncaller)) with ncaller.
  destruct (Z.eqb_spec ncaller 0); [lia|]. cbn [ret negb Z.eqb].
  change (insns (set_insns prog (Some cur) cnt ncaller)) with (Some cur).
  cbn [deref ret]. rewrite Hinsn. cbn [deref ret].
  change (insns_cnt (set_insns prog (Some cur) cnt ncaller)) with cnt.
  rewrite with_insns_again.
  unfold apply_reloc, bias_call. by rewrite Hty, Hinsn.
Qed.

Lemma relocate_step_call_in_text cur cnt main (i : nat) rd w :
  rds !! i = Some rd -> relo_type rd = RELO_CALL ->
  idx prog = text_shndx (efile obj) ->
  relocate_step (Z.of_nat pi) (Z.of_nat i) (with_insns obj pi prog cur cnt main) w
  = Some (- LIBBPF_ERRNO__RELOC, with_insns obj pi prog cur cnt main, w).
Proof.
  intros Hi Hty Heq.
  unfold relocate_step, bind. rewrite with_insns_lookup. cbn [deref ret relocs set_insns].
  rewrite Hrds. cbn [deref ret]. rewrite zlookup_nat, Hi. cbn [deref ret].
  rewrite bool_decide_eq_false_2 by (rewrite Hty; done).
  unfold bpf_program__reloc_text, bind. rewrite with_insns_lookup. cbn [deref ret].
  rewrite bool_decide_eq_true_2 by done. cbn [negb].
  change (idx (set_insns prog (Some cur) cnt main)) with (idx prog).
  change (efile (with_insns obj pi prog cur cnt main)) with (efile obj).
  destruct (Z.eqb_spec (idx prog) (text_shndx (efile obj))); done.
Qed.

Lemma succ_index (l : list reloc_desc) (rd : reloc_desc) :
  Z.of_nat (length l) + 1 = Z.of_nat (length (l ++ [rd])).
Proof. rewrite length_app. simpl. lia. Qed.

Lemma relocs_split_lookup (done todo : list reloc_desc) (rd : reloc_desc) :
  rds = done ++ rd :: todo -> rds !! length done = Some rd.
Proof. intros ->. by apply list_lookup_middle. Qed.

Lemma not_ld64_is_call (rd : reloc_desc) : relo_type rd <> RELO_LD64 -> relo_type rd = RELO_CALL.
Proof. by destruct (relo_type rd). Qed.

(** The loop once the text has been appended. *)
Lemma relocate_loop_linked cnt :
  idx prog <> text_shndx (efile obj) -> ncaller <= cnt <= INT_MAX ->
  forall (todo done : list reloc_desc) cur w,
    rds = done ++ todo -> ncaller <= Z.of_nat (length cur) ->
    for_each (length todo) (Z.of_nat (length done)) (relocate_step (Z.of_nat pi))
             (with_insns obj pi prog cur cnt ncaller) w
    = Some (0, with_insns obj pi prog (foldl (apply_reloc (maps obj) ncaller) cur todo) cnt ncaller, w).
Proof.
  intros Hne Hcnt todo.
  induction todo as [|rd todo IH]; intros done cur w Hsplit Hlen; [reflexivity|].
  pose proof (relocs_split_lookup _ _ _ Hsplit) as Hrd.
  cbn [for_each length foldl]. unfold bind at 1.
  assert (relocate_step (Z.of_nat pi) (Z.of_nat (length done))
            (with_insns obj pi prog cur cnt ncaller) w
          = Some (0, with_insns obj pi prog (apply_reloc (maps obj) ncaller cur rd) cnt ncaller, w))
    as ->.
  { destruct (decide (relo_type rd = RELO_LD64)) as [Hty|Hty].
    - by apply relocate_step_ld64.
    - apply relocate_step_call_again; auto using not_ld64_is_call. }
  change (negb (0 =? 0)) with false. cbv iota.
  rewrite (succ_index done rd). apply IH.
  - by rewrite <- app_assoc.
  - unfold apply_reloc. destruct (relo_type rd).
    + destruct (zlookup (maps obj) (map_idx rd)); [by rewrite length_patch_map_fd|done].
    + by rewrite length_bias_call.
Qed.

(** The loop before the text has been appended. *)
Lemma relocate_loop_unlinked (text : bpf_program) (tins : list bpf_insn) w :
  idx prog <> text_shndx (efile obj) ->
  bpf_object__find_prog_by_idx obj (text_shndx (efile obj)) = Some text ->
  insns text = Some tins -> insns_cnt text = Z.of_nat (length tins) ->
  ncaller + Z.of_nat (length tins) <= INT_MAX ->
  a_ret (reply w Alloc) <> 0 ->
  forall (todo done : list reloc_desc) cur,
    rds = done ++ todo -> length cur = length pins -> has_call todo ->
    for_each (length todo) (Z.of_nat (length done)) (relocate_step (Z.of_nat pi))
             (with_insns obj pi prog cur ncaller 0) w
    = Some (0,
            with_insns obj pi prog (foldl (apply_reloc (maps obj) ncaller) (cur ++ tins) todo)
                       (ncaller + Z.of_nat (length tins)) ncaller,
            record w Alloc).
Proof.
  intros Hne Hfind Htins Htcnt Hsize Halloc todo.
  induction todo as [|rd todo IH]; intros done cur Hsplit Hlen Hcall.
  { by apply Exists_nil in Hcall. }
  pose proof (relocs_split_lookup _ _ _ Hsplit) as Hrd.
  destruct (relocs_lookup_in_range _ _ Hrd) as [Hidx Hmap].
  cbn [for_each length foldl]. unfold bind at 1.
  destruct (decide (relo_type rd = RELO_LD64)) as [Hty|Hty].
  - rewrite (relocate_step_ld64 cur ncaller 0 _ rd) by (done || lia).
    change (negb (0 =? 0)) with false. cbv iota.
    rewrite (succ_index done rd).
    assert (has_call todo) as Hcall'.
    { apply Exists_cons in Hcall as [Hc|Hc]; [congruence|done]. }
    rewrite (IH _ (apply_reloc (maps obj) ncaller cur rd)).
    + do 3 f_equal. unfold apply_reloc. rewrite Hty.
      destruct (zlookup (maps obj) (map_idx rd)); [|done].
      rewrite patch_map_fd_app_l by lia. done.
    + by rewrite <- app_assoc.
    + unfold apply_reloc. rewrite Hty.
      destruct (zlookup (maps obj) (map_idx rd)); [by rewrite length_patch_map_fd|done].
    + done.
  - apply not_ld64_is_call in Hty.
    rewrite (relocate_step_call_enter text tins cur _ rd) by done.
    change (negb (0 =? 0)) with false. cbv iota.
    rewrite (succ_index done rd).
    apply relocate_loop_linked; [done|lia| |].
    + by rewrite <- app_assoc.
    + unfold apply_reloc. rewrite Hty, length_bias_call, length_app. lia.
Qed.

(** The loop in the text program itself. *)
Lemma relocate_loop_in_text cnt main w :
  idx prog = text_shndx (efile obj) -> ncaller <= cnt <= INT_MAX ->
  forall (todo done : list reloc_desc) cur,
    rds = done ++ todo -> ncaller <= Z.of_nat (length cur) -> has_call todo ->
    exists cur',
      for_each (length todo) (Z.of_nat (length done)) (relocate_step (Z.of_nat pi))
               (with_insns obj pi prog cur cnt main) w
      = Some (- LIBBPF_ERRNO__RELOC, with_insns obj pi prog cur' cnt main, w).
Proof.
  intros Heq Hcnt todo.
  induction todo as [|rd todo IH]; intros done cur Hsplit Hlen Hcall.
  { by apply Exists_nil in Hcall. }
  pose proof (relocs_split_lookup _ _ _ Hsplit) as Hrd.
  cbn [for_each length]. unfold bind at 1.
  destruct (decide (relo_type rd = RELO_LD64)) as [Hty|Hty].
  - rewrite (relocate_step_ld64 cur cnt main _ rd) by (done || lia).
    change (negb (0 =? 0)) with false. cbv iota.
    rewrite (succ_index done rd).
    apply IH.
    + by rewrite <- app_assoc.
    + unfold apply_reloc. rewrite Hty.
      destruct (zlookup (maps obj) (map_idx rd)); [by rewrite length_patch_map_fd|done].
    + apply Exists_cons in Hcall as [Hc|Hc]; [congruence|done].
  - apply not_ld64_is_call in Hty.
    rewrite (relocate_step_call_in_text cur cnt main _ rd) by done.
    by exists cur.
Qed.

End Relocate.

Lemma with_insns_same (obj : bpf_object) (pi : nat) (prog : bpf_program)
    (pins : list bpf_insn) :
  programs obj !! pi = Some prog -> insns prog = Some pins ->
  with_insns obj pi prog pins (insns_cnt prog) (main_prog_cnt prog) = obj.
Proof.
  intros Hprog Hpins. unfold with_insns.
  assert (set_insns prog (Some pins) (insns_cnt prog) (main_prog_cnt prog) = prog) as ->.
  { destruct prog; simpl in *; by subst. }
  rewrite list_insert_id by done. by destruct obj.
Qed.

(** C2: relocation of a program with at least one local-call entry.
    In the text program itself it fails with RELOC.  In any other
    program it appends the text program's instructions once (one
    allocation, on the first local-call entry), records the prior count
    as main_prog_cnt, sets the count to the sum, and leaves the
    instructions as the specification's linking describes them: each
    local-call entry at index i has added main_prog_cnt - i to the
    immediate of its instruction. *)
Theorem relocate_inlines_text_once
    (obj : bpf_object) (pi : nat) (prog : bpf_program)
    (pins : list bpf_insn) (rds : list reloc_desc) (w : world)
    (Hprog : programs obj !! pi = Some prog)
    (Hpins : insns prog = Some pins)
    (Hpcnt : insns_cnt prog = Z.of_nat (length pins))
    (Hsmall : Z.of_nat (length pins) <= INT_MAX)
    (Hrds : relocs prog = Some rds)
    (Hnr : nr_reloc prog = Z.of_nat (length rds))
    (Hwf : relocs_in_range (maps obj) (Z.of_nat (length pins)) rds)
    (Hcall : has_call rds) :
  (idx prog = text_shndx (efile obj) ->
   exists obj',
     bpf_program__relocate (Z.of_nat pi) obj w = Some (- LIBBPF_ERRNO__RELOC, obj', w)) /\
  (forall (text : bpf_program) (tins : list bpf_insn),
     idx prog <> text_shndx (efile obj) ->
     bpf_object__find_prog_by_idx obj (text_shndx (efile obj)) = Some text ->
     insns text = Some tins -> insns_cnt text = Z.of_nat (length tins) ->
     main_prog_cnt prog = 0 ->
     Z.of_nat (length pins) + Z.of_nat (length tins) <= INT_MAX ->
     a_ret (reply w Alloc) <> 0 ->
     bpf_program__relocate (Z.of_nat pi) obj w
     = Some (0,
             set_programs obj
               (<[pi := set_relocs
                          (set_insns prog
                             (Some (linked_insns (maps obj) pins tins rds))
                             (Z.of_nat (length pins) + Z.of_nat (length tins))
                             (Z.of_nat (length pins)))
                          None 0]> (programs obj)),
             record w Alloc)).
Proof.
  pose proof (with_insns_same obj pi prog pins Hprog Hpins) as Hobj.
  split.
  - intros Heq.
    destruct (relocate_loop_in_text obj pi prog pins rds Hprog Hrds Hwf
                (insns_cnt prog) (main_prog_cnt prog) w Heq ltac:(lia) rds [] pins
                eq_refl ltac:(lia) Hcall) as [cur' Hloop].
    rewrite Hobj in Hloop.
    unfold bpf_program__relocate, bind. rewrite zlookup_nat, Hprog. cbn [deref ret].
    rewrite Hrds, Hnr, Nat2Z.id. change (Z.of_nat (length [])) with 0 in Hloop.
    rewrite Hloop. cbn [negb Z.eqb ret]. by eexists.
  - intros text tins Hne Hfind Htins Htcnt Hmain Hsize Halloc.
    pose proof (relocate_loop_unlinked obj pi prog pins rds Hprog Hrds Hwf text tins w
                  Hne Hfind Htins Htcnt Hsize Halloc rds [] pins eq_refl eq_refl Hcall)
      as Hloop.
    rewrite Hpcnt, Hmain in Hobj. rewrite Hobj in Hloop.
    unfold bpf_program__relocate, bind. rewrite zlookup_nat, Hprog. cbn [deref ret].
    rewrite Hrds, Hnr, Nat2Z.id. change (Z.of_nat (length [])) with 0 in Hloop.
    rewrite Hloop. change (negb (0 =? 0)) with false. cbv iota.
    rewrite with_insns_lookup by done. cbn [deref ret].
    unfold with_insns, linked_insns, ret. cbn [programs set_programs].
    rewrite zinsert_nat, list_insert_insert_eq. reflexivity.
Qed.

Lemma relocate_inlines_text_once_witness :
  (exists obj',
     bpf_program__relocate 0 text_calls_obj (scripted []) =
     Some (- LIBBPF_ERRNO__RELOC, obj', scripted [])) /\
  bpf_program__relocate 1 calls_obj (scripted [ans 1]) =
  Some (0,
        set_programs calls_obj
          [text_prog;
           set_relocs
             (set_insns caller_prog
                (Some [mk_insn 133 0 1 0 1; exit_insn; mk_insn 183 0 0 0 1; exit_insn])
                4 2)
             None 0],
        record (scripted [ans 1]) Alloc).
Proof.
  split.
  - apply (proj1 (relocate_inlines_text_once text_calls_obj 0 text_calling_text
                    [mk_insn 133 0 1 0 (-1); exit_insn] [mk_reloc RELO_CALL 0 0]
                    (scripted []) eq_refl eq_refl eq_refl
                    ltac:(vm_compute; discriminate) eq_refl eq_refl
                    ltac:(repeat constructor; simpl; (lia || discriminate))
                    ltac:(by left))).
    reflexivity.
  - apply (proj2 (relocate_inlines_text_once calls_obj 1 caller_prog
                    [mk_insn 133 0 1 0 (-1); exit_insn] [mk_reloc RELO_CALL 0 0]
                    (scripted [ans 1]) eq_refl eq_refl eq_refl
                    ltac:(vm_compute; discriminate) eq_refl eq_refl
                    ltac:(repeat constructor; simpl; (lia || discriminate))
                    ltac:(by left))
                 text_prog [mk_insn 183 0 0 0 1; exit_insn]).
    + simpl; lia.
    + reflexivity.
    + reflexivity.
    + reflexivity.
    + reflexivity.
    + vm_compute; discriminate.
    + vm_compute; discriminate.
Defined.

Lemma load_twice_einval_witness :
  exists r1 obj1 w1,
    bpf_object__load calls_obj (scripted [ans 1; ans 1; ans 1; ans 9]) = Some (r1, obj1, w1) /\
    bpf_object__load obj1 w1 = Some (- EINVAL, obj1, w1).
Proof.
  eexists _, _, _. split; [vm_compute; reflexivity|].
  apply (load_twice_einval calls_obj (scripted [ans 1; ans 1; ans 1; ans 9]) 0).
  vm_compute; reflexivity.
Defined.

Lemma load_progs_skips_text_witness :
  (exists r obj' w',
     bpf_object__load_progs calls_obj (scripted [ans 1; ans 1; ans 9]) = Some (r, obj', w') /\
     (forall (i : nat) p,
        programs calls_obj !! i = Some p -> idx p = text_shndx (efile calls_obj) ->
        programs obj' !! i = Some p) /\
     (exists obj'',
        bpf_object__load_progs (without_function_storage calls_obj)
                               (scripted [ans 1; ans 1; ans 9]) = Some (r, obj'', w'))) /\
  (bpf_object__load_progs text_only_obj (scripted [ans 1; ans 1; ans 9]) =
   match load_each (fun _ => false) (license text_only_obj) (kern_version text_only_obj)
                   (programs text_only_obj) (scripted [ans 1; ans 1; ans 9]) with
   | Some (err, ps', w') => Some (err, set_programs text_only_obj ps', w')
   | None => None
   end) /\
  (exists w',
     load_each (fun _ => false) (license text_only_obj) (kern_version text_only_obj)
               (programs text_only_obj) (scripted [ans 1; ans 1; ans 9])
     = Some (0, [set_instances (zfree_insns text_prog) 1 (Some [9])], w')).
Proof.
  split; [|split].
  - eexists _, _, _. split; [vm_compute; reflexivity|].
    apply (proj1 (load_progs_skips_text calls_obj (scripted [ans 1; ans 1; ans 9]) eq_refl));
      [reflexivity | vm_compute; reflexivity].
  - apply (proj2 (load_progs_skips_text text_only_obj (scripted [ans 1; ans 1; ans 9])
                    eq_refl)).
    reflexivity.
  - eexists. vm_compute. reflexivity.
Defined.

Lemma load_program_classification_witness :
  let w := scripted [ans 1; ans (-1); ans 7; ans 0] in
  let name := Some "p"%string in
  let insns := Some [exit_insn] in
  let first := first_answer BPF_PROG_TYPE_SOCKET_FILTER 0 name insns 1 [] 0 0 w in
  let w1 := after_first BPF_PROG_TYPE_SOCKET_FILTER 0 name insns 1 [] 0 0 w in
  let probe := probe_call name insns 1 [] 0 0 in
  let pans := probe_answer BPF_PROG_TYPE_SOCKET_FILTER 0 name insns 1 [] 0 0 w in
  exists r pfd w',
    run_load_program BPF_PROG_TYPE_SOCKET_FILTER 0 name insns 1 [] 0 0 w
      = Some (r, pfd, w') /\
    (0 <= to_int (a_ret first) ->
       r = 0 /\ pfd = Some (to_int (a_ret first)) /\ w' = w1) /\
    (to_int (a_ret first) < 0 -> has_log_buf w = true -> a_log first <> EmptyString ->
       r = - LIBBPF_ERRNO__VERIFY /\ w' = w1) /\
    (quiet_failure BPF_PROG_TYPE_SOCKET_FILTER 0 name insns 1 [] 0 0 w ->
       BPF_MAXINSNS <= to_size_t 1 ->
       r = - LIBBPF_ERRNO__PROG2BIG /\ w' = w1) /\
    (quiet_failure BPF_PROG_TYPE_SOCKET_FILTER 0 name insns 1 [] 0 0 w ->
       to_size_t 1 < BPF_MAXINSNS ->
       BPF_PROG_TYPE_SOCKET_FILTER <> BPF_PROG_TYPE_KPROBE ->
       (0 <= to_int (a_ret pans) ->
          r = - LIBBPF_ERRNO__PROGTYPE /\
          w' = record (record w1 probe) (Close (to_int (a_ret pans)))) /\
       (to_int (a_ret pans) < 0 ->
          r = (if has_log_buf w then - LIBBPF_ERRNO__KVER else - LIBBPF_ERRNO__LOAD) /\
          w' = record w1 probe)).
Proof.
  apply load_program_classification.
  - by eexists.
  - vm_compute; discriminate.
Defined.

Lemma wrong_kind_is_progtype :
  run_load_program BPF_PROG_TYPE_SOCKET_FILTER 0 (Some "p"%string) (Some [exit_insn]) 1
                   [] 0 0 (scripted [ans 1; ans (-1); ans 7; ans 0])
  = Some (- LIBBPF_ERRNO__PROGTYPE, None,
          record (record (record (record (scripted [ans 1; ans (-1); ans 7; ans 0]) Alloc)
            (LoadProgramXattr
               (mk_load_attr BPF_PROG_TYPE_SOCKET_FILTER 0 (Some "p"%string)
                             (Some [exit_insn]) 1 [] 0 0) true))
            (LoadProgramXattr
               (mk_load_attr BPF_PROG_TYPE_KPROBE 0 (Some "p"%string)
                             (Some [exit_insn]) 1 [] 0 0) false))
            (Close 7)).
Proof. reflexivity. Qed.

(** ** Opening an object: the string-table check *)

Lemma open_bad_version_is_error_pointer :
  exists w',
    __bpf_object__open no_btf true (Some elf_bad_version) "bad.o" 0 true
                       (scripted [ans 1; ans 3; ans 0])
    = Some (ERR_PTR (- LIBBPF_ERRNO__FORMAT), w') /\
    IS_ERR (ERR_PTR (- LIBBPF_ERRNO__FORMAT)) = true /\
    libbpf_get_error (ERR_PTR (- LIBBPF_ERRNO__FORMAT)) = - LIBBPF_ERRNO__FORMAT.
Proof. eexists. split; [vm_compute; reflexivity|]. split; reflexivity. Qed.

(** C6: on an object file without a symbol table the string-table index
    stays zero; [bpf_object__elf_collect] returns the positive
    LIBBPF_ERRNO__FORMAT, and the pointer handed to the caller is
    [ERR_PTR] of it, which [IS_ERR] does not recognise: the caller
    reads it as an object and [libbpf_get_error] gives 0. *)
Theorem open_without_symtab_not_an_error_pointer :
  exists p w',
    __bpf_object__open no_btf true (Some elf_without_symtab) "nosym.o" 0 true
                       (scripted [ans 1; ans 3; ans 0])
    = Some (p, w') /\
    p = RawPtr LIBBPF_ERRNO__FORMAT /\
    IS_ERR p = false /\
    libbpf_get_error p = 0.
Proof.
  eexists _, _. split; [vm_compute; reflexivity|].
  split; [reflexivity|]. split; reflexivity.
Qed.

(** In general: when the sweep ends with the string-table index zero or
    not below the section count, the result is the positive code. *)
Lemma elf_collect_strtab_check (btf__new : list byte -> Z -> option btf)
    (obj obj1 : bpf_object) (e : Elf) (ep : GElf_Ehdr) (i : Z) (w w1 : world) :
  elf (efile obj) = Some e -> ehdr (efile obj) = Some ep ->
  from_option scn_rawdata false (elf_getscn e (e_shstrndx ep)) = true ->
  collect_sections btf__new (drop 1 (elf_scns e)) 0 obj w = Some (0, i, obj1, w1) ->
  strtabidx (efile obj1) = 0 \/ i <= strtabidx (efile obj1) ->
  bpf_object__elf_collect btf__new obj w = Some (LIBBPF_ERRNO__FORMAT, obj1, w1) /\
  IS_ERR (ERR_PTR LIBBPF_ERRNO__FORMAT) = false.
Proof.
  intros He Hep Hraw Hsweep Hidx. split; [|reflexivity].
  unfold bpf_object__elf_collect, bind. rewrite He, Hep. cbn [deref ret].
  rewrite Hraw. cbn [negb]. rewrite Hsweep. cbn [negb Z.eqb].
  destruct Hidx as [->|Hle]; [reflexivity|].
  apply Z.leb_le in Hle. rewrite Hle. by rewrite orb_true_r.
Qed.

(** ** The map table builder: counting the maps *)

Lemma init_maps_no_map_symbols (obj : bpf_object) (w : world)
    (syms : Elf_Data) (e : Elf) (data : Elf_Data) :
  0 <= maps_shndx (efile obj) ->
  symbols (efile obj) = Some syms ->
  elf (efile obj) = Some e ->
  elf_getscn e (maps_shndx (efile obj)) ≫= elf_getdata = Some data ->
  map_symbols (maps_shndx (efile obj)) (symbols_seen syms) = [] ->
  bpf_object__init_maps obj w = Some (0, obj, w).
Proof.
  intros Hshndx Hsyms Helf Hdata Hnone.
  unfold bpf_object__init_maps, bind.
  destruct (Z.ltb_spec (maps_shndx (efile obj)) 0); [lia|].
  rewrite Hsyms, Helf. cbn [mbind option_bind]. rewrite Hdata, Hnone. reflexivity.
Qed.

(** C10: with a maps section and a symbol table but no symbol of the
    maps section, the builder returns 0 and leaves the object (its map
    table) and the world as they were: nothing is allocated and the
    division by the count is not reached.  With at least one map symbol,
    a section size that is zero or not a multiple of the count gives
    EINVAL, again before anything is allocated. *)
Theorem init_maps_count_guard (obj : bpf_object) (w : world)
    (syms : Elf_Data) (e : Elf) (data : Elf_Data)
    (Hshndx : 0 <= maps_shndx (efile obj))
    (Hsyms : symbols (efile obj) = Some syms)
    (Helf : elf (efile obj) = Some e)
    (Hdata : elf_getscn e (maps_shndx (efile obj)) ≫= elf_getdata = Some data)
    (Hcount : Z.of_nat (length (map_symbols (maps_shndx (efile obj)) (symbols_seen syms)))
              <= INT_MAX) :
  let count := Z.of_nat (length (map_symbols (maps_shndx (efile obj)) (symbols_seen syms))) in
  (count = 0 -> bpf_object__init_maps obj w = Some (0, obj, w)) /\
  (count <> 0 -> d_size data = 0 \/ d_size data mod count <> 0 ->
   bpf_object__init_maps obj w = Some (- EINVAL, obj, w)).
Proof.
  intros count. split.
  - intros Hz. apply (init_maps_no_map_symbols obj w syms e data); try done.
    apply length_zero_iff_nil. lia.
  - intros Hne Hbad.
    assert (to_int count = count) as Hint by (apply to_int_small; lia).
    unfold bpf_object__init_maps, bind.
    destruct (Z.ltb_spec (maps_shndx (efile obj)) 0); [lia|].
    rewrite Hsyms, Helf. cbn [mbind option_bind]. rewrite Hdata. fold count. rewrite Hint.
    destruct (Z.eqb_spec count 0); [done|].
    assert (to_size_t count = count) as -> by (apply to_size_t_small; lia).
    unfold c_div, c_mod. destruct (Z.eqb_spec count 0); [done|]. cbn [ret].
    destruct (Z.eqb_spec (d_size data) 0) as [Hz|Hz]; [reflexivity|].
    cbn [ret orb]. destruct Hbad as [?|Hmod]; [done|].
    apply Z.eqb_neq in Hmod. rewrite Hmod. reflexivity.
Qed.

(** ** Sorting the map table *)

Section Sorting.
Context {A : Type} (cmp : A -> A -> Z) (key : A -> Z).

Lemma insert_sorted_perm (x : A) (l : list A) : insert_sorted cmp x l ≡ₚ x :: l.
Proof.
  induction l as [|y l IH]; simpl; [done|].
  destruct (cmp x y <=? 0); [done|]. rewrite IH. apply Permutation_swap.
Qed.

Lemma qsort_perm (l : list A) : qsort cmp l ≡ₚ l.
Proof.
  induction l as [|x l IH]; simpl; [done|].
  rewrite insert_sorted_perm. by rewrite IH.
Qed.

Lemma insert_sorted_strict (x : A) (l : list A) :
  (forall y, y ∈ l -> (cmp x y <= 0 <-> key x <= key y) /\ key x <> key y) ->
  StronglySorted (fun a b => key a < key b) l ->
  StronglySorted (fun a b => key a < key b) (insert_sorted cmp x l).
Proof.
  induction l as [|y l IH]; intros Hcmp Hs; simpl.
  - repeat constructor.
  - apply StronglySorted_inv in Hs as [Hs Hy].
    destruct (Hcmp y) as [Hle Hne]; [by left|].
    destruct (Z.leb_spec (cmp x y) 0) as [Hc|Hc].
    + apply SSorted_cons; [by apply SSorted_cons|].
      apply Forall_cons. split; [lia|].
      eapply Forall_impl; [exact Hy|]. simpl. intros z Hz. lia.
    + apply SSorted_cons.
      * apply IH; [|done]. intros z Hz. apply Hcmp. by right.
      * rewrite insert_sorted_perm. apply Forall_cons. split; [lia|done].
Qed.

Lemma qsort_strict (l : list A) :
  (forall x y, x ∈ l -> y ∈ l -> cmp x y <= 0 <-> key x <= key y) ->
  NoDup (key <$> l) ->
  StronglySorted (fun a b => key a < key b) (qsort cmp l).
Proof.
  induction l as [|x l IH]; intros Hcmp Hnd; simpl; [constructor|].
  apply NoDup_cons in Hnd as [Hx Hnd].
  apply insert_sorted_strict.
  - intros y Hy. rewrite qsort_perm in Hy.
    split.
    + apply Hcmp; [by left|by right].
    + intros Heq. apply Hx. rewrite Heq. by apply list_elem_of_fmap_2.
  - apply IH; [|done]. intros y z Hy Hz. apply Hcmp; by right.
Qed.

End Sorting.

Lemma compare_bpf_map_spec (a b : bpf_map) :
  0 <= offset a <= INT_MAX -> 0 <= offset b <= INT_MAX ->
  compare_bpf_map a b <= 0 <-> offset a <= offset b.
Proof.
  unfold compare_bpf_map, to_int, to_size_t, wrap_signed, wrap_unsigned, INT_MAX.
  change (2 ^ (32 - 1)) with 2147483648. change (2 ^ 32) with 4294967296.
  change (2 ^ 64) with 18446744073709551616. change (2 ^ 31 - 1) with 2147483647.
  intros Ha Hb.
  destruct (Z.le_gt_cases (offset b) (offset a)) as [Hle|Hgt].
  - rewrite (Z.mod_small (offset a - offset b)) by lia.
    rewrite Z.mod_small by lia. lia.
  - assert ((offset a - offset b) mod 18446744073709551616
            = offset a - offset b + 18446744073709551616) as ->.
    { symmetry. apply Z.mod_unique with (-1); lia. }
    assert ((offset a - offset b + 18446744073709551616 + 2147483648) mod 4294967296
            = offset a - offset b + 2147483648) as ->.
    { symmetry. apply Z.mod_unique with 4294967296; lia. }
    lia.
Qed.

(** ** The map table builder: one entry *)

Lemma to_size_t_range (x : Z) : 0 <= x < 18446744073709551616 -> to_size_t x = x.
Proof. intros Hx. unfold to_size_t, wrap_unsigned. by apply Z.mod_small. Qed.

Lemma zinsert_zinsert {A} (l : list A) (k : Z) (x y : A) :
  zinsert k x (zinsert k y l) = zinsert k x l.
Proof. unfold zinsert. destruct (k <? 0); [done|]. apply list_insert_insert_eq. Qed.

Lemma read_bytes_Some (buf : list byte) (o n : Z) (bs : list byte) :
  read_bytes buf o n = Some bs ->
  bs = take (Z.to_nat n) (drop (Z.to_nat o) buf) /\ 0 <= o /\ 0 <= n /\
  o + n <= Z.of_nat (length buf).
Proof.
  unfold read_bytes. intros H.
  destruct (Z.leb_spec 0 o), (Z.leb_spec 0 n), (Z.leb_spec (o + n) (Z.of_nat (length buf)));
    simpl in H; by simplify_eq.
Qed.

Section MapEntry.
Variables (strp : Z -> option string) (data : Elf_Data) (D : Z).
Hypothesis HD : 0 <= D <= INT_MAX.

Lemma init_maps_entry_inv (sym : GElf_Sym) (k : Z) (obj obj' : bpf_object)
    (w w' : world) (r : Z) :
  0 <= st_value sym <= INT_MAX ->
  init_maps_entry strp data D sym k obj w = Some (r, obj', w') ->
  exists m,
    maps obj' = zinsert k m (maps obj) /\ is_Some (zlookup (maps obj) k) /\
    offset m = st_value sym /\ nr_maps obj' = nr_maps obj /\ oracle w' = oracle w /\
    ((r = 0 /\ st_value sym + D <= d_size data /\
      def m = bpf_map_def_of_bytes (def_image D (d_buf data) sym) /\
      (sizeof_bpf_map_def < D -> tail_nonzero D (d_buf data) sym = false))
     \/ (r = - EINVAL /\
         (d_size data < st_value sym + D \/
          (sizeof_bpf_map_def < D /\ tail_nonzero D (d_buf data) sym = true)))
     \/ (r = - ENOMEM /\ a_ret (reply w Alloc) = 0)).
Proof.
  intros Hv H. unfold init_maps_entry in H.
  rewrite (to_size_t_range D) in H by (unfold INT_MAX in HD; lia).
  rewrite (to_size_t_range (st_value sym + D)) in H by (unfold INT_MAX in *; lia).
  unfold alloc, sys in H.
  minv H.
  all: eexists; simpl; rewrite ?zinsert_zinsert;
    (split; [reflexivity|]); (split; [by eexists|]); (split; [reflexivity|]);
    (split; [reflexivity|]); (split; [reflexivity|]).
  all: repeat match goal with
       | H : read_bytes _ _ _ = Some _ |- _ =>
           apply read_bytes_Some in H; destruct H as (-> & ? & ? & ?)
       | H : (_ <? _) = true |- _ => apply Z.ltb_lt in H
       | H : (_ <? _) = false |- _ => apply Z.ltb_ge in H
       | H : (_ <=? _) = true |- _ => apply Z.leb_le in H
       | H : (_ <=? _) = false |- _ => apply Z.leb_gt in H
       | H : negb _ = true |- _ => apply negb_true_iff in H
       | H : negb _ = false |- _ => apply negb_false_iff in H
       | H : (_ =? _) = true |- _ => apply Z.eqb_eq in H
       end.
  - right; left. split; [done|]. by left.
  - right; right. done.
  - left. split; [done|]. split; [lia|]. split; [|intros; lia].
    unfold def_image. by destruct (Z.leb_spec D sizeof_bpf_map_def); [|lia].
  - right; left. split; [done|]. right. split; [lia|]. done.
  - left. split; [done|]. split; [lia|]. split; [|done].
    unfold def_image. by destruct (Z.leb_spec D sizeof_bpf_map_def); [lia|].
Qed.

Lemma insert_as_app {A} (l : list A) (k : nat) (x y : A) :
  l !! k = Some y -> <[k := x]> l = take k l ++ [x] ++ drop (S k) l.
Proof.
  intros Hk. rewrite <- (take_drop_middle l k y) at 1 by done.
  assert (length (take k l) = k) as Hlen.
  { rewrite length_take. apply lookup_lt_Some in Hk. lia. }
  rewrite insert_app_r_alt by lia. rewrite Hlen, Nat.sub_diag. done.
Qed.

Lemma init_maps_fill_inv (shndx : Z) (syms : list GElf_Sym) :
  forall (k : nat) (obj obj' : bpf_object) (w w' : world) (r : Z),
    Forall (fun s => 0 <= st_value s <= INT_MAX) (map_symbols shndx syms) ->
    init_maps_fill strp data D shndx syms (Z.of_nat k) obj w = Some (r, obj', w') ->
    nr_maps obj' = nr_maps obj /\ oracle w' = oracle w /\
    length (maps obj') = length (maps obj) /\
    (r = 0 ->
     exists ms,
       maps obj' = take k (maps obj) ++ ms ++ drop (k + length ms) (maps obj) /\
       Forall2 (entry_of data D) (map_symbols shndx syms) ms) /\
    (r = - EINVAL -> Exists (rejected data D) (map_symbols shndx syms)) /\
    (r <> 0 -> r = - EINVAL \/ (r = - ENOMEM /\ exists h, a_ret (oracle w h Alloc) = 0)).
Proof.
  induction syms as [|s syms IH]; intros k obj obj' w w' r Hv H.
  - simpl in H. apply ret_Some in H. simplify_eq.
    repeat split; try done.
    intros _. exists []. split; [|constructor].
    simpl. by rewrite Nat.add_0_r, take_drop.
  - cbn [init_maps_fill] in H. unfold map_symbols in *.
    destruct (Z.eqb_spec (st_shndx s) shndx) as [Hs|Hs]; cbn [negb] in H.
    + rewrite filter_cons_True in Hv |- * by done.
      apply Forall_cons in Hv as [Hvs Hv].
      apply bind_Some in H as ([e obj1] & w1 & Hentry & H).
      apply init_maps_entry_inv in Hentry as (m & Hmaps & [m0 Hm0] & Hoff & Hnr & Hor & Hcase);
        [|done].
      assert (maps obj !! k = Some m0) as Hk by (by rewrite <- zlookup_nat).
      rewrite zinsert_nat in Hmaps.
      destruct (negb (e =? 0)) eqn:He.
      * apply ret_Some in H. simplify_eq.
        apply negb_true_iff, Z.eqb_neq in He.
        split; [done|]. split; [done|]. split; [by rewrite Hmaps, length_insert|].
        split; [done|].
        destruct Hcase as [[-> _]|[[-> Hrej]|[-> Hal]]]; [done| |].
        -- split; [intros _; by apply Exists_cons_hd|]. intros _. by left.
        -- split; [done|]. intros _. right. split; [done|].
           exists (trace w). exact Hal.
      * apply negb_false_iff, Z.eqb_eq in He. subst e.
        destruct Hcase as [(_ & Hb & Hdef & Htail)|[[? _]|[? _]]]; [|done|done].
        assert (Z.of_nat k + 1 = Z.of_nat (S k)) as Hk1 by lia.
        rewrite Hk1 in H.
        apply IH in H as (Hnr' & Hor' & Hlen' & Hok & Hrej & Herr); [|done].
        split; [congruence|]. split; [congruence|].
        split; [by rewrite Hlen', Hmaps, length_insert|].
        split; [|split].
        -- intros Hr. destruct (Hok Hr) as (ms & Hms & Hall).
           exists (m :: ms). split; [|by constructor].
           rewrite Hms, Hmaps.
           rewrite (take_S_r _ _ m) by (apply list_lookup_insert_eq; by eapply lookup_lt_Some).
           rewrite take_insert_ge by lia. rewrite drop_insert_lt by lia.
           rewrite <- app_assoc. simpl. by rewrite Nat.add_succ_r.
        -- intros Hr. apply Exists_cons_tl. by apply Hrej.
        -- intros Hr. destruct (Herr Hr) as [?|[? [h Hh]]]; [by left|right].
           split; [done|]. exists h. by rewrite <- Hor.
    + rewrite filter_cons_False in Hv |- * by done. by apply IH.
Qed.

End MapEntry.

Lemma Forall2_entry_offsets (data : Elf_Data) (D : Z) (ss : list GElf_Sym) (ms : list bpf_map) :
  Forall2 (entry_of data D) ss ms -> offset <$> ms = st_value <$> ss.
Proof.
  induction 1 as [|s m ss ms [Hoff _] _ IH]; [done|]. cbn [fmap list_fmap]. by f_equal.
Qed.

Section InitMaps.
Variables (obj : bpf_object) (syms : Elf_Data) (e : Elf) (data : Elf_Data).
Hypothesis Hshndx : 0 <= maps_shndx (efile obj).
Hypothesis Hsyms : symbols (efile obj) = Some syms.
Hypothesis Helf : elf (efile obj) = Some e.
Hypothesis Hdata : elf_getscn e (maps_shndx (efile obj)) ≫= elf_getdata = Some data.

Local Abbreviation msyms := (map_symbols (maps_shndx (efile obj)) (symbols_seen syms)).
Local Abbreviation count := (Z.of_nat (length msyms)).
Local Abbreviation entry_size := (d_size data / count).

Hypothesis Hcount : count <= INT_MAX.
Hypothesis Hsize : 0 <= d_size data <= INT_MAX.

Lemma entry_size_range : count <> 0 -> 0 <= entry_size <= INT_MAX.
Proof.
  intros Hne. split.
  - apply Z.div_pos; lia.
  - etrans; [|apply Hsize]. apply Z.div_le_upper_bound; [lia|]. nia.
Qed.

(** The builder, once the count is known to be non-zero. *)
Lemma init_maps_unfold (w : world) :
  count <> 0 ->
  bpf_object__init_maps obj w =
  (if (d_size data =? 0) || negb (d_size data mod count =? 0) then ret (- EINVAL, obj)
   else
     let* ok := alloc in
     if negb ok then ret (- ENOMEM, obj) else
     let obj := set_map_table obj (replicate (Z.to_nat count) (set_fd zero_map (-1)))
                              count in
     let* '(err, obj) :=
       init_maps_fill (elf_strptr e (strtabidx (efile obj))) data entry_size
                      (maps_shndx (efile obj)) (symbols_seen syms) 0 obj in
     if negb (err =? 0) then ret (err, obj) else
     let n := Z.to_nat (nr_maps obj) in
     ret (0, set_maps obj (qsort compare_bpf_map (take n (maps obj))
                           ++ drop n (maps obj)))) w.
Proof.
  intros Hne. pose proof (entry_size_range Hne) as HD.
  unfold bpf_object__init_maps.
  destruct (Z.ltb_spec (maps_shndx (efile obj)) 0); [lia|].
  rewrite Hsyms, Helf. cbn [mbind option_bind]. rewrite Hdata.
  rewrite (to_int_small count) by lia.
  destruct (Z.eqb_spec count 0); [done|].
  rewrite (to_size_t_small count) by lia.
  unfold c_div, c_mod. destruct (Z.eqb_spec count 0); [done|].
  unfold bind at 1. cbn [ret]. rewrite (to_int_small entry_size) by done.
  unfold bind at 1.
  destruct (Z.eqb_spec (d_size data) 0); cbn [ret orb]; reflexivity.
Qed.

Lemma init_maps_inv (w w' : world) (obj' : bpf_object) (r : Z) :
  count <> 0 ->
  Forall (fun s => 0 <= st_value s <= INT_MAX) msyms ->
  bpf_object__init_maps obj w = Some (r, obj', w') ->
  (r = 0 ->
   exists ms,
     Forall2 (entry_of data entry_size) msyms ms /\
     maps obj' = qsort compare_bpf_map ms /\ nr_maps obj' = count) /\
  (r = - EINVAL ->
   d_size data = 0 \/ d_size data mod count <> 0 \/
   Exists (rejected data entry_size) msyms) /\
  (r <> 0 -> r = - EINVAL \/ (r = - ENOMEM /\ exists h, a_ret (oracle w h Alloc) = 0)).
Proof.
  intros Hne Hv H. pose proof (entry_size_range Hne) as HD.
  rewrite init_maps_unfold in H by done.
  destruct (Z.eqb_spec (d_size data) 0) as [Hz|Hz]; cbn [orb] in H.
  { apply ret_Some in H. simplify_eq. split; [done|]. split; [by left|by left]. }
  destruct (Z.eqb_spec (d_size data mod count) 0) as [Hm|Hm]; cbn [negb] in H.
  2:{ apply ret_Some in H. simplify_eq. split; [done|]. split; [by right; left|by left]. }
  unfold alloc, sys in H.
  apply bind_Some in H as (ok & w1 & Hal & H).
  apply bind_Some in Hal as (a & w0 & Ha & Hal). apply ret_Some in Hal.
  simplify_eq.
  destruct (Z.eqb_spec (a_ret (reply w Alloc)) 0) as [Hfail|Hok]; cbn [negb] in H.
  { apply ret_Some in H. simplify_eq. split; [done|]. split; [done|].
    intros _. right. split; [done|]. by exists (trace w). }
  apply bind_Some in H as ([err obj1] & w1 & Hfill & H).
  change 0 with (Z.of_nat 0) in Hfill at 1.
  apply (init_maps_fill_inv _ data entry_size HD) in Hfill
    as (Hnr & Hor & Hlen & Hok' & Hrej & Herr); [|done].
  cbn [nr_maps maps efile set_map_table] in Hnr, Hlen, Hok', Hrej.
  destruct (Z.eqb_spec err 0) as [->|Hne']; cbn [negb] in H; apply ret_Some in H;
    simplify_eq.
  - split; [|done]. intros _. destruct (Hok' eq_refl) as (ms & Hms & Hall).
    exists ms. split; [done|].
    pose proof (Forall2_length _ _ _ Hall) as Hl.
    cbn [maps set_maps nr_maps]. rewrite Hnr, Nat2Z.id.
    rewrite drop_ge in Hms by (rewrite length_replicate; lia).
    rewrite take_0, app_nil_r in Hms. simpl in Hms.
    rewrite Hms, Hl, firstn_all, drop_all, app_nil_r. done.
  - split; [done|]. split.
    + intros ->. right; right. by apply Hrej.
    + intros _. destruct (Herr Hne') as [?|[? [h Hh]]]; [by left|right].
      split; [done|]. exists h. by rewrite <- Hh.
Qed.

End InitMaps.

(** C8: after the map table builder has completed successfully on
    well-formed input (a fresh object, sizes and offsets within the
    range of int, map symbols at pairwise distinct offsets), the map
    table is in strictly ascending order of offset, and its offsets are
    those of the map symbols. *)
Theorem init_maps_sorted (obj obj' : bpf_object) (w w' : world)
    (syms : Elf_Data) (e : Elf) (data : Elf_Data)
    (Hshndx : 0 <= maps_shndx (efile obj))
    (Hsyms : symbols (efile obj) = Some syms)
    (Helf : elf (efile obj) = Some e)
    (Hdata : elf_getscn e (maps_shndx (efile obj)) ≫= elf_getdata = Some data)
    (Hfresh : maps obj = [])
    (Hcount : Z.of_nat (length (map_symbols (maps_shndx (efile obj)) (symbols_seen syms)))
              <= INT_MAX)
    (Hsize : 0 <= d_size data <= INT_MAX)
    (Hoffs : Forall (fun s => 0 <= st_value s <= INT_MAX)
                    (map_symbols (maps_shndx (efile obj)) (symbols_seen syms)))
    (Huniq : NoDup (st_value <$> map_symbols (maps_shndx (efile obj)) (symbols_seen syms)))
    (Hrun : bpf_object__init_maps obj w = Some (0, obj', w')) :
  StronglySorted (fun a b => offset a < offset b) (maps obj') /\
  offset <$> maps obj' ≡ₚ
    st_value <$> map_symbols (maps_shndx (efile obj)) (symbols_seen syms).
Proof.
  destruct (decide (Z.of_nat (length (map_symbols (maps_shndx (efile obj))
                                                  (symbols_seen syms))) = 0)) as [Hz|Hnz].
  - assert (map_symbols (maps_shndx (efile obj)) (symbols_seen syms) = []) as Hnone.
    { apply length_zero_iff_nil. lia. }
    rewrite (init_maps_no_map_symbols obj w syms e data) in Hrun by done.
    simplify_eq. rewrite Hfresh, Hnone. split; [constructor|done].
  - destruct (init_maps_inv obj syms e data Hshndx Hsyms Helf Hdata Hcount Hsize
                w w' obj' 0 Hnz Hoffs Hrun) as (Hok & _ & _).
    destruct (Hok eq_refl) as (ms & Hall & Hmaps & _).
    pose proof (Forall2_entry_offsets _ _ _ _ Hall) as Hoff.
    rewrite Hmaps. split.
    + apply qsort_strict.
      * intros a b Ha Hb. apply compare_bpf_map_spec.
        -- apply (list_elem_of_fmap_2 offset) in Ha. rewrite Hoff in Ha.
           apply list_elem_of_fmap in Ha as (s & -> & Hs).
           rewrite Forall_forall in Hoffs. by apply Hoffs.
        -- apply (list_elem_of_fmap_2 offset) in Hb. rewrite Hoff in Hb.
           apply list_elem_of_fmap in Hb as (s & -> & Hs).
           rewrite Forall_forall in Hoffs. by apply Hoffs.
      * by rewrite Hoff.
    + rewrite <- Hoff. by rewrite qsort_perm.
Qed.

(** ** The definition record determines its memory image *)

Lemma byte_val_range (b : byte) : 0 <= byte_val b < 256.
Proof.
  unfold byte_val. pose proof (Byte.to_N_bounded b) as H. lia.
Qed.

Lemma byte_val_inj (a b : byte) : byte_val a = byte_val b -> a = b.
Proof.
  unfold byte_val. intros H. apply N2Z.inj in H.
  pose proof (Byte.of_to_N a) as Ha. rewrite H, Byte.of_to_N in Ha. by simplify_eq.
Qed.

Lemma le_val_inj (a : list byte) :
  forall b, length a = length b -> le_val a = le_val b -> a = b.
Proof.
  induction a as [|x a IH]; intros [|y b] Hlen Hval; try done.
  simpl in *. pose proof (byte_val_range x). pose proof (byte_val_range y).
  assert (byte_val x = byte_val y) as Hxy by lia.
  f_equal; [by apply byte_val_inj|]. apply IH; lia.
Qed.

Lemma bpf_map_def_of_bytes_inj (a b : list byte) :
  length a = 20%nat -> length b = 20%nat ->
  bpf_map_def_of_bytes a = bpf_map_def_of_bytes b -> a = b.
Proof.
  intros Ha Hb H. unfold bpf_map_def_of_bytes in H.
  injection H as H0 H1 H2 H3 H4.
  apply le_val_inj in H0; [|by rewrite !length_take, Ha, Hb].
  apply le_val_inj in H1; [|by rewrite !length_take, !length_drop, Ha, Hb].
  apply le_val_inj in H2; [|by rewrite !length_take, !length_drop, Ha, Hb].
  apply le_val_inj in H3; [|by rewrite !length_take, !length_drop, Ha, Hb].
  apply le_val_inj in H4; [|by rewrite !length_take, !length_drop, Ha, Hb].
  rewrite <- (take_drop 4 a), <- (take_drop 4 b), H0. f_equal.
  rewrite <- (take_drop 4 (drop 4 a)), <- (take_drop 4 (drop 4 b)), H1. f_equal.
  rewrite !drop_drop. change (4 + 4)%nat with 8%nat.
  rewrite <- (take_drop 4 (drop 8 a)), <- (take_drop 4 (drop 8 b)), H2. f_equal.
  rewrite !drop_drop. change (8 + 4)%nat with 12%nat.
  rewrite <- (take_drop 4 (drop 12 a)), <- (take_drop 4 (drop 12 b)), H3. f_equal.
  rewrite !drop_drop. change (12 + 4)%nat with 16%nat.
  rewrite <- (take_ge (drop 16 a) 4), <- (take_ge (drop 16 b) 4), H4;
    [done| |]; rewrite length_drop; lia.
Qed.

(** Conversely the memory image of the record read from twenty bytes
    is those bytes. *)
Lemma byte_of_byte_val (b : byte) (v : Z) : byte_of (byte_val b + 256 * v) = b.
Proof.
  unfold byte_of. pose proof (byte_val_range b) as Hb.
  assert ((byte_val b + 256 * v) mod 256 = byte_val b) as ->.
  { rewrite (Z.mul_comm 256), Z_mod_plus_full. apply Z.mod_small. lia. }
  unfold byte_val. by rewrite N2Z.id, Byte.of_to_N.
Qed.

Lemma le_bytes_le_val (l : list byte) : le_bytes (length l) (le_val l) = l.
Proof.
  induction l as [|b l IH]; [reflexivity|]. cbn [length le_bytes le_val].
  rewrite byte_of_byte_val. f_equal.
  pose proof (byte_val_range b) as Hb.
  assert ((byte_val b + 256 * le_val l) / 256 = le_val l) as ->; [|done].
  rewrite (Z.mul_comm 256), Z_div_plus_full by lia.
  rewrite Z.div_small by lia. lia.
Qed.

Lemma image_of_def_of_bytes (bs : list byte) :
  length bs = 20%nat -> image_of_def (bpf_map_def_of_bytes bs) = bs.
Proof.
  intros Hlen. do 20 (destruct bs as [|? bs]; [done|]). destruct bs; [|done].
  unfold image_of_def, bpf_map_def_of_bytes.
  cbn [def_type key_size value_size max_entries map_flags firstn skipn].
  repeat match goal with
         | |- context [le_bytes 4 (le_val ?l)] =>
             change (le_bytes 4 (le_val l)) with (le_bytes (length l) (le_val l));
             rewrite (le_bytes_le_val l)
         end.
  reflexivity.
Qed.

Lemma length_def_image (strp : Z -> option string) (data : Elf_Data) (D : Z)
    (s : GElf_Sym) :
  0 <= D -> Z.of_nat (length (d_buf data)) = d_size data -> symbol_ok strp data D s ->
  length (def_image D (d_buf data) s) = 20%nat.
Proof.
  intros HD Hbuf (Hv & Hin & _). unfold def_image, sizeof_bpf_map_def.
  destruct (Z.leb_spec D 20).
  - rewrite length_app, length_take, length_drop, length_replicate. lia.
  - rewrite length_take, length_drop. lia.
Qed.

(** ** The map table builder: it returns on well-formed input *)

Lemma read_bytes_in_range (buf : list byte) (o n : Z) :
  0 <= o -> 0 <= n -> o + n <= Z.of_nat (length buf) ->
  read_bytes buf o n = Some (take (Z.to_nat n) (drop (Z.to_nat o) buf)).
Proof.
  intros Ho Hn Hlen. unfold read_bytes.
  destruct (Z.leb_spec 0 o); [|lia]. destruct (Z.leb_spec 0 n); [|lia].
  destruct (Z.leb_spec (o + n) (Z.of_nat (length buf))); [done|lia].
Qed.

Section Progress.
Variables (strp : Z -> option string) (data : Elf_Data) (D : Z).
Hypothesis HD : 0 <= D <= INT_MAX.
Hypothesis Hsize : d_size data <= INT_MAX.
Hypothesis Hbuf : Z.of_nat (length (d_buf data)) = d_size data.

Lemma init_maps_entry_returns (sym : GElf_Sym) (k : Z) (obj : bpf_object) (w : world) :
  is_Some (zlookup (maps obj) k) -> symbol_ok strp data D sym ->
  is_Some (init_maps_entry strp data D sym k obj w).
Proof.
  intros [m Hm] (Hv & Hb & [n Hn]).
  unfold init_maps_entry, bind. rewrite Hm. cbn [deref ret].
  rewrite (to_size_t_range D) by (unfold INT_MAX in HD; lia).
  rewrite (to_size_t_range (st_value sym + D)) by (unfold INT_MAX in *; lia).
  destruct (Z.ltb_spec (d_size data) (st_value sym + D)); [lia|].
  rewrite Hn. cbn [deref ret]. unfold alloc, bind, sys, ret.
  destruct (negb (negb (a_ret (reply w Alloc) =? 0))); [by eexists|].
  destruct (Z.leb_spec D sizeof_bpf_map_def).
  - rewrite read_bytes_in_range by lia. by eexists.
  - unfold sizeof_bpf_map_def in *.
    rewrite read_bytes_in_range by lia. cbn [deref ret].
    destruct (existsb _ _); [by eexists|].
    rewrite read_bytes_in_range by lia. by eexists.
Qed.

Lemma init_maps_fill_returns (shndx : Z) (syms : list GElf_Sym) :
  forall (k : nat) (obj : bpf_object) (w : world),
    (k + length (map_symbols shndx syms) <= length (maps obj))%nat ->
    Forall (symbol_ok strp data D) (map_symbols shndx syms) ->
    is_Some (init_maps_fill strp data D shndx syms (Z.of_nat k) obj w).
Proof.
  induction syms as [|s syms IH]; intros k obj w Hlen Hok; [by eexists|].
  cbn [init_maps_fill]. unfold map_symbols in *.
  destruct (Z.eqb_spec (st_shndx s) shndx) as [Hs|Hs]; cbn [negb].
  - rewrite filter_cons_True in Hlen, Hok by done. simpl in Hlen.
    apply Forall_cons in Hok as [Hoks Hok].
    destruct (init_maps_entry_returns s (Z.of_nat k) obj w) as [[[r obj1] w1] Hentry];
      [|done|].
    { rewrite zlookup_nat. apply lookup_lt_is_Some. lia. }
    unfold bind. rewrite Hentry.
    destruct (negb (r =? 0)); [by eexists|].
    assert (Z.of_nat k + 1 = Z.of_nat (S k)) as -> by lia.
    apply IH; [|done].
    apply init_maps_entry_inv in Hentry as (m & Hmaps & _); [|done|].
    + rewrite Hmaps, length_zinsert. lia.
    + destruct Hoks as (? & ? & _). lia.
  - rewrite filter_cons_False in Hlen, Hok by done. by apply IH.
Qed.

End Progress.

(** C5: the definition record of every map entry, for per-entry size
    [D] = section size / number of map symbols, on a maps section whose
    symbols lie inside the section data and have names, when every
    allocation succeeds.  The builder returns; it fails with EINVAL
    exactly when [D] exceeds the native size and the tail beyond the
    native size of some entry holds a non-zero byte; otherwise it
    succeeds and the memory image of each map's definition, its five
    fields laid out four bytes each, is [def_image]: the [D] bytes of
    the entry followed by zeros when [D] is at most the native size, the
    first native-size bytes of the entry when [D] exceeds it. *)
Theorem init_maps_definition_copy (obj : bpf_object) (w : world)
    (syms : Elf_Data) (e : Elf) (data : Elf_Data)
    (Hshndx : 0 <= maps_shndx (efile obj))
    (Hsyms : symbols (efile obj) = Some syms)
    (Helf : elf (efile obj) = Some e)
    (Hdata : elf_getscn e (maps_shndx (efile obj)) ≫= elf_getdata = Some data)
    (Hcount : 0 < Z.of_nat (length (map_symbols (maps_shndx (efile obj))
                                                 (symbols_seen syms))) <= INT_MAX)
    (Hsize : 0 < d_size data <= INT_MAX)
    (Hmod : d_size data mod
              Z.of_nat (length (map_symbols (maps_shndx (efile obj)) (symbols_seen syms)))
            = 0)
    (Hbuf : Z.of_nat (length (d_buf data)) = d_size data)
    (Hwf : Forall (symbol_ok (elf_strptr e (strtabidx (efile obj))) data
                     (d_size data /
                      Z.of_nat (length (map_symbols (maps_shndx (efile obj))
                                                    (symbols_seen syms)))))
                  (map_symbols (maps_shndx (efile obj)) (symbols_seen syms)))
    (Halloc : allocations_succeed w) :
  let msyms := map_symbols (maps_shndx (efile obj)) (symbols_seen syms) in
  let D := d_size data / Z.of_nat (length msyms) in
  exists r obj' w',
    bpf_object__init_maps obj w = Some (r, obj', w') /\
    (r = - EINVAL <->
     sizeof_bpf_map_def < D /\
     Exists (fun s => tail_nonzero D (d_buf data) s = true) msyms) /\
    (r <> - EINVAL ->
     r = 0 /\
     Forall (fun s => exists m, m ∈ maps obj' /\ offset m = st_value s /\
                                def m = bpf_map_def_of_bytes (def_image D (d_buf data) s) /\
                                image_of_def (def m) = def_image D (d_buf data) s)
            msyms).
Proof.
  pose proof (proj2 Hcount) as Hcount'.
  assert (0 <= d_size data <= INT_MAX) as Hsize' by lia.
  assert (Z.of_nat (length (map_symbols (maps_shndx (efile obj)) (symbols_seen syms))) <> 0)
    as Hnz by lia.
  pose proof (entry_size_range obj syms data Hsize' Hnz) as HD.
  intros msyms D. fold msyms in Hmod, Hwf, Hcount, Hnz, HD. fold D in Hwf, HD.
  assert (Forall (fun s => 0 <= st_value s <= INT_MAX) msyms) as Hoffs.
  { eapply Forall_impl; [exact Hwf|]. intros s (? & ? & _). clearbody D. lia. }
  (* the builder returns *)
  assert (is_Some (bpf_object__init_maps obj w)) as [[[r obj'] w'] Hrun].
  { rewrite (init_maps_unfold obj syms e data Hshndx Hsyms Helf Hdata Hcount' Hsize' w Hnz).
    fold msyms D.
    destruct (Z.eqb_spec (d_size data) 0); [lia|].
    rewrite Hmod. cbn [Z.eqb negb orb].
    unfold alloc, bind, sys, ret.
    destruct (negb (negb (a_ret (reply w Alloc) =? 0))); [by eexists|].
    change 0 with (Z.of_nat 0) at 1.
    destruct (init_maps_fill_returns (elf_strptr e (strtabidx (efile obj))) data D HD
                ltac:(lia) Hbuf
                (maps_shndx (efile obj)) (symbols_seen syms) 0%nat
                (set_map_table obj (replicate (Z.to_nat (Z.of_nat (length msyms)))
                                              (set_fd zero_map (-1)))
                               (Z.of_nat (length msyms)))
                (record w Alloc)) as [[[r1 obj1] w1] Hfill].
    - cbn [maps set_map_table efile]. fold msyms. rewrite length_replicate, Nat2Z.id. lia.
    - exact Hwf.
    - cbn [efile set_map_table] in Hfill |- *. rewrite Hfill.
      destruct (negb (r1 =? 0)); by eexists. }
  exists r, obj', w'. split; [done|].
  destruct (init_maps_inv obj syms e data Hshndx Hsyms Helf Hdata Hcount' Hsize'
              w w' obj' r Hnz Hoffs Hrun) as (Hok & Hrej & Herr).
  fold msyms D in Hok, Hrej, Herr.
  assert (r = 0 ->
          Forall (fun s => exists m, m ∈ maps obj' /\ offset m = st_value s /\
                    def m = bpf_map_def_of_bytes (def_image D (d_buf data) s) /\
                    image_of_def (def m) = def_image D (d_buf data) s) msyms /\
          Forall (fun s => sizeof_bpf_map_def < D ->
                           tail_nonzero D (d_buf data) s = false) msyms) as Hbuilt.
  { intros Hr. destruct (Hok Hr) as (ms & Hall & Hmaps & _).
    split; apply Forall_forall; intros s Hs; apply list_elem_of_lookup in Hs as [i Hi].
    - destruct (Forall2_lookup_l _ _ _ _ _ Hall Hi) as (m & Hm & Hoff & Hdef & _).
      exists m. rewrite Hmaps, qsort_perm. split; [by eapply list_elem_of_lookup_2|].
      split; [done|]. split; [done|]. rewrite Hdef. apply image_of_def_of_bytes.
      apply (length_def_image (elf_strptr e (strtabidx (efile obj))) data D s);
        [lia | done |].
      rewrite Forall_forall in Hwf. apply Hwf. by eapply list_elem_of_lookup_2.
    - destruct (Forall2_lookup_l _ _ _ _ _ Hall Hi) as (m & Hm & _ & _ & _ & Htail).
      exact Htail. }
  split; [split|].
  - intros Hr. destruct (Hrej Hr) as [?|[?|Hex]]; [lia|done|].
    apply Exists_exists in Hex as (s & Hs & [Hout|[HDs Htail]]).
    + rewrite Forall_forall in Hwf. destruct (Hwf s Hs) as (_ & Hin & _).
      clearbody D. lia.
    + split; [done|]. apply Exists_exists. by exists s.
  - intros [HDs Hex]. destruct (decide (r = 0)) as [Hr|Hr].
    + destruct (Hbuilt Hr) as [_ Htails].
      apply Exists_exists in Hex as (s & Hs & Htail).
      rewrite Forall_forall in Htails. rewrite (Htails s Hs HDs) in Htail. done.
    + destruct (Herr Hr) as [?|[_ [h Hh]]]; [done|]. by destruct (Halloc h).
  - intros Hne. destruct (decide (r = 0)) as [Hr|Hr].
    + split; [done|]. by apply Hbuilt.
    + destruct (Herr Hr) as [?|[_ [h Hh]]]; [done|]. by destruct (Halloc h).
Qed.

(** ** The map table builder on sample sections *)

Lemma generous_allocates : allocations_succeed generous.
Proof. intros h. discriminate. Qed.

Lemma forward_compatible_def_accepted :
  exists w',
    bpf_object__init_maps (maps_obj (one_def ++ [x00; x00; x00; x00]) [map_sym 0]) generous
    = Some (0,
            set_map_table (maps_obj (one_def ++ [x00; x00; x00; x00]) [map_sym 0])
              [mk_map (-1) (Some "m"%string) 0 0 (mk_def 1 4 8 16 0) 0 0] 1,
            w').
Proof. eexists. vm_compute. reflexivity. Qed.

Lemma nonzero_tail_rejected :
  exists obj' w',
    bpf_object__init_maps (maps_obj (one_def ++ [x00; x00; x01; x00]) [map_sym 0]) generous
    = Some (- EINVAL, obj', w').
Proof. eexists _, _. vm_compute. reflexivity. Qed.

Lemma short_def_zero_padded :
  exists w',
    bpf_object__init_maps (maps_obj (take 12 one_def) [map_sym 0]) generous
    = Some (0,
            set_map_table (maps_obj (take 12 one_def) [map_sym 0])
              [mk_map (-1) (Some "m"%string) 0 0 (mk_def 1 4 8 0 0) 0 0] 1,
            w').
Proof. eexists. vm_compute. reflexivity. Qed.

Lemma init_maps_definition_copy_witness :
  (let buf := one_def ++ [x00; x00; x00; x00] in
   let obj := maps_obj buf [map_sym 0] in
   let data := maps_data buf in
   let msyms := map_symbols (maps_shndx (efile obj)) (symbols_seen (symtab_data [map_sym 0])) in
   let D := d_size data / Z.of_nat (length msyms) in
   exists r obj' w',
     bpf_object__init_maps obj generous = Some (r, obj', w') /\
     (r = - EINVAL <->
      sizeof_bpf_map_def < D /\
      Exists (fun s => tail_nonzero D (d_buf data) s = true) msyms) /\
     (r <> - EINVAL ->
      r = 0 /\
      Forall (fun s => exists m, m ∈ maps obj' /\ offset m = st_value s /\
                                 def m = bpf_map_def_of_bytes (def_image D (d_buf data) s) /\
                                 image_of_def (def m) = def_image D (d_buf data) s)
             msyms) /\
     D = 24 /\ r = 0 /\
     maps obj' = [mk_map (-1) (Some "m"%string) 0 0 (mk_def 1 4 8 16 0) 0 0] /\
     image_of_def (mk_def 1 4 8 16 0) = one_def) /\
  (let buf := take 12 one_def in
   let obj := maps_obj buf [map_sym 0] in
   let data := maps_data buf in
   let msyms := map_symbols (maps_shndx (efile obj)) (symbols_seen (symtab_data [map_sym 0])) in
   let D := d_size data / Z.of_nat (length msyms) in
   exists r obj' w',
     bpf_object__init_maps obj generous = Some (r, obj', w') /\
     (r <> - EINVAL ->
      r = 0 /\
      Forall (fun s => exists m, m ∈ maps obj' /\ offset m = st_value s /\
                                 def m = bpf_map_def_of_bytes (def_image D (d_buf data) s) /\
                                 image_of_def (def m) = def_image D (d_buf data) s)
             msyms) /\
     D = 12 /\ r = 0 /\
     maps obj' = [mk_map (-1) (Some "m"%string) 0 0 (mk_def 1 4 8 0 0) 0 0] /\
     image_of_def (mk_def 1 4 8 0 0) = take 12 one_def ++ replicate 8 x00).
Proof.
  split.
  - intros buf obj data msyms D.
    destruct (init_maps_definition_copy obj generous
                (symtab_data [map_sym 0]) (maps_elf buf) data) as (r & obj' & w' & Hrun & H);
      [ simpl; lia | reflexivity | reflexivity | reflexivity
      | vm_compute; split; [reflexivity|discriminate]
      | vm_compute; split; [reflexivity|discriminate]
      | reflexivity | reflexivity
      | repeat constructor; vm_compute; (discriminate || by eexists)
      | exact generous_allocates | ].
    destruct forward_compatible_def_accepted as [w0 Hrun0].
    fold buf obj in Hrun0. rewrite Hrun0 in Hrun. injection Hrun as <- <- <-.
    eexists _, _, _. split; [exact Hrun0|]. destruct H as [Hiff Hok].
    split; [exact Hiff|]. split; [exact Hok|].
    split; [reflexivity|]. split; [reflexivity|]. split; reflexivity.
  - intros buf obj data msyms D.
    destruct (init_maps_definition_copy obj generous
                (symtab_data [map_sym 0]) (maps_elf buf) data) as (r & obj' & w' & Hrun & H);
      [ simpl; lia | reflexivity | reflexivity | reflexivity
      | vm_compute; split; [reflexivity|discriminate]
      | vm_compute; split; [reflexivity|discriminate]
      | reflexivity | reflexivity
      | repeat constructor; vm_compute; (discriminate || by eexists)
      | exact generous_allocates | ].
    destruct short_def_zero_padded as [w0 Hrun0].
    fold buf obj in Hrun0. rewrite Hrun0 in Hrun. injection Hrun as <- <- <-.
    eexists _, _, _. split; [exact Hrun0|]. destruct H as [_ Hok].
    split; [exact Hok|].
    split; [reflexivity|]. split; [reflexivity|]. split; reflexivity.
Defined.

Lemma init_maps_sorted_witness :
  let syms := symtab_data [map_sym 40; other_sym 0; map_sym 0; map_sym 20] in
  let obj := maps_obj (one_def ++ one_def ++ one_def)
                      [map_sym 40; other_sym 0; map_sym 0; map_sym 20] in
  exists obj' w',
    bpf_object__init_maps obj generous = Some (0, obj', w') /\
    StronglySorted (fun a b => offset a < offset b) (maps obj') /\
    offset <$> maps obj' ≡ₚ
      st_value <$> map_symbols (maps_shndx (efile obj)) (symbols_seen syms).
Proof.
  intros syms obj.
  eexists _, _. split; [vm_compute; reflexivity|].
  eapply (init_maps_sorted obj _ generous _ syms
           (maps_elf (one_def ++ one_def ++ one_def))
           (maps_data (one_def ++ one_def ++ one_def))).
  - simpl; lia.
  - reflexivity.
  - reflexivity.
  - reflexivity.
  - reflexivity.
  - vm_compute; discriminate.
  - vm_compute. split; discriminate.
  - repeat constructor; vm_compute; discriminate.
  - apply (bool_decide_unpack _). vm_compute. exact I.
  - vm_compute. reflexivity.
Defined.

Lemma init_maps_count_guard_witness :
  bpf_object__init_maps (maps_obj one_def [other_sym 0]) generous
  = Some (0, maps_obj one_def [other_sym 0], generous) /\
  bpf_object__init_maps (maps_obj (one_def ++ [x00]) [map_sym 0; map_sym 10]) generous
  = Some (- EINVAL, maps_obj (one_def ++ [x00]) [map_sym 0; map_sym 10], generous).
Proof.
  split.
  - apply (proj1 (init_maps_count_guard (maps_obj one_def [other_sym 0]) generous
                    (symtab_data [other_sym 0]) (maps_elf one_def) (maps_data one_def)
                    ltac:(simpl; lia) eq_refl eq_refl eq_refl
                    ltac:(vm_compute; discriminate))).
    reflexivity.
  - apply (proj2 (init_maps_count_guard
                    (maps_obj (one_def ++ [x00]) [map_sym 0; map_sym 10]) generous
                    (symtab_data [map_sym 0; map_sym 10]) (maps_elf (one_def ++ [x00]))
                    (maps_data (one_def ++ [x00]))
                    ltac:(simpl; lia) eq_refl eq_refl eq_refl
                    ltac:(vm_compute; discriminate))).
    + vm_compute; discriminate.
    + right. vm_compute; discriminate.
Defined.

(* ================================================================== *)
(** * Further properties of the loader *)

(** ** Loops as traversals *)

Lemma for_each_as_traverse {S A}
    (set : S -> list A -> S) (f : A -> M (Z * A))
    (body : Z -> S -> M (Z * S)) (o : S) :
  (forall pre x post w,
      body (Z.of_nat (length pre)) (set o (pre ++ x :: post)) w =
      match f x w with
      | Some (e, x', w') => Some (e, set o (pre ++ x' :: post), w')
      | None => None
      end) ->
  forall (l : list A) (n : nat) (pre : list A) (w : world),
    (n <= length l)%nat ->
    for_each n (Z.of_nat (length pre)) body (set o (pre ++ l)) w =
    match traverse f (take n l) w with
    | Some (e, l', w') => Some (e, set o (pre ++ l' ++ drop n l), w')
    | None => None
    end.
Proof.
  intros Hbody. induction l as [|x l IH]; intros n pre w Hn.
  - simpl in Hn. assert (n = 0)%nat as -> by lia. simpl. unfold ret.
    by rewrite app_nil_r.
  - destruct n as [|n]; [reflexivity|]. simpl in Hn.
    cbn [for_each take traverse drop].
    unfold bind at 1. rewrite Hbody. unfold bind at 1.
    destruct (f x w) as [[[e x'] w1]|]; [|done].
    destruct (negb (e =? 0)).
    + unfold ret. cbn [app]. by rewrite take_drop.
    + assert (Z.of_nat (length pre) + 1 = Z.of_nat (length (pre ++ [x']))) as ->.
      { rewrite length_app. simpl. lia. }
      rewrite (cons_middle x' pre l), app_assoc, IH by lia.
      unfold bind, ret.
      destruct (traverse f (take n l) w1) as [[[e' l'] w']|]; [|done].
      by rewrite <- app_assoc.
Qed.

Lemma set_maps_same (obj : bpf_object) : set_maps obj (maps obj) = obj.
Proof. by destruct obj. Qed.

Lemma set_programs_same (obj : bpf_object) : set_programs obj (programs obj) = obj.
Proof. by destruct obj. Qed.

Lemma calls_made_nil (w : world) : calls_made w w [].
Proof. done. Qed.

Lemma calls_made_trans (w1 w2 w3 : world) (cs cs' : list call) :
  calls_made w1 w2 cs -> calls_made w2 w3 cs' -> calls_made w1 w3 (cs ++ cs').
Proof.
  unfold calls_made. intros H1 H2. by rewrite H2, H1, rev_app_distr, app_assoc.
Qed.

Lemma calls_made_sys (w : world) (c : call) : calls_made w (record w c) [c].
Proof. done. Qed.

(** ** Releasing descriptors *)

(** What [zclose] does to one descriptor. *)
Lemma zclose_calls (v : Z) (w : world) :
  exists e w', zclose v w = Some (e, -1, w') /\ calls_made w w' (Close <$> held [v]).
Proof.
  unfold zclose, held. destruct (Z.leb_spec 0 v).
  - rewrite filter_cons_True by done. run. by eexists _, _.
  - rewrite filter_cons_False by lia. run. by eexists _, _.
Qed.

Lemma close_maps_as_traverse (obj : bpf_object) (n : nat) (w : world) :
  (n <= length (maps obj))%nat ->
  close_maps (Z.of_nat n) obj w =
  match traverse close_map (take n (maps obj)) w with
  | Some (e, l', w') => Some (e, set_maps obj (l' ++ drop n (maps obj)), w')
  | None => None
  end.
Proof.
  intros Hn. unfold close_maps. rewrite Nat2Z.id.
  rewrite <- (set_maps_same obj) at 1.
  apply (for_each_as_traverse set_maps close_map _ obj) with (pre := []); [|done].
  intros pre x post w0. unfold bind at 1. cbn [maps set_maps].
  rewrite zlookup_nat, list_lookup_middle by done. cbn [deref ret].
  unfold close_map, bind. destruct (zclose (fd x) w0) as [[[e v] w1]|]; [|done].
  unfold ret. rewrite zinsert_nat, insert_app_r_alt, Nat.sub_diag by lia. done.
Qed.

Lemma traverse_close_map (l : list bpf_map) (w : world) :
  exists w', traverse close_map l w = Some (0, (fun m => set_fd m (-1)) <$> l, w') /\
             calls_made w w' (Close <$> held (fd <$> l)).
Proof.
  revert w. induction l as [|m l IH]; intros w.
  - eexists. split; [reflexivity|done].
  - cbn [traverse]. unfold close_map at 1.
    destruct (zclose_calls (fd m) w) as (e & w1 & Hz & Hc1).
    destruct (IH w1) as (w2 & Ht & Hc2).
    eexists. split.
    + unfold bind. rewrite Hz. unfold ret. cbn. unfold bind. rewrite Ht. reflexivity.
    + cbn [fmap list_fmap]. unfold held in *.
      change (fd m :: (fd <$> l)) with ([fd m] ++ (fd <$> l)).
      rewrite filter_app, fmap_app. by eapply calls_made_trans.
Qed.

Lemma traverse_close_fd (l : list Z) (w : world) :
  exists w', traverse close_fd l w = Some (0, replicate (length l) (-1), w') /\
             calls_made w w' (Close <$> held l).
Proof.
  revert w. induction l as [|v l IH]; intros w.
  - eexists. split; [reflexivity|done].
  - cbn [traverse]. unfold close_fd at 1.
    destruct (zclose_calls v w) as (e & w1 & Hz & Hc1).
    destruct (IH w1) as (w2 & Ht & Hc2).
    eexists. split.
    + unfold bind. rewrite Hz. unfold ret. cbn. unfold bind. rewrite Ht. reflexivity.
    + unfold held in *. change (v :: l) with ([v] ++ l).
      rewrite filter_app, fmap_app. by eapply calls_made_trans.
Qed.

Lemma program_unload_calls (p : bpf_program) (w : world) :
  instances_ok p ->
  exists w', bpf_program__unload p w = Some (set_instances p (-1) None, w') /\
             calls_made w w' (Close <$> held (instance_fds p)).
Proof.
  intros Hok. unfold bpf_program__unload, instance_fds.
  destruct (Z.ltb_spec 0 (instances_nr p)) as [Hpos|Hneg].
  - destruct Hok as [?|(fds & Hfds & Hlen)]; [lia|].
    rewrite Hfds. cbn [array_of].
    set (n := Z.to_nat (instances_nr p)).
    pose proof (for_each_as_traverse
                  (fun q l => set_instances q (instances_nr q) (Some l)) close_fd
                  (fun i prog =>
                     let* fds := deref (instances_fds prog) in
                     let* v := deref (zlookup fds i) in
                     let* '(_, v) := zclose v in
                     ret (0, set_instances prog (instances_nr prog) (Some (zinsert i v fds))))
                  p) as Htr.
    cbv beta in Htr.
    assert (Hp : set_instances p (instances_nr p) (Some fds) = p).
    { destruct p; simpl in *; by subst. }
    specialize (Htr ltac:(
      intros pre x post w0; unfold bind at 1; cbn [instances_fds set_instances deref ret];
      unfold bind at 1; rewrite zlookup_nat, list_lookup_middle by done; cbn [deref ret];
      unfold close_fd, bind; destruct (zclose x w0) as [[[e v] w1]|]; [|done];
      unfold ret; cbn [instances_nr set_instances];
      rewrite zinsert_nat, insert_app_r_alt, Nat.sub_diag by lia; done)
      fds n [] w ltac:(lia)).
    cbn [app length] in Htr. change (Z.of_nat 0) with 0 in Htr. rewrite Hp in Htr.
    destruct (traverse_close_fd (take n fds) w) as (w' & Ht & Hc).
    rewrite Ht in Htr. exists w'. split; [|done].
    unfold bind at 1. unfold bind at 1. rewrite Htr. reflexivity.
  - exists w. split; [reflexivity|done].
Qed.

Lemma traverse_unload_program (l : list bpf_program) (w : world) :
  Forall instances_ok l ->
  exists w', traverse unload_program l w
               = Some (0, (fun p => set_instances p (-1) None) <$> l, w') /\
             calls_made w w' (Close <$> held (l ≫= instance_fds)).
Proof.
  intros Hok. revert w. induction Hok as [|p l Hp Hl IH]; intros w.
  - eexists. split; [reflexivity|done].
  - cbn [traverse]. unfold unload_program at 1.
    destruct (program_unload_calls p w Hp) as (w1 & Hz & Hc1).
    destruct (IH w1) as (w2 & Ht & Hc2).
    eexists. split.
    + unfold bind. rewrite Hz. unfold ret. cbn. unfold bind. rewrite Ht. reflexivity.
    + rewrite bind_cons. unfold held in *.
      rewrite filter_app, fmap_app. by eapply calls_made_trans.
Qed.

Lemma held_closed_maps (l : list bpf_map) :
  held (fd <$> ((fun m => set_fd m (-1)) <$> l)) = [].
Proof. induction l as [|m l IH]; [done|]. simpl. unfold held in *. by rewrite filter_cons_False by (simpl; lia). Qed.

Lemma held_unloaded_programs (l : list bpf_program) :
  ((fun p => set_instances p (-1) None) <$> l) ≫= instance_fds = [].
Proof. induction l as [|p l IH]; [done|]. by rewrite fmap_cons, bind_cons, IH. Qed.

Lemma unload_outcome (obj : bpf_object) (w : world) (Hok : tables_ok obj) :
  exists obj' w',
    bpf_object__unload obj w = Some (0, obj', w') /\
    calls_made w w' (Close <$> descriptors_of obj) /\
    maps obj' = (fun m => set_fd m (-1)) <$> maps obj /\
    programs obj' = (fun p => set_instances p (-1) None) <$> programs obj /\
    descriptors_of obj' = [].
Proof.
  destruct Hok as (Hm & Hp & Hinst).
  unfold bpf_object__unload. unfold bind at 1.
  rewrite Hm, close_maps_as_traverse by done.
  rewrite firstn_all, drop_all.
  destruct (traverse_close_map (maps obj) w) as (w1 & Ht1 & Hc1).
  destruct (traverse_unload_program (programs obj) w1 Hinst) as (w2 & Ht2 & Hc2).
  set (ms := (fun m => set_fd m (-1)) <$> maps obj) in *.
  set (ps := (fun p => set_instances p (-1) None) <$> programs obj) in *.
  pose proof (for_each_as_traverse set_programs unload_program
                (fun i obj =>
                   let* prog := deref (zlookup (programs obj) i) in
                   let* prog := bpf_program__unload prog in
                   ret (0, set_programs obj (zinsert i prog (programs obj))))
                (set_maps obj ms)) as Htr.
  cbv beta in Htr.
  specialize (Htr ltac:(
    intros pre x post w0; unfold bind at 1; cbn [programs set_programs];
    rewrite zlookup_nat, list_lookup_middle by done; cbn [deref ret];
    unfold unload_program, bind; destruct (bpf_program__unload x w0) as [[x' w3]|]; [|done];
    unfold ret; rewrite zinsert_nat, insert_app_r_alt, Nat.sub_diag by lia; done)
    (programs obj) (length (programs obj)) [] w1 ltac:(lia)).
  cbn [app length] in Htr. change (Z.of_nat 0) with 0 in Htr.
  rewrite firstn_all, drop_all, Ht2 in Htr.
  exists (set_programs (set_maps obj ms) ps), w2.
  split; [|split; [|split; [|split]]].
  - rewrite Ht1. rewrite app_nil_r.
    unfold bind at 1. cbn [nr_programs set_maps]. rewrite Hp, Nat2Z.id.
    change (set_maps obj ms) with (set_programs (set_maps obj ms) (programs obj)) at 1.
    rewrite Htr. by rewrite app_nil_r.
  - unfold descriptors_of. rewrite fmap_app. by eapply calls_made_trans.
  - done.
  - done.
  - unfold descriptors_of. cbn [maps programs set_programs set_maps].
    subst ms ps. by rewrite held_closed_maps, held_unloaded_programs.
Qed.

(** X1: unloading an object whose counts are the lengths of its tables
    always succeeds; it closes exactly the descriptors the object holds
    (those of its maps, then those of its programs' instances, in table
    order, each once), resets every map descriptor to -1 and drops every
    program's instance array, so that no descriptor is left. *)
Theorem unload_closes_held_descriptors (obj : bpf_object) (w : world) :
  tables_ok obj ->
  exists obj' w',
    bpf_object__unload obj w = Some (0, obj', w') /\
    calls_made w w' (Close <$> descriptors_of obj) /\
    maps obj' = (fun m => set_fd m (-1)) <$> maps obj /\
    programs obj' = (fun p => set_instances p (-1) None) <$> programs obj /\
    descriptors_of obj' = [].
Proof. apply unload_outcome. Qed.

Lemma unload_closes_held_descriptors_witness :
  exists obj' w',
    bpf_object__unload held_obj generous = Some (0, obj', w') /\
    calls_made generous w' (Close <$> descriptors_of held_obj) /\
    maps obj' = (fun m => set_fd m (-1)) <$> maps held_obj /\
    programs obj' = (fun p => set_instances p (-1) None) <$> programs held_obj /\
    descriptors_of obj' = [].
Proof.
  apply (unload_closes_held_descriptors held_obj generous).
  split; [reflexivity|]. split; [reflexivity|].
  apply Forall_cons. split; [|constructor].
  right. exists [7; -1]. split; [reflexivity|]. simpl. lia.
Defined.

Lemma for_each_inv {St} (P : Z -> St -> Prop) (Q : Z -> St -> Prop)
    (body : Z -> St -> M (Z * St)) :
  forall (n : nat) (i0 : Z),
    (forall i s w r s' w',
        i0 <= i < i0 + Z.of_nat n -> P i s -> body i s w = Some (r, s', w') ->
        (r = 0 -> P (i + 1) s') /\ (r <> 0 -> Q r s')) ->
    forall s w r s' w',
      P i0 s -> for_each n i0 body s w = Some (r, s', w') ->
      (r = 0 -> P (i0 + Z.of_nat n) s') /\ (r <> 0 -> Q r s').
Proof.
  induction n as [|n IH]; intros i0 Hbody s w r s' w' HP H; simpl in H.
  - apply ret_Some in H. simplify_eq. split; [|done]. intros _. by rewrite Z.add_0_r.
  - apply bind_Some in H. destruct H as ([e s1] & w1 & Hb & H).
    destruct (Hbody i0 s w e s1 w1 ltac:(lia) HP Hb) as [H0 H1].
    destruct (Z.eqb_spec e 0) as [->|He]; simpl in H.
    + replace (i0 + Z.of_nat (S n)) with ((i0 + 1) + Z.of_nat n) by lia.
      eapply IH; [|by apply H0|done].
      intros i s0 w0 r0 s0' w0' Hi. apply Hbody. lia.
    + apply ret_Some in H. simplify_eq. split; [done|]. intros _. by apply H1.
Qed.

(** [minv], looking through local definitions. *)
Ltac xinv H :=
  cbv beta zeta in H;
  lazymatch type of H with
  | bind _ _ _ = Some _ =>
      let a := fresh "a" in let w := fresh "w" in
      let H1 := fresh "Hc" in
      apply bind_Some in H; destruct H as (a & w & H1 & H);
      repeat match goal with x : (_ * _)%type |- _ => destruct x end;
      xinv H1; xinv H
  | ret _ _ = Some _ => apply ret_Some in H; simplify_eq
  | deref _ _ = Some _ =>
      let H1 := fresh "Hd" in
      apply deref_Some in H; simpl in H; destruct H as [H H1]; subst
  | (if ?b then _ else _) _ = Some _ => destruct b eqn:?; xinv H
  | match ?x with _ => _ end _ = Some _ => destruct x eqn:?; xinv H
  | trap _ = Some _ => discriminate H
  | _ => idtac
  end.

Lemma for_each_ext {St} (body body' : Z -> St -> M (Z * St)) :
  (forall i s w, body i s w = body' i s w) ->
  forall n i s w, for_each n i body s w = for_each n i body' s w.
Proof.
  intros Hb n. induction n as [|n IH]; intros i s w; [done|].
  simpl. unfold bind. rewrite Hb.
  destruct (body' i s w) as [[[e s'] w']|]; [|done].
  destruct (negb (e =? 0)); [done|]. apply IH.
Qed.

(** ** Map creation *)

Lemma create_maps_unfold (obj : bpf_object) (w : world) :
  bpf_object__create_maps obj w =
  for_each (Z.to_nat (nr_maps obj)) 0 create_maps_step obj w.
Proof.
  unfold bpf_object__create_maps. apply for_each_ext. clear.
  intros i obj w.
  unfold create_maps_step, create_one_map, bpf_create_map_xattr, sys, bind, ret.
  cbv beta zeta.
  destruct (deref (zlookup (maps obj) i) w) as [[map w0]|]; [|done].
  destruct (0 <=? fd map); [done|].
  destruct (obj_btf obj) as [b|];
    [destruct (bpf_map_find_btf_info map b w0) as [[[e m1] w1]|]; [destruct (e =? 0)|done]|].
  all: cbv beta iota.
  all: repeat (match goal with |- context [if ?c then _ else _] => destruct c end;
               cbv beta iota); try reflexivity.
Qed.

Lemma find_btf_info_cases (map : bpf_map) (b : btf) (w : world)
    (r : Z) (map' : bpf_map) (w' : world) :
  bpf_map_find_btf_info map b w = Some (r, map', w') ->
  w' = w /\
  (map' = map \/
   exists key value,
     r = 0 /\
     map' = mk_map (fd map) (map_name map) (offset map) (map_ifindex map) (def map) key value /\
     btf__resolve_size b key = key_size (def map) /\
     btf__resolve_size b value = value_size (def map)).
Proof.
  unfold bpf_map_find_btf_info. intros H. xinv H; simplify_eq; (split; [done|]); try by left.
  right. eexists _, _. split; [done|]. split; [done|].
  repeat match goal with H : negb _ = false |- _ => apply negb_false_iff in H end.
  split; symmetry; by apply Z.eqb_eq.
Qed.

(** X2: the lookup of a map's type ids makes no call; whatever it
    returns, it either leaves the map as it was or, returning 0, sets
    the two type ids to types whose sizes, as the type metadata resolves
    them, are the key size and the value size of the map's
    definition. *)
Theorem find_btf_info_sets_matching_ids (map : bpf_map) (b : btf) (w : world)
    (r : Z) (map' : bpf_map) (w' : world) :
  bpf_map_find_btf_info map b w = Some (r, map', w') ->
  w' = w /\
  (map' = map \/
   exists key value,
     r = 0 /\
     map' = mk_map (fd map) (map_name map) (offset map) (map_ifindex map) (def map) key value /\
     btf__resolve_size b key = key_size (def map) /\
     btf__resolve_size b value = value_size (def map)).
Proof. apply find_btf_info_cases. Qed.

Lemma find_btf_info_sets_matching_ids_witness :
  exists r map' w',
    bpf_map_find_btf_info (counting_map (-1)) cnt_btf generous = Some (r, map', w') /\
    w' = generous /\
    (map' = counting_map (-1) \/
     exists key value,
       r = 0 /\
       map' = mk_map (-1) (Some "cnt"%string) 0 0 (mk_def 1 4 8 16 0) key value /\
       btf__resolve_size cnt_btf key = 4 /\
       btf__resolve_size cnt_btf value = 8).
Proof.
  eexists _, _, _. split; [vm_compute; reflexivity|].
  eapply (find_btf_info_sets_matching_ids (counting_map (-1)) cnt_btf generous).
  vm_compute; reflexivity.
Defined.

Lemma same_map_refl (m : bpf_map) : same_map m m.
Proof. done. Qed.

Lemma same_map_trans (a b c : bpf_map) : same_map a b -> same_map b c -> same_map a c.
Proof. unfold same_map. intros (?&?&?&?) (?&?&?&?). repeat split; congruence. Qed.

Lemma same_map_set_fd (m : bpf_map) (v : Z) : same_map m (set_fd m v).
Proof. done. Qed.

Lemma create_one_map_effect (b : option btf) (map : bpf_map) (w : world)
    (pfd : Z) (map' : bpf_map) (w' : world) :
  create_one_map b map w = Some (pfd, map', w') ->
  same_map map map' /\ fd map' = fd map.
Proof.
  unfold create_one_map, bpf_create_map_xattr. intros H. xinv H; simplify_eq; try done.
  all: match goal with H : bpf_map_find_btf_info _ _ _ = Some _ |- _ =>
         apply find_btf_info_cases in H; destruct H as [-> [->|(k & v & _ & -> & _)]] end.
  all: done.
Qed.

Lemma close_maps_effect (obj : bpf_object) (n : nat) (w : world) :
  (n <= length (maps obj))%nat ->
  exists w', close_maps (Z.of_nat n) obj w
             = Some (0, set_maps obj (((fun m => set_fd m (-1)) <$> take n (maps obj))
                                      ++ drop n (maps obj)), w').
Proof.
  intros Hn. rewrite close_maps_as_traverse by done.
  destruct (traverse_close_map (take n (maps obj)) w) as (w' & -> & _). by eexists.
Qed.

Lemma created_from_same (m m' : bpf_map) : created_from m m' -> same_map m m'.
Proof. by intros [? _]. Qed.

Lemma Forall2_same_map_refl (l : list bpf_map) : Forall2 same_map l l.
Proof. induction l; by constructor. Qed.

Lemma create_maps_outcome (obj : bpf_object) (w : world)
    (r : Z) (obj' : bpf_object) (w' : world) :
  nr_maps obj = Z.of_nat (length (maps obj)) ->
  bpf_object__create_maps obj w = Some (r, obj', w') ->
  obj' = set_maps obj (maps obj') /\
  Forall2 same_map (maps obj) (maps obj') /\
  (r = 0 -> Forall2 created_from (maps obj) (maps obj')) /\
  (r <> 0 ->
   r < 0 /\
   exists (i : nat) m,
     maps obj' !! i = Some m /\ fd m = r /\
     Forall (fun m => fd m = -1) (take i (maps obj')) /\
     drop (S i) (maps obj') = drop (S i) (maps obj)).
Proof.
  intros Hn H. rewrite create_maps_unfold, Hn, Nat2Z.id in H.
  set (P := fun (i : Z) (s : bpf_object) =>
    exists k : nat,
      i = Z.of_nat k /\ s = set_maps obj (maps s) /\
      Forall2 created_from (take k (maps obj)) (take k (maps s)) /\
      drop k (maps s) = drop k (maps obj)).
  set (Q := fun (r : Z) (s : bpf_object) =>
    s = set_maps obj (maps s) /\
    Forall2 same_map (maps obj) (maps s) /\
    r < 0 /\
    exists (i : nat) m,
      maps s !! i = Some m /\ fd m = r /\
      Forall (fun m => fd m = -1) (take i (maps s)) /\
      drop (S i) (maps s) = drop (S i) (maps obj)).
  assert (Hstep : forall i s w r s' w',
             0 <= i < 0 + Z.of_nat (length (maps obj)) -> P i s ->
             create_maps_step i s w = Some (r, s', w') ->
             (r = 0 -> P (i + 1) s') /\ (r <> 0 -> Q r s')).
  { clear. intros i s w r s' w' Hi (k & -> & Hs & Hpre & Hpost) Hrun.
    assert (Hlen : length (maps s) = length (maps obj)).
    { rewrite <- (take_drop k (maps s)), <- (take_drop k (maps obj)), !length_app.
      rewrite Hpost. f_equal. by eapply Forall2_length in Hpre. }
    destruct (lookup_lt_is_Some_2 (maps obj) k ltac:(lia)) as [m Hm].
    assert (Hms : maps s !! k = Some m).
    { rewrite <- (take_drop k (maps s)), Hpost, lookup_app_r by (rewrite length_take; lia).
      rewrite length_take, lookup_drop. rewrite <- Hm. f_equal. lia. }
    assert (Hnext : forall m', created_from m m' ->
               P (Z.of_nat k + 1) (set_maps s (<[k := m']> (maps s)))).
    { intros m' Hm'. exists (S k). split; [lia|]. cbn [maps set_maps].
      split; [rewrite Hs at 1; done|]. split.
      - rewrite (take_S_r _ _ _ Hm).
        erewrite take_S_r by (apply list_lookup_insert_eq; apply lookup_lt_is_Some; eauto).
        rewrite take_insert_ge by lia. apply Forall2_app; [done|]. by constructor.
      - rewrite drop_insert_lt by lia.
        rewrite <- (Nat.add_1_r k) at 1 2. rewrite <- !drop_drop. by rewrite Hpost. }
    unfold create_maps_step in Hrun. rewrite zlookup_nat in Hrun.
    xinv Hrun; simplify_eq.
    - (* preset *)
      split; [intros _|done].
      specialize (Hnext a). rewrite list_insert_id, set_maps_same in Hnext by done.
      apply Hnext. split; [done|]. split; [lia|done].
    - (* the kernel refused *)
      apply create_one_map_effect in Hc0 as [Hsame Hfd].
      rewrite zinsert_nat in Hc1. cbn [maps set_maps] in Hc1.
      destruct (close_maps_effect (set_maps s (<[k := set_fd b z]> (maps s))) k w0
                  ltac:(cbn [maps set_maps]; rewrite length_insert; lia)) as (wc & Hcl).
      rewrite Hcl in Hc1. simplify_eq. cbn [maps set_maps].
      split; [lia|intros _]. unfold Q. cbn [maps set_maps].
      rewrite take_insert_ge, drop_insert_ge, Nat.sub_diag by lia.
      split; [rewrite Hs at 1; done|].
      assert (Hd : drop k (maps s) = a :: drop (S k) (maps obj)).
      { rewrite Hpost. by apply drop_S. }
      rewrite Hd. cbn [insert list_insert].
      split; [|split; [lia|]].
      + rewrite <- (take_drop k (maps obj)) at 1. apply Forall2_app.
        * apply Forall2_fmap_r. eapply Forall2_impl; [exact Hpre|].
          intros x y Hxy. apply created_from_same in Hxy.
          eapply same_map_trans; [exact Hxy|apply same_map_set_fd].
        * rewrite (drop_S _ _ _ Hm). constructor; [|apply Forall2_same_map_refl].
          eapply same_map_trans; [exact Hsame|apply same_map_set_fd].
      + assert (Hk : length ((fun m => set_fd m (-1)) <$> take k (maps s)) = k).
        { rewrite length_fmap, length_take. lia. }
        exists k, (set_fd b z). split.
        { rewrite lookup_app_r by lia. by rewrite Hk, Nat.sub_diag. }
        split; [done|]. split.
        { rewrite take_app_length' by done. apply Forall_fmap. by apply Forall_true. }
        { rewrite drop_app_ge by lia. rewrite Hk.
          by replace (S k - k)%nat with 1%nat by lia. }
    - (* created *)
      apply create_one_map_effect in Hc0 as [Hsame Hfd].
      rewrite zinsert_nat. split; [intros _|done].
      apply Hnext. split; [|split; [simpl; lia|lia]].
      eapply same_map_trans; [exact Hsame|apply same_map_set_fd]. }
  pose proof (for_each_inv P Q create_maps_step (length (maps obj)) 0 Hstep
                obj w r obj' w') as Hfin.
  destruct Hfin as [H0 H1]; [|done|].
  { exists 0%nat. split; [done|]. split; [by rewrite set_maps_same|]. split; constructor. }
  destruct (Z.eq_dec r 0) as [->|Hr].
  - destruct (H0 eq_refl) as (k & Hk & Hs & Hpre & Hpost).
    assert (k = length (maps obj)) as -> by lia.
    rewrite firstn_all in Hpre.
    assert (Hlen : length (maps obj') = length (maps obj)).
    { rewrite <- (take_drop (length (maps obj)) (maps obj')), length_app, Hpost.
      rewrite drop_all. apply Forall2_length in Hpre. simpl. lia. }
    rewrite <- Hlen, firstn_all in Hpre.
    split; [done|]. split; [|split; [done|done]].
    eapply Forall2_impl; [exact Hpre|]. intros ??. apply created_from_same.
  - destruct (H1 Hr) as (Hs & Hsame & Hneg & Hex). done.
Qed.

(** X3: when map creation succeeds, the object differs from the one
    before in its map table only; every map has a descriptor, a map that
    had one already is left as it was, and the others keep their name,
    offset, interface index and definition. *)
Theorem create_maps_success (obj : bpf_object) (w : world) (obj' : bpf_object) (w' : world) :
  nr_maps obj = Z.of_nat (length (maps obj)) ->
  bpf_object__create_maps obj w = Some (0, obj', w') ->
  obj' = set_maps obj (maps obj') /\
  Forall2 created_from (maps obj) (maps obj').
Proof.
  intros Hn H. destruct (create_maps_outcome _ _ _ _ _ Hn H) as (Hf & _ & Hok & _).
  split; [done|]. by apply Hok.
Qed.

Lemma create_maps_success_witness :
  exists obj' w',
    bpf_object__create_maps three_maps_obj (scripted [ans 4; ans 5]) = Some (0, obj', w') /\
    obj' = set_maps three_maps_obj (maps obj') /\
    Forall2 created_from (maps three_maps_obj) (maps obj').
Proof.
  eexists _, _. split; [vm_compute; reflexivity|].
  eapply (create_maps_success three_maps_obj (scripted [ans 4; ans 5]));
    [reflexivity | vm_compute; reflexivity].
Defined.

(** X4: when map creation fails, the result is the negative value the
    kernel returned for one map, and that value is left in that map's
    descriptor field; the descriptor of every map before it reads -1
    (those that were created, and those that had a descriptor on entry,
    have been closed and reset), the maps after it are untouched, and no
    map has changed in name, offset, interface index or definition. *)
Theorem create_maps_failure_rolls_back (obj : bpf_object) (w : world)
    (r : Z) (obj' : bpf_object) (w' : world) :
  nr_maps obj = Z.of_nat (length (maps obj)) ->
  bpf_object__create_maps obj w = Some (r, obj', w') ->
  r <> 0 ->
  r < 0 /\
  obj' = set_maps obj (maps obj') /\
  Forall2 same_map (maps obj) (maps obj') /\
  exists (i : nat) m,
    maps obj' !! i = Some m /\ fd m = r /\
    Forall (fun m => fd m = -1) (take i (maps obj')) /\
    drop (S i) (maps obj') = drop (S i) (maps obj).
Proof.
  intros Hn H Hr. destruct (create_maps_outcome _ _ _ _ _ Hn H) as (Hf & Hs & _ & Hfail).
  destruct (Hfail Hr) as [Hneg Hi]. done.
Qed.

Lemma create_maps_failure_rolls_back_witness :
  exists r obj' w',
    bpf_object__create_maps three_maps_obj (scripted [ans 4; ans (-1)])
      = Some (r, obj', w') /\
    r < 0 /\
    obj' = set_maps three_maps_obj (maps obj') /\
    Forall2 same_map (maps three_maps_obj) (maps obj') /\
    exists (i : nat) m,
      maps obj' !! i = Some m /\ fd m = r /\
      Forall (fun m => fd m = -1) (take i (maps obj')) /\
      drop (S i) (maps obj') = drop (S i) (maps three_maps_obj).
Proof.
  eexists _, _, _. split; [vm_compute; reflexivity|].
  eapply (create_maps_failure_rolls_back three_maps_obj (scripted [ans 4; ans (-1)]));
    [reflexivity | vm_compute; reflexivity | discriminate].
Defined.

(** ** What relocation leaves alone *)

Lemma same_instances_refl (p : bpf_program) : same_instances p p.
Proof. done. Qed.

Lemma Forall2_same_instances_refl (l : list bpf_program) : Forall2 same_instances l l.
Proof. induction l; by constructor. Qed.

Lemma Forall2_insert_same {A} (R : A -> A -> Prop) (l l' : list A) (i : nat) (p q : A) :
  Forall2 R l l' -> l' !! i = Some p -> (forall x, R x p -> R x q) ->
  Forall2 R l (<[i := q]> l').
Proof.
  intros Hl. revert i. induction Hl as [|x y l l' Hxy Hl IH]; intros i Hi HR; [done|].
  destruct i as [|i]; simpl in *.
  - simplify_eq. constructor; eauto.
  - constructor; eauto.
Qed.

Lemma Forall2_zinsert_same {A} (R : A -> A -> Prop) (l l' : list A) (i : Z) (p q : A) :
  Forall2 R l l' -> zlookup l' i = Some p -> (forall x, R x p -> R x q) ->
  Forall2 R l (zinsert i q l').
Proof.
  unfold zlookup, zinsert. destruct (i <? 0); [done|]. apply Forall2_insert_same.
Qed.

Lemma programs_frame_refl obj : programs_frame obj obj.
Proof. split; [by rewrite set_programs_same|apply Forall2_same_instances_refl]. Qed.

Lemma programs_frame_update (obj s : bpf_object) (i : Z) (p q : bpf_program) :
  programs_frame obj s -> zlookup (programs s) i = Some p -> same_instances p q ->
  programs_frame obj (set_programs s (zinsert i q (programs s))).
Proof.
  intros [Hs Hf] Hp Hq. split.
  - cbn [programs set_programs]. rewrite Hs at 1. done.
  - cbn [programs set_programs]. eapply Forall2_zinsert_same; [done..|].
    intros x (?&?&?&?&?). destruct Hq as (?&?&?&?&?). repeat split; congruence.
Qed.

Lemma reloc_text_frame obj s pi relo w r s' w' :
  programs_frame obj s ->
  bpf_program__reloc_text pi s relo w = Some (r, s', w') -> programs_frame obj s'.
Proof.
  unfold bpf_program__reloc_text. intros Hf H. xinv H; simplify_eq; try done.
  all: eapply programs_frame_update; [done..|]; done.
Qed.

Lemma relocate_step_frame obj s pi i w r s' w' :
  programs_frame obj s ->
  relocate_step pi i s w = Some (r, s', w') -> programs_frame obj s'.
Proof.
  unfold relocate_step. intros Hf H. xinv H; simplify_eq; try done.
  - eapply programs_frame_update; [done..|]; done.
  - by eapply reloc_text_frame.
Qed.

Lemma program_relocate_frame obj s pi w r s' w' :
  programs_frame obj s ->
  bpf_program__relocate pi s w = Some (r, s', w') -> programs_frame obj s'.
Proof.
  unfold bpf_program__relocate. intros Hf H. xinv H; simplify_eq; try done.
  all: match goal with H : for_each _ _ _ _ _ = Some _ |- _ =>
         apply (for_each_invariant (programs_frame obj)) in H; [|clear H|done] end.
  all: try (intros ?????? HP Hb; by eapply relocate_step_frame).
  - done.
  - eapply programs_frame_update; [done..|]; done.
Qed.

Lemma relocate_frame obj w r obj' w' :
  bpf_object__relocate obj w = Some (r, obj', w') -> programs_frame obj obj'.
Proof.
  unfold bpf_object__relocate.
  apply (for_each_invariant (programs_frame obj)); [|apply programs_frame_refl].
  intros ?????? HP Hb. by eapply program_relocate_frame.
Qed.

(** ** One program's submission *)

Lemma set_instance_fd_effect (p : bpf_program) (i v : Z) (w : world) p' w' :
  set_instance_fd p i v w = Some (p', w') ->
  w' = w /\ exists fds, instances_fds p = Some fds /\ is_Some (zlookup fds i) /\
  p' = set_instances p (instances_nr p) (Some (zinsert i v fds)).
Proof.
  unfold set_instance_fd. intros H. xinv H. simplify_eq. split; [done|].
  eexists. split; [done|]. split; [by eexists|done].
Qed.

Lemma set_instance_fd_shape (p : bpf_program) (i v : Z) (w : world) p' w' :
  set_instance_fd p i v w = Some (p', w') ->
  instances_shape p' = instances_shape p /\ idx p' = idx p /\
  preprocessor p' = preprocessor p /\ insns p' = insns p /\ insns_cnt p' = insns_cnt p /\
  type p' = type p.
Proof.
  intros H. apply set_instance_fd_effect in H as (-> & fds & Hf & _ & ->).
  unfold instances_shape. cbn. rewrite Hf. cbn. by rewrite length_zinsert.
Qed.

Lemma instances_ok_shape (p p' : bpf_program) :
  instances_shape p' = instances_shape p -> instances_ok p -> instances_ok p'.
Proof.
  unfold instances_shape, instances_ok. intros H [Hp|(fds & Hf & Hl)]; simplify_eq.
  - left. congruence.
  - right. rewrite Hf in *. destruct (instances_fds p') as [fds'|]; simplify_eq/=.
    exists fds'. split; [done|]. lia.
Qed.

Lemma load_program_outcome ty eat nm ins cnt lic kv ifx (w : world)
    (r : Z) (pfd : option Z) (w' : world) :
  load_program ty eat nm ins cnt lic kv ifx w = Some (r, pfd, w') ->
  (r = 0 /\ exists v, pfd = Some v /\ 0 <= v) \/ (r < 0 /\ pfd = None).
Proof.
  unfold load_program. intros H. xinv H; simplify_eq; try (by right).
  left. split; [done|]. eexists. split; [done|]. lia.
Qed.

Lemma program_load_outcome (p : bpf_program) (lic : list byte) (kv : Z) (w : world)
    (r : Z) (p' : bpf_program) (w' : world) :
  bpf_program__load p lic kv w = Some (r, p', w') ->
  idx p' = idx p /\ preprocessor p' = preprocessor p /\ type p' = type p /\
  (instances_ok p -> instances_ok p') /\
  (r = 0 -> preprocessor p = None -> instances_fds p = None ->
   insns p' = None /\ insns_cnt p' = 0 /\ instances_nr p' = 1 /\
   exists v, 0 <= v /\ instances_fds p' = Some [v]).
Proof.
  unfold bpf_program__load. intros H.
  apply bind_Some in H as ([e1 p1] & w1 & H1 & H).
  assert (Hfirst : idx p1 = idx p /\ preprocessor p1 = preprocessor p /\ type p1 = type p /\
                   (instances_ok p -> instances_ok p1) /\
                   (e1 = 0 -> preprocessor p = None -> instances_fds p = None ->
                    instances_nr p1 = 1 /\ instances_fds p1 = Some [-1])).
  { xinv H1; simplify_eq; repeat split; try done.
    - intros _. right. exists [-1]. split; [done|]. simpl. lia.
    - exfalso. match goal with Hn : instances_fds p = None |- _ => rewrite Hn in * end.
      simpl in *. by rewrite orb_true_r in *.
    - exfalso. match goal with Hn : instances_fds p = None |- _ => rewrite Hn in * end.
      simpl in *. by rewrite orb_true_r in *. }
  clear H1. destruct Hfirst as (Hidx & Hprep & Hty & Hok & Hfresh).
  destruct (negb (e1 =? 0)) eqn:He1.
  { apply ret_Some in H. simplify_eq. apply negb_true_iff, Z.eqb_neq in He1.
    repeat split; try done; try lia. }
  apply negb_false_iff, Z.eqb_eq in He1. subst e1.
  apply bind_Some in H as ([e2 p2] & w2 & H2 & H). apply ret_Some in H. simplify_eq.
  destruct (preprocessor p1) as [prep|] eqn:Hp1.
  - (* with a preprocessor *)
    apply (for_each_invariant
             (fun q => instances_shape q = instances_shape p1 /\ idx q = idx p1 /\
                       preprocessor q = preprocessor p1 /\ type q = type p1)) in H2.
    + destruct H2 as (Hsh & Hi & Hpp & Ht).
      unfold zfree_insns. cbn [idx preprocessor type set_insns].
      repeat split; try congruence.
      intros Hp. apply (instances_ok_shape p1); [|by apply Hok].
      unfold instances_shape in *. cbn. exact Hsh.
    + clear. intros i q w r q' w' (Hsh & Hi & Hpp & Ht) Hb.
      xinv Hb; simplify_eq; try done.
      all: repeat match goal with
           | H : set_instance_fd _ _ _ _ = Some _ |- _ =>
               apply set_instance_fd_shape in H as (? & ? & ? & ? & ? & ?)
           end.
      all: repeat split; try congruence.
      all: unfold instances_shape in *; simplify_eq; f_equal; congruence.
    + done.
  - (* the program's own instructions *)
    xinv H2; simplify_eq.
    + apply load_program_outcome in Hc as [[_ (v & ? & Hv)]|[? _]]; [|lia]. simplify_eq.
      pose proof Hc0 as Hsh. apply set_instance_fd_shape in Hsh as (Hsh & ? & ? & ? & ? & ?).
      unfold zfree_insns. cbn [idx preprocessor type set_insns insns insns_cnt instances_nr
                                instances_fds].
      split_and!; try congruence.
      * intros Hp. apply (instances_ok_shape p1); [done|by apply Hok].
      * intros _ Hnone Hnofd.
        destruct (Hfresh eq_refl Hnone Hnofd) as [Hnr Hfds].
        apply set_instance_fd_effect in Hc0 as (_ & fds & Hf & _ & ->).
        rewrite Hfds in Hf. simplify_eq. cbn. split_and!; try done.
        exists v. split; [done|]. reflexivity.
    + unfold zfree_insns. cbn [idx preprocessor type set_insns insns insns_cnt instances_nr
                                instances_fds].
      apply Z.eqb_neq in Heqb.
      split_and!; try congruence; try done.
Qed.

Lemma submitted_from_refl (skip : bpf_program -> bool) (r : Z) (p : bpf_program) :
  r <> 0 \/ skip p = true -> submitted_from skip r p p.
Proof. intros H. unfold submitted_from. split_and!; try done. intros ? ?. destruct H; congruence. Qed.

Lemma load_each_outcome (skip : bpf_program -> bool) (lic : list byte) (kv : Z)
    (ps : list bpf_program) :
  forall w r ps' w',
    load_each skip lic kv ps w = Some (r, ps', w') ->
    Forall2 (submitted_from skip r) ps ps'.
Proof.
  induction ps as [|p ps IH]; intros w r ps' w' H; cbn [load_each] in H.
  - apply ret_Some in H. simplify_eq. constructor.
  - destruct (skip p) eqn:Hskip.
    + xinv H. simplify_eq. constructor; [|by eapply IH].
      apply submitted_from_refl. by right.
    + apply bind_Some in H as ([e p'] & w1 & Hl & H).
      apply program_load_outcome in Hl as (Hi & Hpp & Ht & Hok & Hsub).
      destruct (Z.eqb_spec e 0) as [->|He]; simpl in H.
      * xinv H. simplify_eq. constructor; [|by eapply IH].
        unfold submitted_from. split_and!; try done; try congruence.
        intros _ _ Hfr. destruct Hfr as [Hp Hf]. unfold submitted_ok. by apply Hsub.
      * apply ret_Some in H. simplify_eq. constructor.
        -- unfold submitted_from. split_and!; try done; congruence.
        -- clear -He. induction ps as [|q ps IH]; constructor; [|done].
           apply submitted_from_refl. by left.
Qed.

(** ** The stages of a load *)

Lemma Forall2_transport {A} (R : A -> A -> Prop) (P : A -> Prop) (l l' : list A) :
  Forall2 R l l' -> (forall x y, R x y -> P x -> P y) -> Forall P l -> Forall P l'.
Proof.
  intros Hf HR. induction Hf as [|x y l l' Hxy Hf IH]; [done|].
  intros Hl. apply Forall_cons in Hl as [Hx Hl]. constructor; eauto.
Qed.

Lemma create_maps_tables (obj : bpf_object) (w : world) r obj1 w1 :
  tables_ok obj -> bpf_object__create_maps obj w = Some (r, obj1, w1) -> tables_ok obj1.
Proof.
  intros (Hm & Hp & Hi) H.
  apply create_maps_outcome in H as (Hs & Hsame & _); [|done].
  apply Forall2_length in Hsame. rewrite Hs. unfold tables_ok. cbn. split_and!; try done.
  lia.
Qed.

Lemma frame_tables (obj s : bpf_object) :
  tables_ok obj -> programs_frame obj s -> tables_ok s.
Proof.
  intros (Hm & Hp & Hi) [Hs Hf]. rewrite Hs. unfold tables_ok. cbn. split_and!; try done.
  - apply Forall2_length in Hf. lia.
  - eapply Forall2_transport; [exact Hf| |exact Hi].
    intros p q (Hn & Hfd & _). unfold instances_ok. by rewrite Hn, Hfd.
Qed.

Lemma load_progs_outcome (obj : bpf_object) (w : world) r obj' w' :
  tables_ok obj -> bpf_object__load_progs obj w = Some (r, obj', w') ->
  tables_ok obj' /\ obj' = set_programs obj (programs obj') /\
  Forall2 (submitted_from (fun p => bpf_program__is_function_storage p obj) r)
          (programs obj) (programs obj').
Proof.
  intros (Hm & Hp & Hi) H. rewrite load_progs_as_traversal in H by done.
  destruct (load_each _ _ _ _ w) as [[[e ps'] w1]|] eqn:Hl; [|done]. simplify_eq.
  apply load_each_outcome in Hl. unfold tables_ok. cbn. split_and!; try done.
  - apply Forall2_length in Hl. lia.
  - eapply Forall2_transport; [exact Hl| |exact Hi].
    intros p q (_ & _ & _ & Hok & _). exact Hok.
Qed.

Lemma load_outcome (obj : bpf_object) (w : world) r obj' w' :
  tables_ok obj -> loaded obj = false ->
  bpf_object__load obj w = Some (r, obj', w') ->
  (r <> 0 ->
   descriptors_of obj' = [] /\
   Forall (fun m => fd m = -1) (maps obj') /\
   Forall (fun p => instances_nr p = -1 /\ instances_fds p = None) (programs obj')) /\
  (r = 0 ->
   Forall2 created_from (maps obj) (maps obj') /\
   Forall2 (fun p p' =>
              idx p' = idx p /\ type p' = type p /\
              (bpf_program__is_function_storage p obj = true ->
               instances_nr p' = instances_nr p /\ instances_fds p' = instances_fds p) /\
              (bpf_program__is_function_storage p obj = false -> fresh_program p ->
               submitted_ok p'))
           (programs obj) (programs obj')).
Proof.
  intros Hok Hfresh H. unfold bpf_object__load in H. rewrite Hfresh in H.
  apply bind_Some in H as ([e1 o1] & w1 & Hcreate & H).
  assert (Hok0 : tables_ok (set_loaded obj true)) by (by destruct Hok).
  pose proof (create_maps_tables _ _ _ _ _ Hok0 Hcreate) as Hok1.
  apply create_maps_outcome in Hcreate as (Hs1 & _ & Hmaps & _); [|by destruct Hok0].
  cbn [maps set_loaded] in Hmaps.
  apply bind_Some in H as ([e o] & w2 & Hstages & H).
  assert (Hfail : forall o w2 e, tables_ok o ->
            (let* '(_, obj) := bpf_object__unload o in ret (e, obj)) w2 = Some (r, obj', w') ->
            r = e /\
            descriptors_of obj' = [] /\
            Forall (fun m => fd m = -1) (maps obj') /\
            Forall (fun p => instances_nr p = -1 /\ instances_fds p = None) (programs obj')).
  { clear. intros o w2 e Hok H.
    destruct (unload_outcome o w2 Hok) as (o' & w3 & Hu & _ & Hm & Hp & Hd).
    unfold bind in H. rewrite Hu in H. apply ret_Some in H. simplify_eq.
    split; [done|]. split; [done|]. rewrite Hm, Hp.
    split; apply Forall_fmap, Forall_true; done. }
  destruct (Z.eqb_spec e1 0) as [->|He1]; simpl in Hstages.
  2:{ apply ret_Some in Hstages. simplify_eq.
      apply Z.eqb_neq in He1. rewrite He1 in H. simpl in H.
      apply Hfail in H as (-> & Hrest); [|done].
      apply Z.eqb_neq in He1. split; [done|]. intros ?. done. }
  apply bind_Some in Hstages as ([e2 o2] & w3 & Hreloc & Hstages).
  apply relocate_frame in Hreloc. pose proof (frame_tables _ _ Hok1 Hreloc) as Hok2.
  destruct (Z.eqb_spec e2 0) as [->|He2]; simpl in Hstages.
  2:{ apply ret_Some in Hstages. simplify_eq.
      apply Z.eqb_neq in He2. rewrite He2 in H. simpl in H.
      apply Hfail in H as (-> & Hrest); [|done].
      apply Z.eqb_neq in He2. split; [done|]. intros ?. done. }
  destruct (load_progs_outcome _ _ _ _ _ Hok2 Hstages) as (Hok3 & Hs3 & Hsub).
  destruct (Z.eqb_spec e 0) as [->|He]; simpl in H.
  2:{ apply Hfail in H as (-> & Hrest); [|done]. split; [done|]. intros ?. done. }
  apply ret_Some in H. simplify_eq. split; [done|]. intros _.
  destruct Hreloc as [Hs2 Hsame].
  split.
  - rewrite Hs3. cbn [maps set_programs]. rewrite Hs2. cbn [maps set_programs]. exact (Hmaps eq_refl).
  - rewrite Hs1 in Hsame. cbn [programs set_maps set_loaded] in Hsame.
    assert (Hfs : forall p, bpf_program__is_function_storage p o2
                            = bpf_program__is_function_storage p obj).
    { intros p. rewrite Hs2, Hs1. reflexivity. }
    clear -Hsame Hsub Hfs.
    revert Hsub. generalize (programs obj'). 
    induction Hsame as [|p q l l' Hpq Hl IH]; intros l3 Hsub.
    + apply Forall2_nil_inv_l in Hsub as ->. constructor.
    + apply Forall2_cons_inv_l in Hsub as (p3 & l3' & Hq3 & Hl3 & ->).
      constructor; [|by apply IH].
      destruct Hpq as (Hnr & Hfds & Hprep & Hidx & Hty).
      destruct Hq3 as (Hidx3 & Hprep3 & Hty3 & _ & Hskip & Hgo).
      rewrite Hfs in Hskip, Hgo.
      assert (Hfs' : bpf_program__is_function_storage q obj
                     = bpf_program__is_function_storage p obj).
      { unfold bpf_program__is_function_storage. by rewrite Hidx. }
      rewrite Hfs' in Hskip, Hgo.
      split_and!; try congruence.
      * intros Hst. rewrite (Hskip Hst). done.
      * intros Hst [Hp Hf]. apply Hgo; [done..|]. split; congruence.
Qed.

(** X5: when the load of an object that was not loaded before fails, at
    whatever stage, the object is left without any descriptor: every
    map's descriptor is -1 and no program has an instance array. *)
Theorem load_failure_leaves_no_descriptor (obj : bpf_object) (w : world)
    (r : Z) (obj' : bpf_object) (w' : world) :
  tables_ok obj -> loaded obj = false ->
  bpf_object__load obj w = Some (r, obj', w') ->
  r <> 0 ->
  descriptors_of obj' = [] /\
  Forall (fun m => fd m = -1) (maps obj') /\
  Forall (fun p => instances_nr p = -1 /\ instances_fds p = None) (programs obj').
Proof.
  intros Ht Hl H Hr. destruct (load_outcome _ _ _ _ _ Ht Hl H) as [Hfail _].
  by apply Hfail.
Qed.

Lemma load_failure_leaves_no_descriptor_witness :
  exists r obj' w',
    bpf_object__load calls_obj (scripted [ans 1; ans 1; ans 1; ans (-1)])
      = Some (r, obj', w') /\
    descriptors_of obj' = [] /\
    Forall (fun m => fd m = -1) (maps obj') /\
    Forall (fun p => instances_nr p = -1 /\ instances_fds p = None) (programs obj').
Proof.
  eexists _, _, _. split; [vm_compute; reflexivity|].
  eapply (load_failure_leaves_no_descriptor calls_obj
           (scripted [ans 1; ans 1; ans 1; ans (-1)])).
  - split; [reflexivity|]. split; [reflexivity|].
    apply Forall_cons. split; [left; simpl; lia|].
    apply Forall_cons. split; [left; simpl; lia|constructor].
  - reflexivity.
  - vm_compute; reflexivity.
  - vm_compute; discriminate.
Defined.

(** X6: when the load of an object that was not loaded before succeeds,
    every map has a descriptor (a map that had one keeps it); a program
    kept as function storage keeps its instances as they were, and
    every other program that was never loaded and has no preprocessor
    ends with its instructions released and exactly one instance, whose
    descriptor is the kernel's. *)
Theorem load_success_state (obj : bpf_object) (w : world) (obj' : bpf_object) (w' : world) :
  tables_ok obj -> loaded obj = false ->
  bpf_object__load obj w = Some (0, obj', w') ->
  Forall2 created_from (maps obj) (maps obj') /\
  Forall2 (fun p p' =>
             idx p' = idx p /\ type p' = type p /\
             (bpf_program__is_function_storage p obj = true ->
              instances_nr p' = instances_nr p /\ instances_fds p' = instances_fds p) /\
             (bpf_program__is_function_storage p obj = false -> fresh_program p ->
              submitted_ok p'))
          (programs obj) (programs obj').
Proof.
  intros Ht Hl H. destruct (load_outcome _ _ _ _ _ Ht Hl H) as [_ Hok]. by apply Hok.
Qed.

Lemma load_success_state_witness :
  exists obj' w',
    bpf_object__load calls_obj (scripted [ans 1; ans 1; ans 1; ans 9]) = Some (0, obj', w') /\
    Forall2 created_from (maps calls_obj) (maps obj') /\
    Forall2 (fun p p' =>
               idx p' = idx p /\ type p' = type p /\
               (bpf_program__is_function_storage p calls_obj = true ->
                instances_nr p' = instances_nr p /\ instances_fds p' = instances_fds p) /\
               (bpf_program__is_function_storage p calls_obj = false -> fresh_program p ->
                submitted_ok p'))
            (programs calls_obj) (programs obj').
Proof.
  eexists _, _. split; [vm_compute; reflexivity|].
  eapply (load_success_state calls_obj (scripted [ans 1; ans 1; ans 1; ans 9])).
  - split; [reflexivity|]. split; [reflexivity|].
    apply Forall_cons. split; [left; simpl; lia|].
    apply Forall_cons. split; [left; simpl; lia|constructor].
  - reflexivity.
  - vm_compute; reflexivity.
Defined.

(** ** Program kinds by section name *)

Lemma char_val_inj (c c' : Ascii.ascii) : char_val c = char_val c' -> c = c'.
Proof.
  unfold char_val. intros H.
  rewrite <- (Ascii.ascii_nat_embedding c), <- (Ascii.ascii_nat_embedding c').
  f_equal. lia.
Qed.

Lemma strncmp_prefix (s : string) :
  c_string s = true ->
  forall name, strncmp name s (String.length s) = 0 <-> begins_with name s.
Proof.
  unfold begins_with.
  induction s as [|c s IH]; intros Hs name.
  - split; [intros _; by exists name|intros _; reflexivity].
  - cbn in Hs. apply andb_true_iff in Hs as [Hc Hs].
    apply negb_true_iff, Ascii.eqb_neq in Hc.
    destruct name as [|c' name]; cbn.
    + split; [|by intros [? ?]]. intros H. exfalso. apply Hc.
      apply char_val_inj. change (char_val Ascii.zero) with 0. lia.
    + destruct (Ascii.eqb_spec c' c) as [->|Hne].
      * rewrite (IH Hs name). split; intros [rest Hr]; exists rest.
        -- by rewrite Hr.
        -- by injection Hr.
      * split; [|intros [? Hr]; injection Hr; intros; congruence]. intros H. exfalso. apply Hne.
        apply char_val_inj. lia.
Qed.

Lemma begins_with_comparable (a b n : string) :
  begins_with n a -> begins_with n b -> begins_with b a \/ begins_with a b.
Proof.
  unfold begins_with. revert b n. induction a as [|c a IH]; intros b n [x Ha] [y Hb].
  - left. by exists b.
  - destruct b as [|c' b]; [right; by eexists|].
    cbn in *. subst n. simplify_eq.
    destruct (IH b (String.append a x)) as [[z Hz]|[z Hz]]; [by eexists|by eexists|..].
    + left. exists z. by rewrite Hz.
    + right. exists z. by rewrite Hz.
Qed.

(** The loop finds the first entry of the table that the name begins
    with. *)
Lemma prog_type_by_name_from_spec (table : list section_def) (name : string) :
  Forall (fun e => c_string (sec e) = true /\ len e = str_len (sec e)) table ->
  match prog_type_by_name_from table name with
  | Some k =>
      exists pre e post,
        table = pre ++ e :: post /\ begins_with name (sec e) /\ k = kinds_of e /\
        Forall (fun e' => ~ begins_with name (sec e')) pre
  | None => Forall (fun e => ~ begins_with name (sec e)) table
  end.
Proof.
  induction 1 as [|e table [He Hl] Ht IH]; [constructor|].
  cbn. rewrite Hl. unfold str_len. rewrite Nat2Z.id.
  destruct (Z.eqb_spec (strncmp name (sec e) (String.length (sec e))) 0) as [Hz|Hnz]; cbn.
  - exists [], e, table. split; [done|]. split; [by apply strncmp_prefix|]. done.
  - assert (~ begins_with name (sec e)) as Hno by (by rewrite <- strncmp_prefix).
    destruct (prog_type_by_name_from table name) as [k|].
    + destruct IH as (pre & e' & post & -> & Hb & -> & Hpre).
      exists (e :: pre), e', post. split_and!; try done. by constructor.
    + by constructor.
Qed.

Lemma section_names_well_formed :
  Forall (fun e => c_string (sec e) = true /\ len e = str_len (sec e)) section_names.
Proof.
  apply Forall_forall. intros e He.
  assert (Hb : forallb well_formed_entry section_names = true) by (vm_compute; reflexivity).
  rewrite forallb_forall in Hb. apply list_elem_of_In in He. apply Hb in He.
  unfold well_formed_entry in He. apply andb_true_iff in He as [? ?]. split; [done|lia].
Qed.

Lemma section_names_prefix_free (i j : nat) (e e' : section_def) :
  section_names !! i = Some e -> section_names !! j = Some e' -> i <> j ->
  ~ begins_with (sec e) (sec e').
Proof.
  intros Hi Hj Hne Hb.
  assert (Hpf : prefix_free section_names = true) by (vm_compute; reflexivity).
  unfold prefix_free in Hpf. rewrite forallb_forall in Hpf.
  specialize (Hpf i). rewrite forallb_forall in Hpf.
  assert (Hin : forall k x, section_names !! k = Some x ->
                            In k (seq 0 (length section_names))).
  { intros k x Hk. apply in_seq. apply lookup_lt_Some in Hk. lia. }
  specialize (Hpf (Hin _ _ Hi) j (Hin _ _ Hj)).
  rewrite Hi, Hj in Hpf. apply orb_true_iff in Hpf as [Heq|Hcmp].
  - apply Nat.eqb_eq in Heq. done.
  - apply negb_true_iff, Z.eqb_neq in Hcmp. apply Hcmp.
    apply strncmp_prefix; [|done].
    pose proof section_names_well_formed as Hwf. rewrite Forall_forall in Hwf.
    apply (Hwf e'). by eapply list_elem_of_lookup_2.
Qed.

Lemma prog_type_by_name_entry (e : section_def) (name : string) :
  e ∈ section_names -> begins_with name (sec e) ->
  prog_type_by_name_from section_names name = Some (kinds_of e).
Proof.
  intros He Hb. apply list_elem_of_lookup in He as [j Hj].
  pose proof (prog_type_by_name_from_spec section_names name section_names_well_formed) as H.
  destruct (prog_type_by_name_from section_names name) as [k|].
  - destruct H as (pre & e0 & post & Ht & Hb0 & -> & _).
    assert (Hi : section_names !! length pre = Some e0).
    { rewrite Ht. by apply list_lookup_middle. }
    destruct (decide (length pre = j)) as [<-|Hne]; [congruence|].
    exfalso. destruct (begins_with_comparable _ _ _ Hb Hb0) as [H1|H1].
    + eapply (section_names_prefix_free (length pre) j); eauto.
    + eapply (section_names_prefix_free j (length pre)); eauto.
  - exfalso. rewrite Forall_forall in H. eapply H; [|done]. by eapply list_elem_of_lookup_2.
Qed.

(** X7: the section-name table is unambiguous.  For every section name
    that begins with an entry of the table, the lookup succeeds with the
    program kind and the attach kind of that entry, wherever the entry
    stands in the table (no name begins with two entries); for a name
    that begins with none, it fails with EINVAL. *)
Theorem prog_type_by_name_unambiguous (name : string) :
  (forall e, e ∈ section_names -> begins_with name (sec e) ->
     libbpf_prog_type_by_name (Some name) = (0, Some (kinds_of e))) /\
  ((forall e, e ∈ section_names -> ~ begins_with name (sec e)) ->
     libbpf_prog_type_by_name (Some name) = (- EINVAL, None)).
Proof.
  unfold libbpf_prog_type_by_name. split.
  - intros e He Hb. by rewrite (prog_type_by_name_entry e name He Hb).
  - intros Hno.
    pose proof (prog_type_by_name_from_spec section_names name section_names_well_formed) as H.
    destruct (prog_type_by_name_from section_names name) as [k|]; [|done].
    destruct H as (pre & e & post & Ht & Hb & _). exfalso. apply (Hno e); [|done].
    rewrite Ht. apply elem_of_app. right. by left.
Qed.

(** ** Finding a map *)

Lemma find_map_by_offset_from_spec (obj : bpf_object) (off : Z) :
  forall (n i : nat),
    (i + n <= length (maps obj))%nat ->
    match find_map_by_offset_from n (Z.of_nat i) obj off with
    | Some (MapAt j) =>
        exists (k : nat) m,
          j = Z.of_nat k /\ (i <= k < i + n)%nat /\ maps obj !! k = Some m /\ offset m = off /\
          forall (k' : nat) m', (i <= k' < k)%nat -> maps obj !! k' = Some m' -> offset m' <> off
    | Some (MapRaw v) =>
        v = to_size_t (- ENOENT) /\
        forall (k' : nat) m', (i <= k' < i + n)%nat -> maps obj !! k' = Some m' -> offset m' <> off
    | None => False
    end.
Proof.
  induction n as [|n IH]; intros i Hi; cbn [find_map_by_offset_from].
  - split; [done|]. intros; lia.
  - rewrite zlookup_nat.
    destruct (lookup_lt_is_Some_2 (maps obj) i ltac:(lia)) as [m Hm].
    rewrite Hm. cbn.
    destruct (Z.eqb_spec (offset m) off) as [Heq|Hne].
    + exists i, m. split_and!; try done; try lia.
    + replace (Z.of_nat i + 1) with (Z.of_nat (S i)) by lia.
      specialize (IH (S i) ltac:(lia)).
      destruct (find_map_by_offset_from n (Z.of_nat (S i)) obj off) as [[j|v]|]; [| |done].
      * destruct IH as (k & m' & -> & Hk & Hl & Ho & Hfirst).
        exists k, m'. split_and!; try done; try lia.
        intros k' m'' Hk' Hl'. destruct (decide (k' = i)) as [->|]; [congruence|].
        eapply Hfirst; [|done]. lia.
      * destruct IH as [-> Hnone]. split; [done|].
        intros k' m' Hk' Hl'. destruct (decide (k' = i)) as [->|]; [congruence|].
        eapply Hnone; [|done]. lia.
Qed.

(** X8: in an object whose map count is the length of its table, the
    search by offset returns the first map of the table with that
    offset, and the error pointer for ENOENT exactly when no map has
    it; it never reads outside the table. *)
Theorem find_map_by_offset_first (obj : bpf_object) (off : Z) :
  nr_maps obj = Z.of_nat (length (maps obj)) ->
  match bpf_object__find_map_by_offset obj off with
  | Some (MapAt j) =>
      exists (k : nat) m,
        j = Z.of_nat k /\ maps obj !! k = Some m /\ offset m = off /\
        forall (k' : nat) m', (k' < k)%nat -> maps obj !! k' = Some m' -> offset m' <> off
  | Some (MapRaw v) =>
      RawPtr v = ERR_PTR (- ENOENT) /\
      forall (k' : nat) m', maps obj !! k' = Some m' -> offset m' <> off
  | None => False
  end.
Proof.
  intros Hn. unfold bpf_object__find_map_by_offset. rewrite Hn, Nat2Z.id.
  pose proof (find_map_by_offset_from_spec obj off (length (maps obj)) 0 ltac:(lia)) as H.
  change (Z.of_nat 0) with 0 in H.
  destruct (find_map_by_offset_from (length (maps obj)) 0 obj off) as [[j|v]|]; [| |done].
  - destruct H as (k & m & -> & Hk & Hm & Ho & Hfirst). exists k, m. split_and!; try done.
    intros k' m' Hk'. apply Hfirst. lia.
  - destruct H as [-> Hnone]. split; [done|]. intros k' m' Hk'. apply (Hnone k'); [|done].
    apply lookup_lt_Some in Hk'. lia.
Qed.

Lemma find_map_by_offset_first_witness :
  match bpf_object__find_map_by_offset three_maps_obj 20 with
  | Some (MapAt j) =>
      exists (k : nat) m,
        j = Z.of_nat k /\ maps three_maps_obj !! k = Some m /\ offset m = 20 /\
        forall (k' : nat) m', (k' < k)%nat -> maps three_maps_obj !! k' = Some m' ->
                              offset m' <> 20
  | Some (MapRaw v) =>
      RawPtr v = ERR_PTR (- ENOENT) /\
      forall (k' : nat) m', maps three_maps_obj !! k' = Some m' -> offset m' <> 20
  | None => False
  end.
Proof. apply (find_map_by_offset_first three_maps_obj 20). reflexivity. Defined.

(** ** Walking the map table *)

Lemma map_next_spec (obj : bpf_object) (i : nat) :
  nr_maps obj = Z.of_nat (length (maps obj)) -> nr_maps obj <= size_t_max ->
  (i < length (maps obj))%nat ->
  bpf_map__next (Some (Z.of_nat i)) (Some obj) =
  if decide (S i < length (maps obj))%nat then Some (Z.of_nat (S i)) else None.
Proof.
  unfold size_t_max. intros Hn Hmax Hi. unfold bpf_map__next.
  destruct (maps obj) as [|m ms] eqn:Hm; [simpl in Hi; lia|].
  rewrite bool_decide_false by done.
  destruct (Z.ltb_spec (Z.of_nat i) 0); [lia|].
  destruct (Z.leb_spec (nr_maps obj) (Z.of_nat i)); [lia|]. cbn [orb].
  rewrite to_size_t_range by lia.
  destruct (Z.leb_spec (nr_maps obj) (Z.of_nat i + 1)); destruct decide; try lia; try done.
  f_equal. lia.
Qed.

Lemma map_next_first (obj : bpf_object) :
  bpf_map__next None (Some obj) = if decide (maps obj = []) then None else Some 0.
Proof. unfold bpf_map__next. destruct (decide (maps obj = [])); [by rewrite bool_decide_true|by rewrite bool_decide_false]. Qed.

Lemma for_each_map_from_as_loop {St} (get : St -> bpf_object)
    (body : Z -> St -> M (Z * St)) (n : nat) :
  (forall i s w r s' w', body i s w = Some (r, s', w') ->
     nr_maps (get s') = nr_maps (get s) /\ length (maps (get s')) = length (maps (get s))) ->
  Z.of_nat n <= size_t_max ->
  forall (k i fuel : nat) s w,
    (i + k = n)%nat -> (k <= fuel)%nat ->
    nr_maps (get s) = Z.of_nat n -> length (maps (get s)) = n ->
    for_each_map_from fuel get (if decide (k = 0)%nat then None else Some (Z.of_nat i)) body s w
    = for_each k (Z.of_nat i) body s w.
Proof.
  intros Hbody Hmax. induction k as [|k IH]; intros i fuel s w Hik Hfuel Hnr Hlen.
  - destruct fuel; reflexivity.
  - destruct fuel as [|fuel]; [lia|]. cbn [for_each_map_from for_each]. 
    destruct (decide (S k = 0)%nat) as [|_]; [lia|].
    unfold bind. destruct (body (Z.of_nat i) s w) as [[[e s'] w']|] eqn:Hb; [|done].
    destruct (negb (e =? 0)); [done|].
    destruct (Hbody _ _ _ _ _ _ Hb) as [Hnr' Hlen'].
    rewrite map_next_spec by lia.
    replace (Z.of_nat i + 1) with (Z.of_nat (S i)) by lia.
    rewrite <- (IH (S i) fuel s' w') by lia.
    rewrite Hlen', Hlen.
    destruct (decide (S i < n)%nat), (decide (k = 0)%nat); try lia; done.
Qed.

(** X9: the iteration over the maps of an object, with a body that
    leaves the map count and the length of the table alone, is the
    plain loop over the indices below the map count: every map is
    visited once, in table order, until the body returns non-zero, and
    no handle outside the table is made. *)
Theorem map_for_each_is_indexed_loop {St} (get : St -> bpf_object)
    (body : Z -> St -> M (Z * St)) (s : St) (w : world) :
  (forall i s w r s' w', body i s w = Some (r, s', w') ->
     nr_maps (get s') = nr_maps (get s) /\ length (maps (get s')) = length (maps (get s))) ->
  nr_maps (get s) = Z.of_nat (length (maps (get s))) -> nr_maps (get s) <= size_t_max ->
  bpf_map__for_each get body s w = for_each (Z.to_nat (nr_maps (get s))) 0 body s w.
Proof.
  intros Hbody Hn Hmax. unfold bpf_map__for_each. rewrite Hn, Nat2Z.id.
  rewrite map_next_first.
  pose proof (for_each_map_from_as_loop get body (length (maps (get s))) Hbody
                ltac:(lia) (length (maps (get s))) 0 (length (maps (get s)) + 1) s w
                ltac:(lia) ltac:(lia) Hn eq_refl) as H.
  change (Z.of_nat 0) with 0 in H. rewrite <- H.
  destruct (decide (maps (get s) = [])) as [He|Hne];
    destruct (decide (length (maps (get s)) = 0)%nat) as [Hz|Hnz]; try done.
  - by rewrite He in Hnz.
  - by apply length_zero_iff_nil in Hz.
Qed.

Lemma map_for_each_is_indexed_loop_witness :
  bpf_map__for_each id (prog_load_map_step (mk_prog_load_attr None BPF_PROG_TYPE_XDP 0 7))
                    three_maps_obj generous
  = for_each (Z.to_nat (nr_maps three_maps_obj)) 0
             (prog_load_map_step (mk_prog_load_attr None BPF_PROG_TYPE_XDP 0 7))
             three_maps_obj generous.
Proof.
  apply (map_for_each_is_indexed_loop id
           (prog_load_map_step (mk_prog_load_attr None BPF_PROG_TYPE_XDP 0 7))
           three_maps_obj generous).
  - intros i s w r s' w' H. unfold prog_load_map_step in H.
    apply bind_Some in H as (m & w1 & Hm & H). apply deref_Some in Hm as [Hm Hw]. cbn in Hm, Hw. subst w1.
    destruct (negb _) in H; apply ret_Some in H; simplify_eq; [|done].
    split; [done|]. unfold zinsert. simpl. destruct (i <? 0); [done|].
    by rewrite length_insert.
  - reflexivity.
  - vm_compute; discriminate.
Defined.

Lemma find_map_by_name_from_spec (obj : bpf_object) (name : string) :
  nr_maps obj = Z.of_nat (length (maps obj)) -> nr_maps obj <= size_t_max ->
  forall (k i fuel : nat),
    (i + k = length (maps obj))%nat -> (k <= fuel)%nat ->
    match find_map_by_name_from fuel obj name
            (if decide (k = 0)%nat then None else Some (Z.of_nat i)) with
    | Some (Some j) =>
        exists (p : nat) m,
          j = Z.of_nat p /\ (i <= p)%nat /\ maps obj !! p = Some m /\ map_name m = Some name /\
          forall (p' : nat) m', (i <= p' < p)%nat -> maps obj !! p' = Some m' ->
                                map_name m' <> Some name
    | Some None =>
        forall (p' : nat) m', (i <= p')%nat -> maps obj !! p' = Some m' ->
                              map_name m' <> Some name
    | None => False
    end.
Proof.
  intros Hn Hmax. induction k as [|k IH]; intros i fuel Hik Hfuel.
  - destruct fuel; cbn; intros p' m' Hp' Hl; apply lookup_lt_Some in Hl; lia.
  - destruct fuel as [|fuel]; [lia|].
    destruct (decide (S k = 0)%nat) as [|_]; [lia|]. cbn [find_map_by_name_from].
    rewrite zlookup_nat.
    destruct (lookup_lt_is_Some_2 (maps obj) i ltac:(lia)) as [m Hm]. rewrite Hm. cbn [mbind option_bind].
    destruct (decide (map_name m = Some name)) as [Heq|Hne].
    + rewrite bool_decide_true by done.
      exists i, m. split_and!; try done. intros; lia.
    + rewrite bool_decide_false by done.
      rewrite map_next_spec by lia.
      specialize (IH (S i) fuel ltac:(lia) ltac:(lia)).
      assert ((if decide (S i < length (maps obj))%nat then Some (Z.of_nat (S i)) else None)
              = (if decide (k = 0)%nat then None else Some (Z.of_nat (S i)))) as ->.
      { destruct (decide (S i < length (maps obj))%nat), (decide (k = 0)%nat); try lia; done. }
      destruct (find_map_by_name_from fuel obj name _) as [[j|]|]; [| |done].
      * destruct IH as (p & m' & -> & Hp & Hl & Hnm & Hfirst).
        exists p, m'. split_and!; try done; try lia.
        intros p' m'' Hp' Hl'. destruct (decide (p' = i)) as [->|]; [congruence|].
        eapply Hfirst; [|done]. lia.
      * intros p' m' Hp' Hl'. destruct (decide (p' = i)) as [->|]; [congruence|].
        eapply IH; [|done]. lia.
Qed.

(** X10: in an object whose map count is the length of its table, the
    search by name returns the first map of the table with that name,
    and NULL exactly when no map has it; it never reads outside the
    table. *)
Theorem find_map_by_name_first (obj : bpf_object) (name : string) :
  nr_maps obj = Z.of_nat (length (maps obj)) -> nr_maps obj <= size_t_max ->
  match bpf_object__find_map_by_name obj name with
  | Some (Some j) =>
      exists (k : nat) m,
        j = Z.of_nat k /\ maps obj !! k = Some m /\ map_name m = Some name /\
        forall (k' : nat) m', (k' < k)%nat -> maps obj !! k' = Some m' ->
                              map_name m' <> Some name
  | Some None => forall (k' : nat) m', maps obj !! k' = Some m' -> map_name m' <> Some name
  | None => False
  end.
Proof.
  intros Hn Hmax. unfold bpf_object__find_map_by_name.
  pose proof (find_map_by_name_from_spec obj name Hn Hmax (length (maps obj)) 0
                (Z.to_nat (nr_maps obj) + 1) eq_refl ltac:(lia)) as H.
  assert (Hfirst : bpf_map__next None (Some obj)
                   = if decide (length (maps obj) = 0)%nat then None else Some (Z.of_nat 0)).
  { unfold bpf_map__next. destruct (maps obj); done. }
  rewrite Hfirst.
  destruct (find_map_by_name_from _ obj name _) as [[j|]|]; [| |done].
  - destruct H as (k & m & -> & _ & Hm & Hname & Hbefore). exists k, m.
    split_and!; try done. intros k' m' Hk'. apply Hbefore. lia.
  - intros k' m'. apply H. lia.
Qed.

Lemma find_map_by_name_first_witness :
  match bpf_object__find_map_by_name three_maps_obj "c" with
  | Some (Some j) =>
      exists (k : nat) m,
        j = Z.of_nat k /\ maps three_maps_obj !! k = Some m /\ map_name m = Some "c"%string /\
        forall (k' : nat) m', (k' < k)%nat -> maps three_maps_obj !! k' = Some m' ->
                              map_name m' <> Some "c"%string
  | Some None =>
      forall (k' : nat) m', maps three_maps_obj !! k' = Some m' ->
                            map_name m' <> Some "c"%string
  | None => False
  end.
Proof.
  apply (find_map_by_name_first three_maps_obj "c"); [reflexivity | vm_compute; discriminate].
Defined.

(** ** Walking the program table *)

Lemma program_next_step (obj : bpf_object) (i : nat) :
  nr_programs obj = Z.of_nat (length (programs obj)) -> nr_programs obj <= size_t_max ->
  (i <= length (programs obj))%nat ->
  __bpf_program__next (handle_before i) obj =
  if decide (i < length (programs obj))%nat then Some (Z.of_nat i) else None.
Proof.
  unfold size_t_max. intros Hn Hmax Hi. unfold __bpf_program__next.
  destruct (programs obj) as [|p ps] eqn:Hp.
  - rewrite bool_decide_true by done. destruct decide; [simpl in *; lia|done].
  - rewrite bool_decide_false by done. destruct i as [|j]; cbn [handle_before].
    + destruct decide; [done|simpl in *; lia].
    + rewrite to_size_t_range by lia.
      destruct (Z.leb_spec (nr_programs obj) (Z.of_nat j + 1)); destruct decide;
        try lia; try done.
      f_equal. lia.
Qed.

Lemma layout_lookup (o o' : bpf_object) (i : nat) (p : bpf_program) :
  program_layout o' = program_layout o -> programs o !! i = Some p ->
  exists p', programs o' !! i = Some p' /\
             bpf_program__is_function_storage p' o' = bpf_program__is_function_storage p o.
Proof.
  unfold program_layout. intros H Hp. simplify_eq.
  assert (Hi : (idx <$> programs o') !! i = Some (idx p)).
  { match goal with H : _ <$> _ = _ <$> _ |- _ => rewrite H end.
    by rewrite list_lookup_fmap, Hp. }
  rewrite list_lookup_fmap in Hi. destruct (programs o' !! i) as [p'|]; [|done].
  exists p'. split; [done|]. unfold bpf_program__is_function_storage.
  simplify_eq/=. congruence.
Qed.

Lemma for_each_program_from_as_loop {St} (get : St -> bpf_object)
    (body : Z -> St -> M (Z * St)) (o : bpf_object) :
  (forall i s w r s' w', body i s w = Some (r, s', w') ->
     program_layout (get s') = program_layout (get s)) ->
  nr_programs o = Z.of_nat (length (programs o)) -> nr_programs o <= size_t_max ->
  forall (k i fuel1 fuel : nat) s w,
    (i + k = length (programs o))%nat -> (k < fuel1)%nat -> (k <= fuel)%nat ->
    program_layout (get s) = program_layout o ->
    (let* next := deref (bpf_program__next_loop fuel1 (handle_before i) (get s)) in
     for_each_program_from fuel get next body s) w
    = for_each k (Z.of_nat i) (unless_function_storage get body) s w.
Proof.
  intros Hbody Hn Hmax.
  assert (Hlay : forall s, program_layout (get s) = program_layout o ->
            nr_programs (get s) = Z.of_nat (length (programs (get s))) /\
            length (programs (get s)) = length (programs o)).
  { intros s Hs. unfold program_layout in Hs. simplify_eq.
    assert (length (programs (get s)) = length (programs o)) as Hl.
    { rewrite <- (length_fmap idx (programs (get s))), <- (length_fmap idx (programs o)).
      congruence. }
    split; [|done]. congruence. }
  induction k as [|k IH]; intros i fuel1 fuel s w Hik Hf1 Hf Hs.
  - destruct (Hlay s Hs) as [Hns Hls].
    destruct fuel1 as [|fuel1]; [lia|]. cbn [bpf_program__next_loop].
    rewrite program_next_step by lia.
    destruct decide; [lia|]. unfold bind. cbn [deref ret]. destruct fuel; reflexivity.
  - destruct (Hlay s Hs) as [Hns Hls].
    destruct fuel1 as [|fuel1]; [lia|]. cbn [bpf_program__next_loop for_each].
    rewrite program_next_step by lia.
    destruct decide; [|lia].
    unfold unless_function_storage at 1. rewrite !zlookup_nat.
    destruct (lookup_lt_is_Some_2 (programs (get s)) i ltac:(lia)) as [p Hp].
    rewrite Hp. cbn [mbind option_bind]. unfold bind at 3. cbn [deref ret].
    destruct (bpf_program__is_function_storage p (get s)) eqn:Hfs.
    + unfold bind at 2. cbn [ret]. change (negb (0 =? 0)) with false. cbv iota.
      replace (Z.of_nat i + 1) with (Z.of_nat (S i)) by lia.
      rewrite <- (IH (S i) fuel1 fuel s w) by (done || lia). reflexivity.
    + unfold bind at 1. cbn [deref ret].
      destruct fuel as [|fuel]; [lia|]. cbn [for_each_program_from].
      unfold bind at 1 3. destruct (body (Z.of_nat i) s w) as [[[e s'] w']|] eqn:Hb; [|done].
      destruct (negb (e =? 0)); [done|].
      replace (Z.of_nat i + 1) with (Z.of_nat (S i)) by lia.
      pose proof (Hbody _ _ _ _ _ _ Hb) as Hs'. rewrite Hs in Hs'.
      destruct (Hlay s' Hs') as [Hns' Hls'].
      rewrite <- (IH (S i) (Z.to_nat (nr_programs (get s')) + 2)%nat fuel s' w')
        by (done || lia).
      reflexivity.
Qed.

(** X11: the iteration over the programs of an object, with a body that
    leaves the program count, the section indices of the programs, the
    index of the text section and the local-call flag alone, is the
    plain loop over the indices below the program count in which the
    programs kept as function storage are passed over: every other
    program is visited once, in table order, until the body returns
    non-zero. *)
Theorem program_for_each_skips_function_storage {St} (get : St -> bpf_object)
    (body : Z -> St -> M (Z * St)) (s : St) (w : world) :
  (forall i s w r s' w', body i s w = Some (r, s', w') ->
     program_layout (get s') = program_layout (get s)) ->
  nr_programs (get s) = Z.of_nat (length (programs (get s))) ->
  nr_programs (get s) <= size_t_max ->
  bpf_object__for_each_program get body s w
  = for_each (Z.to_nat (nr_programs (get s))) 0 (unless_function_storage get body) s w.
Proof.
  intros Hbody Hn Hmax. unfold bpf_object__for_each_program, bpf_program__next.
  rewrite Hn, Nat2Z.id.
  apply (for_each_program_from_as_loop get body (get s) Hbody Hn Hmax
           (length (programs (get s))) 0); (done || lia).
Qed.

Lemma program_for_each_skips_function_storage_witness :
  bpf_object__for_each_program id (fun _ o => ret (0, set_loaded o true)) calls_obj generous
  = for_each (Z.to_nat (nr_programs calls_obj)) 0
             (unless_function_storage id (fun _ o => ret (0, set_loaded o true)))
             calls_obj generous.
Proof.
  apply (program_for_each_skips_function_storage id
           (fun _ o => ret (0, set_loaded o true)) calls_obj generous).
  - intros i s w r s' w' H. apply ret_Some in H. by simplify_eq.
  - reflexivity.
  - vm_compute; discriminate.
Defined.

(** ** Open and load in one call *)





(** ** Error pointers *)

Lemma to_size_t_neg_max_errno : to_size_t (- MAX_ERRNO) = 18446744073709547521.
Proof. reflexivity. Qed.

Lemma get_error_of_ERR_PTR (e : Z) :
  - MAX_ERRNO <= e < 0 -> libbpf_get_error (ERR_PTR e) = e.
Proof.
  unfold libbpf_get_error, IS_ERR, PTR_ERR, ERR_PTR. rewrite to_size_t_neg_max_errno.
  unfold to_size_t, wrap_unsigned, wrap_signed, MAX_ERRNO.
  change (2 ^ 64) with 18446744073709551616. change (2 ^ (64 - 1)) with 9223372036854775808.
  intros He.
  assert (H1 : e mod 18446744073709551616 = e + 18446744073709551616).
  { symmetry. apply (Z.mod_unique_pos _ _ (-1)); lia. }
  rewrite H1.
  destruct (Z.leb_spec 18446744073709547521 (e + 18446744073709551616)); [|lia].
  assert (H2 : (e + 18446744073709551616 + 9223372036854775808) mod 18446744073709551616
               = e + 9223372036854775808).
  { symmetry. apply (Z.mod_unique_pos _ _ 1); lia. }
  rewrite H2. lia.
Qed.

Lemma get_error_of_positive (e : Z) :
  0 <= e <= INT_MAX -> libbpf_get_error (ERR_PTR e) = 0.
Proof.
  unfold libbpf_get_error, IS_ERR, PTR_ERR, ERR_PTR. rewrite to_size_t_neg_max_errno.
  unfold to_size_t, wrap_unsigned, INT_MAX.
  change (2 ^ 64) with 18446744073709551616. change (2 ^ 31 - 1) with 2147483647.
  intros He. rewrite (Z.mod_small e) by lia.
  destruct (Z.leb_spec 18446744073709547521 e); [lia|done].
Qed.

(** X13: an error code between -4095 and -1 made into a pointer is read
    back unchanged by libbpf_get_error; a code from 0 to INT_MAX made
    into a pointer is not recognised as an error and reads back as 0. *)
Theorem get_error_round_trip (e : Z) :
  - MAX_ERRNO <= e <= INT_MAX ->
  libbpf_get_error (ERR_PTR e) = if e <? 0 then e else 0.
Proof.
  intros He. destruct (Z.ltb_spec e 0).
  - apply get_error_of_ERR_PTR. lia.
  - apply get_error_of_positive. lia.
Qed.

Lemma get_error_round_trip_witness :
  libbpf_get_error (ERR_PTR (- EINVAL)) = (if - EINVAL <? 0 then - EINVAL else 0) /\
  libbpf_get_error (ERR_PTR LIBBPF_ERRNO__FORMAT)
  = (if LIBBPF_ERRNO__FORMAT <? 0 then LIBBPF_ERRNO__FORMAT else 0).
Proof.
  split.
  - apply (get_error_round_trip (- EINVAL)). vm_compute. split; discriminate.
  - apply (get_error_round_trip LIBBPF_ERRNO__FORMAT). vm_compute. split; discriminate.
Defined.

(** ** A program is submitted once *)

(** X14: loading a program a second time, after a first load released
    its instructions, fails with EINVAL without any call and leaves the
    program, its instance descriptors included, as it was. *)
Theorem program_load_twice_einval (p : bpf_program) (lic : list byte) (kv : Z) (w : world) :
  preprocessor p = None -> insns p = None -> insns_cnt p = 0 ->
  0 <= instances_nr p -> is_Some (instances_fds p) ->
  bpf_program__load p lic kv w = Some (- EINVAL, p, w).
Proof.
  intros Hprep Hins Hcnt Hnr Hfds. unfold bpf_program__load.
  destruct (Z.ltb_spec (instances_nr p) 0); [lia|].
  rewrite (bool_decide_true _ Hfds). cbn [orb negb].
  unfold bind at 1. cbn [ret]. change (negb (0 =? 0)) with false. cbv iota.
  rewrite Hprep. unfold load_program. rewrite Hins. cbn [la_insns].
  rewrite bool_decide_false by (by intros [? ?]). cbn [negb orb].
  unfold bind. cbn [ret]. change (- EINVAL =? 0) with false. cbv iota.
  unfold zfree_insns. destruct p; simpl in *; by subst.
Qed.

Lemma program_load_twice_einval_witness :
  exists p1 w1,
    bpf_program__load text_prog [] 0 (scripted [ans 1; ans 1; ans 9]) = Some (0, p1, w1) /\
    bpf_program__load p1 [] 0 w1 = Some (- EINVAL, p1, w1).
Proof.
  eexists _, _. split; [vm_compute; reflexivity|].
  apply program_load_twice_einval;
    [reflexivity | reflexivity | reflexivity | simpl; lia | eexists; reflexivity].
Defined.

(** ** The license string *)

(** X15: the license of an object is at most the first 63 bytes of the
    license section: copying it never fails and makes no call, the
    field keeps its 64 bytes, the bytes after the copied ones and in
    particular the last byte are what they were (so a field that was
    zero-filled stays terminated). *)
Theorem init_license_copies_at_most_63 (obj : bpf_object) (data : list byte) (size : Z)
    (w : world) (r : Z) (obj' : bpf_object) (w' : world) :
  length (license obj) = 64%nat -> 0 <= size ->
  bpf_object__init_license obj data size w = Some (r, obj', w') ->
  r = 0 /\ w' = w /\
  length (license obj') = 64%nat /\
  take (Z.to_nat (Z.min size 63)) (license obj') = take (Z.to_nat (Z.min size 63)) data /\
  drop (Z.to_nat (Z.min size 63)) (license obj') = drop (Z.to_nat (Z.min size 63)) (license obj) /\
  license obj' !! 63%nat = license obj !! 63%nat.
Proof.
  intros Hlen Hsize H. unfold bpf_object__init_license in H.
  apply bind_Some in H as (bytes & w1 & Hd & H). apply ret_Some in H.
  apply deref_Some in Hd as [Hr ?]. simpl in *. simplify_eq.
  apply read_bytes_Some in Hr as (Hb & _ & _ & Hl).
  cbn [license]. rewrite drop_0 in Hb. subst bytes.
  set (n := Z.to_nat (Z.min size 63)) in *.
  assert (Hn : (n <= 63)%nat) by lia.
  assert (Hln : length (take n data) = n).
  { rewrite length_take. lia. }
  split_and!; try done.
  - rewrite length_app, length_drop. lia.
  - by rewrite take_app_length'.
  - by rewrite drop_app_length'.
  - rewrite lookup_app_r by lia. rewrite lookup_drop. f_equal. lia.
Qed.

Lemma init_license_copies_at_most_63_witness :
  exists r obj' w',
    bpf_object__init_license (bpf_object__new "k.o" 0) (replicate 70 x47) 70 generous
      = Some (r, obj', w') /\
    r = 0 /\ w' = generous /\
    length (license obj') = 64%nat /\
    take (Z.to_nat (Z.min 70 63)) (license obj')
      = take (Z.to_nat (Z.min 70 63)) (replicate 70 x47) /\
    drop (Z.to_nat (Z.min 70 63)) (license obj')
      = drop (Z.to_nat (Z.min 70 63)) (license (bpf_object__new "k.o" 0)) /\
    license obj' !! 63%nat = license (bpf_object__new "k.o" 0) !! 63%nat.
Proof.
  eexists _, _, _. split; [vm_compute; reflexivity|].
  eapply (init_license_copies_at_most_63 (bpf_object__new "k.o" 0) (replicate 70 x47) 70
            generous); [reflexivity | lia | vm_compute; reflexivity].
Defined.

(** ** The program table *)

Lemma find_prog_from_spec (ps : list bpf_program) (i : Z) :
  match find_prog_from ps i with
  | Some p =>
      idx p = i /\
      exists k : nat, ps !! k = Some p /\
        forall (k' : nat) q, (k' < k)%nat -> ps !! k' = Some q -> idx q <> i
  | None => forall (k : nat) q, ps !! k = Some q -> idx q <> i
  end.
Proof.
  induction ps as [|p ps IH]; [done|]. cbn [find_prog_from].
  destruct (Z.eqb_spec (idx p) i) as [Heq|Hne].
  - split; [done|]. exists 0%nat. split; [done|]. intros; lia.
  - destruct (find_prog_from ps i) as [q|].
    + destruct IH as (Hq & k & Hk & Hfirst). split; [done|].
      exists (S k). split; [done|]. intros [|k'] q' Hk' Hl; simpl in *; [congruence|].
      eapply Hfirst; [|done]. lia.
    + intros [|k] q Hl; simpl in *; [congruence|eauto].
Qed.

(** X16: the lookup of a program by section index, in an object whose
    program count is the length of its table, returns the first program
    of the table with that index, and NULL exactly when there is
    none. *)
Theorem find_prog_by_idx_first (obj : bpf_object) (i : Z) :
  nr_programs obj = Z.of_nat (length (programs obj)) ->
  match bpf_object__find_prog_by_idx obj i with
  | Some p =>
      idx p = i /\
      exists k : nat, programs obj !! k = Some p /\
        forall (k' : nat) q, (k' < k)%nat -> programs obj !! k' = Some q -> idx q <> i
  | None => forall (k : nat) q, programs obj !! k = Some q -> idx q <> i
  end.
Proof.
  intros Hn. unfold bpf_object__find_prog_by_idx. rewrite Hn, Nat2Z.id, firstn_all.
  apply find_prog_from_spec.
Qed.

Lemma find_prog_by_idx_first_witness :
  match bpf_object__find_prog_by_idx calls_obj 2 with
  | Some p =>
      idx p = 2 /\
      exists k : nat, programs calls_obj !! k = Some p /\
        forall (k' : nat) q, (k' < k)%nat -> programs calls_obj !! k' = Some q -> idx q <> 2
  | None => forall (k : nat) q, programs calls_obj !! k = Some q -> idx q <> 2
  end.
Proof. apply (find_prog_by_idx_first calls_obj 2). reflexivity. Defined.

Lemma program_init_outcome (data : list byte) (size : Z) (name : string) (i : Z)
    (w : world) (r : Z) (p : bpf_program) (w' : world) :
  bpf_program__init data size name i w = Some (r, p, w') ->
  (r = 0 ->
   8 <= size /\
   p = mk_prog i None 0 (Some name)
         (Some (decode_insns (Z.to_nat (size / 8)) (take (Z.to_nat (size / 8 * 8)) data)))
         (size / 8) 0 BPF_PROG_TYPE_KPROBE None 0 (-1) None None 0) /\
  (r <> 0 -> (r = - EINVAL /\ size < 8 /\ w' = w) \/ (r = - ENOMEM /\ 8 <= size)).
Proof.
  unfold bpf_program__init, sizeof_bpf_insn. intros H.
  destruct (Z.ltb_spec size 8).
  { apply ret_Some in H. simplify_eq. split; [done|]. intros _. left. done. }
  xinv H; simplify_eq; try (split; [done|]; intros _; right; done).
  split; [|done]. intros _. split; [done|].
  destruct (read_bytes data 0 (size / 8 * 8)) as [bytes|] eqn:Hr; [|done]. simplify_eq.
  apply read_bytes_Some in Hr as (-> & _). by rewrite drop_0.
Qed.

Lemma add_program_outcome (obj : bpf_object) (data : list byte) (size : Z) (name : string)
    (i : Z) (w : world) (r : Z) (obj' : bpf_object) (w' : world) :
  nr_programs obj = Z.of_nat (length (programs obj)) -> nr_programs obj <= INT_MAX ->
  bpf_object__add_program obj data size name i w = Some (r, obj', w') ->
  (r = 0 ->
   8 <= size /\
   obj' = mk_obj (license obj) (kern_version obj)
            (programs obj ++
             [mk_prog i None 0 (Some name)
                (Some (decode_insns (Z.to_nat (size / 8)) (take (Z.to_nat (size / 8 * 8)) data)))
                (size / 8) 0 BPF_PROG_TYPE_KPROBE None 0 (-1) None None 0])
            (nr_programs obj + 1) (maps obj) (nr_maps obj) (loaded obj)
            (has_pseudo_calls obj) (efile obj) (obj_btf obj) (path obj)) /\
  (r <> 0 -> obj' = obj /\ ((r = - EINVAL /\ size < 8 /\ w' = w) \/ (r = - ENOMEM /\ 8 <= size))).
Proof.
  intros Hn Hmax H. unfold bpf_object__add_program in H.
  apply bind_Some in H as ([e p] & w1 & Hinit & H).
  apply program_init_outcome in Hinit as [Hok Hfail].
  destruct (Z.eqb_spec e 0) as [->|He]; simpl in H.
  - destruct (Hok eq_refl) as [Hsz ->]. xinv H; simplify_eq.
    + split; [done|]. intros _. split; [done|]. right. done.
    + split; [|done]. intros _. split; [done|].
      rewrite to_int_small by lia. rewrite Hn, Nat2Z.id, firstn_all. done.
  - apply ret_Some in H. simplify_eq. split; [done|]. intros _. split; [done|]. by apply Hfail.
Qed.

(** X17: adding a program to an object whose program count is the
    length of its table and at most INT_MAX either appends one program
    and changes nothing else, or fails and leaves the object as it was.
    The new program has the given section index and section name, no
    name yet, kind kprobe, no instances, and as instructions the whole
    8-byte units of the section data; a section of fewer than 8 bytes
    is refused with EINVAL before any allocation, and the only other
    failure is ENOMEM. *)
Theorem add_program_appends (obj : bpf_object) (data : list byte) (size : Z) (name : string)
    (i : Z) (w : world) (r : Z) (obj' : bpf_object) (w' : world) :
  nr_programs obj = Z.of_nat (length (programs obj)) -> nr_programs obj <= INT_MAX ->
  bpf_object__add_program obj data size name i w = Some (r, obj', w') ->
  (r = 0 ->
   8 <= size /\
   obj' = mk_obj (license obj) (kern_version obj)
            (programs obj ++
             [mk_prog i None 0 (Some name)
                (Some (decode_insns (Z.to_nat (size / 8)) (take (Z.to_nat (size / 8 * 8)) data)))
                (size / 8) 0 BPF_PROG_TYPE_KPROBE None 0 (-1) None None 0])
            (nr_programs obj + 1) (maps obj) (nr_maps obj) (loaded obj)
            (has_pseudo_calls obj) (efile obj) (obj_btf obj) (path obj)) /\
  (r <> 0 -> obj' = obj /\ ((r = - EINVAL /\ size < 8 /\ w' = w) \/ (r = - ENOMEM /\ 8 <= size))).
Proof. apply add_program_outcome. Qed.

Lemma add_program_appends_witness :
  let data := [xb7; x00; x00; x00; x00; x00; x00; x00;
               x95; x00; x00; x00; x00; x00; x00; x00; x01; x02] in
  exists r obj' w',
    bpf_object__add_program text_only_obj data 18 "xdp" 3 generous = Some (r, obj', w') /\
    (r = 0 ->
     8 <= 18 /\
     obj' = mk_obj (license text_only_obj) (kern_version text_only_obj)
              (programs text_only_obj ++
               [mk_prog 3 None 0 (Some "xdp"%string)
                  (Some (decode_insns (Z.to_nat (18 / 8)) (take (Z.to_nat (18 / 8 * 8)) data)))
                  (18 / 8) 0 BPF_PROG_TYPE_KPROBE None 0 (-1) None None 0])
              (nr_programs text_only_obj + 1) (maps text_only_obj) (nr_maps text_only_obj)
              (loaded text_only_obj) (has_pseudo_calls text_only_obj) (efile text_only_obj)
              (obj_btf text_only_obj) (path text_only_obj)) /\
    (r <> 0 ->
     obj' = text_only_obj /\
     ((r = - EINVAL /\ 18 < 8 /\ w' = generous) \/ (r = - ENOMEM /\ 8 <= 18))).
Proof.
  intros data. eexists _, _, _. split; [vm_compute; reflexivity|].
  eapply (add_program_appends text_only_obj data 18 "xdp" 3 generous);
    [reflexivity | vm_compute; discriminate | vm_compute; reflexivity].
Defined.

Lemma find_prog_sym_error strp pidx syms z :
  find_prog_sym strp pidx syms = inl z -> z = - LIBBPF_ERRNO__LIBELF.
Proof.
  induction syms as [|sym syms IH]; [done|]. cbn [find_prog_sym].
  repeat case_match; try done; by intros [= <-].
Qed.

Lemma init_prog_names_outcome (obj : bpf_object) (w : world)
    (r : Z) (obj' : bpf_object) (w' : world) :
  nr_programs obj = Z.of_nat (length (programs obj)) ->
  bpf_object__init_prog_names obj w = Some (r, obj', w') ->
  obj' = set_programs obj (programs obj') /\
  length (programs obj') = length (programs obj) /\
  (forall (j : nat) p, programs obj !! j = Some p ->
     exists p', programs obj' !! j = Some p' /\
                (p' = p \/ (exists n, p' = set_name p (Some n)) \/
                 (r = - ENOMEM /\ p' = set_name p None))) /\
  (r = 0 ->
   forall (j : nat) p, programs obj !! j = Some p ->
     exists n, programs obj' !! j = Some (set_name p (Some n))) /\
  (r <> 0 -> r = - LIBBPF_ERRNO__LIBELF \/ r = - EINVAL \/ r = - ENOMEM) /\
  (r = - ENOMEM ->
   exists (i : nat) p,
     programs obj !! i = Some p /\ programs obj' !! i = Some (set_name p None)).
Proof.
  intros Hn H. unfold bpf_object__init_prog_names in H. rewrite Hn, Nat2Z.id in H.
  set (P := fun (i : Z) (s : bpf_object) =>
    s = set_programs obj (programs s) /\
    length (programs s) = length (programs obj) /\
    forall (j : nat) p, programs obj !! j = Some p ->
      exists p', programs s !! j = Some p' /\
        ((Z.of_nat j < i /\ exists n, p' = set_name p (Some n)) \/
         (i <= Z.of_nat j /\ p' = p))).
  set (Q := fun (r : Z) (s : bpf_object) =>
    s = set_programs obj (programs s) /\
    length (programs s) = length (programs obj) /\
    (forall (j : nat) p, programs obj !! j = Some p ->
       exists p', programs s !! j = Some p' /\
                  (p' = p \/ (exists n, p' = set_name p (Some n)) \/
                   (r = - ENOMEM /\ p' = set_name p None))) /\
    (r = - LIBBPF_ERRNO__LIBELF \/ r = - EINVAL \/ r = - ENOMEM) /\
    (r = - ENOMEM ->
     exists (i : nat) p,
       programs obj !! i = Some p /\ programs s !! i = Some (set_name p None))).
  assert (Hkeep : forall i s, P i s -> forall r,
             (r = - LIBBPF_ERRNO__LIBELF \/ r = - EINVAL) -> Q r s).
  { intros i s (Hs & Hlen & Hall) r0 Hr0. split; [done|]. split; [done|]. split.
    - intros j p Hp. destruct (Hall j p Hp) as (p' & Hp' & [[_ ?]|[_ ?]]); eauto.
    - split; [tauto|]. intros ->. by destruct Hr0. }
  assert (Hstep : forall i s w r s' w',
             0 <= i < 0 + Z.of_nat (length (programs obj)) -> P i s ->
             init_prog_names_step i s w = Some (r, s', w') ->
             (r = 0 -> P (i + 1) s') /\ (r <> 0 -> Q r s')).
  { clear -Hkeep. intros i s w r s' w' Hi HP Hrun.
    pose proof HP as (Hs & Hlen & Hall).
    unfold init_prog_names_step in Hrun.
    xinv Hrun; simplify_eq.
    - apply find_prog_sym_error in Heqs0 as ->.
      split; [done|]. intros _. apply (Hkeep i); [done|by left].
    - split; [done|]. intros _.
      assert (exists k : nat, i = Z.of_nat k) as [k ->] by (exists (Z.to_nat i); lia).
      rewrite zlookup_nat in Hc. rewrite zinsert_nat.
      split; [cbn; by rewrite Hs at 1|]. split; [cbn; by rewrite length_insert|].
      cbn [programs set_programs]. split; [|split; [by right; right|]].
      + intros j p Hp. destruct (Hall j p Hp) as (p' & Hp' & Hcase).
        destruct (decide (j = k)) as [->|Hne].
        * rewrite list_lookup_insert_eq by (by eapply lookup_lt_Some).
          eexists. split; [done|]. right. right. split; [done|].
          destruct Hcase as [[? _]|[_ ->]]; [lia|]. by simplify_eq.
        * rewrite list_lookup_insert_ne by done. exists p'. split; [done|].
          destruct Hcase as [[_ ?]|[_ ?]]; eauto.
      + intros _. assert (is_Some (programs obj !! k)) as [p Hp].
        { apply lookup_lt_is_Some. lia. }
        destruct (Hall k p Hp) as (p' & Hp' & Hcase). exists k, p. split; [done|].
        rewrite list_lookup_insert_eq by (by eapply lookup_lt_Some).
        destruct Hcase as [[? _]|[_ ->]]; [lia|]. by simplify_eq.
    - split; [intros _|intros Hne; by destruct Hne].
      assert (exists k : nat, i = Z.of_nat k) as [k ->] by (exists (Z.to_nat i); lia).
      rewrite zlookup_nat in Hc. rewrite zinsert_nat.
      split; [cbn; by rewrite Hs at 1|]. split; [cbn; by rewrite length_insert|].
      intros j p Hp. destruct (Hall j p Hp) as (p' & Hp' & Hcase).
      cbn [programs set_programs].
      destruct (decide (j = k)) as [->|Hne].
      + rewrite list_lookup_insert_eq by (by eapply lookup_lt_Some).
        eexists. split; [done|]. left. split; [lia|].
        destruct Hcase as [[? _]|[_ ->]]; [lia|]. simplify_eq. by eexists.
      + rewrite list_lookup_insert_ne by done. exists p'. split; [done|].
        destruct Hcase as [[? ?]|[? ?]]; [left; split; [lia|done]|right; split; [lia|done]].
    - split; [done|]. intros _. apply (Hkeep i); [done|by right]. }
  pose proof (for_each_inv P Q init_prog_names_step (length (programs obj)) 0 Hstep
                obj w r obj' w') as Hfin.
  destruct Hfin as [H0 H1]; [|done|].
  { split; [by rewrite set_programs_same|]. split; [done|].
    intros j p Hp. exists p. split; [done|]. right. split; [lia|done]. }
  destruct (Z.eq_dec r 0) as [->|Hr].
  - specialize (H0 eq_refl). destruct H0 as (Hs & Hlen & Hall).
    split_and!; try done.
    + intros j p Hp. destruct (Hall j p Hp) as (p' & Hp' & [[_ ?]|[_ ?]]); eauto.
    + intros _ j p Hp.
      destruct (Hall j p Hp) as (p' & Hp' & [[_ [n ->]]|[Hge _]]); [by eexists|].
      apply lookup_lt_Some in Hp. lia.
  - destruct (H1 Hr) as (Hs & Hlen & Hall & Hcodes & Hlost). split_and!; done.
Qed.

(** X18: naming the programs changes nothing of the object but names of
    programs.  When it succeeds every program of the table has a name.
    When it fails, with LIBELF, EINVAL or ENOMEM, each program has got
    its name or is as it was, except that on ENOMEM the program at which
    the duplication of the name failed has its name set to NULL, whether
    it had one before or not. *)
Theorem init_prog_names_names_every_program (obj : bpf_object) (w : world)
    (r : Z) (obj' : bpf_object) (w' : world) :
  nr_programs obj = Z.of_nat (length (programs obj)) ->
  bpf_object__init_prog_names obj w = Some (r, obj', w') ->
  obj' = set_programs obj (programs obj') /\
  length (programs obj') = length (programs obj) /\
  (forall (j : nat) p, programs obj !! j = Some p ->
     exists p', programs obj' !! j = Some p' /\
                (p' = p \/ (exists n, p' = set_name p (Some n)) \/
                 (r = - ENOMEM /\ p' = set_name p None))) /\
  (r = 0 ->
   forall (j : nat) p, programs obj !! j = Some p ->
     exists n, programs obj' !! j = Some (set_name p (Some n))) /\
  (r <> 0 -> r = - LIBBPF_ERRNO__LIBELF \/ r = - EINVAL \/ r = - ENOMEM) /\
  (r = - ENOMEM ->
   exists (i : nat) p,
     programs obj !! i = Some p /\ programs obj' !! i = Some (set_name p None)).
Proof. apply init_prog_names_outcome. Qed.

Lemma init_prog_names_names_every_program_witness :
  (exists obj' w',
     bpf_object__init_prog_names (counting_swept None) generous = Some (0, obj', w') /\
     forall (j : nat) p, programs (counting_swept None) !! j = Some p ->
       exists n, programs obj' !! j = Some (set_name p (Some n))) /\
  (exists obj' w',
     bpf_object__init_prog_names (counting_swept (Some "old"%string)) (scripted [ans 0])
       = Some (- ENOMEM, obj', w') /\
     programs obj' = [counting_prog None None 0] /\
     exists (i : nat) p,
       programs (counting_swept (Some "old"%string)) !! i = Some p /\
       programs obj' !! i = Some (set_name p None)).
Proof.
  split.
  - eexists _, _. split; [vm_compute; reflexivity|].
    eapply (init_prog_names_names_every_program (counting_swept None) generous);
      [reflexivity | vm_compute; reflexivity | reflexivity].
  - eexists _, _. split; [vm_compute; reflexivity|]. split; [reflexivity|].
    eapply (init_prog_names_names_every_program (counting_swept (Some "old"%string))
              (scripted [ans 0]));
      [reflexivity | vm_compute; reflexivity | reflexivity].
Defined.

(** ** Collected relocations *)

Lemma find_map_by_offset_ge (ms : list bpf_map) (off pos : Z) :
  pos <= find_map_by_offset ms off pos.
Proof.
  revert pos. induction ms as [|m ms IH]; intros pos; cbn; [lia|].
  destruct (offset m =? off); [lia|]. specialize (IH (pos + 1)). lia.
Qed.

Lemma has_call_snoc (rds : list reloc_desc) (rd : reloc_desc) :
  has_call (rds ++ [rd]) <-> has_call rds \/ relo_type rd = RELO_CALL.
Proof.
  unfold has_call. rewrite Exists_app, Exists_cons, Exists_nil. tauto.
Qed.

Lemma collect_reloc_outcome (pi : nat) (shdr : GElf_Shdr) (data : Elf_Data)
    (obj : bpf_object) (prog : bpf_program) (w : world)
    (obj' : bpf_object) (w' : world) :
  programs obj !! pi = Some prog ->
  nr_maps obj = Z.of_nat (length (maps obj)) -> nr_maps obj <= INT_MAX ->
  bpf_program__collect_reloc (Z.of_nat pi) shdr data obj w = Some (0, obj', w') ->
  exists rds n pc,
    obj' = set_has_pseudo_calls
             (set_programs obj (<[pi := set_relocs prog (Some rds) n]> (programs obj))) pc /\
    relocs_in_maps (maps obj) rds /\
    (has_call rds -> pc = true) /\
    (~ has_call rds -> pc = has_pseudo_calls obj).
Proof.
  intros Hprog Hn Hnmax H.
  unfold bpf_program__collect_reloc in H. rewrite zlookup_nat, Hprog in H.
  unfold bind at 1 in H. cbn [deref ret] in H.
  apply bind_Some in H as (q & w1 & _ & H).
  apply bind_Some in H as (ok & w2 & _ & H).
  destruct ok; cbn [negb] in H; [|by apply ret_Some in H].
  rewrite zinsert_nat in H.
  set (P := fun (s : bpf_object) =>
    exists rds n pc,
      s = set_has_pseudo_calls
            (set_programs obj (<[pi := set_relocs prog (Some rds) n]> (programs obj))) pc /\
      relocs_in_maps (maps obj) rds /\
      (has_call rds -> pc = true) /\
      (~ has_call rds -> pc = has_pseudo_calls obj)).
  apply (for_each_invariant P) in H; [done| |].
  - clear H. intros i s wa r s' wb (rds & n & pc & Hs & Hrange & Hpc1 & Hpc0) Hstep.
    assert (Hp : programs s !! pi = Some (set_relocs prog (Some rds) n)).
    { rewrite Hs. cbn. apply list_lookup_insert_eq. by eapply lookup_lt_Some. }
    assert (Hkeep : P s) by (exists rds, n, pc; done).
    unfold collect_reloc_step in Hstep. rewrite zlookup_nat, Hp in Hstep.
    unfold bind at 1 in Hstep. cbn [deref ret relocs set_relocs] in Hstep.
    unfold bind at 1 in Hstep. cbn [deref ret] in Hstep.
    destruct (gelf_getrel data i) as [rel|]; [|apply ret_Some in Hstep; by simplify_eq].
    destruct (symbols (efile s) ≫= _) as [sym|]; [|apply ret_Some in Hstep; by simplify_eq].
    destruct (negb (st_shndx sym =? maps_shndx (efile s)) && _);
      [apply ret_Some in Hstep; by simplify_eq|].
    cbn [insns set_relocs] in Hstep.
    destruct (insns prog) as [ins|]; [|done].
    unfold bind at 1 in Hstep. cbn [deref ret] in Hstep.
    set (ii := to_u32 (r_offset rel / sizeof_bpf_insn)) in *.
    destruct (zlookup ins ii) as [insn|]; [|done].
    unfold bind at 1 in Hstep. cbn [deref ret] in Hstep.
    assert (Hpcs : has_pseudo_calls s = pc) by (by rewrite Hs).
    assert (Hupd : forall rd pc',
              (relo_type rd = RELO_LD64 -> is_Some (zlookup (maps obj) (map_idx rd))) ->
              (relo_type rd = RELO_CALL -> pc' = true) ->
              (relo_type rd <> RELO_CALL -> pc' = pc) ->
              P (set_has_pseudo_calls
                   (set_programs s
                      (zinsert (Z.of_nat pi)
                         (set_relocs (set_relocs prog (Some rds) n) (Some (rds ++ [rd]))
                                     (nr_reloc (set_relocs prog (Some rds) n)))
                         (programs s))) pc')).
    { intros rd pc' Hrd Hcall Hnocall. exists (rds ++ [rd]), n, pc'. split_and!.
      - rewrite zinsert_nat. rewrite Hs. cbn. by rewrite list_insert_insert_eq.
      - apply Forall_app. split; [done|]. by constructor.
      - rewrite has_call_snoc. intros [Hc|Hc]; [|by apply Hcall].
        destruct (decide (relo_type rd = RELO_CALL)); [by apply Hcall|].
        rewrite Hnocall by done. by apply Hpc1.
      - rewrite has_call_snoc. intros Hno.
        rewrite Hnocall by tauto. apply Hpc0. tauto. }
    assert (Hms : maps s = maps obj /\ nr_maps s = nr_maps obj) by (by rewrite Hs).
    destruct Hms as [Hms Hnms].
    destruct (code insn =? Z.lor BPF_JMP BPF_CALL).
    + destruct (negb (src_reg insn =? BPF_PSEUDO_CALL));
        apply ret_Some in Hstep; injection Hstep as -> -> ->; [done|].
      apply Hupd; cbn; done.
    + destruct (negb (code insn =? Z.lor (Z.lor BPF_LD BPF_IMM) BPF_DW));
        [apply ret_Some in Hstep; by simplify_eq|].
      set (found := find_map_by_offset _ _ _) in *.
      destruct (Z.leb_spec (nr_maps s) found);
        apply ret_Some in Hstep; injection Hstep as -> -> ->; [done|].
      pose proof (find_map_by_offset_ge (take (Z.to_nat (nr_maps s)) (maps s))
                    (st_value sym) 0) as Hge. fold found in Hge.
      replace (set_programs s _) with
        (set_has_pseudo_calls
           (set_programs s
              (zinsert (Z.of_nat pi)
                 (set_relocs (set_relocs prog (Some rds) n)
                    (Some (rds ++ [mk_reloc RELO_LD64 (to_int ii) (to_int found)]))
                    (nr_reloc (set_relocs prog (Some rds) n)))
                 (programs s))) (has_pseudo_calls s)) by (by destruct s).
      apply Hupd; cbn; [|done|by rewrite Hpcs].
      intros _. unfold map_idx. cbn. rewrite to_int_small by lia.
      apply zlookup_in_range. lia.
  - exists [], (to_int q), (has_pseudo_calls obj). split; [by destruct obj|].
    split; [constructor|]. split; [|done]. unfold has_call. by rewrite Exists_nil.
Qed.

(** X19: when the relocations of a program are collected successfully,
    in an object whose map count is the length of its table, nothing of
    the object changes but that program's relocation list and the
    local-call flag.  Every collected relocation that refers to a map
    refers to a map of the table; the local-call flag is set when a call
    relocation was collected and is as it was otherwise.  (Where in the
    program a relocation points is taken from the section as it is.) *)
Theorem collect_reloc_refers_to_maps (pi : nat) (shdr : GElf_Shdr) (data : Elf_Data)
    (obj : bpf_object) (prog : bpf_program) (w : world)
    (obj' : bpf_object) (w' : world) :
  programs obj !! pi = Some prog ->
  nr_maps obj = Z.of_nat (length (maps obj)) -> nr_maps obj <= INT_MAX ->
  bpf_program__collect_reloc (Z.of_nat pi) shdr data obj w = Some (0, obj', w') ->
  exists rds n pc,
    obj' = set_has_pseudo_calls
             (set_programs obj (<[pi := set_relocs prog (Some rds) n]> (programs obj))) pc /\
    relocs_in_maps (maps obj) rds /\
    (has_call rds -> pc = true) /\
    (~ has_call rds -> pc = has_pseudo_calls obj).
Proof. apply collect_reloc_outcome. Qed.

Lemma collect_reloc_refers_to_maps_witness :
  let obj := counting_swept (Some "foo"%string) in
  let prog := counting_prog (Some "foo"%string) None 0 in
  exists obj' w',
    bpf_program__collect_reloc (Z.of_nat 0) counting_rel_shdr counting_rels obj generous
      = Some (0, obj', w') /\
    programs obj' = [counting_prog (Some "foo"%string) (Some [mk_reloc RELO_LD64 0 0]) 1] /\
    exists rds n pc,
      obj' = set_has_pseudo_calls
               (set_programs obj (<[0%nat := set_relocs prog (Some rds) n]> (programs obj)))
               pc /\
      relocs_in_maps (maps obj) rds /\
      (has_call rds -> pc = true) /\
      (~ has_call rds -> pc = has_pseudo_calls obj).
Proof.
  intros obj prog. eexists _, _. split; [vm_compute; reflexivity|].
  split; [reflexivity|].
  eapply (collect_reloc_refers_to_maps 0 counting_rel_shdr counting_rels obj prog generous);
    [reflexivity | reflexivity | vm_compute; discriminate | vm_compute; reflexivity].
Defined.

(** ** Pinning *)

Lemma F_bind_Some {A B} (c : F A) (k : A -> F B) (w : fs_world) (x : B * fs_world) :
  (c ≫= k) w = Some x <-> exists a w', c w = Some (a, w') /\ k a w' = Some x.
Proof.
  unfold mbind, F_bind. destruct (c w) as [[a w']|]; split.
  - eauto.
  - intros (? & ? & ? & ?); by simplify_eq.
  - done.
  - intros (? & ? & ? & ?); done.
Qed.

Lemma F_ret_Some {A} (a : A) (w : fs_world) (x : A * fs_world) :
  (mret a : F A) w = Some x <-> x = (a, w).
Proof. unfold mret, F_ret. split; intros; by simplify_eq. Qed.

Lemma fs_calls_made_nil (w : fs_world) : fs_calls_made w w [].
Proof. done. Qed.

Lemma fs_calls_made_trans (w1 w2 w3 : fs_world) (cs cs' : list fs_call) :
  fs_calls_made w1 w2 cs -> fs_calls_made w2 w3 cs' -> fs_calls_made w1 w3 (cs ++ cs').
Proof.
  unfold fs_calls_made. intros H1 H2. by rewrite H2, H1, rev_app_distr, app_assoc.
Qed.

Lemma fs_calls_made_sys (w : fs_world) (c : fs_call) : fs_calls_made w (fs_record w c) [c].
Proof. done. Qed.

(** [check_path] always returns; it asks for a copy of the path and for
    the filesystem of its directory, nothing else; it returns 0 only for
    a directory on the BPF filesystem. *)
Lemma check_path_outcome (dirname : string -> string) (path : string) (w : fs_world) :
  exists r w' cs,
    check_path dirname (Some path) w = Some (r, w') /\
    fs_calls_made w w' cs /\ pins cs = [] /\
    (r = 0 ->
     cs = [Strdup path; Statfs (dirname path)] /\
     f_type (fs_reply (fs_record w (Strdup path)) (Statfs (dirname path))) = BPF_FS_MAGIC).
Proof.
  unfold check_path, fs_sys, fs_get_errno, mbind, F_bind, mret, F_ret.
  destruct (fs_ret (fs_reply w (Strdup path)) =? 0).
  { eexists _, _, [Strdup path]. split; [done|]. split; [done|]. split; [done|]. done. }
  set (w1 := fs_record w (Strdup path)).
  set (st := fs_reply w1 (Statfs (dirname path))).
  destruct (negb (fs_ret st =? 0)).
  - destruct (Z.eqb_spec (to_int (- fs_errno_now (fs_record w1 (Statfs (dirname path))))) 0)
      as [Hz|Hnz]; cbn [andb].
    + destruct (Z.eqb_spec (f_type st) BPF_FS_MAGIC) as [Hm|Hm]; cbn [negb].
      * eexists _, _, [Strdup path; Statfs (dirname path)]. split; [done|].
        split; [done|]. split; [done|]. done.
      * eexists _, _, [Strdup path; Statfs (dirname path)]. split; [done|].
        split; [done|]. split; [done|]. done.
    + eexists _, _, [Strdup path; Statfs (dirname path)]. split; [done|].
      split; [done|]. split; [done|]. done.
  - cbn [Z.eqb andb]. destruct (Z.eqb_spec (f_type st) BPF_FS_MAGIC) as [Hm|Hm]; cbn [negb].
    + eexists _, _, [Strdup path; Statfs (dirname path)]. split; [done|].
      split; [done|]. split; [done|]. done.
    + eexists _, _, [Strdup path; Statfs (dirname path)]. split; [done|].
      split; [done|]. split; [done|]. done.
Qed.


Lemma pins_app (cs cs' : list fs_call) : pins (cs ++ cs') = pins cs ++ pins cs'.
Proof. apply List.filter_app. Qed.

Lemma pin_instance_outcome (dirname : string -> string) (prog : bpf_program)
    (path : string) (i : Z) (w : fs_world) (r : Z) (w' : fs_world) :
  bpf_program__pin_instance dirname (Some prog) (Some path) i w = Some (r, w') ->
  exists cs,
    fs_calls_made w w' cs /\
    (pins cs = [] /\ r <> 0 \/
     exists fds fd,
       pins cs = [ObjPin fd path] /\ 0 <= i < instances_nr prog /\
       instances_fds prog = Some fds /\ zlookup fds i = Some fd).
Proof.
  unfold bpf_program__pin_instance. intros H.
  apply F_bind_Some in H as (e & w1 & Hcheck & H).
  destruct (check_path_outcome dirname path w) as (e' & w1' & cs & Hc & Hcalls & Hpins & Hok).
  rewrite Hc in Hcheck. simplify_eq.
  destruct (Z.eqb_spec e 0) as [->|He]; cbn [negb] in H.
  2:{ apply F_ret_Some in H. simplify_eq. exists cs. split; [done|]. by left. }
  destruct ((i <? 0) || (instances_nr prog <=? i)) eqn:Hrange.
  { apply F_ret_Some in H. simplify_eq. exists cs. split; [done|]. by left. }
  apply orb_false_iff in Hrange as [Hlo Hhi]. apply Z.ltb_ge in Hlo. apply Z.leb_gt in Hhi.
  unfold fs_deref, bpf_obj_pin, fs_sys, fs_get_errno, fs_trap, mbind, F_bind, mret, F_ret in H.
  destruct (instances_fds prog) as [fds|] eqn:Hf; [|done].
  destruct (zlookup fds i) as [fd|] eqn:Hl; [|done].
  assert (Hall : fs_calls_made w (fs_record w1 (ObjPin fd path)) (cs ++ [ObjPin fd path])).
  { eapply fs_calls_made_trans; [done|]. apply fs_calls_made_sys. }
  assert (Hp : pins (cs ++ [ObjPin fd path]) = [ObjPin fd path]).
  { by rewrite pins_app, Hpins. }
  destruct (negb (to_int (fs_ret (fs_reply w1 (ObjPin fd path))) =? 0)); simplify_eq.
  - eexists. split; [done|]. right. by eexists _, _.
  - eexists. split; [done|]. right. by eexists _, _.
Qed.

(** X21: pinning an instance of a program asks for at most one pin.
    When it asks for none the result is an error; when it asks for one,
    the instance number is below the program's instance count and the
    pin is that of the instance's descriptor at the given path. *)
Theorem pin_instance_pins_its_descriptor (dirname : string -> string) (prog : bpf_program)
    (path : string) (i : Z) (w : fs_world) (r : Z) (w' : fs_world) :
  bpf_program__pin_instance dirname (Some prog) (Some path) i w = Some (r, w') ->
  exists cs,
    fs_calls_made w w' cs /\
    (pins cs = [] /\ r <> 0 \/
     exists fds fd,
       pins cs = [ObjPin fd path] /\ 0 <= i < instances_nr prog /\
       instances_fds prog = Some fds /\ zlookup fds i = Some fd).
Proof. apply pin_instance_outcome. Qed.

Lemma pin_instance_pins_its_descriptor_witness :
  exists r w' cs,
    bpf_program__pin_instance parent_dir (Some loaded_prog) (Some "/sys/fs/bpf/foo"%string)
                              0 bpffs = Some (r, w') /\
    fs_calls_made bpffs w' cs /\
    (pins cs = [] /\ r <> 0 \/
     exists fds fd,
       pins cs = [ObjPin fd "/sys/fs/bpf/foo"] /\ 0 <= 0 < instances_nr loaded_prog /\
       instances_fds loaded_prog = Some fds /\ zlookup fds 0 = Some fd).
Proof.
  assert (H : bpf_program__pin_instance parent_dir (Some loaded_prog)
                (Some "/sys/fs/bpf/foo"%string) 0 bpffs
              = Some (0, fs_record (fs_record (fs_record bpffs (Strdup "/sys/fs/bpf/foo"))
                                              (Statfs "/sys/fs/bpf"))
                                   (ObjPin 7 "/sys/fs/bpf/foo")))
    by (vm_compute; reflexivity).
  destruct (pin_instance_pins_its_descriptor parent_dir loaded_prog "/sys/fs/bpf/foo" 0
              bpffs _ _ H) as [cs Hcs].
  eexists _, _, cs. split; [exact H|exact Hcs].
Defined.

Lemma pin_loop_outcome (dirname : string -> string) (prog : bpf_program) (path : string) :
  forall (n i : nat) (w : fs_world) (r : Z) (w' : fs_world),
    fs_for_each n (Z.of_nat i) (fun i =>
      let buf := instance_path path i in
      let len := str_len buf in
      if len <? 0 then mret (- EINVAL)
      else if PATH_MAX <=? len then mret (- ENAMETOOLONG)
      else bpf_program__pin_instance dirname (Some prog) (Some buf) i) w = Some (r, w') ->
    exists cs (k : nat),
      fs_calls_made w w' cs /\ (k <= n)%nat /\
      (k <= length (drop i (array_of (instances_fds prog))))%nat /\
      pins cs = instance_pins_from path (Z.of_nat i)
                  (take k (drop i (array_of (instances_fds prog)))) /\
      (r = 0 -> k = n).
Proof.
  set (fds := array_of (instances_fds prog)).
  induction n as [|n IH]; intros i w r w' H; cbn [fs_for_each] in H.
  - apply F_ret_Some in H. simplify_eq. exists [], 0%nat.
    split; [done|]. split; [lia|]. split; [lia|]. done.
  - apply F_bind_Some in H as (e & w1 & Hbody & H). cbv zeta in Hbody.
    assert (Hstop : forall cs, fs_calls_made w w1 cs -> pins cs = [] -> e <> 0 ->
              exists cs (k : nat),
                fs_calls_made w w' cs /\ (k <= S n)%nat /\ (k <= length (drop i fds))%nat /\
                pins cs = instance_pins_from path (Z.of_nat i) (take k (drop i fds)) /\
                (r = 0 -> k = S n)).
    { intros cs Hcs Hp He. apply Z.eqb_neq in He. rewrite He in H. cbn [negb] in H.
      apply F_ret_Some in H. simplify_eq. apply Z.eqb_neq in He.
      exists cs, 0%nat. split; [done|]. split; [lia|]. split; [lia|]. done. }
    destruct (str_len (instance_path path (Z.of_nat i)) <? 0).
    { apply F_ret_Some in Hbody. simplify_eq. by apply (Hstop []). }
    destruct (PATH_MAX <=? str_len (instance_path path (Z.of_nat i))).
    { apply F_ret_Some in Hbody. simplify_eq. by apply (Hstop []). }
    apply pin_instance_outcome in Hbody
      as (cs & Hcs & [[Hp He]|(fds' & fd & Hp & Hi & Hf & Hl)]); [by eapply Hstop|].
    assert (fds = fds') as <- by (unfold fds; by rewrite Hf).
    rewrite zlookup_nat in Hl.
    assert (Hd : drop i fds = fd :: drop (S i) fds) by (by apply drop_S).
    destruct (negb (e =? 0)) eqn:He.
    + apply F_ret_Some in H. simplify_eq. exists cs, 1%nat.
      split; [done|]. split; [lia|]. rewrite Hd. split; [simpl; lia|]. split; [done|].
      intros ->. done.
    + replace (Z.of_nat i + 1) with (Z.of_nat (S i)) in H by lia.
      apply IH in H as (cs' & k & Hcs' & Hk & Hkl & Hp' & Hr).
      exists (cs ++ cs'), (S k). split; [by eapply fs_calls_made_trans|].
      split; [lia|]. rewrite Hd. split; [simpl; lia|]. split.
      * rewrite pins_app, Hp, Hp'. cbn [take instance_pins_from app].
        by replace (Z.of_nat i + 1) with (Z.of_nat (S i)) by lia.
      * intros Hz. by rewrite (Hr Hz).
Qed.

Lemma program_pin_outcome (dirname : string -> string) (prog : bpf_program) (path : string)
    (w : fs_world) (r : Z) (w' : fs_world) :
  bpf_program__pin dirname (Some prog) (Some path) w = Some (r, w') ->
  exists cs (k : nat),
    fs_calls_made w w' cs /\
    pins cs = instance_pins path (array_of (instances_fds prog)) k /\
    (k <= Z.to_nat (instances_nr prog))%nat /\
    (k <= length (array_of (instances_fds prog)))%nat /\
    (r = 0 -> 0 < instances_nr prog /\ k = Z.to_nat (instances_nr prog)).
Proof.
  unfold bpf_program__pin. intros H.
  apply F_bind_Some in H as (e & w1 & Hcheck & H).
  destruct (check_path_outcome dirname path w) as (e' & w1' & cs & Hc & Hcalls & Hpins & Hok).
  rewrite Hc in Hcheck. simplify_eq.
  assert (Hstop : forall cs, fs_calls_made w w' cs -> pins cs = [] -> r <> 0 ->
            exists cs (k : nat),
              fs_calls_made w w' cs /\
              pins cs = instance_pins path (array_of (instances_fds prog)) k /\
              (k <= Z.to_nat (instances_nr prog))%nat /\
              (k <= length (array_of (instances_fds prog)))%nat /\
              (r = 0 -> 0 < instances_nr prog /\ k = Z.to_nat (instances_nr prog))).
  { intros cs0 Hcs0 Hp Hr. exists cs0, 0%nat. split; [done|]. split; [done|].
    split; [lia|]. split; [lia|]. done. }
  destruct (Z.eqb_spec e 0) as [->|He]; cbn [negb] in H.
  2:{ apply F_ret_Some in H. simplify_eq. by eapply Hstop. }
  destruct (Z.leb_spec (instances_nr prog) 0) as [Hnr|Hnr].
  { apply F_ret_Some in H. simplify_eq. by eapply Hstop. }
  cbn [fs_deref] in H. apply F_bind_Some in H as (p & w2 & Hp & H).
  apply F_ret_Some in Hp. simplify_eq.
  apply F_bind_Some in H as (e & w3 & Hmk & H).
  unfold make_dir, fs_sys, fs_get_errno, mbind, F_bind, mret, F_ret in Hmk.
  assert (Hcs2 : fs_calls_made w w3 (cs ++ [Mkdir path 448]) /\
                 pins (cs ++ [Mkdir path 448]) = []).
  { split; [|by rewrite pins_app, Hpins].
    eapply fs_calls_made_trans; [done|].
    destruct (negb _ && negb _); simplify_eq; apply fs_calls_made_sys. }
  clear Hmk. destruct Hcs2 as [Hcs2 Hp2].
  destruct (Z.eqb_spec e 0) as [->|He]; cbn [negb] in H.
  2:{ apply F_ret_Some in H. simplify_eq. by eapply Hstop. }
  change 0 with (Z.of_nat 0) in H.
  apply (pin_loop_outcome dirname prog path) in H
    as (cs' & k & Hcs' & Hk & Hkl & Hp' & Hr).
  rewrite drop_0 in Hkl, Hp'.
  exists ((cs ++ [Mkdir path 448]) ++ cs'), k.
  split; [by eapply fs_calls_made_trans|]. split; [by rewrite pins_app, Hp2, Hp'|].
  split; [done|]. split; [done|]. intros Hz. split; [done|]. by apply Hr.
Qed.

Lemma append_cancel_l (a x y : string) : a +:+ x = a +:+ y -> x = y.
Proof. induction a as [|c a IH]; cbn; [done|]. intros [= H]. by apply IH. Qed.

Lemma instance_path_inj (path : string) (i j : Z) :
  instance_path path i = instance_path path j -> i = j.
Proof.
  unfold instance_path. intros H.
  apply append_cancel_l, append_cancel_l in H. by apply (inj pretty) in H.
Qed.

(** X22: pinning a program asks for pins of its instances only, in
    instance order, the instance of number i at the path followed by a
    slash and the decimal of i: the pins asked for are those of the
    first k instances for some k up to the instance count, all of them
    when the result is 0.  Two different instance numbers never share a
    path. *)
Theorem program_pin_pins_instances_in_order (dirname : string -> string)
    (prog : bpf_program) (path : string) (w : fs_world) (r : Z) (w' : fs_world) :
  bpf_program__pin dirname (Some prog) (Some path) w = Some (r, w') ->
  (exists cs (k : nat),
     fs_calls_made w w' cs /\
     pins cs = instance_pins path (array_of (instances_fds prog)) k /\
     (k <= Z.to_nat (instances_nr prog))%nat /\
     (k <= length (array_of (instances_fds prog)))%nat /\
     (r = 0 -> 0 < instances_nr prog /\ k = Z.to_nat (instances_nr prog))) /\
  (forall i j, instance_path path i = instance_path path j -> i = j).
Proof.
  intros H. split; [by eapply program_pin_outcome|]. apply instance_path_inj.
Qed.

Lemma program_pin_pins_instances_in_order_witness :
  exists r w',
    bpf_program__pin parent_dir (Some loaded_prog) (Some "/sys/fs/bpf/foo"%string) bpffs
      = Some (r, w') /\
    (exists cs (k : nat),
       fs_calls_made bpffs w' cs /\
       pins cs = instance_pins "/sys/fs/bpf/foo" (array_of (instances_fds loaded_prog)) k /\
       (k <= Z.to_nat (instances_nr loaded_prog))%nat /\
       (k <= length (array_of (instances_fds loaded_prog)))%nat /\
       (r = 0 -> 0 < instances_nr loaded_prog /\ k = Z.to_nat (instances_nr loaded_prog))) /\
    (forall i j,
       instance_path "/sys/fs/bpf/foo" i = instance_path "/sys/fs/bpf/foo" j -> i = j).
Proof.
  eexists _, _. split; [vm_compute; reflexivity|].
  eapply (program_pin_pins_instances_in_order parent_dir loaded_prog "/sys/fs/bpf/foo" bpffs).
  vm_compute; reflexivity.
Defined.

(** ** The object file handle *)

Lemma elf_finish_outcome (obj : bpf_object) (w : world) (obj' : bpf_object) (w' : world) :
  bpf_object__elf_finish obj w = Some (obj', w') ->
  obj' = set_efile obj (efile obj') /\
  elf (efile obj') = None /\
  (elf (efile obj) = None -> obj' = obj /\ w' = w) /\
  (is_Some (elf (efile obj)) ->
   efile_fd (efile obj') = -1 /\ symbols (efile obj') = None /\ reloc (efile obj') = [] /\
   calls_made w w' (Close <$> held [efile_fd (efile obj)])).
Proof.
  unfold bpf_object__elf_finish. intros H.
  destruct (elf (efile obj)) as [e|] eqn:He.
  - rewrite bool_decide_true in H by (by eexists). cbn [negb] in H.
    destruct (zclose_calls (efile_fd (efile obj)) w) as (r & w1 & Hz & Hc).
    unfold bind in H. rewrite Hz in H. apply ret_Some in H. simplify_eq.
    cbn. split_and!; done.
  - rewrite bool_decide_false in H by (by intros [? ?]). cbn [negb] in H.
    apply ret_Some in H. simplify_eq. rewrite He.
    split_and!; try done; try (by intros [? ?]); by destruct obj.
Qed.

(** X23: detaching the object file changes nothing of the object but
    its file state and leaves no image attached.  Without an image
    attached it does nothing at all; with one, it closes the file
    descriptor if there is one, and nothing else, resets it to -1 and
    drops the symbol table and the noted relocation sections. *)
Theorem elf_finish_detaches (obj : bpf_object) (w : world) (obj' : bpf_object) (w' : world) :
  bpf_object__elf_finish obj w = Some (obj', w') ->
  obj' = set_efile obj (efile obj') /\
  elf (efile obj') = None /\
  (elf (efile obj) = None -> obj' = obj /\ w' = w) /\
  (is_Some (elf (efile obj)) ->
   efile_fd (efile obj') = -1 /\ symbols (efile obj') = None /\ reloc (efile obj') = [] /\
   calls_made w w' (Close <$> held [efile_fd (efile obj)])).
Proof. apply elf_finish_outcome. Qed.

Lemma elf_finish_detaches_witness :
  let obj := counting_swept (Some "foo"%string) in
  exists obj' w',
    bpf_object__elf_finish obj generous = Some (obj', w') /\
    obj' = set_efile obj (efile obj') /\
    elf (efile obj') = None /\
    (elf (efile obj) = None -> obj' = obj /\ w' = generous) /\
    (is_Some (elf (efile obj)) ->
     efile_fd (efile obj') = -1 /\ symbols (efile obj') = None /\ reloc (efile obj') = [] /\
     calls_made generous w' (Close <$> held [efile_fd (efile obj)])).
Proof.
  intros obj. eexists _, _. split; [vm_compute; reflexivity|].
  eapply (elf_finish_detaches obj generous). vm_compute; reflexivity.
Defined.

Lemma elf_init_outcome (image : option Elf) (obj : bpf_object) (w : world)
    (r : Z) (obj' : bpf_object) (w' : world) :
  elf (efile obj) = None ->
  bpf_object__elf_init image obj w = Some (r, obj', w') ->
  obj' = set_efile obj (efile obj') /\
  (r = 0 ->
   (exists e ep,
      image = Some e /\ elf_ehdr e = Some ep /\
      elf (efile obj') = Some e /\ ehdr (efile obj') = Some ep /\
      e_type ep = ET_REL /\ (e_machine ep = 0 \/ e_machine ep = EM_BPF) /\
      symbols (efile obj') = symbols (efile obj) /\
      maps_shndx (efile obj') = maps_shndx (efile obj)) \/
   (obj_buf_sz (efile obj) <= 0 /\
    to_int (a_ret (reply w (OpenFile (path obj)))) < 0 /\
    elf (efile obj') = None /\ ehdr (efile obj') = ehdr (efile obj))) /\
  (r <> 0 -> elf (efile obj') = None) /\
  (obj_buf_sz (efile obj) <= 0 ->
   to_int (a_ret (reply w (OpenFile (path obj)))) < 0 ->
   r = to_int (- errno w') /\
   calls_made w w' [OpenFile (path obj); PrWarning] /\
   elf (efile obj') = None /\
   efile_fd (efile obj') = to_int (a_ret (reply w (OpenFile (path obj))))).
Proof.
  intros Hnone H. unfold bpf_object__elf_init in H. rewrite Hnone in H.
  rewrite bool_decide_false in H by (by intros [? ?]).
  apply bind_Some in H as ([e1 o1] & w1 & Hopen & H).
  destruct (Z.ltb_spec 0 (obj_buf_sz (efile obj))) as [Hbuf|Hbuf].
  2: apply bind_Some in Hopen as (a & w0 & Hsys & Hopen);
     unfold sys in Hsys; injection Hsys as <- <-;
     destruct (Z.ltb_spec (to_int (a_ret (reply w (OpenFile (path obj))))) 0) as [Hfd|Hfd].
  2:{ (* the file does not open *)
      apply bind_Some in Hopen as (a & w0 & Hsys & Hopen).
      unfold sys in Hsys. injection Hsys as Ha Hw0. subst a w0.
      apply bind_Some in Hopen as (e & w0 & Herr & Hopen).
      unfold get_errno in Herr. injection Herr as He Hw0. subst e w0.
      apply ret_Some in Hopen. injection Hopen as He1 Ho1 Hw1. subst e1 o1 w1.
      apply ret_Some in H. injection H as Hr Ho Hw. subst r obj' w'.
      unfold with_elf. cbn. split_and!; try done. intros _. by right. }
  all: apply ret_Some in Hopen; injection Hopen as He1 Ho1 Hw1; subst e1 o1 w1.
  all: assert (Hfin : forall o e wx, o = set_efile obj (efile o) ->
            (let* obj := bpf_object__elf_finish o in ret (e, obj)) wx = Some (r, obj', w') ->
            e <> 0 ->
            obj' = set_efile obj (efile obj') /\ r <> 0 /\ elf (efile obj') = None)
    by (clear; intros o e wx Ho H He; apply bind_Some in H as (o' & w2 & Hf & H);
        apply ret_Some in H; simplify_eq;
        apply elf_finish_outcome in Hf as (Hs & Hn & _); split_and!; try done;
        rewrite Hs, Ho; done).
  all: cbn [with_elf set_efile efile elf] in H.
  all: destruct image as [e|];
    [|apply Hfin in H as (? & ? & ?); [|done|done]; split_and!; (done || lia)].
  all: destruct (elf_ehdr e) as [ep|] eqn:Hep;
    [|apply Hfin in H as (? & ? & ?); [|done|done]; split_and!; (done || lia)].
  all: destruct (negb (e_type ep =? ET_REL) || _) eqn:Hkind;
    [apply Hfin in H as (? & ? & ?); [|done|done]; split_and!; (done || lia)|].
  all: apply ret_Some in H; injection H as Hr Ho Hw; subst r obj' w'.
  all: apply orb_false_iff in Hkind as [Ht Hm]; apply negb_false_iff, Z.eqb_eq in Ht.
  all: apply andb_false_iff in Hm.
  all: split_and!; try (done || lia).
  all: intros _; left; exists e, ep; cbn; split_and!; try done.
  all: destruct Hm as [Hm|Hm]; apply negb_false_iff, Z.eqb_eq in Hm; eauto.
Qed.

(** X24: attaching the object file to an object that has none changes
    nothing of the object but its file state.  When the file does not
    open, the function returns at once the negated error number as it
    reads after the warning has been printed, whatever that is, zero
    included, and no image is attached.  Otherwise it returns 0 only for
    an image with a header that is relocatable and for the BPF machine
    (or no machine), and then the image and the header are attached.
    Whenever it fails, no image is left attached. *)
Theorem elf_init_attaches_or_detaches (image : option Elf) (obj : bpf_object) (w : world)
    (r : Z) (obj' : bpf_object) (w' : world) :
  elf (efile obj) = None ->
  bpf_object__elf_init image obj w = Some (r, obj', w') ->
  obj' = set_efile obj (efile obj') /\
  (r = 0 ->
   (exists e ep,
      image = Some e /\ elf_ehdr e = Some ep /\
      elf (efile obj') = Some e /\ ehdr (efile obj') = Some ep /\
      e_type ep = ET_REL /\ (e_machine ep = 0 \/ e_machine ep = EM_BPF) /\
      symbols (efile obj') = symbols (efile obj) /\
      maps_shndx (efile obj') = maps_shndx (efile obj)) \/
   (obj_buf_sz (efile obj) <= 0 /\
    to_int (a_ret (reply w (OpenFile (path obj)))) < 0 /\
    elf (efile obj') = None /\ ehdr (efile obj') = ehdr (efile obj))) /\
  (r <> 0 -> elf (efile obj') = None) /\
  (obj_buf_sz (efile obj) <= 0 ->
   to_int (a_ret (reply w (OpenFile (path obj)))) < 0 ->
   r = to_int (- errno w') /\
   calls_made w w' [OpenFile (path obj); PrWarning] /\
   elf (efile obj') = None /\
   efile_fd (efile obj') = to_int (a_ret (reply w (OpenFile (path obj))))).
Proof. apply elf_init_outcome. Qed.

Lemma elf_init_attaches_or_detaches_witness :
  let obj := bpf_object__new "cnt.o" 0 in
  let closed_stderr := scripted [ans_errno (-1) ENOENT; ans_errno 0 9] in
  (exists obj' w',
     bpf_object__elf_init (Some counting_elf) obj generous = Some (0, obj', w') /\
     elf (efile obj') = Some counting_elf /\
     (0 = 0 ->
      (exists e ep,
         Some counting_elf = Some e /\ elf_ehdr e = Some ep /\
         elf (efile obj') = Some e /\ ehdr (efile obj') = Some ep /\
         e_type ep = ET_REL /\ (e_machine ep = 0 \/ e_machine ep = EM_BPF) /\
         symbols (efile obj') = symbols (efile obj) /\
         maps_shndx (efile obj') = maps_shndx (efile obj)) \/
      (obj_buf_sz (efile obj) <= 0 /\
       to_int (a_ret (reply generous (OpenFile (path obj)))) < 0 /\
       elf (efile obj') = None /\ ehdr (efile obj') = ehdr (efile obj)))) /\
  (exists obj' w',
     bpf_object__elf_init (Some counting_elf) obj closed_stderr = Some (-9, obj', w') /\
     -9 = to_int (- errno w') /\
     calls_made closed_stderr w' [OpenFile (path obj); PrWarning] /\
     elf (efile obj') = None /\
     efile_fd (efile obj') = to_int (a_ret (reply closed_stderr (OpenFile (path obj))))).
Proof.
  intros obj closed_stderr. split.
  - assert (Hrun : exists obj' w',
               bpf_object__elf_init (Some counting_elf) obj generous = Some (0, obj', w') /\
               elf (efile obj') = Some counting_elf)
      by (eexists _, _; split; [vm_compute; reflexivity|reflexivity]).
    destruct Hrun as (obj' & w' & Hrun & Helf). exists obj', w'.
    split; [exact Hrun|]. split; [exact Helf|].
    exact (proj1 (proj2 (elf_init_attaches_or_detaches (Some counting_elf) obj generous
                           0 obj' w' eq_refl Hrun))).
  - assert (Hrun : exists obj' w',
               bpf_object__elf_init (Some counting_elf) obj closed_stderr
               = Some (-9, obj', w'))
      by (eexists _, _; vm_compute; reflexivity).
    destruct Hrun as (obj' & w' & Hrun). exists obj', w'. split; [exact Hrun|].
    apply (proj2 (proj2 (proj2 (elf_init_attaches_or_detaches (Some counting_elf) obj
                                  closed_stderr (-9) obj' w' eq_refl Hrun))));
      vm_compute; (discriminate || reflexivity).
Defined.

(** ** The sweep over the sections *)

Lemma length_decode_insns (n : nat) (bs : list byte) : length (decode_insns n bs) = n.
Proof. revert bs. induction n as [|n IH]; intros bs; [done|]. simpl. by rewrite IH. Qed.

Lemma collect_section_sweep (btf__new : list byte -> Z -> option btf) (e : Elf)
    (i : Z) (scn : Elf_Scn) (obj : bpf_object) (w : world)
    (obj' : bpf_object) (w' : world) :
  i <= INT_MAX ->
  (forall d, scn_data scn = Some d -> d_size d <= INT_MAX) ->
  sweep_state e (i - 1) obj ->
  collect_section btf__new i scn obj w = Some (0, obj', w') ->
  sweep_state e i obj'.
Proof.
  intros Hi Hd (Hl & Hm & Hnm & Hnp & Hle & Hps & He & Hsy) H.
  unfold collect_section in H. rewrite He in H.
  unfold bind at 1 in H. cbn [deref ret] in H.
  destruct (ehdr (efile obj)) as [ep|]; [|done].
  unfold bind at 1 in H. cbn [deref ret] in H.
  destruct (gelf_getshdr scn) as [sh|]; [|by apply ret_Some in H].
  destruct (elf_strptr e (e_shstrndx ep) (sh_name sh)) as [name|]; [|by apply ret_Some in H].
  destruct (elf_getdata scn) as [data|] eqn:Hdata; [|by apply ret_Some in H].
  assert (Hkeep : sweep_state e i obj).
  { unfold sweep_state. split_and!; try done. lia. }
  destruct (bool_decide (name = "license"%string)).
  { unfold bpf_object__init_license in H. xinv H. simplify_eq.
    unfold sweep_state. cbn. split_and!; try done. lia. }
  destruct (bool_decide (name = "version"%string)).
  { unfold bpf_object__init_kversion in H. xinv H; simplify_eq.
    unfold sweep_state. cbn. split_and!; try done. lia. }
  destruct (bool_decide (name = "maps"%string)).
  { apply ret_Some in H. simplify_eq.
    unfold sweep_state. cbn. split_and!; try done. lia. }
  destruct (bool_decide (name = BTF_ELF_SEC)).
  { apply ret_Some in H. simplify_eq.
    unfold sweep_state. cbn. split_and!; try done. lia. }
  destruct (sh_type sh =? SHT_SYMTAB).
  { destruct (symbols (efile obj)); apply ret_Some in H; simplify_eq.
    unfold sweep_state. cbn. split_and!; try done; try lia.
    intros d [= <-]. by apply Hd. }
  destruct ((sh_type sh =? SHT_PROGBITS) && _ && _) eqn:Hprog.
  { set (o1 := if bool_decide (name = ".text"%string) then _ else obj) in H.
    assert (Ho1 : sweep_state e (i - 1) o1).
    { subst o1. destruct (bool_decide (name = ".text"%string));
        unfold sweep_state; cbn; split_and!; done. }
    destruct Ho1 as (Hl1 & Hm1 & Hnm1 & Hnp1 & Hle1 & Hps1 & He1 & Hsy1).
    apply add_program_outcome in H as [Hok _]; [|done|lia].
    destruct (Hok eq_refl) as [Hsz ->].
    unfold sweep_state. cbn. split_and!; try done; try lia.
    - rewrite length_app. simpl. lia.
    - apply Forall_app. split; [done|]. constructor; [|done].
      split; [|done]. unfold parsed_program. cbn. split_and!; try done.
      eexists. split; [done|]. rewrite length_decode_insns.
      specialize (Hd _ Hdata).
      assert (0 < d_size data / 8) by (apply Z.div_str_pos; lia).
      assert (d_size data / 8 <= d_size data) by (apply Z.div_le_upper_bound; lia).
      lia. }
  destruct (sh_type sh =? SHT_REL).
  { xinv H; simplify_eq; try done.
    unfold sweep_state. cbn. split_and!; try done. lia. }
  apply ret_Some in H. by simplify_eq.
Qed.

Lemma collect_sections_sweep (btf__new : list byte -> Z -> option btf) (e : Elf)
    (scns : list Elf_Scn) :
  Forall (fun scn => forall d, scn_data scn = Some d -> d_size d <= INT_MAX) scns ->
  forall (i : Z) (obj : bpf_object) (w : world) (i' : Z) (obj' : bpf_object) (w' : world),
    i + Z.of_nat (length scns) <= INT_MAX ->
    sweep_state e i obj ->
    collect_sections btf__new scns i obj w = Some (0, i', obj', w') ->
    sweep_state e i' obj'.
Proof.
  induction 1 as [|scn scns Hscn Hscns IH]; intros i obj w i' obj' w' Hi Hst H;
    cbn [collect_sections] in H.
  - apply ret_Some in H. by simplify_eq.
  - cbn [length] in Hi.
    apply bind_Some in H as ([e1 o1] & w1 & Hsec & H).
    destruct (Z.eqb_spec e1 0) as [->|He1]; cbn [negb] in H.
    2:{ apply ret_Some in H. by simplify_eq. }
    eapply IH; [| |exact H]; [lia|].
    eapply collect_section_sweep; [| | |exact Hsec]; [lia|done|].
    by replace (i + 1 - 1) with i by lia.
Qed.

(** ** The map table of a freshly parsed object *)

Lemma Forall_zinsert {A} (P : A -> Prop) (l : list A) (i : Z) (x : A) :
  Forall P l -> P x -> Forall P (zinsert i x l).
Proof.
  unfold zinsert. intros Hl Hx. destruct (i <? 0); [done|]. by apply Forall_insert.
Qed.

Lemma init_maps_entry_frame strp data D sym k (obj : bpf_object) (w : world) r obj' w' :
  init_maps_entry strp data D sym k obj w = Some (r, obj', w') ->
  obj' = set_maps obj (maps obj') /\
  length (maps obj') = length (maps obj) /\
  (Forall (fun m => fd m = -1) (maps obj) -> Forall (fun m => fd m = -1) (maps obj')).
Proof.
  unfold init_maps_entry. intros H.
  destruct (zlookup (maps obj) k) as [m|] eqn:Hm; [|done].
  unfold bind at 1 in H. cbn [deref ret] in H.
  assert (Hfd : Forall (fun m => fd m = -1) (maps obj) -> fd m = -1).
  { intros Hall. unfold zlookup in Hm. destruct (k <? 0); [done|].
    rewrite Forall_forall in Hall. apply Hall. by eapply list_elem_of_lookup_2. }
  xinv H; simplify_eq; cbn [maps set_maps]; rewrite ?length_zinsert;
    (split; [done|]); (split; [done|]); intros Hall;
    repeat apply Forall_zinsert; try done; cbn; by apply Hfd.
Qed.

Lemma init_maps_fill_frame strp data D shndx (syms : list GElf_Sym) :
  forall k (obj : bpf_object) (w : world) r obj' w',
    init_maps_fill strp data D shndx syms k obj w = Some (r, obj', w') ->
    obj' = set_maps obj (maps obj') /\
    length (maps obj') = length (maps obj) /\
    (Forall (fun m => fd m = -1) (maps obj) -> Forall (fun m => fd m = -1) (maps obj')).
Proof.
  induction syms as [|s syms IH]; intros k obj w r obj' w' H; cbn [init_maps_fill] in H.
  - apply ret_Some in H. simplify_eq. split; [by rewrite set_maps_same|]. done.
  - destruct (negb (st_shndx s =? shndx)); [by eapply IH|].
    apply bind_Some in H as ([e o1] & w1 & Hentry & H).
    apply init_maps_entry_frame in Hentry as (Ho1 & Hl1 & Hf1).
    destruct (negb (e =? 0)).
    + apply ret_Some in H. by simplify_eq.
    + apply IH in H as (Ho & Hl & Hf). split_and!.
      * rewrite Ho, Ho1. done.
      * congruence.
      * eauto.
Qed.

Lemma map_symbols_count (shndx : Z) (syms : Elf_Data) :
  d_size syms <= INT_MAX ->
  0 <= Z.of_nat (length (map_symbols shndx (symbols_seen syms))) <= INT_MAX.
Proof.
  intros Hd. split; [lia|]. unfold map_symbols, symbols_seen, sizeof_GElf_Sym.
  etrans; [apply inj_le, length_filter|]. rewrite length_take.
  destruct (Z.le_gt_cases 0 (d_size syms)).
  - assert (d_size syms / 24 <= d_size syms) by (apply Z.div_le_upper_bound; lia). lia.
  - assert (d_size syms / 24 < 0) by (apply Z.div_lt_upper_bound; lia).
    unfold INT_MAX. lia.
Qed.

Lemma init_maps_parse (obj : bpf_object) (w : world) (obj' : bpf_object) (w' : world) :
  maps obj = [] -> nr_maps obj = 0 ->
  (forall d, symbols (efile obj) = Some d -> d_size d <= INT_MAX) ->
  bpf_object__init_maps obj w = Some (0, obj', w') ->
  obj' = set_map_table obj (maps obj') (nr_maps obj') /\
  nr_maps obj' = Z.of_nat (length (maps obj')) /\ nr_maps obj' <= INT_MAX /\
  Forall (fun m => fd m = -1) (maps obj').
Proof.
  intros Hm Hnm Hsy H. unfold bpf_object__init_maps in H.
  assert (Hsame : obj = set_map_table obj (maps obj) (nr_maps obj)) by (by destruct obj).
  assert (Hkeep : obj = set_map_table obj (maps obj) (nr_maps obj) /\
                  nr_maps obj = Z.of_nat (length (maps obj)) /\ nr_maps obj <= INT_MAX /\
                  Forall (fun m => fd m = -1) (maps obj)).
  { rewrite Hm, Hnm. split; [by rewrite Hm, Hnm in Hsame|]. unfold INT_MAX. split_and!; try done. }
  destruct (maps_shndx (efile obj) <? 0); [by apply ret_Some in H|].
  destruct (symbols (efile obj)) as [syms|] eqn:Hs; [|by apply ret_Some in H].
  destruct (elf (efile obj)) as [e|]; [|by apply ret_Some in H].
  cbn [mbind option_bind] in H.
  destruct (elf_getscn e (maps_shndx (efile obj)) ≫= elf_getdata) as [data|];
    [|by apply ret_Some in H].
  pose proof (map_symbols_count (maps_shndx (efile obj)) syms (Hsy _ eq_refl)) as Hcount.
  set (msyms := map_symbols (maps_shndx (efile obj)) (symbols_seen syms)) in *.
  rewrite (to_int_small (Z.of_nat (length msyms))) in H by done.
  destruct (Z.of_nat (length msyms) =? 0); [apply ret_Some in H; by simplify_eq|].
  apply bind_Some in H as (q & w1 & _ & H).
  apply bind_Some in H as (rm & w2 & _ & H).
  destruct ((d_size data =? 0) || negb (rm =? 0)); [by apply ret_Some in H|].
  apply bind_Some in H as (ok & w3 & _ & H).
  destruct (negb ok); [by apply ret_Some in H|].
  apply bind_Some in H as ([e1 o1] & w4 & Hfill & H).
  apply init_maps_fill_frame in Hfill as (Ho1 & Hl1 & Hf1).
  cbn [maps set_map_table] in Hl1, Hf1. rewrite length_replicate, Nat2Z.id in Hl1.
  destruct (Z.eqb_spec e1 0) as [->|He1]; cbn [negb] in H;
    [|apply ret_Some in H; by simplify_eq].
  apply ret_Some in H. simplify_eq.
  assert (Hnr : nr_maps o1 = Z.of_nat (length msyms)) by (by rewrite Ho1).
  rewrite Hnr, Nat2Z.id, <- Hl1, firstn_all, drop_all, app_nil_r.
  cbn [maps set_maps nr_maps].
  assert (Hperm : qsort compare_bpf_map (maps o1) ≡ₚ maps o1) by apply qsort_perm.
  split_and!.
  - rewrite Hnr. rewrite Ho1 at 1. done.
  - rewrite Hnr, Hperm. lia.
  - lia.
  - rewrite Hperm. apply Hf1. rewrite Nat2Z.id. by apply Forall_replicate.
Qed.

(** ** The parsed object *)

Lemma collect_sections_index (btf__new : list byte -> Z -> option btf) (scns : list Elf_Scn) :
  forall (i : Z) (obj : bpf_object) (w : world) r (i' : Z) (obj' : bpf_object) (w' : world),
    collect_sections btf__new scns i obj w = Some (r, i', obj', w') ->
    i <= i' <= i + Z.of_nat (length scns).
Proof.
  induction scns as [|scn scns IH]; intros i obj w r i' obj' w' H; cbn [collect_sections] in H.
  - apply ret_Some in H. simplify_eq. simpl. lia.
  - apply bind_Some in H as ([e1 o1] & w1 & _ & H). cbn [length].
    destruct (negb (e1 =? 0)).
    + apply ret_Some in H. simplify_eq. lia.
    + apply IH in H. lia.
Qed.

Lemma elf_collect_parsed (btf__new : list byte -> Z -> option btf) (e : Elf)
    (obj : bpf_object) (w : world) (obj' : bpf_object) (w' : world) :
  image_ok e -> sweep_state e 0 obj ->
  bpf_object__elf_collect btf__new obj w = Some (0, obj', w') ->
  parsed_state e obj' /\ Forall (fun p => relocs p = None) (programs obj').
Proof.
  intros [Hlen Hsizes] Hst H. unfold bpf_object__elf_collect in H.
  pose proof Hst as (_ & _ & _ & _ & _ & _ & He & _). rewrite He in H.
  unfold bind at 1 in H. cbn [deref ret] in H.
  destruct (ehdr (efile obj)) as [ep|]; [|done].
  unfold bind at 1 in H. cbn [deref ret] in H.
  destruct (negb _); [by apply ret_Some in H|].
  apply bind_Some in H as ([[e1 i] o1] & w1 & Hsweep & H).
  pose proof (collect_sections_index _ _ _ _ _ _ _ _ _ Hsweep) as Hi.
  rewrite length_drop in Hi.
  destruct (Z.eqb_spec e1 0) as [->|He1]; cbn [negb] in H;
    [|apply ret_Some in H; by simplify_eq].
  apply (collect_sections_sweep _ e) in Hsweep; [| |rewrite length_drop; lia|done].
  2:{ clear -Hsizes. eapply Forall_drop. exact Hsizes. }
  destruct Hsweep as (Hl & Hm & Hnm & Hnp & Hle & Hps & He1 & Hsy).
  destruct ((strtabidx (efile o1) =? 0) || _); [by apply ret_Some in H|].
  apply bind_Some in H as ([e2 o2] & w2 & Hmaps & H).
  destruct (Z.eqb_spec e2 0) as [->|He2]; cbn [negb] in H;
    [|apply ret_Some in H; by simplify_eq].
  assert (Ho2 : o2 = set_map_table o1 (maps o2) (nr_maps o2) /\
                nr_maps o2 = Z.of_nat (length (maps o2)) /\ nr_maps o2 <= INT_MAX /\
                Forall (fun m => fd m = -1) (maps o2)).
  { destruct (0 <=? maps_shndx (efile o1)).
    - by apply init_maps_parse in Hmaps.
    - apply ret_Some in Hmaps. simplify_eq.
      split; [by destruct o1|]. rewrite Hm, Hnm. unfold INT_MAX. split_and!; done. }
  clear Hmaps. destruct Ho2 as (Ho2 & Hn2 & Hmax2 & Hfd2).
  assert (Hp2 : programs o2 = programs o1) by (by rewrite Ho2).
  assert (Hnp2 : nr_programs o2 = nr_programs o1) by (by rewrite Ho2).
  apply init_prog_names_outcome in H as (Ho3 & Hl3 & _ & Hnamed & _); [|congruence].
  specialize (Hnamed eq_refl).
  assert (Hall : Forall (fun p => parsed_program true p /\ relocs p = None) (programs obj')).
  { apply Forall_lookup. intros j p' Hj.
    destruct (lookup_lt_is_Some_2 (programs o2) j) as [p Hp].
    { rewrite <- Hl3. by eapply lookup_lt_Some. }
    destruct (Hnamed j p Hp) as (n & Hn). rewrite Hj in Hn. simplify_eq.
    rewrite Hp2 in Hp. rewrite Forall_lookup in Hps.
    destruct (Hps j p Hp) as [(? & ? & ? & ? & ? & ? & ? & ?) ?].
    split; [|done]. unfold parsed_program. cbn. split_and!; try done. }
  split.
  - unfold parsed_state. rewrite Ho3. cbn. rewrite Ho2. cbn.
    split_and!; try done.
    + rewrite Hl3, Hp2. done.
    + lia.
    + eapply Forall_impl; [exact Hall|]. by intros p [? ?].
    + eapply Forall_impl; [exact Hall|]. intros p [_ Hr] rds Hrds. congruence.
  - eapply Forall_impl; [exact Hall|]. by intros p [? ?].
Qed.

(** ** The relocation pass over a parsed object *)

Lemma find_prog_pos_spec (ps : list bpf_program) (i : Z) :
  forall (pos : nat) (pi : Z),
    find_prog_pos ps i (Z.of_nat pos) = Some pi ->
    exists (k : nat) p, pi = Z.of_nat (pos + k) /\ ps !! k = Some p /\ idx p = i.
Proof.
  induction ps as [|p ps IH]; intros pos pi H; cbn [find_prog_pos] in H; [done|].
  destruct (Z.eqb_spec (idx p) i) as [Hi|Hi].
  - simplify_eq. exists 0%nat, p. split; [f_equal; lia|done].
  - replace (Z.of_nat pos + 1) with (Z.of_nat (S pos)) in H by lia.
    apply IH in H as (k & q & -> & Hk & Hq). exists (S k), q. split; [f_equal; lia|done].
Qed.

Lemma relocs_ok_maps (o o' : bpf_object) (p : bpf_program) :
  maps o' = maps o -> relocs_ok o p -> relocs_ok o' p.
Proof. unfold relocs_ok. by intros ->. Qed.

Lemma object_collect_reloc_parsed (e : Elf) (obj : bpf_object) (w : world)
    (obj' : bpf_object) (w' : world) :
  parsed_state e obj ->
  bpf_object__collect_reloc obj w = Some (0, obj', w') ->
  parsed_state e obj'.
Proof.
  intros Hst H. unfold bpf_object__collect_reloc in H.
  destruct (negb _); [by apply ret_Some in H|].
  apply (for_each_inv (fun _ s => parsed_state e s) (fun _ _ => True)) in H; [|clear H|done].
  { by apply H. }
  intros i s wa r s' wb _ Hs Hstep. split; [|done]. intros ->.
  apply bind_Some in Hstep as ([shdr data] & w1 & _ & Hstep).
  destruct (negb (sh_type shdr =? SHT_REL)); [by apply ret_Some in Hstep|].
  destruct (find_prog_pos _ _ 0) as [pi|] eqn:Hpos; [|by apply ret_Some in Hstep].
  change 0 with (Z.of_nat 0) in Hpos.
  apply find_prog_pos_spec in Hpos as (k & prog & -> & Hk & _).
  apply lookup_take_Some in Hk as [Hk _]. cbn [Nat.add] in Hstep.
  destruct Hs as (Hl & Hnm & Hmax & Hnp & Hpmax & Hps & Hro & Hfd & He).
  pose proof Hps as Hps'. rewrite Forall_lookup in Hps'.
  destruct (Hps' k prog Hk) as (Hprep & Hifd & Hinr & Hty & Hmain & Hsec & Hname &
                                ins & Hins & Hcnt & Hrange).
  apply (collect_reloc_outcome k shdr data s prog) in Hstep
    as (rds & n & pc & -> & Hrds & _); [|done|done|done].
  unfold parsed_state. cbn. rewrite length_insert.
  split_and!; try done.
  - apply Forall_insert; [done|]. unfold parsed_program. cbn. split_and!; try done.
    by eexists.
  - apply Forall_insert.
    + eapply Forall_impl; [exact Hro|]. intros p. by apply relocs_ok_maps.
    + intros rds' [= <-]. exact Hrds.
Qed.

(** ** Opening an object *)

Lemma open_outcome (btf__new : list byte -> Z -> option btf) (elf_version_ok : bool)
    (image : option Elf) (path : string) (buf_sz : Z) (needs_kver : bool)
    (w : world) (obj : bpf_object) (w' : world) :
  (forall e, image = Some e -> image_ok e) ->
  __bpf_object__open btf__new elf_version_ok image path buf_sz needs_kver w
    = Some (ObjPtr obj, w') ->
  opened_state obj /\ (needs_kver = true -> kern_version obj <> 0).
Proof.
  intros Himg H. unfold __bpf_object__open in H.
  destruct (negb elf_version_ok); [by apply ret_Some in H|].
  apply bind_Some in H as (ok & w1 & _ & H).
  destruct (negb ok); [by apply ret_Some in H|].
  apply bind_Some in H as ([e1 o1] & w2 & Hinit & H).
  apply bind_Some in H as ([err o] & w3 & Hstages & H).
  destruct (Z.eqb_spec err 0) as [->|Herr]; cbn [negb] in H.
  2:{ apply bind_Some in H as (? & ? & _ & H). by apply ret_Some in H. }
  apply bind_Some in H as (ofin & w4 & Hfin & H). apply ret_Some in H. simplify_eq.
  destruct (Z.eqb_spec e1 0) as [->|He1]; cbn [negb] in Hstages.
  2:{ apply ret_Some in Hstages. by simplify_eq. }
  apply elf_init_outcome in Hinit as (Ho1 & Hok & _); [|done].
  destruct (Hok eq_refl) as [(e & ep & -> & Hep & He & Hehdr & _ & _ & Hsy & _)
                            |(_ & _ & _ & Hehdr)].
  2:{ (* no header was read: the encoding check fails *)
      exfalso. apply bind_Some in Hstages as (e2 & w5 & Hend & Hstages).
      unfold bpf_object__check_endianness in Hend. rewrite Hehdr in Hend.
      cbn in Hend. apply ret_Some in Hend. injection Hend as He2 Hw5. subst e2 w5.
      change (negb (- LIBBPF_ERRNO__ENDIAN =? 0)) with true in Hstages.
      apply ret_Some in Hstages. by simplify_eq. }
  cbn in Hsy.
  apply bind_Some in Hstages as (e2 & w5 & _ & Hstages).
  destruct (Z.eqb_spec e2 0) as [->|He2]; cbn [negb] in Hstages.
  2:{ apply ret_Some in Hstages. by simplify_eq. }
  apply bind_Some in Hstages as ([e3 o3] & w6 & Hcollect & Hstages).
  destruct (Z.eqb_spec e3 0) as [->|He3]; cbn [negb] in Hstages.
  2:{ apply ret_Some in Hstages. by simplify_eq. }
  apply (elf_collect_parsed btf__new e) in Hcollect as [Hparsed _]; [|by apply Himg|].
  2:{ rewrite Ho1. unfold sweep_state. cbn. split_and!; try done.
      intros d Hd. rewrite Hsy in Hd. done. }
  apply bind_Some in Hstages as ([e4 o4] & w7 & Hreloc & Hstages).
  destruct (Z.eqb_spec e4 0) as [->|He4]; cbn [negb] in Hstages.
  2:{ apply ret_Some in Hstages. by simplify_eq. }
  apply (object_collect_reloc_parsed e) in Hreloc; [|done].
  apply ret_Some in Hstages. injection Hstages as Hval -> ->.
  destruct Hreloc as (Hl & Hnm & Hmax & Hnp & Hpmax & Hps & Hro & Hfd & Helf).
  apply elf_finish_outcome in Hfin as (Hofin & Hnone & _ & Hclosed).
  destruct Hclosed as (Hefd & Hsym & _); [by eexists|].
  split.
  - unfold opened_state. rewrite Hofin. cbn. split_and!; try done.
  - intros ->. unfold bpf_object__validate in Hval. cbn [andb] in Hval.
    rewrite Hofin. cbn. destruct (Z.eqb_spec (kern_version o4) 0); [done|done].
Qed.

(** X25: an object that open hands over, for an object file of at most
    INT_MAX sections of at most INT_MAX bytes each, is consistent: it is
    not loaded, its counts are the lengths of its tables, no map has a
    descriptor, every program is named, has at least one instruction
    and as many as its count says, is of kind kprobe and has no
    instance and no preprocessor, every relocation of every program
    that refers to a map refers to a map of the table; the object file
    is detached and its descriptor reset.  When a kernel version was
    required, the object's is not zero. *)
Theorem open_yields_consistent_object (btf__new : list byte -> Z -> option btf)
    (elf_version_ok : bool) (image : option Elf) (path : string) (buf_sz : Z)
    (needs_kver : bool) (w : world) (obj : bpf_object) (w' : world) :
  (forall e, image = Some e -> image_ok e) ->
  __bpf_object__open btf__new elf_version_ok image path buf_sz needs_kver w
    = Some (ObjPtr obj, w') ->
  opened_state obj /\ (needs_kver = true -> kern_version obj <> 0).
Proof. apply open_outcome. Qed.

Lemma open_yields_consistent_object_witness :
  exists obj w',
    __bpf_object__open no_btf true (Some counting_elf) "cnt.o" 0 true generous
      = Some (ObjPtr obj, w') /\
    opened_state obj /\ (true = true -> kern_version obj <> 0).
Proof.
  eexists _, _. split; [vm_compute; reflexivity|].
  eapply (open_yields_consistent_object no_btf true (Some counting_elf) "cnt.o" 0 true
            generous).
  - intros e [= <-]. split; [vm_compute; discriminate|].
    repeat (apply Forall_cons; split;
            [intros d [= <-]; vm_compute; discriminate|]).
    apply Forall_nil_2.
  - vm_compute; reflexivity.
Defined.

(** ** Loading an opened object *)

Lemma opened_tables (obj : bpf_object) : opened_state obj -> tables_ok obj.
Proof.
  intros (_ & Hnm & _ & Hnp & _ & Hps & _). split_and!; [done|done|].
  eapply Forall_impl; [exact Hps|]. intros p (_ & _ & Hnr & _). left. lia.
Qed.

Lemma submitted_ok_fd (p : bpf_program) :
  submitted_ok p -> exists v, 0 <= v /\ bpf_program__fd p = Some v.
Proof.
  intros (_ & _ & Hnr & v & Hv & Hfds). exists v. split; [done|].
  unfold bpf_program__fd, bpf_program__nth_fd. rewrite Hnr, Hfds. cbn.
  change (Z.to_nat 0) with 0%nat. cbn. destruct (Z.ltb_spec v 0); [lia|done].
Qed.

(** X26: loading an object in the state open hands it over.  If the
    load fails, the object holds no descriptor afterwards; if it
    succeeds, every map has a descriptor and bpf_program__fd of every
    program that is not function storage is a descriptor, not an
    error. *)
Theorem load_after_open (obj : bpf_object) (w : world) (r : Z) (obj' : bpf_object)
    (w' : world) :
  opened_state obj ->
  bpf_object__load obj w = Some (r, obj', w') ->
  (r <> 0 -> descriptors_of obj' = []) /\
  (r = 0 ->
   Forall (fun m => 0 <= fd m) (maps obj') /\
   Forall2 (fun p p' =>
              bpf_program__is_function_storage p obj = false ->
              exists v, 0 <= v /\ bpf_program__fd p' = Some v)
           (programs obj) (programs obj')).
Proof.
  intros Hop Hload.
  pose proof (opened_tables _ Hop) as Htab.
  destruct Hop as (Hl & _ & _ & _ & _ & Hps & _).
  destruct (load_outcome _ _ _ _ _ Htab Hl Hload) as [Hfail Hok].
  split.
  - intros Hr. by destruct (Hfail Hr).
  - intros Hr. destruct (Hok Hr) as [Hm Hp]. split.
    + clear -Hm. induction Hm as [|m m' l l' (_ & H & _) _ IH]; constructor; done.
    + clear -Hp Hps. revert Hps. induction Hp as [|p p' l l' H _ IH]; intros Hps.
      * constructor.
      * apply Forall_cons in Hps as [Hpp Hps]. constructor; [|by apply IH].
        intros Hfs. destruct H as (_ & _ & _ & H). apply submitted_ok_fd, H; [done|].
        destruct Hpp as (? & ? & _). by split.
Qed.

Lemma load_after_open_witness :
  exists r obj' w',
    bpf_object__load counting_obj generous = Some (r, obj', w') /\
    (r <> 0 -> descriptors_of obj' = []) /\
    (r = 0 ->
     Forall (fun m => 0 <= fd m) (maps obj') /\
     Forall2 (fun p p' =>
                bpf_program__is_function_storage p counting_obj = false ->
                exists v, 0 <= v /\ bpf_program__fd p' = Some v)
             (programs counting_obj) (programs obj')).
Proof.
  eexists _, _, _. split; [vm_compute; reflexivity|].
  eapply (load_after_open counting_obj generous); [|vm_compute; reflexivity].
  assert (Hopen : exists w1,
             __bpf_object__open no_btf true (Some counting_elf) "cnt.o" 0 true generous
             = Some (ObjPtr counting_obj, w1)) by (eexists; vm_compute; reflexivity).
  destruct Hopen as [w1 Hopen].
  refine (proj1 (open_outcome _ _ _ _ _ _ _ _ _ _ Hopen)).
  intros e [= <-]. split; [vm_compute; discriminate|].
  repeat (apply Forall_cons; split; [intros d [= <-]; vm_compute; discriminate|]).
  apply Forall_nil_2.
Defined.

(** ** Preprocessed programs *)

(** X27: setting a preprocessor either fails and leaves the program as
    it was, or succeeds, for a positive instance count and a
    preprocessor that is not NULL, and then the program has that many
    instances, none of them with a descriptor: reading the descriptor
    of an instance gives ENOENT for every instance number below the
    count and EINVAL for every other number. *)
Theorem set_prep_instances_unloaded (prog : bpf_program) (n : Z)
    (prep : option (Z -> option (list bpf_insn) -> Z -> Z * bpf_prog_prep_result))
    (w : world) (r : Z) (prog' : bpf_program) (w' : world) :
  bpf_program__set_prep prog n prep w = Some (r, prog', w') ->
  (r <> 0 -> prog' = prog) /\
  (r = 0 ->
   0 < n /\ is_Some prep /\ preprocessor prog' = prep /\ instances_nr prog' = n /\
   instances_ok prog' /\ instance_fds prog' = replicate (Z.to_nat n) (-1) /\
   insns prog' = insns prog /\ relocs prog' = relocs prog /\
   forall i, bpf_program__nth_fd prog' i
             = Some (if (n <=? i) || (i <? 0) then - EINVAL else - ENOENT)).
Proof.
  unfold bpf_program__set_prep. intros H.
  destruct (Z.leb_spec n 0) as [Hn|Hn]; cbn [orb] in H.
  { apply ret_Some in H. simplify_eq. split; [done|done]. }
  destruct (bool_decide_reflect (is_Some prep)) as [Hp|Hp]; cbn [negb] in H.
  2:{ apply ret_Some in H. simplify_eq. split; [done|done]. }
  destruct ((0 <? instances_nr prog) || bool_decide (is_Some (instances_fds prog))).
  { apply ret_Some in H. simplify_eq. split; [done|done]. }
  apply bind_Some in H as (ok & w1 & _ & H).
  destruct ok; cbn [negb] in H; apply ret_Some in H; simplify_eq.
  2:{ split; [done|done]. }
  split; [done|]. intros _. split_and!; try done.
  - right. eexists. split; [done|]. rewrite length_replicate. cbn. lia.
  - unfold instance_fds. cbn. destruct (Z.ltb_spec 0 n); [|lia].
    rewrite take_ge; [done|]. rewrite length_replicate. lia.
  - intros i. unfold bpf_program__nth_fd. cbn.
    destruct (Z.leb_spec n i); cbn [orb]; [done|].
    destruct (Z.ltb_spec i 0); [done|].
    unfold zlookup. destruct (Z.ltb_spec i 0); [lia|].
    rewrite lookup_replicate_2 by lia. done.
Qed.

Lemma set_prep_instances_unloaded_witness :
  exists r prog' w',
    bpf_program__set_prep caller_prog 2 (Some keep_insns) generous = Some (r, prog', w') /\
    (r <> 0 -> prog' = caller_prog) /\
    (r = 0 ->
     0 < 2 /\ is_Some (Some keep_insns) /\ preprocessor prog' = Some keep_insns /\
     instances_nr prog' = 2 /\
     instances_ok prog' /\ instance_fds prog' = replicate (Z.to_nat 2) (-1) /\
     insns prog' = insns caller_prog /\ relocs prog' = relocs caller_prog /\
     forall i, bpf_program__nth_fd prog' i
               = Some (if (2 <=? i) || (i <? 0) then - EINVAL else - ENOENT)).
Proof.
  eexists _, _, _. split; [vm_compute; reflexivity|].
  eapply (set_prep_instances_unloaded caller_prog 2 (Some keep_insns) generous).
  vm_compute; reflexivity.
Defined.

(** ** Pinning a map *)



(** ** A file that is not an object file *)

(** X29: when the file opens but is not an object file that libelf can
    read, open returns the error pointer for LIBELF, and the descriptor
    of the file is not closed: the only calls made are the allocation
    of the object and the opening of the file. *)
Theorem open_non_elf_leaves_file_open (btf__new : list byte -> Z -> option btf)
    (path : string) (needs_kver : bool) (w : world) :
  a_ret (reply w Alloc) <> 0 ->
  0 <= to_int (a_ret (reply (record w Alloc) (OpenFile path))) ->
  exists w',
    __bpf_object__open btf__new true None path 0 needs_kver w
      = Some (ERR_PTR (- LIBBPF_ERRNO__LIBELF), w') /\
    calls_made w w' [Alloc; OpenFile path].
Proof.
  intros Halloc Hfd.
  exists (record (record w Alloc) (OpenFile path)). split; [|done].
  unfold __bpf_object__open, alloc, sys, bind, ret. cbn [negb].
  destruct (Z.eqb_spec (a_ret (reply w Alloc)) 0) as [|_]; [done|]. cbn [negb].
  unfold bpf_object__elf_init, bpf_object__new, sys, bind, ret, get_errno. cbn.
  destruct (Z.ltb_spec (to_int (a_ret (reply (record w Alloc) (OpenFile path)))) 0) as [|_];
    [lia|].
  cbn. reflexivity.
Qed.

Lemma open_non_elf_leaves_file_open_witness :
  exists w',
    __bpf_object__open no_btf true None "notes.txt" 0 false generous
      = Some (ERR_PTR (- LIBBPF_ERRNO__LIBELF), w') /\
    calls_made generous w' [Alloc; OpenFile "notes.txt"].
Proof.
  apply (open_non_elf_leaves_file_open no_btf "notes.txt" false generous);
    vm_compute; discriminate.
Defined.
